(** * Backup NG: a shallow embedding of the backup orchestration engine

    The definitions below follow [packages/xo-server/src/xo-mixins/backups-ng]
    (the file that defines [getOldEntries], [getSetting], [listReplicatedVms],
    [parseVmBackupId], [writeStream], the job executor, [_backupVm] and
    [getBackupNgLogs]).  JavaScript values are modelled as follows:

    - numbers that the code uses as counts, times and indices are [Z];
    - strings are [string] (sequences of code units; only ASCII separators
      are inspected by the code);
    - arrays are [list];
    - objects used as dictionaries are [gmap string _] when only lookups
      matter and association lists when iteration order is observable;
    - [undefined] is [None];
    - asynchronous functions that can reject are functions into a result
      type, with the state of the remote or of the hypervisor threaded
      explicitly. *)

From Stdlib Require Import ZArith Ascii String List Sorting.Permutation.
From stdpp Require Import base tactics option list gmap strings pretty sorting.

Open Scope string_scope.
Open Scope list_scope.
Open Scope Z_scope.

(** ** JavaScript built-ins used by the code *)

Module Js.

(** [Array.prototype.slice]'s treatment of a relative index: a negative
    index counts from the end, and everything is clamped to [0, len]. *)
Definition relIndex (len k : Z) : Z :=
  if k <? 0 then Z.max (len + k) 0 else Z.min k len.

(** [arr.slice(start, end)]. *)
Definition slice {T} (arr : list T) (start end_ : Z) : list T :=
  let len := Z.of_nat (length arr) in
  let from := relIndex len start in
  let to := relIndex len end_ in
  take (Z.to_nat (to - from)) (drop (Z.to_nat from) arr).

(** Strings: [str.indexOf(c)] for a one-character needle, [-1] when the
    character does not occur. *)
Fixpoint indexOfFrom (c : ascii) (s : string) (i : Z) : Z :=
  match s with
  | EmptyString => -1
  | String a s' => if Ascii.eqb a c then i else indexOfFrom c s' (i + 1)
  end.

Definition indexOf (s : string) (c : ascii) : Z := indexOfFrom c s 0.

Fixpoint strDrop (n : nat) (s : string) : string :=
  match n, s with
  | O, _ => s
  | S n', String _ s' => strDrop n' s'
  | S _, EmptyString => EmptyString
  end.

Fixpoint strTake (n : nat) (s : string) : string :=
  match n, s with
  | O, _ => EmptyString
  | S n', String a s' => String a (strTake n' s')
  | S _, EmptyString => EmptyString
  end.

(** [str.slice(start, end)]; [end_ = None] is the one-argument call. *)
Definition strSlice (s : string) (start : Z) (end_ : option Z) : string :=
  let len := Z.of_nat (String.length s) in
  let from := relIndex len start in
  let to := match end_ with None => len | Some e => relIndex len e end in
  strTake (Z.to_nat (to - from)) (strDrop (Z.to_nat from) s).

(** [str.endsWith(suffix)]. *)
Definition endsWith (s suffix : string) : bool :=
  let n := String.length s in
  let k := String.length suffix in
  if (k <=? n)%nat then String.eqb (strDrop (n - k) s) suffix else false.

End Js.

(** ** Retention selector *)

Module Retention.

(** [getOldEntries]: the pre-decrement [--retention] is written out.
    [entries] is optional in the source ([entries?: T[]]). *)
Definition getOldEntries {T} (retention : Z) (entries : option (list T))
  : list T :=
  match entries with
  | None => []
  | Some entries =>
      let retention := retention - 1 in
      if 0 <? retention then Js.slice entries 0 (- retention) else entries
  end.

End Retention.

(** ** Settings resolver *)

Module Settings.

Inductive ReportWhen := Always | Failure | Never.

(** The [Settings] type of the source: every knob is optional. *)
Record Settings := mkSettings {
  deleteFirst : option bool;
  exportRetention : option Z;
  reportWhen : option ReportWhen;
  snapshotRetention : option Z;
  vmTimeout : option Z;
}.

(** [$Keys<Settings>]. *)
Inductive SettingName :=
  | DeleteFirst | ExportRetention | ReportWhenKnob | SnapshotRetention
  | VmTimeout.

(** The result type of [getSetting] is [any]: a tagged value. *)
Inductive SettingValue :=
  | VBool (b : bool)
  | VNumber (n : Z)
  | VReportWhen (r : ReportWhen).

(** [objectSettings[name]], [None] standing for [undefined]. *)
Definition field (name : SettingName) (s : Settings) : option SettingValue :=
  match name with
  | DeleteFirst => VBool <$> deleteFirst s
  | ExportRetention => VNumber <$> exportRetention s
  | ReportWhenKnob => VReportWhen <$> reportWhen s
  | SnapshotRetention => VNumber <$> snapshotRetention s
  | VmTimeout => VNumber <$> vmTimeout s
  end.

Definition defaultSettings (name : SettingName) : SettingValue :=
  match name with
  | DeleteFirst => VBool false
  | ExportRetention => VNumber 0
  | ReportWhenKnob => VReportWhen Failure
  | SnapshotRetention => VNumber 0
  | VmTimeout => VNumber 0
  end.

(** [getSetting(settings, name, ...keys)]: the [for] loop over [keys]. *)
Fixpoint getSetting (settings : gmap string Settings) (name : SettingName)
    (keys : list string) : SettingValue :=
  match keys with
  | [] => defaultSettings name
  | key :: keys' =>
      match settings !! key with
      | Some objectSettings =>
          match field name objectSettings with
          | Some setting => setting
          | None => getSetting settings name keys'
          end
      | None => getSetting settings name keys'
      end
  end.

(** What a scope key defines for a knob: the value, if its record exists
    and has the knob. *)
Definition defines (settings : gmap string Settings) (name : SettingName)
    (key : string) : option SettingValue :=
  settings !! key ≫= field name.

(** JavaScript truthiness of a setting value, for [if (deleteFirst)]. *)
Definition truthy (v : SettingValue) : bool :=
  match v with
  | VBool b => b
  | VNumber n => negb (n =? 0)
  | VReportWhen _ => true
  end.

Definition asNumber (v : SettingValue) : Z :=
  match v with
  | VNumber n => n
  | VBool b => if b then 1 else 0
  | VReportWhen _ => 0
  end.

End Settings.

(** ** Backup identifiers *)

Module BackupId.

Record ParsedId := mkParsedId {
  metadataFilename : string;
  remoteId : string;
}.

(** [parseVmBackupId]. *)
Definition parseVmBackupId (id : string) : ParsedId :=
  let i := Js.indexOf id "/"%char in
  {| metadataFilename := Js.strSlice id (i + 1) None;
     remoteId := Js.strSlice id 0 (Some i) |}.

(** The identifier synthesised by [listVmBackupsNg]:
    [`${remoteId}/${backup._filename}`]. *)
Definition makeVmBackupId (remoteId filename : string) : string :=
  remoteId +:+ "/" +:+ filename.

End BackupId.

Module SettingsExamples.
Import Settings.

Definition noSettings : Settings :=
  mkSettings None None None None None.

(** A job whose default scope [""] keeps 2 exports, whose schedule ["s1"]
    keeps 5, and whose remote ["r1"] asks to delete first. *)
Definition jobSettings : gmap string Settings :=
  {[ "" := mkSettings None (Some 2) None (Some 1) None;
     "s1" := mkSettings None (Some 5) None None None;
     "r1" := mkSettings (Some true) None None None None ]}.
End SettingsExamples.

(** ** Insertion-ordered dictionaries

    A JavaScript object used as a dictionary keeps its keys in insertion
    order (the keys used here, ids and names, are never array indices), and
    [values], [for ... in] and lodash's [forEach] observe that order. *)

Module Dict.

Definition t (V : Type) := list (string * V).

Fixpoint get {V} (k : string) (d : t V) : option V :=
  match d with
  | [] => None
  | (k', v) :: d' => if String.eqb k' k then Some v else get k d'
  end.

(** [d[k] = v]: an existing key keeps its position. *)
Fixpoint set {V} (k : string) (v : V) (d : t V) : t V :=
  match d with
  | [] => [(k, v)]
  | (k', v') :: d' =>
      if String.eqb k' k then (k, v) :: d' else (k', v') :: set k v d'
  end.

(** [delete d[k]]. *)
Fixpoint delete {V} (k : string) (d : t V) : t V :=
  match d with
  | [] => []
  | (k', v') :: d' =>
      if String.eqb k' k then delete k d' else (k', v') :: delete k d'
  end.

Definition keys {V} (d : t V) : list string := d.*1.
Definition values {V} (d : t V) : list V := d.*2.

End Dict.

(** ** Sorting

    [Array.prototype.sort(compare)] is modelled by the insertion sort that V8
    uses for short arrays: each element moves left past every element that
    compares greater than it.  [sortedRev] is the already sorted prefix, kept
    in reverse. *)

Module Sort.

Fixpoint insert {T} (compare : T → T → Z) (element : T) (sortedRev : list T)
  : list T :=
  match sortedRev with
  | [] => [element]
  | tmp :: rest =>
      if 0 <? compare tmp element
      then tmp :: insert compare element rest
      else element :: sortedRev
  end.

Definition sort {T} (compare : T → T → Z) (arr : list T) : list T :=
  reverse (foldl (λ acc element, insert compare element acc) [] arr).

End Sort.

(** ** Hypervisor objects *)

Module Xapi.

(** The fields of a hypervisor record that the backup code reads.
    [dollar_id], [dollar_ref] and [dollar_type] stand for [$id], [$ref] and
    [$type]. *)
Record XapiObject := mkObject {
  dollar_id : string;
  dollar_ref : string;
  dollar_type : string;
  uuid : string;
  name_label : string;
  is_a_snapshot : bool;
  is_a_template : bool;
  snapshot_of : string;
  snapshot_time : Z;
  blocked_operations : gmap string string;
  other_config : gmap string string;
  tags : list string;
}.

Definition Vm := XapiObject.

(** [compareSnapshotTime]. *)
Definition compareSnapshotTime (a b : Vm) : Z :=
  if snapshot_time a <? snapshot_time b then -1 else 1.

(** The condition of the [if] in [listReplicatedVms]; [vmUuid] is optional
    in the source, and comparing a missing tag with a missing [vmUuid] is
    [undefined === undefined]. *)
Definition isReplicatedVm (scheduleId srId : string) (vmUuid : option string)
    (object : XapiObject) : bool :=
  let oc := other_config object in
  String.eqb (dollar_type object) "vm"
  && negb (is_a_snapshot object)
  && negb (is_a_template object)
  && bool_decide (is_Some (blocked_operations object !! "start"))
  && bool_decide (oc !! "xo:backup:schedule" = Some scheduleId)
  && bool_decide (oc !! "xo:backup:sr" = Some srId)
  && (bool_decide (oc !! "xo:backup:vm" = vmUuid)
      || bool_decide (oc !! "xo:backup:vm" = None)).

(** The body of the [for (const key in all)] loop of [listReplicatedVms]:
    [vms[object.$id] = object] when the test passes. *)
Definition collectReplicatedVm (scheduleId srId : string)
    (vmUuid : option string) (vms : Dict.t XapiObject)
    (entry : string * XapiObject) : Dict.t XapiObject :=
  let '(key, object) := entry in
  if isReplicatedVm scheduleId srId vmUuid object
  then Dict.set (dollar_id object) object vms
  else vms.

(** [listReplicatedVms]; [all] is [xapi.objects.all]. *)
Definition listReplicatedVms (all : Dict.t XapiObject)
    (scheduleId srId : string) (vmUuid : option string) : list Vm :=
  let vms := foldl (collectReplicatedVm scheduleId srId vmUuid) [] all in
  Sort.sort compareSnapshotTime (Dict.values vms).

(** Ascending creation time. *)
Definition bySnapshotTime : relation XapiObject :=
  λ a b, snapshot_time a ≤ snapshot_time b.


End Xapi.

Module XapiExamples.
Import Xapi.

Definition replica (id : string) (time : Z) (vm : option string) : XapiObject :=
  {| dollar_id := id; dollar_ref := "OpaqueRef:" +:+ id; dollar_type := "vm";
     uuid := id; name_label := "web (20240101T000000Z)";
     is_a_snapshot := false; is_a_template := false;
     snapshot_of := ""; snapshot_time := time;
     blocked_operations := {[ "start" := "blocked" ]};
     other_config :=
       match vm with
       | Some v => {[ "xo:backup:schedule" := "s1"; "xo:backup:sr" := "sr1";
                      "xo:backup:vm" := v ]}
       | None => {[ "xo:backup:schedule" := "s1"; "xo:backup:sr" := "sr1" ]}
       end;
     tags := ["Disaster Recovery"] |}.


End XapiExamples.

(** ** Log consolidation *)

Module Logs.

(** JavaScript values as they occur in log entries.  No induction over
    values is needed, so no eliminator is generated for the nested type. *)
#[local] Unset Elimination Schemes.
Inductive value :=
  | Undefined
  | Null
  | Bool (b : bool)
  | Num (n : Z)
  | NaN
  | Str (s : string)
  | Obj (fields : list (string * value)).
#[local] Set Elimination Schemes.

(** A plain object: its own properties in insertion order. *)
Definition object := Dict.t value.

(** [o.k], [undefined] when the property is missing. *)
Definition prop (o : object) (k : string) : value :=
  default Undefined (Dict.get k o).

(** [a === b] on the values the consolidation compares (strings and
    numbers); two object literals are never identical. *)
Definition strictEq (a b : value) : bool :=
  match a, b with
  | Undefined, Undefined => true
  | Null, Null => true
  | Bool x, Bool y => Bool.eqb x y
  | Num x, Num y => x =? y
  | Str x, Str y => String.eqb x y
  | _, _ => false
  end.

(** Conversion of a value used as a property key, as in [logs[data.taskId]]. *)
Definition toPropertyKey (v : value) : string :=
  match v with
  | Undefined => "undefined"
  | Null => "null"
  | Bool b => if b then "true" else "false"
  | Num n => pretty n
  | NaN => "NaN"
  | Str s => s
  | Obj _ => "[object Object]"
  end.

Definition truthy (v : value) : bool :=
  match v with
  | Undefined | Null | NaN => false
  | Bool b => b
  | Num n => negb (n =? 0)
  | Str s => negb (String.eqb s "")
  | Obj _ => true
  end.

(** [a || b]. *)
Definition or (a b : value) : value := if truthy a then a else b.

(** [a - b] where both are numbers, [NaN] otherwise. *)
Definition sub (a b : value) : value :=
  match a, b with
  | Num x, Num y => Num (x - y)
  | _, _ => NaN
  end.

(** An entry of [getLogs('jobs')]. *)
Record RawLog := mkRawLog {
  data : object;
  time : Z;
  message : string;
}.

(** *** The object [logs] and its prototype chain

    [logs] is created as [{}], so its prototype is [Object.prototype]:
    [logs[key]] finds what the chain defines when [logs] has no property of
    its own under [key], and [!== undefined] holds of it.  The loop can
    change the chain too.  An assignment to [logs['__proto__']] reaches the
    setter of [Object.prototype], which makes the assigned record the
    prototype of [logs]; and an end event finds under ['__proto__'] the
    prototype itself and writes its fields on it.  The code is strict (the
    body of a class), so writing a field on a number, a string or a boolean
    throws a [TypeError], as reading or writing one on [null] does. *)

(** The methods that [Object.prototype] defines. *)
Definition objectPrototypeMethods : list string :=
  ["constructor"; "__defineGetter__"; "__defineSetter__"; "hasOwnProperty";
   "__lookupGetter__"; "__lookupSetter__"; "isPrototypeOf";
   "propertyIsEnumerable"; "toString"; "valueOf"; "toLocaleString"].

(** How a piece of code ends: normally, with a value, or by a [TypeError]
    that [getBackupNgLogs] does not catch. *)
Inductive completion (A : Type) :=
  | Normal (a : A)
  | TypeError.
Arguments Normal {A} a.
Arguments TypeError {A}.

(** [logs] in the course of the loop: its own properties, in insertion
    order; the record that has become its prototype ([None] as long as the
    prototype is [Object.prototype]); and the properties that the loop has
    added to [Object.prototype]. *)
Record Consolidated := mkConsolidated {
  own : Dict.t object;
  proto : option object;
  objectPrototype : object;
}.

Definition empty : Consolidated := mkConsolidated [] None [].

(** [o.k] for a plain object [o], whose prototype is [Object.prototype],
    and a name [k] that is none of its methods; [shared] is what has been
    added to [Object.prototype]. *)
Definition get (shared : object) (o : object) (k : string) : value :=
  match Dict.get k o with
  | Some v => v
  | None => prop shared k
  end.

(** Where the object that [logs[key]] evaluates to is held: it is an own
    property of [logs], the prototype of [logs], [Object.prototype], a
    method of [Object.prototype], a property of the prototype of [logs], or
    a property added to [Object.prototype]. *)
Inductive Holder :=
  | OwnProperty
  | ThePrototype
  | TheObjectPrototype
  | AMethod
  | PrototypeProperty
  | ObjectPrototypeProperty.

(** What [logs[key]] evaluates to: [undefined], a primitive value or
    [null], or an object, given with its own properties (those of a method
    are never read back, and are left out). *)
Inductive Found :=
  | NotFound
  | Primitive (v : value)
  | Object (holder : Holder) (o : object).

Definition found (holder : Holder) (v : value) : Found :=
  match v with
  | Undefined => NotFound
  | Obj o => Object holder o
  | _ => Primitive v
  end.

(** [logs[key]]: the own properties of [logs], then those of the record
    that has become its prototype, then [Object.prototype]: the accessor
    [__proto__], which gives the prototype of [logs], the properties that
    the loop has added, and the methods. *)
Definition lookup (logs : Consolidated) (key : string) : Found :=
  match Dict.get key (own logs) with
  | Some record => Object OwnProperty record
  | None =>
      match proto logs ≫= Dict.get key with
      | Some v => found PrototypeProperty v
      | None =>
          if String.eqb key "__proto__" then
            match proto logs with
            | Some record => Object ThePrototype record
            | None => Object TheObjectPrototype (objectPrototype logs)
            end
          else
            match Dict.get key (objectPrototype logs) with
            | Some v => found ObjectPrototypeProperty v
            | None =>
                if bool_decide (key ∈ objectPrototypeMethods)
                then Object AMethod []
                else NotFound
            end
      end
  end.

(** [logs[id] = record].  A property that the chain holds as a value is
    shadowed by an own property; ['__proto__'], which the chain holds as an
    accessor, changes the prototype of [logs] instead. *)
Definition assign (id : string) (record : object) (logs : Consolidated)
  : Consolidated :=
  if String.eqb id "__proto__"
     && negb (bool_decide (is_Some (Dict.get id (own logs))))
     && negb (bool_decide (is_Some (proto logs ≫= Dict.get id)))
  then mkConsolidated (own logs) (Some record) (objectPrototype logs)
  else mkConsolidated (Dict.set id record (own logs)) (proto logs)
                      (objectPrototype logs).

(** The object found under [key] has been written to: [o] is what it holds
    now.  (What is written on a method is never read back.) *)
Definition update (key : string) (holder : Holder) (o : object)
    (logs : Consolidated) : Consolidated :=
  match holder with
  | OwnProperty =>
      mkConsolidated (Dict.set key o (own logs)) (proto logs)
                     (objectPrototype logs)
  | ThePrototype => mkConsolidated (own logs) (Some o) (objectPrototype logs)
  | TheObjectPrototype => mkConsolidated (own logs) (proto logs) o
  | AMethod => logs
  | PrototypeProperty =>
      mkConsolidated (own logs) (Dict.set key (Obj o) <$> proto logs)
                     (objectPrototype logs)
  | ObjectPrototypeProperty =>
      mkConsolidated (own logs) (proto logs)
                     (Dict.set key (Obj o) (objectPrototype logs))
  end.

(** [delete logs[key]] removes an own property and nothing else. *)
Definition remove (key : string) (logs : Consolidated) : Consolidated :=
  mkConsolidated (Dict.delete key (own logs)) (proto logs)
                 (objectPrototype logs).

(** The callback of [forEach(rawLogs, (log, id) => ...)]: one [switch]. *)
Definition consolidateLog (runId : option string) (logs : Consolidated)
    (entry : string * RawLog) : completion Consolidated :=
  let '(id, log) := entry in
  let time := time log in
  let message := message log in
  let shared := objectPrototype logs in
  let event := get shared (data log) "event" in
  let data := Dict.delete "event" (data log) in
  if strictEq event (Str "job.start") then
    if strictEq (get shared data "type") (Str "backup")
       && match runId with None => true | Some r => String.eqb r id end
    then Normal
           (assign id
              (Dict.set "start" (Num time) (Dict.set "id" (Str id) data)) logs)
    else Normal logs
  else if strictEq event (Str "job.end") then
    let key := toPropertyKey (get shared data "runJobId") in
    match lookup logs key with
    | NotFound => Normal logs
    | Primitive _ => TypeError
    | Object holder job =>
        let job := Dict.set "end" (Num time) job in
        let job :=
          Dict.set "duration" (sub (Num time) (get shared job "start")) job in
        let job := Dict.set "error" (get shared data "error") job in
        Normal (update key holder job logs)
    end
  else if strictEq event (Str "task.start") then
    match lookup logs (toPropertyKey (get shared data "parentId")) with
    | NotFound => Normal logs
    | _ =>
        Normal
          (assign id
             (Dict.set "message" (Str message)
                (Dict.set "start" (Num time) data)) logs)
    end
  else if strictEq event (Str "task.end") then
    let key := toPropertyKey (get shared data "taskId") in
    match lookup logs key with
    | NotFound => Normal logs
    | Primitive _ => TypeError
    | Object holder task =>
        (* work-around *)
        if strictEq (Num time) (get shared task "start")
           && (String.eqb message "merge" || String.eqb message "tranfer")
        then Normal (remove key logs)
        else
          let task := Dict.set "status" (get shared data "status") task in
          let task := Dict.set "taskId" (get shared data "taskId") task in
          let task := Dict.set "result" (get shared data "result") task in
          let task := Dict.set "end" (Num time) task in
          let task :=
            Dict.set "duration" (sub (Num time) (get shared task "start"))
                     task in
          Normal (update key holder task logs)
    end
  else Normal logs.

(** The loop: it stops at the first [TypeError]. *)
Definition consolidate (runId : option string) (rawLogs : Dict.t RawLog)
  : completion Consolidated :=
  foldl (λ logs entry,
           match logs with
           | Normal logs => consolidateLog runId logs entry
           | TypeError => TypeError
           end)
        (Normal empty) rawLogs.

(** lodash's [groupBy(collection, iteratee)], given the elements of the
    collection that it visits; a key of the result is an own property of
    it, whatever its name. *)
Definition groupBy {V} (iteratee : V → value) (elements : list V)
  : Dict.t (list V) :=
  foldl (λ groups v,
           let key := toPropertyKey (iteratee v) in
           Dict.set key (default [] (Dict.get key groups) ++ [v]) groups)
        [] elements.

Definition MAX_SAFE_INTEGER : Z := 9007199254740991.

(** lodash's [isArrayLike(logs)]: [logs.length] is a number that can be a
    length.  An own property of [logs] is a record, so only the record that
    has become the prototype of [logs] can give it one. *)
Definition arrayLength (logs : Consolidated) : option nat :=
  match lookup logs "length" with
  | Primitive (Num n) =>
      if (0 <=? n) && (n <=? MAX_SAFE_INTEGER) then Some (Z.to_nat n)
      else None
  | _ => None
  end.

(** [logs[index]]. *)
Definition atIndex (logs : Consolidated) (index : nat) : value :=
  match lookup logs (pretty index) with
  | NotFound => Undefined
  | Primitive v => v
  | Object _ o => Obj o
  end.

(** The elements that lodash visits: the values of the own properties of
    [logs], or [logs[0]], ..., [logs[length - 1]] when it takes [logs] for
    an array. *)
Definition collection (logs : Consolidated) : list value :=
  match arrayLength logs with
  | Some length => atIndex logs <$> seq 0 length
  | None => Obj <$> Dict.values (own logs)
  end.

(** [log.parentId]; on [undefined] and [null] it throws. *)
Definition parentId (shared : object) (log : value) : completion value :=
  match log with
  | Undefined | Null => TypeError
  | Obj o => Normal (get shared o "parentId")
  | _ => Normal (prop shared "parentId")
  end.

Definition parentIdOrRoots (shared : object) (log : value) : value :=
  match parentId shared log with
  | Normal id => or id (Str "roots")
  | TypeError => Str "roots"
  end.

(** [getBackupNgLogs(runId)], given what [getLogs('jobs')] returned. *)
Definition getBackupNgLogs (runId : option string) (rawLogs : Dict.t RawLog)
  : completion (Dict.t (list value)) :=
  match consolidate runId rawLogs with
  | Normal logs =>
      let shared := objectPrototype logs in
      if forallb (λ log, match parentId shared log with
                         | Normal _ => true
                         | TypeError => false
                         end) (collection logs)
      then Normal (groupBy (parentIdOrRoots shared) (collection logs))
      else TypeError
  | TypeError => TypeError
  end.

(** Every record of the consolidation was created with a numeric [start]
    and keeps it. *)
Definition hasStart (logs : Dict.t object) : Prop :=
  ∀ k r, Dict.get k logs = Some r → ∃ start, prop r "start" = Num start.

(** The fields that an end event writes on what it finds. *)
Definition endFields : list string :=
  ["end"; "duration"; "error"; "status"; "taskId"; "result"].

(** What the loop keeps true of [logs]: no two records under one id, a
    numeric [start] in every record, and nothing added to
    [Object.prototype] but fields of end events. *)
Definition consistent (logs : Consolidated) : Prop :=
  NoDup (Dict.keys (own logs))
  ∧ hasStart (own logs)
  ∧ ∀ k, k ∈ Dict.keys (objectPrototype logs) → k ∈ endFields.

(** All the records of a consolidated log, group after group. *)
Definition records {V} (out : Dict.t (list V)) : list V :=
  concat (Dict.values out).

End Logs.

Module LogsExamples.
Import Logs.

Definition jobStart : RawLog :=
  mkRawLog [("event", Str "job.start"); ("type", Str "backup");
            ("jobId", Str "j1"); ("mode", Str "delta")] 1000 "start".
Definition vmStart : RawLog :=
  mkRawLog [("event", Str "task.start"); ("parentId", Str "run1")] 1010
           "Starting backup of web. (j1)".
Definition exportStart : RawLog :=
  mkRawLog [("event", Str "task.start"); ("parentId", Str "t1")] 1020
           "export".
Definition mergeStart : RawLog :=
  mkRawLog [("event", Str "task.start"); ("parentId", Str "t2")] 1030 "merge".
Definition mergeEndAtOnce : RawLog :=
  mkRawLog [("event", Str "task.end"); ("taskId", Str "t3");
            ("status", Str "success"); ("result", Obj [("size", Num 0)])]
           1030 "merge".
Definition mergeEndLater : RawLog :=
  mkRawLog [("event", Str "task.end"); ("taskId", Str "t3");
            ("status", Str "success"); ("result", Obj [("size", Num 0)])]
           1090 "merge".

Definition started : Dict.t RawLog :=
  [("run1", jobStart); ("t1", vmStart); ("t2", exportStart);
   ("t3", mergeStart)].

(** Entries that name properties of [Object.prototype]. *)
Definition orphanStart : RawLog :=
  mkRawLog [("event", Str "task.start"); ("parentId", Str "toString")] 1040
           "export".
Definition prototypeEnd : RawLog :=
  mkRawLog [("event", Str "job.end"); ("runJobId", Str "__proto__")] 1050
           "end".
Definition endEnd : RawLog :=
  mkRawLog [("event", Str "job.end"); ("runJobId", Str "end")] 1060 "end".
Definition prototypeStart : RawLog :=
  mkRawLog [("event", Str "job.start"); ("type", Str "backup");
            ("length", Num 1)] 1070 "start".
End LogsExamples.
(** ** Asynchronous operations on a world of remotes and hypervisor objects

    An [async] function is a function from the world to an outcome and a new
    world.  Every awaited operation of an external collaborator (remote
    handler, stream, hypervisor, VHD library) is an [Op]; whether it fails is
    decided by an oracle, and every attempt is written to a journal.
    Promises that the source starts together ([Promise.all], [asyncMap],
    [waitAll]) are run one after the other, in array order. *)

Module Async.

Record Error := mkError {
  code : option string;
  errorMessage : string;
}.

Inductive Result (A : Type) :=
  | Ok (value : A)
  | Err (error : Error).
Arguments Ok {A} value.
Arguments Err {A} error.

Definition isOk {A} (r : Result A) : bool :=
  match r with Ok _ => true | Err _ => false end.

End Async.

Module Remote.

(** A metadata sidecar as the code reads it back.  The opaque hypervisor
    records ([vm], [vmSnapshot], [vbds], [vdis], [vifs]) are left out:
    the backup code never inspects them in a stored sidecar. *)
Record Metadata := mkMetadata {
  _filename : option string;
  jobId : string;
  mode : string;
  scheduleId : string;
  timestamp : Z;
  vhds : option (Dict.t string);
  xva : option string;
}.

Definition withFilename (path : string) (m : Metadata) : Metadata :=
  mkMetadata (Some path) (jobId m) (mode m) (scheduleId m) (timestamp m)
             (vhds m) (xva m).

(** What a path of a remote holds: a file whose text parses to a metadata
    record, a VHD with the parent name of its header, or anything else. *)
Inductive File :=
  | Sidecar (metadata : Metadata)
  | Vhd (parentUnicodeName : option string)
  | Blob.

(** A readable stream: a name for the journal and the content it carries. *)
Record Stream := mkStream {
  streamName : string;
  content : File;
}.

(** [compareTimestamp]. *)
Definition compareTimestamp (a b : Metadata) : Z := timestamp a - timestamp b.

Definition BACKUP_DIR : string := "xo-vm-backups".

(** [getVmBackupDir]. *)
Definition getVmBackupDir (uuid : string) : string := BACKUP_DIR +:+ "/" +:+ uuid.

Definition isMetadataFile (filename : string) : bool := Js.endsWith filename ".json".
Definition isVhd (filename : string) : bool := Js.endsWith filename ".vhd".

Definition checksumFile (path : string) : string := path +:+ ".checksum".

End Remote.

Module World.
Import Async Remote Xapi.

(** The operations of the external collaborators. *)
Inductive Op :=
  (* application *)
  | GetRemoteHandler (remoteId : string)
  (* remote handler *)
  | List (remoteId dir : string)
  | ReadFile (remoteId path : string)
  | OutputFile (remoteId path : string)
  | CreateOutputStream (remoteId path : string) (checksum : bool)
  | Rename (remoteId oldPath newPath : string) (checksum : bool)
  | Unlink (remoteId path : string) (checksum : bool)
  (* streams *)
  | AwaitInput (input : string)
  | Finish (remoteId path : string)
  | ChecksumWritten (remoteId path : string)
  | InputTask (input : string)
  (* VHD library and merge worker *)
  | ReadHeaderAndFooter (remoteId path : string)
  | ChainVhd (remoteId parentPath childPath : string)
  | MergeVhd (remoteId parentPath childPath : string)
  (* hypervisor *)
    | UpdateObjectMapProperty (id field : string)
  | AssertHealthyVdiChains (id : string)
  | SnapshotVm (id label : string)
  | Barrier (ref : string)
  | DeleteVm (id : string)
  | ExportVm (id : string)
  | ExportDeltaVm (id : string) (baseId : option string)
  | ImportVm (srId : string)
  | ImportDeltaVm (srId : string)
    | AddTag (ref tag : string)
  (* the deadline of [pTimeout] *)
  | Deadline (vmUuid : string).

(** A journal entry: an attempted operation with its success, or a call of
    the logger with the id it returned. *)
Inductive Event :=
  | EvOp (op : Op) (ok : bool)
  | EvLog (id : string) (log : Logs.RawLog).

(** Clean-ups registered with [$defer]: [Always] for [$defer(...)],
    [OnFailure] for [$defer.onFailure(...)]. *)
Inductive When := Always | OnFailure.

Inductive Deferred :=
  | DeleteOldSnapshots (when : When) (retention : Z) (candidates : list Vm)
  | DeleteSnapshot (when : When) (snapshot : Vm)
  | UnlinkPath (when : When) (remoteId path : string).

Record World := mkWorld {
  remotes : gmap string (gmap string File);
  objects : list XapiObject;
  journal : list Event;
  deferred : list Deferred;
}.

Definition setRemotes (f : gmap string (gmap string File) → gmap string (gmap string File))
    (w : World) : World :=
  mkWorld (f (remotes w)) (objects w) (journal w) (deferred w).
Definition setObjects (f : list XapiObject → list XapiObject) (w : World) : World :=
  mkWorld (remotes w) (f (objects w)) (journal w) (deferred w).
Definition setJournal (f : list Event → list Event) (w : World) : World :=
  mkWorld (remotes w) (objects w) (f (journal w)) (deferred w).
Definition setDeferred (f : list Deferred → list Deferred) (w : World) : World :=
  mkWorld (remotes w) (objects w) (journal w) (f (deferred w)).

(** The files of a remote. *)
Definition files (remoteId : string) (w : World) : gmap string File :=
  default ∅ (remotes w !! remoteId).
Definition setFiles (remoteId : string)
    (f : gmap string File → gmap string File) (w : World) : World :=
  setRemotes (λ rs, <[remoteId := f (default ∅ (rs !! remoteId))]> rs) w.

(** A disk of a delta export: the uuid of the disk it is a snapshot of, and
    [other_config['xo:base_delta']]. *)
Record Vdi := mkVdi {
  vdiUuid : string;
  baseDelta : option string;
}.

(** What is outside the repository: the failure oracle and the clock (both
    indexed by the number of journal entries so far, so that the same
    operation may succeed once and fail later), Node's [path] module, the
    helpers of [utils], and the disks a delta export of a snapshot has. *)
Record Env := mkEnv {
  faults : nat → Op → option Error;
  now : nat → Z;
  dirname : string → string;
  basename : string → string;
  safeDateFormat : Z → string;
  resolveRelativeFromFile : string → string → string;
  exportedVdis : string → Dict.t Vdi;
}.

Definition M (A : Type) : Type := World → Result A * World.

Definition ret {A} (a : A) : M A := λ w, (Ok a, w).

Definition throw {A} (e : Error) : M A := λ w, (Err e, w).

Definition bind {A B} (m : M A) (f : A → M B) : M B := λ w,
  match m w with
  | (Ok a, w') => f a w'
  | (Err e, w') => (Err e, w')
  end.

(** [try { body } catch (error) { handler(error) }], and
    [promise.catch(handler)]. *)
Definition tryCatch {A} (body : M A) (handler : Error → M A) : M A := λ w,
  match body w with
  | (Ok a, w') => (Ok a, w')
  | (Err e, w') => handler e w'
  end.

(** Reading the synchronous state: the object cache. *)
Definition getObjects : M (list XapiObject) := λ w, (Ok (objects w), w).

(** [Date.now()]. *)
Definition dateNow (env : Env) : M Z := λ w, (Ok (now env (length (journal w))), w).

(** An awaited external operation: the oracle may reject it; otherwise
    [run] gives its effect on the world and its value. *)
Definition perform {A} (env : Env) (op : Op) (run : World → Result A * World)
  : M A := λ w,
  let '(r, w') :=
    match faults env (length (journal w)) op with
    | Some e => (Err e, w)
    | None => run w
    end in
  (r, setJournal (λ j, j ++ [EvOp op (isOk r)]) w').

(** An operation with no effect on the modelled state. *)
Definition await (env : Env) (op : Op) : M unit :=
  perform env op (λ w, (Ok tt, w)).

(** [Promise.all(promises)] for promises that are already running: all of
    them settle; the rejection is the first one in array order. *)
Fixpoint promiseAll {A} (promises : list (M A)) (w : World) {struct promises}
  : Result (list A) * World :=
  match promises with
  | [] => (Ok [], w)
  | promise :: rest =>
      let '(r, w1) := promise w in
      let '(rs, w2) := promiseAll rest w1 in
      (match r, rs with
       | Ok a, Ok values => Ok (a :: values)
       | Err e, _ => Err e
       | Ok _, Err e => Err e
       end, w2)
  end.

(** Modelled from the spec: [asyncMap] of [utils] (not part of these
    sources) maps an asynchronous function over a collection and waits for
    every call to settle before it rejects with the first error. *)
Definition asyncMap {A B} (collection : list A) (iteratee : A → M B)
  : M (list B) :=
  promiseAll (iteratee <$> collection).

Definition noop {A} (_ : A) : M unit := ret tt.

(** [waitAll(promises, onRejection)]. *)
Definition waitAll (promises : list (M unit)) (onRejection : Error → M unit)
  : M unit :=
  bind (promiseAll ((λ promise, tryCatch promise onRejection) <$> promises))
       (λ _, ret tt).

End World.

Declare Scope async_scope.
Delimit Scope async_scope with async.
Bind Scope async_scope with World.M.
Notation "'let*' x ':=' m 'in' k" := (World.bind m (λ x, k))
  (at level 10, x name, m at level 100, k at level 200) : async_scope.
Notation "m '>>' k" := (World.bind m (λ _, k))
  (at level 100, k at level 200, right associativity) : async_scope.
Open Scope async_scope.

(** ** The remote handler

    Modelled from the spec: the remote filesystem abstraction (its code is
    not part of these sources).  A remote is a finite map from paths to
    files; [list] returns the names of the files directly under a directory;
    [rename] and [unlink] move or remove the [.checksum] sibling in tandem
    when [checksum] is set ([unlink] does so unless told otherwise, [rename]
    only when asked); [readFile] and [rename] fail with [ENOENT] on a missing
    path. *)

Module Handler.
Import Async Remote World.

Definition ENOENT : Error := mkError (Some "ENOENT") "no such file or directory".

Fixpoint stripPrefix (prefix s : string) : option string :=
  match prefix, s with
  | EmptyString, _ => Some s
  | String a prefix', String b s' =>
      if Ascii.eqb a b then stripPrefix prefix' s' else None
  | String _ _, EmptyString => None
  end.

(** The name of [path] inside [dir], when [path] is directly under it. *)
Definition childName (dir path : string) : option string :=
  match stripPrefix (dir +:+ "/") path with
  | Some name => if Js.indexOf name "/" =? -1 then Some name else None
  | None => None
  end.

Definition getRemoteHandler (env : Env) (remoteId : string) : M unit :=
  await env (GetRemoteHandler remoteId).

Definition list (env : Env) (remoteId dir : string) : M (list string) :=
  perform env (List remoteId dir) (λ w,
    (Ok (omap (childName dir) (map_to_list (files remoteId w)).*1), w)).

Definition readFile (env : Env) (remoteId path : string) : M File :=
  perform env (ReadFile remoteId path) (λ w,
    match files remoteId w !! path with
    | Some f => (Ok f, w)
    | None => (Err ENOENT, w)
    end).

Definition outputFile (env : Env) (remoteId path : string) (data : File)
  : M unit :=
  perform env (OutputFile remoteId path) (λ w,
    (Ok tt, setFiles remoteId (λ fs, <[path := data]> fs) w)).

Definition createOutputStream (env : Env) (remoteId path : string)
    (checksum : bool) : M unit :=
  perform env (CreateOutputStream remoteId path checksum) (λ w,
    (Ok tt, setFiles remoteId (λ fs, <[path := Blob]> fs) w)).

(** [input.pipe(output)] followed by the [finish] event of the output:
    the file now holds what the input carried. *)
Definition finish (env : Env) (remoteId path : string) (data : File) : M unit :=
  perform env (Finish remoteId path) (λ w,
    (Ok tt, setFiles remoteId (λ fs, <[path := data]> fs) w)).

(** The promise [output.checksumWritten]. *)
Definition checksumWritten (env : Env) (remoteId path : string) : M unit :=
  perform env (ChecksumWritten remoteId path) (λ w,
    (Ok tt, setFiles remoteId (λ fs, <[checksumFile path := Blob]> fs) w)).

Definition move (oldPath newPath : string) (fs : gmap string File)
  : gmap string File :=
  match fs !! oldPath with
  | Some f => <[newPath := f]> (delete oldPath fs)
  | None => fs
  end.

Definition rename (env : Env) (remoteId oldPath newPath : string)
    (checksum : bool) : M unit :=
  perform env (Rename remoteId oldPath newPath checksum) (λ w,
    match files remoteId w !! oldPath with
    | Some _ =>
        (Ok tt,
         setFiles remoteId (λ fs,
           let fs := move oldPath newPath fs in
           if checksum
           then move (checksumFile oldPath) (checksumFile newPath) fs
           else fs) w)
    | None => (Err ENOENT, w)
    end).

Definition unlink (env : Env) (remoteId path : string) (checksum : bool)
  : M unit :=
  perform env (Unlink remoteId path checksum) (λ w,
    (Ok tt,
     setFiles remoteId (λ fs,
       delete path (if checksum then delete (checksumFile path) fs else fs))
       w)).

End Handler.

(** ** Atomic writer *)

Module Writer.
Import Async Remote World.

(** [writeStream(input, handler, path, { checksum })].  Awaiting [input],
    and awaiting its [task], are operations of the hypervisor side. *)
Definition writeStream (env : Env) (input : Stream) (remoteId path : string)
    (checksum : bool) : M unit :=
  await env (AwaitInput (streamName input)) >>
  let tmpPath := dirname env path +:+ "/." +:+ basename env path in
  Handler.createOutputStream env remoteId tmpPath checksum >>
  tryCatch
    (Handler.finish env remoteId tmpPath (content input) >>
     (if checksum then Handler.checksumWritten env remoteId tmpPath
      else ret tt) >>
     await env (InputTask (streamName input)) >>
     Handler.rename env remoteId tmpPath path checksum)
    (λ error,
       Handler.unlink env remoteId tmpPath checksum >>
       throw error).

End Writer.

Module WriterSpec.
Import Async World.

(** The handler operations a [writeStream] to [path] may perform: all of
    them on the temporary name [tmpPath], the rename alone naming [path]. *)
Definition onTemporary (remoteId tmpPath path : string) (checksum : bool)
    (ev : Event) : Prop :=
  match ev with
  | EvOp (CreateOutputStream r p c) _ => r = remoteId ∧ p = tmpPath ∧ c = checksum
  | EvOp (ChecksumWritten r p) _ => r = remoteId ∧ p = tmpPath
  | EvOp (Finish r p) _ => r = remoteId ∧ p = tmpPath
  | EvOp (Rename r a b c) _ =>
      r = remoteId ∧ a = tmpPath ∧ b = path ∧ c = checksum
  | EvOp (Unlink r p c) _ => r = remoteId ∧ p = tmpPath ∧ c = checksum
  | EvOp (AwaitInput _) _ | EvOp (InputTask _) _ => True
  | _ => False
  end.

Definition succeeded (ev : Event) : Prop :=
  match ev with
  | EvOp _ ok => ok = true
  | EvLog _ _ => True
  end.

Definition isRename (ev : Event) : Prop :=
  match ev with
  | EvOp (Rename _ _ _ _) _ => True
  | _ => False
  end.

End WriterSpec.

(** ** Task logger *)

Module Tasks.
Import Async World.
Import Logs (value, Str, Obj, Undefined, object, mkRawLog).

(** [logger.notice(message, data)] and [logger.error(message, data)]: the
    entry is stored under a fresh id, which is returned. *)
Definition log (env : Env) (message : string) (data : object) : M string :=
  λ w,
    let id := pretty (length (journal w)) in
    (Ok id,
     setJournal
       (λ j, j ++ [EvLog id (mkRawLog data (now env (length (journal w)))
                                      message)]) w).

(** [serializeError]. *)
Definition serializeError (e : Error) : value :=
  Obj [("message", Str (errorMessage e));
       ("code", match code e with Some c => Str c | None => Undefined end)].

Definition taskStart (env : Env) (message parentId : string) (data : value)
  : M string :=
  log env message
      [("event", Str "task.start"); ("parentId", Str parentId);
       ("data", data)].

Definition taskEnd (env : Env) (message taskId status : string)
    (result : value) : M string :=
  log env message
      [("event", Str "task.end"); ("result", result);
       ("status", Str status); ("taskId", Str taskId)].

(** [wrapTask(opts, task)].  [result] is the shaping of the task's value:
    the value itself, a function of it, or a constant.  The promise [task]
    is created by the caller before [wrapTask] logs the start; its
    operations settle between the two log entries. *)
Definition wrapTask {A} (env : Env) (message parentId : string)
    (data : value) (result : A → value) (task : M A) : M A :=
  let* taskId := taskStart env message parentId data in
  tryCatch
    (let* value := task in
     taskEnd env message taskId "success" (result value) >>
     ret value)
    (λ error,
       taskEnd env message taskId "failure" (serializeError error) >>
       throw error).

(** [wrapTaskFn(opts, task)]: the task receives the allocated [taskId]. *)
Definition wrapTaskFn {A} (env : Env) (message parentId : string)
    (data : value) (result : A → value) (task : string → M A) : M A :=
  let* taskId := taskStart env message parentId data in
  tryCatch
    (let* value := task taskId in
     taskEnd env message taskId "success" (result value) >>
     ret value)
    (λ error,
       taskEnd env message taskId "failure" (serializeError error) >>
       throw error).

End Tasks.

Module WriterExamples.
Import Async Remote World.

(** POSIX [basename] and [dirname] for paths without a trailing ['/']. *)
Fixpoint lastSegment (s segment : string) : string :=
  match s with
  | EmptyString => segment
  | String c s' =>
      if Ascii.eqb c "/" then lastSegment s' ""
      else lastSegment s' (segment +:+ String c "")
  end.

Definition posixBasename (path : string) : string := lastSegment path "".

Definition posixDirname (path : string) : string :=
  if Js.indexOf path "/" =? -1 then "."
  else Js.strTake (String.length path - String.length (posixBasename path) - 1)
                  path.

Definition noFault : nat → Op → option Error := λ _ _, None.

Definition env (faults : nat → Op → option Error) : Env :=
  {| faults := faults;
     now := λ n, 10 + Z.of_nat n;
     dirname := posixDirname;
     basename := posixBasename;
     safeDateFormat := λ t, "20240101T0000" +:+ pretty t +:+ "Z";
     resolveRelativeFromFile := λ file path,
       posixDirname file +:+ "/"
       +:+ (if String.prefix "./" path then Js.strDrop 2 path else path);
     exportedVdis := λ _, [("OpaqueRef:vdi-1", mkVdi "vdi-1" None)] |}.

Definition EACCES : Error := mkError (Some "EACCES") "permission denied".
Definition EIO : Error := mkError (Some "EIO") "i/o error".
Definition ENOSPC : Error := mkError (Some "ENOSPC") "no space left on device".

(** The remote refuses to open the temporary file. *)
Definition openFails : nat → Op → option Error := λ _ op,
  match op with
  | CreateOutputStream _ _ _ => Some EACCES
  | _ => None
  end.

(** The disk fills up while writing, and then the unlink fails too. *)
Definition writeAndUnlinkFail : nat → Op → option Error := λ _ op,
  match op with
  | Finish _ _ => Some ENOSPC
  | Unlink _ _ _ => Some EIO
  | _ => None
  end.

(** The disk fills up while writing. *)
Definition writeFails : nat → Op → option Error := λ _ op,
  match op with
  | Finish _ _ => Some ENOSPC
  | _ => None
  end.

Definition emptyWorld : World := mkWorld ∅ [] [] [].

Definition export : Stream := mkStream "export" Blob.

Definition xvaPath : string := "xo-vm-backups/vm-1/20240101T000000Z.xva".
Definition xvaTmpPath : string := "xo-vm-backups/vm-1/.20240101T000000Z.xva".
End WriterExamples.


(** ** The hypervisor client

    Modelled from the spec: the hypervisor client (its code is not part of
    these sources).  The object cache is taken to be the state of the
    hypervisor.  A snapshot is a copy of the VM as it is then, marked as a
    snapshot of it; an imported VM is a copy of the exported snapshot that is
    no longer a snapshot; both get an identifier that is not in use. *)

Module Hypervisor.
Import Async Remote Xapi World.

Definition noSuchObject : Error := mkError None "no such object".

Definition withOtherConfig (oc : gmap string string) (o : XapiObject) : XapiObject :=
  mkObject (dollar_id o) (dollar_ref o) (dollar_type o) (uuid o) (name_label o)
           (is_a_snapshot o) (is_a_template o) (snapshot_of o) (snapshot_time o)
           (blocked_operations o) oc (tags o).

Definition withBlockedOperations (ops : gmap string string) (o : XapiObject)
  : XapiObject :=
  mkObject (dollar_id o) (dollar_ref o) (dollar_type o) (uuid o) (name_label o)
           (is_a_snapshot o) (is_a_template o) (snapshot_of o) (snapshot_time o)
           ops (other_config o) (tags o).

Definition withTags (ts : list string) (o : XapiObject) : XapiObject :=
  mkObject (dollar_id o) (dollar_ref o) (dollar_type o) (uuid o) (name_label o)
           (is_a_snapshot o) (is_a_template o) (snapshot_of o) (snapshot_time o)
           (blocked_operations o) (other_config o) ts.

(** Every identifier in use: [$id], [$ref] and [uuid] of every object. *)
Definition identifiers (objs : list XapiObject) : list string :=
  (dollar_id <$> objs) ++ (dollar_ref <$> objs) ++ (uuid <$> objs).

(** [xapi.objects.all]: the cache as a dictionary keyed by [$id]. *)
Definition all (objs : list XapiObject) : Dict.t XapiObject :=
  (λ o, (dollar_id o, o)) <$> objs.

(** [xapi.getObject(id)]: by [$id], [uuid] or [$ref]; synchronous. *)
Definition getObject (id : string) : M XapiObject := λ w,
  match List.find (λ o, String.eqb (dollar_id o) id || String.eqb (uuid o) id
                        || String.eqb (dollar_ref o) id) (objects w) with
  | Some o => (Ok o, w)
  | None => (Err noSuchObject, w)
  end.

(** [vm.$snapshots]. *)
Definition snapshotsOf (vm : Vm) (objs : list XapiObject) : list Vm :=
  filter (λ o, is_a_snapshot o = true ∧ snapshot_of o = dollar_ref vm) objs.

(** The update of a map property: [null] removes the key. *)
Definition applyUpdates (updates : list (string * option string))
    (m : gmap string string) : gmap string string :=
  foldl (λ m update,
           match update.2 with
           | Some v => <[update.1 := v]> m
           | None => delete update.1 m
           end) m updates.

Definition alterById (id : string) (f : XapiObject → XapiObject)
    (objs : list XapiObject) : list XapiObject :=
  (λ o, if String.eqb (dollar_id o) id then f o else o) <$> objs.

Definition alterByRef (ref : string) (f : XapiObject → XapiObject)
    (objs : list XapiObject) : list XapiObject :=
  (λ o, if String.eqb (dollar_ref o) ref then f o else o) <$> objs.

(** [xapi._updateObjectMapProperty(object, 'other_config', updates)]. *)
Definition updateOtherConfig (env : Env) (object : XapiObject)
    (updates : list (string * option string)) : M unit :=
  perform env (UpdateObjectMapProperty (dollar_id object) "other_config") (λ w,
    (Ok tt,
     setObjects (alterById (dollar_id object)
                   (λ o, withOtherConfig (applyUpdates updates (other_config o)) o))
                w)).

(** [xapi._updateObjectMapProperty(object, 'blocked_operations', updates)]. *)
Definition updateBlockedOperations (env : Env) (object : XapiObject)
    (updates : list (string * option string)) : M unit :=
  perform env (UpdateObjectMapProperty (dollar_id object) "blocked_operations")
    (λ w,
      (Ok tt,
       setObjects (alterById (dollar_id object)
                     (λ o, withBlockedOperations
                             (applyUpdates updates (blocked_operations o)) o))
                  w)).

Definition addTag (env : Env) (ref tag : string) : M unit :=
  perform env (AddTag ref tag) (λ w,
    (Ok tt, setObjects (alterByRef ref (λ o, withTags (tags o ++ [tag]) o)) w)).

Definition assertHealthyVdiChains (env : Env) (vm : Vm) : M unit :=
  await env (AssertHealthyVdiChains (dollar_id vm)).

(** [xapi._snapshotVm(cancelToken, vm, label)]. *)
Definition snapshotVm (env : Env) (vm : Vm) (label : string) : M Vm :=
  perform env (SnapshotVm (dollar_id vm) label) (λ w,
    match List.find (λ o, String.eqb (dollar_id o) (dollar_id vm)) (objects w) with
    | Some current =>
        let id := fresh (identifiers (objects w)) in
        let snapshot :=
          mkObject id id (dollar_type current) id label true false
                   (dollar_ref current) (now env (length (journal w)))
                   (blocked_operations current) (other_config current)
                   (tags current) in
        (Ok snapshot, setObjects (λ objs, objs ++ [snapshot]) w)
    | None => (Err noSuchObject, w)
    end).

(** [xapi.barrier(ref)]: the object as the refreshed cache holds it. *)
Definition barrier (env : Env) (ref : string) : M XapiObject :=
  perform env (Barrier ref) (λ w,
    match List.find (λ o, String.eqb (dollar_ref o) ref) (objects w) with
    | Some o => (Ok o, w)
    | None => (Err noSuchObject, w)
    end).

(** [xapi.deleteVm(vm)]. *)
Definition deleteVm (env : Env) (vm : Vm) : M unit :=
  perform env (DeleteVm (dollar_id vm)) (λ w,
    (Ok tt, setObjects (filter (λ o, dollar_id o ≠ dollar_id vm)) w)).

(** [xapi.exportVm(cancelToken, snapshot, { compress })]: a stream with its
    [task]. *)
Definition exportVm (env : Env) (snapshot : Vm) : M Stream :=
  perform env (ExportVm (dollar_id snapshot)) (λ w,
    (Ok (mkStream ("xva:" +:+ dollar_id snapshot) Blob), w)).

(** [xapi.exportDeltaVm(cancelToken, snapshot, baseSnapshot)]: the disks of
    the export, each with a lazy stream. *)
Definition exportDeltaVm (env : Env) (snapshot : Vm) (baseSnapshot : option Vm)
  : M (Dict.t Vdi) :=
  perform env (ExportDeltaVm (dollar_id snapshot) (dollar_id <$> baseSnapshot))
    (λ w, (Ok (exportedVdis env (dollar_id snapshot)), w)).

(** The VM that an import of the export of [snapshot] creates. *)
Definition imported (id label : string) (snapshot : Vm) : Vm :=
  mkObject id id (dollar_type snapshot) id label false false ""
           (snapshot_time snapshot) ∅ (other_config snapshot) (tags snapshot).

(** [xapi._importVm(cancelToken, stream, sr, onVmCreation)], where
    [onVmCreation] sets the name of the new VM. *)
Definition importVm (env : Env) (snapshot : Vm) (srId label : string) : M Vm :=
  perform env (ImportVm srId) (λ w,
    let vm := imported (fresh (identifiers (objects w))) label snapshot in
    (Ok vm, setObjects (λ objs, objs ++ [vm]) w)).

(** [xapi.importDeltaVm(delta, { name_label, srId })]. *)
Definition importDeltaVm (env : Env) (snapshot : Vm) (srId label : string)
  : M Vm :=
  perform env (ImportDeltaVm srId) (λ w,
    let vm := imported (fresh (identifiers (objects w))) label snapshot in
    (Ok vm, setObjects (λ objs, objs ++ [vm]) w)).

End Hypervisor.

(** ** VHD library *)

Module VhdLib.
Import Async Remote World.

Definition notAVhd : Error := mkError None "not a VHD".

(** [new Vhd(handler, path).readHeaderAndFooter()], giving
    [header.parentUnicodeName]. *)
Definition readHeaderAndFooter (env : Env) (remoteId path : string)
  : M (option string) :=
  perform env (ReadHeaderAndFooter remoteId path) (λ w,
    match files remoteId w !! path with
    | Some (Vhd parentUnicodeName) => (Ok parentUnicodeName, w)
    | _ => (Err notAVhd, w)
    end).

(** [chainVhd(handler, parentPath, handler, childPath)]: the header of the
    child now names the parent. *)
Definition chainVhd (env : Env) (remoteId parentPath childPath : string)
  : M unit :=
  perform env (ChainVhd remoteId parentPath childPath) (λ w,
    match files remoteId w !! parentPath, files remoteId w !! childPath with
    | Some (Vhd _), Some (Vhd _) =>
        (Ok tt,
         setFiles remoteId
           (λ fs, <[childPath := Vhd (Some (basename env parentPath))]> fs) w)
    | _, _ => (Err notAVhd, w)
    end).

(** [worker.mergeVhd(remote, parentPath, remote, childPath)]: the blocks of
    the child are written into the parent, whose header is unchanged. *)
Definition mergeVhd (env : Env) (remoteId parentPath childPath : string)
  : M unit :=
  await env (MergeVhd remoteId parentPath childPath).

End VhdLib.

(** ** Deferred clean-ups

    Modelled from the spec: [golike-defer] (not part of these sources).  The
    clean-ups registered during a call run when it exits, last registered
    first; those registered with [onFailure] run only when the call fails;
    an error in a clean-up is swallowed and never masks the outcome. *)

Module Defer.
Import Async Remote Xapi World.

Definition defer (d : Deferred) : M unit := λ w,
  (Ok tt, setDeferred (λ ds, d :: ds) w).

Definition applies (when : When) (failed : bool) : bool :=
  match when with
  | Always => true
  | OnFailure => failed
  end.

Definition runDeferred (env : Env) (failed : bool) (d : Deferred) : M unit :=
  match d with
  | DeleteOldSnapshots when retention candidates =>
      if applies when failed
      then asyncMap (Retention.getOldEntries retention (Some candidates))
                    (Hypervisor.deleteVm env) >> ret tt
      else ret tt
  | DeleteSnapshot when snapshot =>
      if applies when failed then Hypervisor.deleteVm env snapshot else ret tt
  | UnlinkPath when remoteId path =>
      if applies when failed then Handler.unlink env remoteId path true
      else ret tt
  end.

Definition runAll (env : Env) (failed : bool) (ds : list Deferred) (w : World)
  : World :=
  foldl (λ w d, (tryCatch (runDeferred env failed d) noop w).2) w ds.

(** The decorator [defer] around an asynchronous function. *)
Definition withDefer {A} (env : Env) (body : M A) : M A := λ w,
  let saved := deferred w in
  let '(r, w1) := body (setDeferred (λ _, []) w) in
  let w2 := runAll env (negb (isOk r)) (deferred w1) w1 in
  (r, setDeferred (λ _, saved) w2).

End Defer.

(** ** Lister and deleters *)

Module Backups.
Import Async Remote Xapi World.

Definition isMissingDirectory (error : Error) : bool :=
  match code error with
  | Some c => String.eqb c "ENOENT" || String.eqb c "ENOTDIR"
  | None => false
  end.

Definition syntaxError : Error := mkError None "Unexpected token in JSON".
Definition typeError : Error := mkError None "path must be a string".

(** The body of the [files.filter(isMetadataFile).map(async file => ...)] of
    [_listVmBackups]: a file that cannot be read or parsed is skipped with a
    warning. *)
Definition readBackup (env : Env) (remoteId dir : string)
    (predicate : option (Metadata → bool)) (file : string)
  : M (option Metadata) :=
  let path := dir +:+ "/" +:+ file in
  tryCatch
    (let* f := Handler.readFile env remoteId path in
     match f with
     | Sidecar metadata =>
         if match predicate with None => true | Some p => p metadata end
         then ret (Some (withFilename path metadata))
         else ret None
     | _ => throw syntaxError
     end)
    (λ _, ret None).

(** [_listVmBackups(handler, vm, predicate)]; [vmUuid] is [vm] when it is a
    string and [vm.uuid] otherwise. *)
Definition listVmBackups (env : Env) (remoteId vmUuid : string)
    (predicate : option (Metadata → bool)) : M (list Metadata) :=
  let dir := getVmBackupDir vmUuid in
  let* backups :=
    tryCatch
      (let* files := Handler.list env remoteId dir in
       let* found :=
         promiseAll (readBackup env remoteId dir predicate
                       <$> List.filter isMetadataFile files) in
       ret (omap id found))
      (λ error, if isMissingDirectory error then ret [] else throw error) in
  ret (Sort.sort compareTimestamp backups).

(** [_deleteFullVmBackups(handler, backups)]. *)
Definition deleteFullVmBackups (env : Env) (remoteId : string)
    (backups : list Metadata) : M unit :=
  asyncMap backups (λ backup,
    match _filename backup with
    | Some filename =>
        promiseAll
          [Handler.unlink env remoteId filename true;
           match xva backup with
           | Some xva =>
               Handler.unlink env remoteId
                 (resolveRelativeFromFile env filename xva) true
           | None => throw typeError
           end] >> ret tt
    | None => throw typeError
    end) >> ret tt.

(** [_deleteVhd(handler, path)]. *)
Definition deleteVhd (env : Env) (remoteId path : string) : M unit :=
  Defer.withDefer env
    (let dir := dirname env path in
     let* names := Handler.list env remoteId dir in
     let* vhds :=
       asyncMap ((λ name, dir +:+ "/" +:+ name) <$> List.filter isVhd names)
         (λ path,
            let* parentUnicodeName := VhdLib.readHeaderAndFooter env remoteId path in
            ret (path, parentUnicodeName)) in
     let base := basename env path in
     match List.find (λ vhd, bool_decide (vhd.2 = Some base)) vhds with
     | None => Handler.unlink env remoteId path true
     | Some child =>
         Defer.defer (UnlinkPath OnFailure remoteId path) >>
         let childPath := child.1 in
         VhdLib.mergeVhd env remoteId path childPath >>
         Handler.rename env remoteId path childPath false
     end).

(** [_deleteDeltaVmBackups(handler, backups)]. *)
Definition deleteDeltaVmBackups (env : Env) (remoteId : string)
    (backups : list Metadata) : M unit :=
  asyncMap backups (λ backup,
    match _filename backup with
    | Some filename =>
        promiseAll
          [Handler.unlink env remoteId filename true;
           asyncMap (Dict.values (default [] (vhds backup)))
             (λ vhd, deleteVhd env remoteId
                       (resolveRelativeFromFile env filename vhd)) >> ret tt]
        >> ret tt
    | None => throw typeError
    end) >> ret tt.

(** [_deleteVms(xapi, vms)]. *)
Definition deleteVms (env : Env) (vms : list Vm) : M unit :=
  asyncMap vms (Hypervisor.deleteVm env) >> ret tt.

End Backups.

(** ** Jobs and schedules *)

Module Jobs.
Import Xapi.

Inductive SimpleIdPattern :=
  | IdIs (id : string)
  | IdOr (ids : list string).

(** [unboxIds]. *)
Definition unboxIds (pattern : option SimpleIdPattern) : list string :=
  match pattern with
  | None => []
  | Some (IdIs id) => [id]
  | Some (IdOr ids) => ids
  end.

(** A backup job; [job_vms] is the predicate that [createPredicate] builds
    from the job's pattern. *)
Record BackupJob := mkJob {
  job_id : string;
  job_name : string;
  job_compression : option string;
  job_mode : string;
  job_remotes : option SimpleIdPattern;
  job_settings : gmap string Settings.Settings;
  job_srs : option SimpleIdPattern;
  job_vms : XapiObject → bool;
}.

Record Schedule := mkSchedule {
  schedule_id : string;
}.

End Jobs.

(** ** The VM backup worker *)

Module Worker.
Import Async Remote Xapi World Jobs.

Definition sizeResult {A} (_ : A) : Logs.value :=
  Logs.Obj [("size", Logs.Num 0)].

Definition noResult {A} (_ : A) : Logs.value := Logs.Undefined.

Definition targetData (id type : string) : Logs.value :=
  Logs.Obj [("id", Logs.Str id); ("type", Logs.Str type)].

(** [`${vmDir}/${basename}.json`], with [basename = safeDateFormat(now)]. *)
Definition metadataFilename (env : Env) (vmUuid : string) (now : Z) : string :=
  getVmBackupDir vmUuid +:+ "/" +:+ safeDateFormat env now +:+ ".json".

Definition dataBasename (env : Env) (now : Z) : string :=
  safeDateFormat env now +:+ ".xva".

Definition dataFilename (env : Env) (vmUuid : string) (now : Z) : string :=
  getVmBackupDir vmUuid +:+ "/" +:+ dataBasename env now.

Definition fullMetadata (env : Env) (job : BackupJob) (scheduleId : string)
    (now : Z) : Metadata :=
  mkMetadata None (job_id job) "full" scheduleId now None
             (Some ("./" +:+ dataBasename env now)).

(** [mapValues(deltaExport.vdis, vdi => `vdis/${jobId}/${uuid}/${basename}.vhd`)]. *)
Definition deltaVhds (env : Env) (job : BackupJob) (now : Z)
    (vdis : Dict.t Vdi) : Dict.t string :=
  (λ entry, (entry.1,
             "vdis/" +:+ job_id job +:+ "/" +:+ vdiUuid entry.2 +:+ "/"
             +:+ safeDateFormat env now +:+ ".vhd")) <$> vdis.

Definition deltaMetadata (env : Env) (job : BackupJob) (scheduleId : string)
    (now : Z) (vdis : Dict.t Vdi) : Metadata :=
  mkMetadata None (job_id job) "delta" scheduleId now
             (Some (deltaVhds env job now vdis)) None.

(** [`${metadata.vm.name_label} (${safeDateFormat(metadata.timestamp)})`]. *)
Definition replicaLabel (env : Env) (vm : Vm) (now : Z) : string :=
  name_label vm +:+ " (" +:+ safeDateFormat env now +:+ ")".

Definition blockedStart : string :=
  "Start operation for this vm is blocked, clone it if you want to use it.".

(** The merged [deleteFirst] of a target. *)
Definition deleteFirstOf (job : BackupJob) (targetId : string) : bool :=
  Settings.truthy
    (Settings.getSetting (job_settings job) Settings.DeleteFirst [targetId]).

(** Full mode, one remote: the function given to [wrapTaskFn] in
    [remotes.map(...)]. *)
Definition fullRemoteTask (env : Env) (job : BackupJob) (scheduleId : string)
    (exportRetention : Z) (vmUuid : string) (vm : Vm) (fork : Stream) (now : Z)
    (taskId remoteId : string) : M unit :=
  Handler.getRemoteHandler env remoteId >>
  let* backups :=
    Backups.listVmBackups env remoteId (uuid vm)
      (Some (λ m, String.eqb (mode m) "full"
                  && String.eqb (Remote.scheduleId m) scheduleId)) in
  let oldBackups := Retention.getOldEntries exportRetention (Some backups) in
  let deleteFirst := deleteFirstOf job remoteId in
  (if deleteFirst then Backups.deleteFullVmBackups env remoteId oldBackups
   else ret tt) >>
  Tasks.wrapTask env "transfer" taskId Logs.Undefined sizeResult
    (Writer.writeStream env fork remoteId (dataFilename env vmUuid now) true) >>
  Handler.outputFile env remoteId (metadataFilename env vmUuid now)
    (Sidecar (fullMetadata env job scheduleId now)) >>
  (if negb deleteFirst then Backups.deleteFullVmBackups env remoteId oldBackups
   else ret tt).

(** The tagging of a replicated VM: the three updates of [Promise.all]. *)
Definition tagReplica (env : Env) (vm : Vm) (tag srId : string) : M unit :=
  promiseAll
    [Hypervisor.addTag env (dollar_ref vm) tag;
     Hypervisor.updateBlockedOperations env vm [("start", Some blockedStart)];
     Hypervisor.updateOtherConfig env vm [("xo:backup:sr", Some srId)]]
  >> ret tt.

(** Full mode, one SR: the function given to [wrapTaskFn] in [srs.map(...)]. *)
Definition fullSrTask (env : Env) (job : BackupJob) (scheduleId : string)
    (exportRetention : Z) (vmUuid : string) (vm snapshot : Vm) (now : Z)
    (taskId srId : string) : M unit :=
  let* sr := Hypervisor.getObject srId in
  let* objs := getObjects in
  let oldVms :=
    Retention.getOldEntries exportRetention
      (Some (listReplicatedVms (Hypervisor.all objs) scheduleId srId
               (Some vmUuid))) in
  let deleteFirst := deleteFirstOf job srId in
  (if deleteFirst then Backups.deleteVms env oldVms else ret tt) >>
  let* created :=
    Tasks.wrapTask env "transfer" taskId Logs.Undefined sizeResult
      (Hypervisor.importVm env snapshot srId (replicaLabel env vm now)) in
  let* replica := Hypervisor.barrier env (dollar_ref created) in
  tagReplica env replica "Disaster Recovery" srId >>
  (if negb deleteFirst then Backups.deleteVms env oldVms else ret tt).

Definition compareStrings (a b : string) : Z :=
  match String.compare a b with
  | Lt => -1
  | Eq => 0
  | Gt => 1
  end.

(** [`${vmDir}/${metadata.vhds[id]}`]. *)
Definition vdiPath (vmUuid : string) (vhds : Dict.t string) (id : string)
  : string :=
  getVmBackupDir vmUuid +:+ "/" +:+ default "undefined" (Dict.get id vhds).

(** Delta mode, one disk of one remote: the function wrapped by [defer] in
    [asyncMap(fork.vdis, ...)]. *)
Definition transferVdi (env : Env) (remoteId vmUuid : string)
    (vhds : Dict.t string) (entry : string * Vdi) : M unit :=
  Defer.withDefer env
    (let id := entry.1 in
     let vdi := entry.2 in
     let path := vdiPath vmUuid vhds id in
     let isDelta := bool_decide (is_Some (baseDelta vdi)) in
     let* parentPath :=
       if isDelta
       then
         let vdiDir := dirname env path in
         let* names := Handler.list env remoteId vdiDir in
         let parent :=
           last (Sort.sort compareStrings (List.filter isVhd names)) in
         ret (vdiDir +:+ "/" +:+ default "undefined" parent)
       else ret "undefined" in
     Writer.writeStream env (mkStream (id +:+ ".vhd") (Vhd None)) remoteId path
       false >>
     Defer.defer (UnlinkPath OnFailure remoteId path) >>
     (if isDelta then VhdLib.chainVhd env remoteId parentPath path else ret tt)).

(** Delta mode, one remote. *)
Definition deltaRemoteTask (env : Env) (job : BackupJob) (scheduleId : string)
    (exportRetention : Z) (vmUuid : string) (vm : Vm) (vdis : Dict.t Vdi)
    (now : Z) (taskId remoteId : string) : M unit :=
  Handler.getRemoteHandler env remoteId >>
  let* backups :=
    Backups.listVmBackups env remoteId (uuid vm)
      (Some (λ m, String.eqb (mode m) "delta"
                  && String.eqb (Remote.scheduleId m) scheduleId)) in
  let oldBackups := Retention.getOldEntries exportRetention (Some backups) in
  let deleteOldBackups :=
    Tasks.wrapTask env "merge" taskId Logs.Undefined sizeResult
      (Backups.deleteDeltaVmBackups env remoteId oldBackups) in
  let deleteFirst := (1 <? exportRetention) && deleteFirstOf job remoteId in
  (if deleteFirst then deleteOldBackups else ret tt) >>
  (if negb (bool_decide (vdis = []))
   then
     Tasks.wrapTask env "transfer" taskId Logs.Undefined sizeResult
       (asyncMap vdis
          (transferVdi env remoteId vmUuid (deltaVhds env job now vdis))
        >> ret tt)
   else ret tt) >>
  Handler.outputFile env remoteId (metadataFilename env vmUuid now)
    (Sidecar (deltaMetadata env job scheduleId now vdis)) >>
  (if negb deleteFirst then deleteOldBackups else ret tt).

(** Delta mode, one SR. *)
Definition deltaSrTask (env : Env) (job : BackupJob) (scheduleId : string)
    (exportRetention : Z) (vmUuid : string) (vm snapshot : Vm) (now : Z)
    (taskId srId : string) : M unit :=
  let* sr := Hypervisor.getObject srId in
  let* objs := getObjects in
  let oldVms :=
    Retention.getOldEntries exportRetention
      (Some (listReplicatedVms (Hypervisor.all objs) scheduleId srId
               (Some vmUuid))) in
  let deleteFirst := deleteFirstOf job srId in
  (if deleteFirst then Backups.deleteVms env oldVms else ret tt) >>
  let* replica :=
    Tasks.wrapTask env "transfer" taskId Logs.Undefined sizeResult
      (Hypervisor.importDeltaVm env snapshot (dollar_id sr)
         (replicaLabel env vm now)) in
  tagReplica env replica "Continuous Replication" srId >>
  (if negb deleteFirst then Backups.deleteVms env oldVms else ret tt).

(** The targets of a run, each wrapped in its [export] task. *)
Definition targetTasks (env : Env) (taskId : string)
    (remoteTask srTask : string → string → M unit) (remotes srs : list string)
  : list (M unit) :=
  ((λ remoteId,
      Tasks.wrapTaskFn env "export" taskId (targetData remoteId "remote")
        noResult (λ taskId, remoteTask taskId remoteId)) <$> remotes)
  ++ ((λ srId,
         Tasks.wrapTaskFn env "export" taskId (targetData srId "SR")
           noResult (λ taskId, srTask taskId srId)) <$> srs).

Definition hasTag (key value : string) (o : XapiObject) : Prop :=
  other_config o !! key = Some value.

#[global] Instance hasTag_dec key value o : Decision (hasTag key value o).
Proof. unfold hasTag. apply _. Defined.

(** The body of [_backupVm], which the decorator [defer] wraps: [$defer]
    registers in the list of clean-ups of the call. *)
Definition backupVmBody (env : Env) (vmUuid : string) (job : BackupJob)
    (schedule : Schedule) (taskId : string) : M unit :=
    (let* vm := Hypervisor.getObject vmUuid in
     (if bool_decide (is_Some (other_config vm !! "xo:backup:job"))
      then Hypervisor.updateOtherConfig env vm
             [("xo:backup:job", None); ("xo:backup:schedule", None);
              ("xo:backup:vm", None)]
      else ret tt) >>
     let jobId := job_id job in
     let settings := job_settings job in
     let scheduleId := schedule_id schedule in
     let exportRetention :=
       Settings.asNumber
         (Settings.getSetting settings Settings.ExportRetention [scheduleId]) in
     let snapshotRetention :=
       Settings.asNumber
         (Settings.getSetting settings Settings.SnapshotRetention [scheduleId]) in
     if (exportRetention =? 0) && (snapshotRetention =? 0)
     then throw (mkError None "export and snapshots retentions cannot both be 0")
     else
       let* objs := getObjects in
       let snapshots :=
         Sort.sort compareSnapshotTime
           (filter (hasTag "xo:backup:job" jobId)
                   (Hypervisor.snapshotsOf vm objs)) in
       Hypervisor.assertHealthyVdiChains env vm >>
       let* snapshot :=
         Tasks.wrapTask env "snapshot" taskId Logs.Undefined
           (λ s, Logs.Str (uuid s))
           (Hypervisor.snapshotVm env vm
              ("[XO Backup " +:+ job_name job +:+ "] " +:+ name_label vm)) in
       Hypervisor.updateOtherConfig env snapshot
         [("xo:backup:job", Some jobId); ("xo:backup:schedule", Some scheduleId);
          ("xo:backup:vm", Some vmUuid)] >>
       Defer.defer
         (DeleteOldSnapshots Always snapshotRetention
            (filter (hasTag "xo:backup:schedule" scheduleId) snapshots)) >>
       let* snapshot := Hypervisor.barrier env (dollar_ref snapshot) in
       if exportRetention =? 0 then ret tt
       else
         let remotes := unboxIds (job_remotes job) in
         let srs := unboxIds (job_srs job) in
         if (length remotes + length srs =? 0)%nat
         then throw (mkError None
                       "export retention must be 0 without remotes and SRs")
         else
           let* now := dateNow env in
           if String.eqb (job_mode job) "full" then
             (if snapshotRetention =? 0
              then Defer.defer (DeleteSnapshot Always snapshot)
              else ret tt) >>
             let* xva := Hypervisor.exportVm env snapshot in
             waitAll
               (targetTasks env taskId
                  (fullRemoteTask env job scheduleId exportRetention vmUuid vm
                     xva now)
                  (fullSrTask env job scheduleId exportRetention vmUuid vm
                     snapshot now)
                  remotes srs)
               noop
           else if String.eqb (job_mode job) "delta" then
             (if snapshotRetention =? 0
              then Defer.defer (DeleteSnapshot OnFailure snapshot)
              else ret tt) >>
             let baseSnapshot := last snapshots in
             let* vdis := Hypervisor.exportDeltaVm env snapshot baseSnapshot in
             waitAll
               (targetTasks env taskId
                  (deltaRemoteTask env job scheduleId exportRetention vmUuid vm
                     vdis now)
                  (deltaSrTask env job scheduleId exportRetention vmUuid vm
                     snapshot now)
                  remotes srs)
               noop
           else
             throw (mkError None
                      ("no exporter for backup mode " +:+ job_mode job))).

(** [_backupVm($defer, $cancelToken, vmUuid, job, schedule, logger, taskId)]. *)
Definition backupVm (env : Env) (vmUuid : string) (job : BackupJob)
    (schedule : Schedule) (taskId : string) : M unit :=
  Defer.withDefer env (backupVmBody env vmUuid job schedule taskId).

End Worker.

(** ** The snapshots that a schedule keeps *)

Module Snapshots.
Import Async Xapi World.

(** A snapshot of [vm] taken by the job [jobId] for the schedule
    [scheduleId], and their number in the cache. *)
Definition tagged (vm : Vm) (jobId scheduleId : string) (o : XapiObject)
  : Prop :=
  is_a_snapshot o = true
  ∧ snapshot_of o = dollar_ref vm
  ∧ Worker.hasTag "xo:backup:job" jobId o
  ∧ Worker.hasTag "xo:backup:schedule" scheduleId o.

#[global] Instance tagged_dec vm jobId scheduleId o :
  Decision (tagged vm jobId scheduleId o).
Proof. unfold tagged. apply _. Defined.

Definition count (vm : Vm) (jobId scheduleId : string) (w : World) : nat :=
  length (filter (tagged vm jobId scheduleId) (objects w)).

(** What the retention of snapshots looks at in an object. *)
Record View := mkView {
  view_id : string;
  view_of : string;
  view_job : option string;
  view_schedule : option string;
}.

Definition view (o : XapiObject) : View :=
  mkView (dollar_id o) (snapshot_of o) (other_config o !! "xo:backup:job")
         (other_config o !! "xo:backup:schedule").

Definition isSnapshot (o : XapiObject) : Prop := is_a_snapshot o = true.

#[global] Instance isSnapshot_dec o : Decision (isSnapshot o).
Proof. unfold isSnapshot. apply _. Defined.

Definition snapshotViews (objs : list XapiObject) : list View :=
  view <$> filter isSnapshot objs.

Definition taggedView (vm : Vm) (jobId scheduleId : string) (v : View) : Prop :=
  view_of v = dollar_ref vm
  ∧ view_job v = Some jobId
  ∧ view_schedule v = Some scheduleId.

#[global] Instance taggedView_dec vm jobId scheduleId v :
  Decision (taggedView vm jobId scheduleId v).
Proof. unfold taggedView. apply _. Defined.

(** Frames.  [spares doomed]: the clean-ups are what they were and, in a
    cache where [$id] identifies the objects and no snapshot has its [$id]
    in [doomed], the snapshots are what they were (and the cache is still
    such a one). *)
Definition spares (doomed : list string) : relation World :=
  λ w w',
    deferred w' = deferred w
    ∧ (NoDup (dollar_id <$> objects w) →
       Forall (λ v, view_id v ∉ doomed) (snapshotViews (objects w)) →
       NoDup (dollar_id <$> objects w')
       ∧ snapshotViews (objects w') = snapshotViews (objects w)).

Definition keepsSnapshots : relation World := spares [].

End Snapshots.

(** ** Promises that are running

    The functions above run an asynchronous call from its start to its
    end.  A race needs more: what a promise has done by the time the other
    one settles.  A promise that is running is therefore given by its
    turns.  A turn is what the promise does when the operation it waits for
    has settled, up to its next [await]; it runs to its end, and other code
    (a timer, the executor) runs between two turns only.  The call that
    creates the promise changes nothing by itself: what the promise does,
    it does in its turns. *)

Module Promise.
Import Async World.

Inductive Task (A : Type) : Type :=
  | Settled (outcome : Result A)
  | Turn (next : World → Task A) (effect : World → World).
Arguments Settled {A} outcome.
Arguments Turn {A} next effect.

(** The promise runs until it settles. *)
Fixpoint run {A} (p : Task A) (w : World) : Result A * World :=
  match p with
  | Settled outcome => (outcome, w)
  | Turn next effect => run (next w) (effect w)
  end.

(** The promise after its first [turns] turns, and the world then. *)
Fixpoint advance {A} (turns : nat) (p : Task A) (w : World)
  : Task A * World :=
  match turns, p with
  | S turns, Turn next effect => advance turns (next w) (effect w)
  | _, _ => (p, w)
  end.

Definition isPending {A} (p : Task A) : bool :=
  match p with
  | Turn _ _ => true
  | Settled _ => false
  end.

(** An asynchronous call taken as one turn. *)
Definition atomic {A} (m : M A) : Task A :=
  Turn (λ w, Settled (m w).1) (λ w, (m w).2).

(** A turn that makes the call [m] and goes on with [rest] when [m]
    resolves. *)
Definition thenTurn {A} (m : M unit) (rest : Task A) : Task A :=
  Turn (λ w, match (m w).1 with
             | Ok _ => rest
             | Err error => Settled (Err error)
             end)
       (λ w, (m w).2).

End Promise.

(** ** The job executor *)

Module Executor.
Import Async Remote Xapi World Jobs Promise.

(** How the race of a worker against its deadline ends: the worker has
    settled first, or the deadline has passed while the worker is still
    running. *)
Inductive Raced (A : Type) : Type :=
  | Won (outcome : Result A)
  | Lost (error : Error) (pending : Task A).
Arguments Won {A} outcome.
Arguments Lost {A} error pending.

(** Modelled from the spec: [pTimeout] of [promise-toolbox] (not part of
    these sources) races the worker against a deadline.  The deadline can
    pass between two turns of the worker; the oracle decides whether it
    does, and with which error the race is then lost.  The worker that has
    lost is not stopped: it is left as it is, still running. *)
Fixpoint timeout {A} (env : Env) (vmUuid : string) (p : Task A) (w : World)
  : Raced A * World :=
  match p with
  | Settled outcome => (Won outcome, w)
  | Turn next effect =>
      match faults env (length (journal w)) (Deadline vmUuid) with
      | Some error => (Lost error p, w)
      | None => timeout env vmUuid (next w) (effect w)
      end
  end.

(** Without a deadline the worker runs until it settles. *)
Definition untimed {A} (p : Task A) (w : World) : Raced A * World :=
  let '(outcome, w') := run p w in
  (Won outcome, w').

(** What [await p] gives once the race is over. *)
Definition settled {A} (race : Raced A) : M A :=
  match race with
  | Won outcome => λ w, (outcome, w)
  | Lost error _ => throw error
  end.

(** What a worker that has lost the race still does.  Nothing waits for it,
    and its outcome is dropped; it is run here, at once, as all the promises
    that are started together are run one after the other.  (The
    [vmCancel.cancel()] of the executor reaches the worker through the
    operations that hold the token: their rejection is among the failures
    that the oracle decides.) *)
Definition leftRunning {A} (race : Raced A) : M unit :=
  match race with
  | Won _ => ret tt
  | Lost _ pending => λ w, (Ok tt, (run pending w).2)
  end.

(** The objects that [app.getObjects] offers to a filter on type ['VM']. *)
Definition isVm (o : XapiObject) : bool :=
  String.eqb (dollar_type o) "vm" && negb (is_a_snapshot o)
  && negb (is_a_template o).

(** The entries that the executor logs for one VM. *)
Definition startMessage (job : BackupJob) (vm : Vm) : string :=
  "Starting backup of " +:+ name_label vm +:+ ". (" +:+ job_id job +:+ ")".

Definition startData (runJobId : string) (vm : Vm) : Logs.object :=
  [("event", Logs.Str "task.start"); ("parentId", Logs.Str runJobId);
   ("data", Logs.Obj [("type", Logs.Str "VM"); ("id", Logs.Str (uuid vm))])].

Definition successMessage (job : BackupJob) (vm : Vm) : string :=
  "Backuping " +:+ name_label vm +:+ " is a success. (" +:+ job_id job +:+ ")".

Definition successData (taskId : string) : Logs.object :=
  [("event", Logs.Str "task.end"); ("taskId", Logs.Str taskId);
   ("status", Logs.Str "success")].

Definition failureMessage (job : BackupJob) (vm : Vm) : string :=
  "Backuping " +:+ name_label vm +:+ " has failed. (" +:+ job_id job +:+ ")".

Definition failureData (taskId : string) (error : Error) : Logs.object :=
  [("event", Logs.Str "task.end"); ("taskId", Logs.Str taskId);
   ("status", Logs.Str "failure"); ("result", Tasks.serializeError error)].

(** The promise [p] that the executor awaits for one VM: the worker, raced
    against [vmTimeout] when that is not 0.  The keys given to [getSetting]
    are the four arguments of the call: the VM, the schedule, the logger and
    the task. *)
Definition awaited (env : Env)
    (backupVm : string → BackupJob → Schedule → string → Task unit)
    (job : BackupJob) (schedule : Schedule) (vm : Vm) (taskId : string)
  : World → Raced unit * World :=
  let p := backupVm (uuid vm) job schedule taskId in
  let vmTimeout :=
    Settings.asNumber
      (Settings.getSetting (job_settings job) Settings.VmTimeout
         [uuid vm; schedule_id schedule; "[object Object]"; taskId]) in
  if negb (vmTimeout =? 0) then timeout env (uuid vm) p else untimed p.

(** The function mapped over the matching VMs by the executor. *)
Definition backupOne (env : Env)
    (backupVm : string → BackupJob → Schedule → string → Task unit)
    (job : BackupJob) (schedule : Schedule) (runJobId : string) (vm : Vm)
  : M unit :=
  let* taskId := Tasks.log env (startMessage job vm) (startData runJobId vm) in
  λ w,
    let '(race, w') := awaited env backupVm job schedule vm taskId w in
    (tryCatch
       (settled race >>
        Tasks.log env (successMessage job vm) (successData taskId) >>
        ret tt)
       (λ error,
          Tasks.log env (failureMessage job vm) (failureData taskId error) >>
          ret tt)
     >> leftRunning race) w'.

(** Modelled from the spec: [app.getObjects] with the predicate made of
    [type: 'VM'] and the pattern of the job (neither is part of these
    sources). *)
Definition matching (job : BackupJob) (objs : list XapiObject) : list Vm :=
  List.filter (λ o, isVm o && job_vms job o) objs.

(** The executor registered for ['backup'] jobs, for a worker given by its
    turns. *)
Definition executorOf (env : Env)
    (backupVm : string → BackupJob → Schedule → string → Task unit)
    (job : BackupJob) (schedule : option Schedule) (runJobId : string)
  : M unit :=
  match schedule with
  | None => throw (mkError None "backup job cannot run without a schedule")
  | Some schedule =>
      let* objs := getObjects in
      let vms := matching job objs in
      if bool_decide (vms = [])
      then throw (mkError None "no VMs match this pattern")
      else asyncMap vms (backupOne env backupVm job schedule runJobId) >> ret tt
  end.

(** The executor registered for ['backup'] jobs.  [backupVm] is the worker it
    calls, [this._backupVm], given as an asynchronous call: from its start
    to its end it is one turn. *)
Definition executor (env : Env)
    (backupVm : string → BackupJob → Schedule → string → M unit)
    (job : BackupJob) (schedule : option Schedule) (runJobId : string)
  : M unit :=
  executorOf env
    (λ vmUuid job schedule taskId, atomic (backupVm vmUuid job schedule taskId))
    job schedule runJobId.

(** Modelled from the spec: the runner of jobs (not part of these sources)
    awaits the executor; the run ends in failure exactly when the executor
    rejects. *)
Definition runFails (outcome : Result unit) : bool := negb (isOk outcome).

End Executor.

(** ** A small installation for examples *)

Module Scenario.
Import Async Remote Xapi World Jobs.

Definition env := WriterExamples.env.

Definition web : XapiObject :=
  {| dollar_id := "vm-1"; dollar_ref := "OpaqueRef:vm-1"; dollar_type := "vm";
     uuid := "vm-1"; name_label := "web";
     is_a_snapshot := false; is_a_template := false;
     snapshot_of := ""; snapshot_time := 0;
     blocked_operations := ∅; other_config := ∅; tags := [] |}.

Definition db : XapiObject :=
  {| dollar_id := "vm-2"; dollar_ref := "OpaqueRef:vm-2"; dollar_type := "vm";
     uuid := "vm-2"; name_label := "db";
     is_a_snapshot := false; is_a_template := false;
     snapshot_of := ""; snapshot_time := 0;
     blocked_operations := ∅; other_config := ∅; tags := [] |}.

Definition storage : XapiObject :=
  {| dollar_id := "sr-1"; dollar_ref := "OpaqueRef:sr-1"; dollar_type := "SR";
     uuid := "sr-1"; name_label := "replicas";
     is_a_snapshot := false; is_a_template := false;
     snapshot_of := ""; snapshot_time := 0;
     blocked_operations := ∅; other_config := ∅; tags := [] |}.

Definition pool : World := mkWorld ∅ [web; db; storage] [] [].

Definition settings (exportRetention snapshotRetention : Z)
  : gmap string Settings.Settings :=
  {[ "" := Settings.mkSettings None (Some exportRetention) None
                               (Some snapshotRetention) None ]}.

Definition nightly : Schedule := mkSchedule "".

(** Jobs on one remote; the schedule id is the default scope, as the worker
    looks the retentions up under the schedule only. *)
Definition job (mode : string) (exportRetention snapshotRetention : Z)
  : BackupJob :=
  mkJob "j1" "nightly" None mode (Some (IdIs "r1"))
        (settings exportRetention snapshotRetention) None
        (λ _, true).

Definition run (faults : nat → Op → option Error) (j : BackupJob) (w : World)
  : Result unit * World :=
  Worker.backupVm (env faults) "vm-1" j nightly "t0" w.

(** The remote fails to flush the payload. *)
Definition transferFails : nat → Op → option Error := λ _ op,
  match op with
  | Finish _ _ => Some WriterExamples.ENOSPC
  | _ => None
  end.

(** The hypervisor refuses to snapshot [vm-2]. *)
Definition snapshotOfDbFails : nat → Op → option Error := λ _ op,
  match op with
  | SnapshotVm "vm-2" _ => Some (mkError None "SR_FULL")
  | _ => None
  end.

(** The installation after two full backups of [vm-1] that keep two
    exports and one snapshot. *)
Definition afterTwoFullRuns : World :=
  (run WriterExamples.noFault (job "full" 2 1)
     (run WriterExamples.noFault (job "full" 2 1) pool).2).2.

(** The full backups of the schedule [nightly]. *)
Definition fullOfNightly (m : Metadata) : bool :=
  String.eqb (mode m) "full" && String.eqb (scheduleId m) "".

(** A job on [vm-1] alone, whose backup must end within the hour. *)
Definition hurried : BackupJob :=
  mkJob "j2" "hourly" None "full" (Some (IdIs "r1"))
        {[ "" := Settings.mkSettings None (Some 3) None (Some 2)
                                     (Some 3600000) ]}
        None (λ o, String.eqb (uuid o) "vm-1").

(** A worker of two turns: each waits for the hypervisor once. *)
Definition twoTurns (env : Env) : Promise.Task unit :=
  Promise.thenTurn (await env (Barrier "a"))
    (Promise.thenTurn (await env (Barrier "b")) (Promise.Settled (Ok tt))).

(** The deadline of [vm-1] passes once the journal has two entries. *)
Definition deadlinePasses : nat → Op → option Error := λ n op,
  match op with
  | Deadline "vm-1" =>
      if (2 <=? n)%nat then Some (mkError None "operation timed out")
      else None
  | _ => None
  end.

(** The sidecars of [vm-1] on a remote, and the snapshots of [vm-1]. *)
Definition sidecarPaths (remoteId : string) (w : World) : list string :=
  List.filter (λ p, isMetadataFile p) (map_to_list (files remoteId w)).*1.

Definition snapshotCount (w : World) : nat :=
  length (Hypervisor.snapshotsOf web (objects w)).

End Scenario.

(** ** The sidecars that a remote holds for a VM *)

Module Inventory.
Import Async Remote World.

(** A path that [_listVmBackups] reads in [dir]: a metadata file directly
    under it. *)
Definition isListed (dir path : string) : bool :=
  match Handler.childName dir path with
  | Some name => isMetadataFile name
  | None => false
  end.

(** A file that parses to a metadata record accepted by [predicate]. *)
Definition matches (predicate : Metadata → bool) (f : File) : bool :=
  match f with
  | Sidecar metadata => predicate metadata
  | _ => false
  end.

Definition isSidecarOf (dir : string) (predicate : Metadata → bool)
    (entry : string * File) : Prop :=
  isListed dir entry.1 = true ∧ matches predicate entry.2 = true.

#[global] Instance isSidecarOf_dec dir predicate entry :
  Decision (isSidecarOf dir predicate entry).
Proof. unfold isSidecarOf. apply _. Defined.

(** The sidecars of the VM [vmUuid] on a remote that [predicate] accepts, and
    their number. *)
Definition sidecars (remoteId vmUuid : string) (predicate : Metadata → bool)
    (w : World) : gmap string File :=
  filter (isSidecarOf (getVmBackupDir vmUuid) predicate) (files remoteId w).

Definition count (remoteId vmUuid : string) (predicate : Metadata → bool)
    (w : World) : nat :=
  size (sidecars remoteId vmUuid predicate w).

(** What [_listVmBackups] makes of one directory entry when nothing fails. *)
Definition listed (dir : string) (predicate : Metadata → bool)
    (entry : string * File) : option Metadata :=
  if isListed dir entry.1
  then match entry.2 with
       | Sidecar metadata =>
           if predicate metadata then Some (withFilename entry.1 metadata)
           else None
       | _ => None
       end
  else None.

(** The payloads that a sidecar stored at [path] refers to, an XVA or
    VHDs, are not named like metadata files. *)
Definition payloadsOf (metadata : Metadata) : list string :=
  match xva metadata with Some xva => [xva] | None => [] end
  ++ Dict.values (default [] (vhds metadata)).

Definition payloadsApartOf (env : Env) (path : string) (metadata : Metadata)
  : Prop :=
  Forall (λ payload,
            isMetadataFile (resolveRelativeFromFile env path payload) = false)
         (payloadsOf metadata).

Definition payloadsApart (env : Env) (remoteId : string) (w : World) : Prop :=
  map_Forall
    (λ path f,
       match f with
       | Sidecar metadata => payloadsApartOf env path metadata
       | _ => True
       end)
    (files remoteId w).

(** What [readBackup] makes of the name of a metadata file of [dir] when the
    read does not fail. *)
Definition readAs (dir : string) (predicate : Metadata → bool)
    (fs : gmap string File) (name : string) : option Metadata :=
  let path := dir +:+ "/" +:+ name in
  match fs !! path with
  | Some (Sidecar metadata) =>
      if predicate metadata then Some (withFilename path metadata) else None
  | _ => None
  end.

(** Frames: the files of a remote, or only its sidecars for a VM, are what
    they were. *)
Definition keepsFiles (remoteId : string) : relation World :=
  λ w w', files remoteId w' = files remoteId w.

Definition keepsSidecars (remoteId vmUuid : string)
    (predicate : Metadata → bool) : relation World :=
  λ w w', sidecars remoteId vmUuid predicate w'
          = sidecars remoteId vmUuid predicate w.

(** An entry of a listing that can be deleted: it has the name of a sidecar
    that the remote holds, and its payload is not a metadata file. *)
Definition deletable (env : Env) (remoteId vmUuid : string)
    (predicate : Metadata → bool) (w : World) (backup : Metadata) : Prop :=
  ∃ path,
    _filename backup = Some path
    ∧ is_Some (sidecars remoteId vmUuid predicate w !! path)
    ∧ payloadsApartOf env path backup.

(** Inside a call wrapped by [defer]: the sidecars are what they were, and
    clean-ups that only unlink files not named like metadata files stay
    so. *)
Definition apartUnlinks (ds : list Deferred) : Prop :=
  Forall (λ d, match d with
               | UnlinkPath _ _ path => isMetadataFile path = false
               | _ => False
               end) ds.

Definition keepsSidecarsInside (remoteId vmUuid : string)
    (predicate : Metadata → bool) : relation World :=
  λ w w',
    sidecars remoteId vmUuid predicate w' = sidecars remoteId vmUuid predicate w
    ∧ (apartUnlinks (deferred w) → apartUnlinks (deferred w')).

End Inventory.

(** ** Frames

    [Respects R m] says that running [m] takes a world to one that is
    [R]-related to it.  [R] is a preorder that admits any change of the
    deferred list made and undone inside a [defer]-wrapped call, and the
    journalling of the events in [allowed]. *)

Module Frame.
Import Async Remote World.

Definition Respects {A} (R : relation World) (m : M A) : Prop :=
  ∀ w, R w (m w).2.

(** The journal only grows, by events in [allowed]. *)
Definition extends (allowed : Event → Prop) : relation World :=
  λ w w', ∃ evs, journal w' = journal w ++ evs ∧ Forall allowed evs.

(** The hypervisor objects are untouched, and clean-ups that will only
    unlink files stay so. *)
Definition onlyUnlinks (ds : list Deferred) : Prop :=
  Forall (λ d, match d with UnlinkPath _ _ _ => True | _ => False end) ds.

Definition keepsObjects : relation World :=
  λ w w', objects w' = objects w ∧ (onlyUnlinks (deferred w) → onlyUnlinks (deferred w')).

(** The hypervisor objects and the registered clean-ups are what they
    were. *)
Definition keepsObjectsAndDeferred : relation World :=
  λ w w', objects w' = objects w ∧ deferred w' = deferred w.

(** Every entry that the logger writes for a task named [message]. *)
Definition allowedTask (allowed : Event → Prop) (message : string) : Prop :=
  ∀ id log, Logs.message log = message → allowed (EvLog id log).

(** The operations that create a file on a remote. *)
Definition writes (op : Op) : Prop :=
  match op with
  | CreateOutputStream _ _ _ | OutputFile _ _ => True
  | _ => False
  end.

(** The files of a delta backup on its remote: the metadata file and the
    VHDs to which it refers. *)
Definition deltaPaths (env : Env) (backup : Metadata) : list string :=
  match _filename backup with
  | Some filename =>
      filename
      :: (resolveRelativeFromFile env filename
            <$> Dict.values (default [] (vhds backup)))
  | None => []
  end.

(** An entry of the deletion of the files [paths] of a remote: an entry
    that the logger writes for the task named [merge], under which a delta
    target deletes its old backups, or an attempt to unlink one of the
    files, to merge it into its child, or to rename it. *)
Definition isDeletion (remoteId : string) (paths : list string) (ev : Event)
  : Prop :=
  match ev with
  | EvLog _ log => Logs.message log = "merge"
  | EvOp (Unlink r path _) _
  | EvOp (MergeVhd r path _) _
  | EvOp (Rename r path _ _) _ => r = remoteId ∧ path ∈ paths
  | EvOp _ _ => False
  end.

(** The entries of the task named [transfer], and the creation of a file on a
    remote: a payload or a sidecar. *)
Definition isPayloadOrSidecar (ev : Event) : Prop :=
  match ev with
  | EvLog _ log => Logs.message log = "transfer"
  | EvOp op _ => writes op
  end.

Definition notDeletion (remoteId : string) (paths : list string) (ev : Event)
  : Prop := ¬ isDeletion remoteId paths ev.
Definition notPayloadOrSidecar (ev : Event) : Prop := ¬ isPayloadOrSidecar ev.

(** What has been journalled since [w], in a world [w'] that comes after
    it. *)
Definition since (w w' : World) : list Event :=
  drop (length (journal w)) (journal w').

(** [path] has been deleted: it was unlinked, or it was merged into its
    child and took the name of the child. *)
Definition deleted (remoteId path : string) (evs : list Event) : Prop :=
  EvOp (Unlink remoteId path true) true ∈ evs
  ∨ ∃ childPath,
      EvOp (MergeVhd remoteId path childPath) true ∈ evs
      ∧ EvOp (Rename remoteId path childPath false) true ∈ evs.

(** The clean-ups that are registered unlink none of [paths]. *)
Definition sparedUnlinks (remoteId : string) (paths : list string)
    (ds : list Deferred) : Prop :=
  Forall (λ d, match d with
               | UnlinkPath _ r path => ¬ (r = remoteId ∧ path ∈ paths)
               | _ => False
               end) ds.

(** Inside a call wrapped by [defer]: no entry of the deletion of [paths]
    is journalled and none is registered as a clean-up. *)
Definition sparesInside (remoteId : string) (paths : list string)
  : relation World :=
  λ w w',
    extends (notDeletion remoteId paths) w w'
    ∧ (sparedUnlinks remoteId paths (deferred w) →
       sparedUnlinks remoteId paths (deferred w')).

End Frame.


(** ** Footprints

    What a call may have changed besides the journal. *)

Module Footprint.
Import Async Remote Xapi World.

(** Nothing but the journal differs: the remotes, the objects of the
    hypervisor and the pending clean-ups are the same. *)
Definition readOnly : relation World := λ w w',
  remotes w' = remotes w ∧ objects w' = objects w ∧ deferred w' = deferred w.

(** On the remote [remoteId] only the paths in [paths] may differ; the other
    remotes, the objects of the hypervisor and the pending clean-ups are the
    same. *)
Definition touchesOnly (remoteId : string) (paths : list string)
  : relation World := λ w w',
  (∀ r, r ≠ remoteId → files r w' = files r w)
  ∧ (∀ p, p ∉ paths → files remoteId w' !! p = files remoteId w !! p)
  ∧ objects w' = objects w
  ∧ deferred w' = deferred w.

(** On the remote [remoteId] no file appears: a path that held nothing
    holds nothing. *)
Definition onlyRemoves (remoteId : string) : relation World := λ w w',
  ∀ p, files remoteId w !! p = None → files remoteId w' !! p = None.

(** A clean-up that does not unlink on the remote [r]. *)
Definition unlinksElsewhere (r : string) (d : Deferred) : Prop :=
  match d with
  | UnlinkPath _ remoteId _ => remoteId ≠ r
  | _ => True
  end.

(** The files of the remote [r] are what they were, and pending clean-ups
    that unlink nothing on [r] stay so. *)
Definition sparesRemote (r : string) : relation World := λ w w',
  files r w' = files r w
  ∧ (Forall (unlinksElsewhere r) (deferred w) →
     Forall (unlinksElsewhere r) (deferred w')).

End Footprint.

(** ** Listings *)

Module Listing.
Import Async Remote World.

(** The order in which [_listVmBackups] returns the backups: oldest
    first. *)
Definition byTimestamp : relation Metadata :=
  λ a b, timestamp a ≤ timestamp b.

(** [predicate === undefined || predicate(metadata)]. *)
Definition accepts (predicate : option (Metadata → bool)) (metadata : Metadata)
  : bool :=
  match predicate with
  | None => true
  | Some p => p metadata
  end.

(** The remote refuses to list directories: they do not exist. *)
Definition noDirectory : nat → Op → option Error := λ _ op,
  match op with
  | List _ _ => Some Handler.ENOENT
  | _ => None
  end.

End Listing.

(** ** Deletions *)

Module Deletion.
Import Async Remote World.

(** The paths that [_deleteFullVmBackups] unlinks for one backup: the
    sidecar and the XVA it refers to, each with its [.checksum] sibling. *)
Definition fullPaths (env : Env) (backup : Metadata) : list string :=
  match _filename backup, xva backup with
  | Some filename, Some xva =>
      let payload := resolveRelativeFromFile env filename xva in
      [filename; checksumFile filename; payload; checksumFile payload]
  | Some filename, None => [filename; checksumFile filename]
  | None, _ => []
  end.

(** An attempt to merge a VHD into its parent. *)
Definition mergesVhd (ev : Event) : Prop :=
  match ev with
  | EvOp (MergeVhd _ _ _) _ => True
  | _ => False
  end.

(** A remote with a chain of two VHDs: [b.vhd] is a delta of [a.vhd]. *)
Definition chain : World :=
  mkWorld
    {[ "r1" := {[ "d/a.vhd" := Vhd None; "d/b.vhd" := Vhd (Some "a.vhd") ]} ]}
    [] [] [].

(** The merge worker fails. *)
Definition mergeFails : nat → Op → option Error := λ _ op,
  match op with
  | MergeVhd _ _ _ => Some WriterExamples.EIO
  | _ => None
  end.

(** The oldest of the two backups of [Scenario.afterTwoFullRuns], as the
    lister returns it. *)
Definition oldest : Metadata :=
  mkMetadata (Some "xo-vm-backups/vm-1/20240101T000016Z.json") "j1" "full" ""
             16 None (Some "./20240101T000016Z.xva").

(** The installation after one delta backup of [vm-1], and that backup as
    the lister returns it. *)
Definition afterOneDeltaRun : World :=
  (Scenario.run WriterExamples.noFault (Scenario.job "delta" 2 1)
     Scenario.pool).2.

Definition firstDelta : Metadata :=
  mkMetadata (Some "xo-vm-backups/vm-1/20240101T000016Z.json") "j1" "delta" ""
             16 (Some [("OpaqueRef:vdi-1",
                        "vdis/j1/vdi-1/20240101T000016Z.vhd")])
             None.

End Deletion.

(** ** Deleting a backup by its identifier *)

Module Api.
Import Async Remote World.

Definition noDeleter (mode : string) : Error :=
  mkError None ("no deleter for backup mode " +:+ mode).

(** [deleteVmBackupNg(id)]. *)
Definition deleteVmBackupNg (env : Env) (id : string) : M unit :=
  let parsed := BackupId.parseVmBackupId id in
  let metadataFilename := BackupId.metadataFilename parsed in
  let remoteId := BackupId.remoteId parsed in
  Handler.getRemoteHandler env remoteId >>
  let* f := Handler.readFile env remoteId metadataFilename in
  let* metadata :=
    match f with
    | Sidecar metadata => ret metadata
    | _ => throw Backups.syntaxError
    end in
  let metadata := withFilename metadataFilename metadata in
  if String.eqb (mode metadata) "delta"
  then Backups.deleteDeltaVmBackups env remoteId [metadata]
  else if String.eqb (mode metadata) "full"
  then Backups.deleteFullVmBackups env remoteId [metadata]
  else throw (noDeleter (mode metadata)).

(** The content of a sidecar whose mode is one that has a deleter. *)
Definition deletableSidecar (f : option File) : Prop :=
  match f with
  | Some (Sidecar metadata) => mode metadata = "delta" ∨ mode metadata = "full"
  | _ => False
  end.

(** A remote that holds the sidecar of a backup made in a mode that this
    code does not know. *)
Definition legacyRemote : World :=
  mkWorld
    {[ "r1" := {[ "xo-vm-backups/vm-1/old.json"
                  := Sidecar (mkMetadata None "j0" "legacy" "" 1 None None) ]} ]}
    [] [] [].

End Api.

(** ** The steps of the worker that come before its targets *)

Module Setup.
Import Async Remote World.

(** An entry of the task named [export], under which a target runs. *)
Definition ofExport (ev : Event) : Prop :=
  match ev with
  | EvLog _ log => Logs.message log = "export"
  | EvOp _ _ => False
  end.

Definition notOfExport (ev : Event) : Prop := ¬ ofExport ev.

(** A clean-up that concerns the hypervisor only. *)
Definition onHypervisor (d : Deferred) : Prop :=
  match d with
  | UnlinkPath _ _ _ => False
  | _ => True
  end.

(** The remotes are what they were, nothing was logged for a target, and
    clean-ups that concern the hypervisor only stay so. *)
Definition beforeTargets : relation World := λ w w',
  remotes w' = remotes w
  ∧ Frame.extends notOfExport w w'
  ∧ (Forall onHypervisor (deferred w) → Forall onHypervisor (deferred w')).

(** A call that, when it rejects, leaves a world related to the one it
    started from. *)
Definition RejectsWithin {A} (R : relation World) (m : M A) : Prop :=
  ∀ w e, (m w).1 = Err e → R w (m w).2.

End Setup.
(** * Properties *)

Section RetentionFacts.
Import Retention.
Context {T : Type}.

Lemma slice_prefix (arr : list T) (n : Z) :
  0 < n →
  Js.slice arr 0 (- n) = take (Z.to_nat (Z.of_nat (length arr) - n)) arr.
Proof.
  intros Hn. unfold Js.slice, Js.relIndex.
  replace (0 <? 0) with false by reflexivity.
  destruct (Z.ltb_spec (- n) 0) as [_|?]; [|lia].
  rewrite Z.min_l by lia. simpl. f_equal. lia.
Qed.

Lemma getOldEntries_take (r : Z) (entries : list T) :
  getOldEntries r (Some entries)
    = take (Z.to_nat (Z.of_nat (length entries) - Z.max 0 (r - 1))) entries.
Proof.
  unfold getOldEntries.
  destruct (Z.ltb_spec 0 (r - 1)) as [Hr|Hr].
  - rewrite slice_prefix by done. by rewrite Z.max_r by lia.
  - rewrite Z.max_l by lia. rewrite Z.sub_0_r, Nat2Z.id.
    by rewrite firstn_all.
Qed.

(** C1 (amended). [getOldEntries r entries] is the prefix of [entries]
    that leaves out the newest [max 0 (r - 1)] of them, for every [r]:
    with [r = 0], as with [r = 1], that prefix is the whole list.  With no
    [entries] the result is empty. *)
Theorem getOldEntries_prefix (r : Z) (entries : list T) :
  getOldEntries r (Some entries)
    = take (Z.to_nat (Z.of_nat (length entries) - Z.max 0 (r - 1))) entries
  ∧ getOldEntries r (@None (list T)) = [].
Proof.
  split; [|reflexivity]. unfold getOldEntries.
  destruct (Z.ltb_spec 0 (r - 1)) as [Hr|Hr].
  - rewrite slice_prefix by done. by rewrite Z.max_r by lia.
  - rewrite Z.max_l by lia. rewrite Z.sub_0_r, Nat2Z.id.
    by rewrite firstn_all.
Qed.

Lemma getOldEntries_length (r : Z) (entries : list T) :
  Z.of_nat (length (getOldEntries r (Some entries)))
    = Z.max 0 (Z.of_nat (length entries) - Z.max 0 (r - 1)).
Proof.
  rewrite getOldEntries_take, length_take. lia.
Qed.

Lemma getOldEntries_is_prefix (r : Z) (entries : list T) :
  ∃ kept, entries = getOldEntries r (Some entries) ++ kept
          ∧ Z.of_nat (length kept)
            = Z.min (Z.of_nat (length entries)) (Z.max 0 (r - 1)).
Proof.
  rewrite getOldEntries_take.
  eexists (drop _ entries). split; [by rewrite take_drop|].
  rewrite length_drop. lia.
Qed.
End RetentionFacts.

(** C1 (as stated) fails at retention 0: the claim promises the empty list,
    the code returns every entry. *)
Lemma getOldEntries_zero_keeps_all :
  Retention.getOldEntries 0 (Some [10; 20; 30]) = [10; 20; 30]
  ∧ Retention.getOldEntries 0 (Some [10; 20; 30]) ≠ [].
Proof. split; [reflexivity | discriminate]. Qed.

Example getOldEntries_3_of_5 :
  Retention.getOldEntries 3 (Some [1; 2; 3; 4; 5]) = [1; 2; 3].
Proof. reflexivity. Qed.

Example getOldEntries_short :
  Retention.getOldEntries 4 (Some [1; 2]) = [].
Proof. reflexivity. Qed.

Section SettingsFacts.
Import Settings.
Implicit Types (settings : gmap string Settings) (name : SettingName).

Lemma getSetting_cons settings name key keys :
  getSetting settings name (key :: keys)
    = default (getSetting settings name keys) (defines settings name key).
Proof.
  unfold defines. simpl. destruct (settings !! key) as [o|]; simpl; [|done].
  by destruct (field name o).
Qed.

Lemma getSetting_none_defined settings name keys :
  (∀ key, key ∈ keys → defines settings name key = None) →
  getSetting settings name keys = defaultSettings name.
Proof.
  induction keys as [|key keys IH]; intros Hnone; [done|].
  rewrite getSetting_cons, Hnone by left. simpl.
  apply IH. intros k Hk. apply Hnone. by right.
Qed.

Lemma getSetting_at settings name keys : ∀ (i : nat) key v,
  keys !! i = Some key →
  defines settings name key = Some v →
  (∀ (j : nat) key', (j < i)%nat → keys !! j = Some key' →
     defines settings name key' = None) →
  getSetting settings name keys = v.
Proof.
  induction keys as [|k keys IH]; intros i key v Hi Hdef Hbefore; [done|].
  rewrite getSetting_cons. destruct i as [|i]; simpl in Hi.
  - injection Hi as ->. by rewrite Hdef.
  - rewrite (Hbefore 0%nat k) by (done || lia). simpl.
    apply (IH i key v Hi Hdef). intros j key' Hj Hkey'.
    apply (Hbefore (S j) key'); [lia | done].
Qed.

(** C6. [getSetting] returns the knob's value from the first scope key of
    the caller's list whose setting record defines the knob; when no listed
    scope defines it, the result is the default, and the defaults are
    [false], [0], [0], ['failure'] and [0]. *)
Theorem getSetting_first_scope_wins settings name (keys : list string) :
  (∀ (i : nat) key v,
      keys !! i = Some key →
      defines settings name key = Some v →
      (∀ (j : nat) key', (j < i)%nat → keys !! j = Some key' →
         defines settings name key' = None) →
      getSetting settings name keys = v)
  ∧ ((∀ key, key ∈ keys → defines settings name key = None) →
      getSetting settings name keys = defaultSettings name)
  ∧ defaultSettings DeleteFirst = VBool false
  ∧ defaultSettings ExportRetention = VNumber 0
  ∧ defaultSettings SnapshotRetention = VNumber 0
  ∧ defaultSettings ReportWhenKnob = VReportWhen Failure
  ∧ defaultSettings VmTimeout = VNumber 0.
Proof.
  split; [apply getSetting_at|].
  split; [apply getSetting_none_defined|]. by repeat split.
Qed.

(** A knob of boolean type only ever resolves to a boolean. *)
Lemma getSetting_deleteFirst_bool settings keys :
  ∃ b, getSetting settings DeleteFirst keys = VBool b.
Proof.
  induction keys as [|k keys [b IH]]; [by exists false|].
  rewrite getSetting_cons, IH. unfold defines.
  destruct (settings !! k) as [o|]; simpl; [|by eexists].
  destruct (deleteFirst o); simpl; by eexists.
Qed.

Lemma getSetting_retention_number settings name keys :
  name = ExportRetention ∨ name = SnapshotRetention ∨ name = VmTimeout →
  ∃ n, getSetting settings name keys = VNumber n.
Proof.
  intros Hname. induction keys as [|k keys [n IH]].
  - destruct Hname as [->|[->| ->]]; by exists 0.
  - rewrite getSetting_cons, IH. unfold defines.
    destruct (settings !! k) as [o|]; simpl; [|by eexists].
    destruct Hname as [->|[->| ->]]; simpl;
      match goal with |- context [?f o] => destruct (f o) end;
      simpl; by eexists.
Qed.
End SettingsFacts.

(** Witness for C6: the VM scope defines nothing, the schedule wins over the
    job default; and an unknown scope falls back to the default. *)
Lemma getSetting_first_scope_wins_witness :
  Settings.getSetting SettingsExamples.jobSettings Settings.ExportRetention
      ["vm1"; "s1"; ""] = Settings.VNumber 5
  ∧ Settings.getSetting SettingsExamples.jobSettings Settings.VmTimeout
      ["vm1"; "s1"] = Settings.VNumber 0.
Proof.
  pose proof (getSetting_first_scope_wins SettingsExamples.jobSettings
                Settings.ExportRetention ["vm1"; "s1"; ""]) as [Hfirst _].
  pose proof (getSetting_first_scope_wins SettingsExamples.jobSettings
                Settings.VmTimeout ["vm1"; "s1"]) as [_ [Hdef _]].
  split.
  - apply (Hfirst 1%nat "s1"); [reflexivity | reflexivity |].
    intros [|j] key' Hj Hkey; [|lia]. injection Hkey as <-. reflexivity.
  - apply Hdef. intros key Hkey.
    apply elem_of_cons in Hkey as [->|Hkey]; [reflexivity|].
    apply elem_of_cons in Hkey as [->|Hkey]; [reflexivity|].
    by apply elem_of_nil in Hkey.
Defined.

Section BackupIdFacts.
Import BackupId.

Lemma strLength_app (a b : string) :
  String.length (a +:+ b) = (String.length a + String.length b)%nat.
Proof. induction a as [|c a IH]; simpl; [done | by rewrite IH]. Qed.

Lemma strTake_app (a b : string) : Js.strTake (String.length a) (a +:+ b) = a.
Proof. induction a as [|c a IH]; simpl; [by destruct b | by rewrite IH]. Qed.

Lemma strDrop_app (a b : string) : Js.strDrop (String.length a) (a +:+ b) = b.
Proof. induction a as [|c a IH]; simpl; done. Qed.

Lemma strTake_all (s : string) : Js.strTake (String.length s) s = s.
Proof. induction s as [|c s IH]; simpl; [done | by rewrite IH]. Qed.

Lemma indexOfFrom_app c (a b : string) (i : Z) :
  c ∉ list_ascii_of_string a →
  Js.indexOfFrom c (a +:+ String c b) i = i + Z.of_nat (String.length a).
Proof.
  revert i. induction a as [|x a IH]; intros i Hnotin; simpl.
  - rewrite Ascii.eqb_refl. lia.
  - simpl in Hnotin. apply not_elem_of_cons in Hnotin as [Hne Hnotin].
    destruct (Ascii.eqb_spec x c) as [->|_]; [done|].
    rewrite IH by done. lia.
Qed.

(** C10. For a [remoteId] without ['/'] and any [metadataFilename],
    [parseVmBackupId] applied to the identifier that [listVmBackupsNg]
    builds, [remoteId + '/' + metadataFilename], gives back exactly the
    two parts: it splits at the first ['/']. *)
Theorem parseVmBackupId_left_inverse (remoteId metadataFilename : string) :
  "/"%char ∉ list_ascii_of_string remoteId →
  parseVmBackupId (makeVmBackupId remoteId metadataFilename)
    = mkParsedId metadataFilename remoteId.
Proof.
  intros Hnoslash. unfold parseVmBackupId, makeVmBackupId, Js.indexOf.
  change ("/" +:+ metadataFilename) with (String "/" metadataFilename).
  rewrite indexOfFrom_app by done. rewrite Z.add_0_l.
  set (n := String.length remoteId).
  unfold Js.strSlice, Js.relIndex. rewrite strLength_app. simpl String.length.
  fold n. f_equal.
  - destruct (Z.ltb_spec (Z.of_nat n + 1) 0) as [?|_]; [lia|].
    rewrite Z.min_l by lia.
    replace (Z.to_nat (Z.of_nat n + 1)) with (S n) by lia.
    replace (Z.to_nat (Z.of_nat (n + S (String.length metadataFilename))
                       - (Z.of_nat n + 1)))
      with (String.length metadataFilename) by lia.
    change (S n) with (1 + n)%nat.
    replace (Js.strDrop (1 + n) (remoteId +:+ String "/" metadataFilename))
      with metadataFilename; [apply strTake_all|].
    unfold n. clear. induction remoteId as [|c r IH]; simpl; [done|].
    exact IH.
  - replace (0 <? 0) with false by reflexivity.
    destruct (Z.ltb_spec (Z.of_nat n) 0) as [?|_]; [lia|].
    rewrite !Z.min_l by lia. simpl Z.to_nat.
    replace (Z.to_nat (Z.of_nat n - 0)) with n by lia.
    apply strTake_app.
Qed.
End BackupIdFacts.

(** Witness for C10 on a remote id and a sidecar path as the lister
    produces them. *)
Lemma parseVmBackupId_left_inverse_witness :
  BackupId.parseVmBackupId
    (BackupId.makeVmBackupId "remote-1" "xo-vm-backups/vm-1/20240101T000000Z.json")
  = BackupId.mkParsedId "xo-vm-backups/vm-1/20240101T000000Z.json" "remote-1".
Proof.
  apply (parseVmBackupId_left_inverse "remote-1"
           "xo-vm-backups/vm-1/20240101T000000Z.json").
  vm_compute. intros Hin.
  repeat (apply elem_of_cons in Hin as [Heq|Hin]; [discriminate Heq|]).
  by apply elem_of_nil in Hin.
Defined.

(** Without the side condition the split happens too early: a remote id that
    contains ['/'] is not recovered. *)
Example parseVmBackupId_slash_in_remote :
  BackupId.remoteId (BackupId.parseVmBackupId (BackupId.makeVmBackupId "a/b" "f.json"))
  = "a".
Proof. reflexivity. Qed.

Example parseVmBackupId_no_slash :
  BackupId.parseVmBackupId "abc" = BackupId.mkParsedId "abc" "ab".
Proof. reflexivity. Qed.

(** ** Dictionaries and sorting *)

Section DictFacts.
Context {V : Type}.
Implicit Types (d : Dict.t V) (k : string) (v : V).

Lemma Dict_get_set_eq k v d : Dict.get k (Dict.set k v d) = Some v.
Proof.
  induction d as [|[k' v'] d IH]; simpl.
  - by rewrite String.eqb_refl.
  - destruct (String.eqb_spec k' k) as [->|Hne]; simpl.
    + by rewrite String.eqb_refl.
    + by destruct (String.eqb_spec k' k).
Qed.

Lemma Dict_get_set_ne k k' v d :
  k ≠ k' → Dict.get k' (Dict.set k v d) = Dict.get k' d.
Proof.
  intros Hne. induction d as [|[k0 v0] d IH]; simpl.
  - by destruct (String.eqb_spec k k').
  - destruct (String.eqb_spec k0 k) as [->|Hne0]; simpl.
    + destruct (String.eqb_spec k k'); done.
    + destruct (String.eqb_spec k0 k'); done.
Qed.

Lemma Dict_get_delete_eq k d : Dict.get k (Dict.delete k d) = None.
Proof.
  induction d as [|[k0 v0] d IH]; simpl; [done|].
  destruct (String.eqb_spec k0 k) as [->|Hne0]; simpl; [done|].
  by destruct (String.eqb_spec k0 k).
Qed.

Lemma Dict_get_delete_ne k k' d :
  k ≠ k' → Dict.get k' (Dict.delete k d) = Dict.get k' d.
Proof.
  intros Hne. induction d as [|[k0 v0] d IH]; simpl; [done|].
  destruct (String.eqb_spec k0 k) as [->|Hne0]; simpl.
  - by destruct (String.eqb_spec k k').
  - by destruct (String.eqb_spec k0 k').
Qed.

Lemma Dict_elem_of_set k v d k' v' :
  (k', v') ∈ Dict.set k v d → (k' = k ∧ v' = v) ∨ (k', v') ∈ d.
Proof.
  induction d as [|[k0 v0] d IH]; simpl.
  - intros [= -> ->]%list_elem_of_singleton. by left.
  - destruct (String.eqb_spec k0 k) as [->|Hne0].
    + intros [Heq|Hin]%elem_of_cons; [left; by simplify_eq|].
      right. by right.
    + intros [Heq|Hin]%elem_of_cons; [right; rewrite Heq; by left|].
      destruct (IH Hin) as [?|?]; [by left|]. right. by right.
Qed.



Lemma Dict_keys_set k v d :
  k ∈ Dict.keys d → Dict.keys (Dict.set k v d) = Dict.keys d.
Proof.
  unfold Dict.keys. induction d as [|[k0 v0] d IH]; simpl.
  - by intros ?%elem_of_nil.
  - destruct (String.eqb_spec k0 k) as [->|Hne0]; simpl; [done|].
    intros [?|Hin]%elem_of_cons; [congruence|]. f_equal. by apply IH.
Qed.

Lemma Dict_keys_set_fresh k v d :
  k ∉ Dict.keys d → Dict.set k v d = d ++ [(k, v)].
Proof.
  unfold Dict.keys. induction d as [|[k0 v0] d IH]; simpl; [done|].
  intros [Hne Hnotin]%not_elem_of_cons.
  destruct (String.eqb_spec k0 k) as [->|_]; [done|]. f_equal. by apply IH.
Qed.

Lemma Dict_keys_NoDup_set k v d :
  NoDup (Dict.keys d) → NoDup (Dict.keys (Dict.set k v d)).
Proof.
  intros Hnd. destruct (decide (k ∈ Dict.keys d)) as [Hin|Hnotin].
  - by rewrite Dict_keys_set.
  - rewrite Dict_keys_set_fresh by done. unfold Dict.keys in *.
    rewrite fmap_app. simpl. apply NoDup_app. split; [done|].
    split; [|apply NoDup_singleton].
    intros x Hx ->%list_elem_of_singleton. done.
Qed.
End DictFacts.

Section SortFacts.
Context {T : Type} (compare : T → T → Z) (le : relation T).
Context `{!Transitive le}.
Hypothesis compare_greater : ∀ a b, 0 < compare a b → le b a.
Hypothesis compare_not_greater : ∀ a b, ¬ 0 < compare a b → le a b.

Lemma insert_Permutation element acc :
  Sort.insert compare element acc ≡ₚ element :: acc.
Proof.
  induction acc as [|tmp rest IH]; simpl; [done|].
  destruct (0 <? compare tmp element); [|done].
  rewrite IH. apply Permutation_swap.
Qed.

Lemma sort_Permutation arr : Sort.sort compare arr ≡ₚ arr.
Proof.
  unfold Sort.sort. rewrite reverse_Permutation.
  assert (∀ acc, foldl (λ acc element, Sort.insert compare element acc)
                       acc arr ≡ₚ arr ++ acc) as Hfold.
  { induction arr as [|x arr IH]; intros acc; simpl; [done|].
    rewrite IH, insert_Permutation. by rewrite Permutation_middle. }
  by rewrite Hfold, app_nil_r.
Qed.

Lemma insert_HdRel x element acc :
  le element x → HdRel (flip le) x acc →
  HdRel (flip le) x (Sort.insert compare element acc).
Proof.
  intros Hle Hhd. destruct acc as [|tmp rest]; simpl; [by constructor|].
  destruct (0 <? compare tmp element); constructor; [|done].
  by inversion Hhd.
Qed.

Lemma insert_Sorted element acc :
  Sorted (flip le) acc → Sorted (flip le) (Sort.insert compare element acc).
Proof.
  induction 1 as [|tmp rest Hsorted IH Hhd]; simpl.
  - by repeat constructor.
  - destruct (Z.ltb_spec 0 (compare tmp element)) as [Hgt|Hngt].
    + constructor; [done|]. apply insert_HdRel; [|done].
      by apply compare_greater.
    + constructor; [by constructor|]. constructor.
      apply compare_not_greater. lia.
Qed.

Lemma sort_Sorted arr : Sorted le (Sort.sort compare arr).
Proof.
  unfold Sort.sort.
  assert (∀ acc, Sorted (flip le) acc →
            Sorted (flip le)
              (foldl (λ acc element, Sort.insert compare element acc) acc arr))
    as Hfold.
  { induction arr as [|x arr IH]; intros acc Hacc; simpl; [done|].
    apply IH. by apply insert_Sorted. }
  apply (Sorted_reverse (flip le)). apply Hfold. constructor.
Qed.
End SortFacts.

(** ** Replicated VMs *)

Section ReplicatedVms.
Import Xapi.

#[local] Instance bySnapshotTime_trans : Transitive bySnapshotTime.
Proof. unfold bySnapshotTime. intros a b c. lia. Qed.


Context (scheduleId srId : string) (vmUuid : option string).

Abbreviation collect := (collectReplicatedVm scheduleId srId vmUuid).

Lemma collect_sound all : ∀ acc k o,
  (k, o) ∈ foldl collect acc all →
  (k, o) ∈ acc
  ∨ (k = dollar_id o ∧ isReplicatedVm scheduleId srId vmUuid o = true
     ∧ ∃ key, (key, o) ∈ all).
Proof.
  induction all as [|[key object] all IH]; intros acc k o Hin; simpl in Hin.
  { by left. }
  apply IH in Hin as [Hin|(-> & Hrep & key' & Hkey')].
  - unfold collectReplicatedVm in Hin.
    destruct (isReplicatedVm scheduleId srId vmUuid object) eqn:Hrep;
      [|by left].
    apply Dict_elem_of_set in Hin as [[-> ->]|Hin]; [|by left].
    right. split_and!; [done..|]. exists key. by left.
  - right. split_and!; [done..|]. exists key'. by right.
Qed.



(** What the [if] of [listReplicatedVms] tests. *)
Lemma isReplicatedVm_spec (o : XapiObject) :
  isReplicatedVm scheduleId srId vmUuid o = true ↔
    dollar_type o = "vm"
    ∧ is_a_snapshot o = false
    ∧ is_a_template o = false
    ∧ is_Some (blocked_operations o !! "start")
    ∧ other_config o !! "xo:backup:schedule" = Some scheduleId
    ∧ other_config o !! "xo:backup:sr" = Some srId
    ∧ (other_config o !! "xo:backup:vm" = vmUuid
       ∨ other_config o !! "xo:backup:vm" = None).
Proof.
  unfold isReplicatedVm.
  rewrite !andb_true_iff, orb_true_iff, !negb_true_iff,
    !bool_decide_eq_true, String.eqb_eq.
  tauto.
Qed.

End ReplicatedVms.



Example consolidate_degenerate_merge :
  Logs.consolidate None
    (LogsExamples.started ++ [("e3", LogsExamples.mergeEndAtOnce)])
  = Logs.consolidate None
      [("run1", LogsExamples.jobStart); ("t1", LogsExamples.vmStart);
       ("t2", LogsExamples.exportStart)].
Proof. vm_compute. reflexivity. Qed.

Example consolidate_merge_with_duration :
  ∃ logs,
    Logs.consolidate None
      (LogsExamples.started ++ [("e3", LogsExamples.mergeEndLater)])
    = Logs.Normal logs
    ∧ Dict.get "t3" (Logs.own logs)
      = Some [("parentId", Logs.Str "t2"); ("start", Logs.Num 1030);
              ("message", Logs.Str "merge"); ("status", Logs.Str "success");
              ("taskId", Logs.Str "t3");
              ("result", Logs.Obj [("size", Logs.Num 0)]);
              ("end", Logs.Num 1090); ("duration", Logs.Num 60)].
Proof. eexists. split; vm_compute; reflexivity. Qed.

(** A task whose parent is a method of [Object.prototype] is kept, although
    no job was started: [logs['toString']] is not [undefined]. *)
Example consolidate_inherited_parent :
  Logs.getBackupNgLogs None [("t9", LogsExamples.orphanStart)]
  = Logs.Normal
      [("toString",
        [Logs.Obj [("parentId", Logs.Str "toString");
                   ("start", Logs.Num 1040);
                   ("message", Logs.Str "export")]])].
Proof. vm_compute. reflexivity. Qed.

(** An end event for ['__proto__'] writes on [Object.prototype]; the field
    [end] that every object inherits from then on is a number, on which the
    next end event for ['end'] cannot write. *)
Example consolidate_polluted_prototype :
  Logs.consolidate None [("e1", LogsExamples.prototypeEnd)]
  = Logs.Normal
      (Logs.mkConsolidated [] None
         [("end", Logs.Num 1050); ("duration", Logs.NaN);
          ("error", Logs.Undefined)])
  ∧ Logs.consolidate None
      [("e1", LogsExamples.prototypeEnd); ("e2", LogsExamples.endEnd)]
    = Logs.TypeError.
Proof. split; vm_compute; reflexivity. Qed.

(** A record stored under ['__proto__'] becomes the prototype of [logs];
    when it has a [length], lodash takes [logs] for an array. *)
Example consolidate_array_like :
  Logs.getBackupNgLogs None
    [("0", LogsExamples.jobStart); ("__proto__", LogsExamples.prototypeStart)]
  = Logs.Normal
      [("roots",
        [Logs.Obj [("type", Logs.Str "backup"); ("jobId", Logs.Str "j1");
                   ("mode", Logs.Str "delta"); ("id", Logs.Str "0");
                   ("start", Logs.Num 1000)]])]
  ∧ Logs.getBackupNgLogs None [("__proto__", LogsExamples.prototypeStart)]
    = Logs.TypeError.
Proof. split; vm_compute; reflexivity. Qed.

(** ** Log consolidation *)

Section DictMoreFacts.
Context {V : Type}.
Implicit Types (d : Dict.t V) (k : string) (v : V).

Lemma Dict_keys_NoDup_delete k d :
  NoDup (Dict.keys d) → NoDup (Dict.keys (Dict.delete k d)).
Proof.
  unfold Dict.keys. induction d as [|[k0 v0] d IH]; simpl; [done|].
  intros [Hnotin Hnd]%NoDup_cons.
  destruct (String.eqb_spec k0 k) as [->|Hne]; [by apply IH|].
  simpl. apply NoDup_cons. split; [|by apply IH].
  intros Hin. apply Hnotin. clear -Hin.
  induction d as [|[k1 v1] d IH]; simpl in *; [done|].
  destruct (String.eqb_spec k1 k); [right; by apply IH|].
  simpl in Hin. apply elem_of_cons in Hin as [->|Hin]; [by left|].
  right. by apply IH.
Qed.

Lemma Dict_delete_absent k d : k ∉ Dict.keys d → Dict.delete k d = d.
Proof.
  unfold Dict.keys. induction d as [|[k0 v0] d IH]; simpl; [done|].
  intros [Hne Hnotin]%not_elem_of_cons.
  destruct (String.eqb_spec k0 k); [congruence|]. f_equal. by apply IH.
Qed.

Lemma Dict_length_delete k v d :
  NoDup (Dict.keys d) → Dict.get k d = Some v →
  S (length (Dict.delete k d)) = length d.
Proof.
  unfold Dict.keys. induction d as [|[k0 v0] d IH]; simpl; [done|].
  intros [Hnotin Hnd]%NoDup_cons Hget.
  destruct (String.eqb_spec k0 k) as [->|Hne].
  - by rewrite Dict_delete_absent.
  - simpl. f_equal. by apply IH.
Qed.

Lemma Dict_length_set k v d :
  is_Some (Dict.get k d) → length (Dict.set k v d) = length d.
Proof.
  induction d as [|[k0 v0] d IH]; simpl; [by intros [? ?]|].
  destruct (String.eqb_spec k0 k); simpl; [done|].
  intros Hsome. f_equal. by apply IH.
Qed.
End DictMoreFacts.

(** Closes a goal that is decided by computation, such as the membership
    of a given name in a given list. *)
Ltac decided := apply (bool_decide_unpack _); vm_compute; exact I.

Section LogFacts.
Import Logs.
Implicit Types (logs : Consolidated) (o : object).

Lemma prop_set_eq o k v : prop (Dict.set k v o) k = v.
Proof. unfold prop. by rewrite Dict_get_set_eq. Qed.

Lemma prop_set_ne o k k' v : k ≠ k' → prop (Dict.set k v o) k' = prop o k'.
Proof. intros Hne. unfold prop. by rewrite Dict_get_set_ne. Qed.

Lemma prop_delete_ne o k k' : k ≠ k' → prop (Dict.delete k o) k' = prop o k'.
Proof. intros Hne. unfold prop. by rewrite Dict_get_delete_ne. Qed.

Lemma strictEq_Num n v : strictEq (Num n) v = true ↔ v = Num n.
Proof.
  destruct v; simpl; try (split; [discriminate|congruence]).
  rewrite Z.eqb_eq. split; congruence.
Qed.

Lemma strictEq_Str v s : strictEq v (Str s) = true → v = Str s.
Proof.
  destruct v; simpl; try discriminate. by intros ->%String.eqb_eq.
Qed.

Ltac props :=
  repeat first
    [ rewrite prop_set_eq
    | rewrite prop_set_ne by discriminate
    | rewrite prop_delete_ne by discriminate ].

Lemma Dict_get_keys {V} k (d : Dict.t V) v :
  Dict.get k d = Some v → k ∈ Dict.keys d.
Proof.
  unfold Dict.keys. induction d as [|[k0 v0] d IH]; simpl; [done|].
  destruct (String.eqb_spec k0 k) as [->|Hne]; [by left|].
  intros Hget. right. by apply IH.
Qed.

Lemma Dict_get_None {V} k (d : Dict.t V) :
  k ∉ Dict.keys d → Dict.get k d = None.
Proof.
  intros Hk. destruct (Dict.get k d) as [v|] eqn:Hget; [|done].
  by apply Dict_get_keys in Hget.
Qed.

Lemma Dict_keys_set_sub {V} k (v : V) (d : Dict.t V) k' :
  k' ∈ Dict.keys (Dict.set k v d) → k' = k ∨ k' ∈ Dict.keys d.
Proof.
  unfold Dict.keys. intros ([k0 v0] & -> & Hin)%list_elem_of_fmap.
  apply Dict_elem_of_set in Hin as [[-> _]|Hin]; [by left|].
  right. by apply (list_elem_of_fmap_2 fst) in Hin.
Qed.

Lemma Dict_keys_delete_sub {V} k (d : Dict.t V) k' :
  k' ∈ Dict.keys (Dict.delete k d) → k' ∈ Dict.keys d.
Proof.
  unfold Dict.keys. induction d as [|[k0 v0] d IH]; simpl; [done|].
  destruct (String.eqb_spec k0 k) as [->|Hne].
  - intros Hin. right. by apply IH.
  - simpl. intros [->|Hin]%elem_of_cons; [by left|]. right. by apply IH.
Qed.

(** A name that no end event writes is read from the object itself. *)
Lemma get_own logs o k :
  consistent logs → k ∉ endFields → get (objectPrototype logs) o k = prop o k.
Proof.
  intros (_ & _ & Hshared) Hk. unfold get, prop.
  destruct (Dict.get k o); [done|].
  rewrite Dict_get_None; [done|]. intros Hin. by apply Hk, Hshared.
Qed.

Lemma get_set_eq shared o k v : get shared (Dict.set k v o) k = v.
Proof. unfold get. by rewrite Dict_get_set_eq. Qed.

Lemma get_set_ne shared o k k' v :
  k ≠ k' → get shared (Dict.set k v o) k' = get shared o k'.
Proof. intros Hne. unfold get. by rewrite Dict_get_set_ne. Qed.

Lemma get_delete_ne shared o k k' :
  k ≠ k' → get shared (Dict.delete k o) k' = get shared o k'.
Proof. intros Hne. unfold get. by rewrite Dict_get_delete_ne. Qed.

(** What [logs[key]] has found, by where it was found. *)
Lemma lookup_Object logs key holder o :
  lookup logs key = Object holder o →
  match holder with
  | OwnProperty => Dict.get key (own logs) = Some o
  | ThePrototype => proto logs = Some o
  | TheObjectPrototype => o = objectPrototype logs
  | AMethod => key ∈ objectPrototypeMethods
  | PrototypeProperty =>
      ∃ record, proto logs = Some record ∧ Dict.get key record = Some (Obj o)
  | ObjectPrototypeProperty =>
      Dict.get key (objectPrototype logs) = Some (Obj o)
  end.
Proof.
  unfold lookup.
  destruct (Dict.get key (own logs)) as [record|] eqn:Hown.
  { by intros [= <- <-]. }
  destruct (proto logs ≫= Dict.get key) as [v|] eqn:Hproto.
  { destruct (proto logs) as [record|] eqn:Hrecord; [|done].
    simpl in Hproto. destruct v; simpl; try done.
    intros [= <- <-]. eauto. }
  destruct (String.eqb key "__proto__").
  { destruct (proto logs); by intros [= <- <-]. }
  destruct (Dict.get key (objectPrototype logs)) as [v|] eqn:Hshared.
  { destruct v; simpl; try done. by intros [= <- <-]. }
  case_bool_decide; [|done]. by intros [= <- <-].
Qed.

Lemma lookup_own logs key record :
  Dict.get key (own logs) = Some record →
  lookup logs key = Object OwnProperty record.
Proof. intros Hget. unfold lookup. by rewrite Hget. Qed.

Lemma hasStart_set (d : Dict.t object) k r start :
  hasStart d → prop r "start" = Num start → hasStart (Dict.set k r d).
Proof.
  intros Hlogs Hr k' r' Hget. destruct (decide (k = k')) as [->|Hne].
  - rewrite Dict_get_set_eq in Hget. injection Hget as <-. by exists start.
  - rewrite Dict_get_set_ne in Hget by done. by eapply Hlogs.
Qed.

Lemma hasStart_delete (d : Dict.t object) k :
  hasStart d → hasStart (Dict.delete k d).
Proof.
  intros Hlogs k' r' Hget. destruct (decide (k = k')) as [->|Hne].
  - by rewrite Dict_get_delete_eq in Hget.
  - rewrite Dict_get_delete_ne in Hget by done. by eapply Hlogs.
Qed.

Lemma assign_consistent logs id record start :
  consistent logs → prop record "start" = Num start →
  consistent (assign id record logs).
Proof.
  intros (Hnd & Hstart & Hshared) Hrecord. unfold assign.
  destruct (_ && _); split_and!; try done; cbn [own].
  - by apply Dict_keys_NoDup_set.
  - by eapply hasStart_set.
Qed.

Lemma remove_consistent logs key :
  consistent logs → consistent (remove key logs).
Proof.
  intros (Hnd & Hstart & Hshared). split_and!; try done; cbn [own remove].
  - by apply Dict_keys_NoDup_delete.
  - by apply hasStart_delete.
Qed.

(** Writing fields of end events on what [logs[key]] has found. *)
Lemma update_consistent logs key holder o o' :
  consistent logs → lookup logs key = Object holder o →
  (∀ k, k ∈ Dict.keys o' → k ∈ Dict.keys o ∨ k ∈ endFields) →
  prop o' "start" = prop o "start" →
  consistent (update key holder o' logs).
Proof.
  intros (Hnd & Hstart & Hshared) Hfound%lookup_Object Hkeys Hsame.
  destruct holder; cbn [update]; split_and!; try done; cbn [own objectPrototype].
  - by apply Dict_keys_NoDup_set.
  - destruct (Hstart _ _ Hfound) as [start Hs].
    eapply hasStart_set; [done|]. by rewrite Hsame.
  - subst o. intros k [Hk|Hk]%Hkeys; [by apply Hshared|done].
  - intros k [->|Hk]%Dict_keys_set_sub; [|by apply Hshared].
    apply Hshared. by eapply Dict_get_keys.
Qed.

Lemma consolidateLog_consistent runId logs entry logs' :
  consistent logs → consolidateLog runId logs entry = Normal logs' →
  consistent logs'.
Proof.
  intros Hlogs. destruct entry as [id [data time message]].
  unfold consolidateLog. cbn [Logs.data Logs.time Logs.message].
  set (shared := objectPrototype logs).
  destruct (strictEq _ (Str "job.start")).
  { destruct (_ && _); intros [= <-]; [|done].
    eapply assign_consistent; [done|]. by props. }
  destruct (strictEq _ (Str "job.end")).
  { destruct (lookup logs _) as [|v|holder job] eqn:Hfound;
      [by intros [= <-]|done|].
    intros [= <-]. eapply update_consistent; [done..| |by props].
    intros k Hk.
    repeat (apply Dict_keys_set_sub in Hk as [->|Hk]; [right; decided|]).
    by left. }
  destruct (strictEq _ (Str "task.start")).
  { destruct (lookup logs _) as [|v|holder parent]; intros [= <-];
      [done|..]; (eapply assign_consistent; [done|]; by props). }
  destruct (strictEq _ (Str "task.end")); [|by intros [= <-]].
  destruct (lookup logs _) as [|v|holder task] eqn:Hfound;
    [by intros [= <-]|done|].
  destruct (_ && _); intros [= <-]; [by apply remove_consistent|].
  eapply update_consistent; [done..| |by props].
  intros k Hk.
  repeat (apply Dict_keys_set_sub in Hk as [->|Hk]; [right; decided|]).
  by left.
Qed.

Lemma consolidate_snoc runId rawLogs entry :
  consolidate runId (rawLogs ++ [entry])
  = match consolidate runId rawLogs with
    | Normal logs => consolidateLog runId logs entry
    | TypeError => TypeError
    end.
Proof. unfold consolidate. by rewrite foldl_app. Qed.

Lemma empty_consistent : consistent empty.
Proof.
  split_and!; [constructor|by intros k r [=]|by intros k ?%elem_of_nil].
Qed.

Lemma consolidate_consistent runId rawLogs logs :
  consolidate runId rawLogs = Normal logs → consistent logs.
Proof.
  revert logs. induction rawLogs as [|entry rawLogs IH] using rev_ind;
    intros logs.
  - intros [= <-]. apply empty_consistent.
  - rewrite consolidate_snoc.
    destruct (consolidate runId rawLogs) as [logs0|]; [|done].
    apply consolidateLog_consistent. by apply IH.
Qed.

Lemma groupBy_length {V} (iteratee : V → value) (elements : list V) :
  length (records (groupBy iteratee elements)) = length elements.
Proof.
  unfold groupBy, records.
  assert (∀ (groups : Dict.t (list V)) key v,
            length (concat (Dict.values
              (Dict.set key (default [] (Dict.get key groups) ++ [v]) groups)))
            = S (length (concat (Dict.values groups)))) as Hstep.
  { intros groups key v. unfold Dict.values.
    induction groups as [|[k0 l0] groups IH]; simpl; [done|].
    destruct (String.eqb_spec k0 key) as [->|Hne]; simpl.
    - rewrite !length_app. simpl. lia.
    - rewrite !length_app. change (list_fmap _ _ snd ?l) with (l.*2).
      rewrite IH. lia. }
  assert (∀ vs (groups : Dict.t (list V)),
            length (concat (Dict.values
              (foldl (λ groups v,
                        let key := toPropertyKey (iteratee v) in
                        Dict.set key (default [] (Dict.get key groups) ++ [v])
                                 groups) groups vs)))
            = (length (concat (Dict.values groups)) + length vs)%nat)
    as Hfold.
  { induction vs as [|v vs IH]; intros groups; simpl; [lia|].
    rewrite IH, Hstep. lia. }
  by rewrite Hfold.
Qed.

(** As long as the prototype of [logs] is [Object.prototype], lodash visits
    the records of [logs] and [getBackupNgLogs] returns their groups. *)
Lemma collection_plain logs :
  consistent logs → proto logs = None →
  collection logs = Obj <$> Dict.values (own logs).
Proof.
  intros (_ & _ & Hshared) Hproto. unfold collection, arrayLength, lookup.
  rewrite Hproto. cbn [mbind option_bind].
  destruct (Dict.get "length" (own logs)); [done|].
  change ("length" =? "__proto__")%string with false. cbv iota.
  rewrite Dict_get_None; [by rewrite bool_decide_eq_false_2 by decided|].
  intros Hin%Hshared. revert Hin. change (¬ "length" ∈ endFields). decided.
Qed.

Lemma getBackupNgLogs_plain runId rawLogs logs :
  consolidate runId rawLogs = Normal logs → proto logs = None →
  getBackupNgLogs runId rawLogs
  = Normal (groupBy (parentIdOrRoots (objectPrototype logs))
                    (Obj <$> Dict.values (own logs))).
Proof.
  intros Hrun Hproto. unfold getBackupNgLogs. rewrite Hrun.
  rewrite collection_plain by eauto using consolidate_consistent.
  rewrite (proj2 (forallb_forall _ _)); [done|].
  intros v Hin. by apply list_elem_of_In, list_elem_of_fmap in Hin as (r & -> & _).
Qed.

(** One [task.end] event for a record that [logs] holds as its own. *)
Lemma consolidateLog_task_end runId logs id log task start :
  let shared := objectPrototype logs in
  let key := toPropertyKey (get shared (data log) "taskId") in
  consistent logs →
  prop (data log) "event" = Str "task.end" →
  Dict.get key (own logs) = Some task →
  prop task "start" = Num start →
  consolidateLog runId logs (id, log)
  = if (time log =? start)
       && (String.eqb (message log) "merge"
           || String.eqb (message log) "tranfer")
    then Normal (remove key logs)
    else
      Normal
        (update key OwnProperty
           (Dict.set "duration" (Num (time log - start))
              (Dict.set "end" (Num (time log))
                 (Dict.set "result" (get shared (data log) "result")
                    (Dict.set "taskId" (get shared (data log) "taskId")
                       (Dict.set "status" (get shared (data log) "status")
                          task)))))
           logs).
Proof.
  intros shared key Hlogs Hevent Hget Hstart.
  assert (get shared task "start" = Num start) as Hstart'.
  { unfold get, prop in *. by destruct (Dict.get "start" task). }
  unfold consolidateLog. fold shared.
  rewrite (get_own logs) by (done || decided).
  rewrite Hevent. simpl strictEq. cbv iota.
  rewrite !get_delete_ne by discriminate. fold key.
  rewrite (lookup_own _ _ _ Hget), Hstart'.
  rewrite !get_set_ne, Hstart' by discriminate. simpl sub.
  by destruct (time log =? start).
Qed.

(** C9. Let a [task.end] event arrive when [logs] holds a record of its
    own under the event's [taskId].  That record has a numeric [start].
    When the event's time equals it and the message is ['merge'] or
    ['tranfer'], the record is removed and nothing else changes; the output
    then has one record fewer.  Every other such event copies [status],
    [taskId] and [result] onto the record, stamps [end], sets
    [duration = end - start], and leaves the other fields and everything
    else alone.  (The output is counted as long as the prototype of [logs]
    is [Object.prototype]: it is then made of the records of [logs].) *)
Theorem task_end_consolidation runId (rawLogs : Dict.t RawLog)
    (id : string) (log : RawLog) (logs : Consolidated) (task : object) :
  let shared := objectPrototype logs in
  let key := toPropertyKey (get shared (data log) "taskId") in
  let after := consolidate runId (rawLogs ++ [(id, log)]) in
  consolidate runId rawLogs = Normal logs →
  prop (data log) "event" = Str "task.end" →
  Dict.get key (own logs) = Some task →
  ∃ start,
    prop task "start" = Num start
    ∧ if (time log =? start)
         && (String.eqb (message log) "merge"
             || String.eqb (message log) "tranfer")
      then
        after = Normal (remove key logs)
        ∧ Dict.get key (own (remove key logs)) = None
        ∧ (proto logs = None →
           ∃ out out',
             getBackupNgLogs runId rawLogs = Normal out
             ∧ getBackupNgLogs runId (rawLogs ++ [(id, log)]) = Normal out'
             ∧ S (length (records out')) = length (records out))
      else
        ∃ task',
          after = Normal (update key OwnProperty task' logs)
          ∧ Dict.get key (own (update key OwnProperty task' logs))
            = Some task'
          ∧ prop task' "status" = get shared (data log) "status"
          ∧ prop task' "taskId" = get shared (data log) "taskId"
          ∧ prop task' "result" = get shared (data log) "result"
          ∧ prop task' "end" = Num (time log)
          ∧ prop task' "duration" = Num (time log - start)
          ∧ (∀ field,
               field ∉ ["status"; "taskId"; "result"; "end"; "duration"] →
               prop task' field = prop task field)
          ∧ (proto logs = None →
             ∃ out out',
               getBackupNgLogs runId rawLogs = Normal out
               ∧ getBackupNgLogs runId (rawLogs ++ [(id, log)]) = Normal out'
               ∧ length (records out') = length (records out)).
Proof.
  intros shared key after Hrun Hevent Hget.
  pose proof (consolidate_consistent _ _ _ Hrun) as Hlogs.
  destruct (Hlogs) as (Hnd & HhasStart & Hshared).
  destruct (HhasStart key task Hget) as [start Hstart]. exists start.
  split; [done|].
  assert (after = consolidateLog runId logs (id, log)) as Hafter.
  { subst after. by rewrite consolidate_snoc, Hrun. }
  rewrite (consolidateLog_task_end runId logs id log task start)
    in Hafter by done.
  fold shared key in Hafter.
  destruct ((time log =? start)
            && (String.eqb (message log) "merge"
                || String.eqb (message log) "tranfer")).
  - split; [done|]. split; [apply Dict_get_delete_eq|].
    intros Hproto. eexists _, _.
    split; [by apply getBackupNgLogs_plain|].
    split; [by apply getBackupNgLogs_plain|].
    rewrite !groupBy_length, !length_fmap. cbn [own remove].
    unfold Dict.values. rewrite !length_fmap. by eapply Dict_length_delete.
  - eexists. split; [done|]. split; [apply Dict_get_set_eq|]. props.
    split_and!; try done.
    + intros field Hfield.
      rewrite !not_elem_of_cons in Hfield.
      destruct Hfield as (? & ? & ? & ? & ? & _).
      by rewrite !prop_set_ne by done.
    + intros Hproto. eexists _, _.
      split; [by apply getBackupNgLogs_plain|].
      split; [by apply getBackupNgLogs_plain|].
      rewrite !groupBy_length, !length_fmap. cbn [own update].
      unfold Dict.values. rewrite !length_fmap.
      apply Dict_length_set. by rewrite Hget.
Qed.
End LogFacts.

(** Witness for C9: the degenerate [merge] pair of the example run. *)
Lemma task_end_consolidation_witness :
  ∃ logs,
    Logs.consolidate None LogsExamples.started = Logs.Normal logs
    ∧ Logs.consolidate None
        (LogsExamples.started ++ [("e3", LogsExamples.mergeEndAtOnce)])
      = Logs.Normal (Logs.remove "t3" logs)
    ∧ Dict.get "t3" (Logs.own (Logs.remove "t3" logs)) = None.
Proof.
  eexists. split; [vm_compute; reflexivity|].
  destruct (task_end_consolidation None LogsExamples.started "e3"
              LogsExamples.mergeEndAtOnce _
              [("parentId", Logs.Str "t2"); ("start", Logs.Num 1030);
               ("message", Logs.Str "merge")] eq_refl eq_refl eq_refl)
    as (start & Hstart & Hrest).
  injection Hstart as <-.
  destruct Hrest as (Hafter & Hgone & _). by split.
Defined.
(** ** Atomic writer *)

Section WorldFacts.
Import Async Remote World.

Lemma files_setFiles remoteId f w :
  files remoteId (setFiles remoteId f w) = f (files remoteId w).
Proof. unfold files, setFiles. simpl. by rewrite lookup_insert_eq. Qed.

Lemma files_setFiles_ne remoteId remoteId' f w :
  remoteId ≠ remoteId' →
  files remoteId' (setFiles remoteId f w) = files remoteId' w.
Proof.
  intros Hne. unfold files, setFiles. simpl. by rewrite lookup_insert_ne.
Qed.

Lemma files_setJournal remoteId f w :
  files remoteId (setJournal f w) = files remoteId w.
Proof. done. Qed.

Lemma journal_setFiles remoteId f w :
  journal (setFiles remoteId f w) = journal w.
Proof. done. Qed.

Lemma journal_setJournal f w : journal (setJournal f w) = f (journal w).
Proof. done. Qed.

(** One awaited operation: either the oracle rejects it and the world is
    unchanged, or it runs; either way the attempt is journalled. *)
Lemma perform_cases {A} env op (run : World → Result A * World) w :
  (∃ e, faults env (length (journal w)) op = Some e
        ∧ perform env op run w
          = (Err e, setJournal (λ j, j ++ [EvOp op false]) w))
  ∨ (faults env (length (journal w)) op = None
     ∧ perform env op run w
       = ((run w).1,
          setJournal (λ j, j ++ [EvOp op (isOk (run w).1)]) (run w).2)).
Proof.
  unfold perform. destruct (faults env (length (journal w)) op) as [e|].
  - left. by exists e.
  - right. split; [done|]. by destruct (run w).
Qed.
End WorldFacts.

Section WriterFacts.
Import Async Remote World Writer WriterSpec.
Context (env : Env).

Lemma checksumFile_ne (path : string) : checksumFile path ≠ path.
Proof.
  unfold checksumFile. intros Heq.
  apply (f_equal String.length) in Heq. rewrite strLength_app in Heq.
  simpl in Heq. lia.
Qed.

Lemma lookup_after_finish (fs : gmap string File) tmpPath data :
  <[checksumFile tmpPath := Blob]> (<[tmpPath := data]> fs) !! tmpPath
    = Some data.
Proof.
  rewrite lookup_insert_ne by apply checksumFile_ne. apply lookup_insert_eq.
Qed.

Ltac oracle :=
  match goal with
  | |- context [faults env ?n ?op] => destruct (faults env n op) eqn:?
  end.

Ltac run_writer :=
  repeat first
    [ progress cbn [fst snd journal setJournal setFiles setRemotes isOk]
    | rewrite files_setJournal
    | rewrite files_setFiles
    | rewrite lookup_after_finish
    | rewrite lookup_insert_eq
    | oracle ].

Ltac no_such_event H :=
  repeat (apply elem_of_cons in H as [H|H]; [discriminate H|]);
  by apply elem_of_nil in H.

Ltac flatten_journal :=
  repeat match goal with
         | H : context [(_ ++ _) ++ _] |- _ =>
             rewrite <-app_assoc in H; cbn [app] in H
         end.

Ltac no_rename :=
  let ev := fresh "ev" in
  let Hev := fresh "Hev" in
  let Hren := fresh "Hren" in
  intros ev Hev Hren;
  repeat (apply elem_of_cons in Hev as [->|Hev]; [exact Hren|]);
  by apply elem_of_nil in Hev.

(** Splits a concrete journal into the entries before its last [n]. *)
Ltac prefix_of tac :=
  first [ eexists []; tac
        | eexists [_]; tac
        | eexists [_; _]; tac
        | eexists [_; _; _]; tac
        | eexists [_; _; _; _]; tac
        | eexists [_; _; _; _; _]; tac
        | eexists [_; _; _; _; _; _]; tac ].

(** C2 (amended). [writeStream] opens only the temporary name
    [dirname(path) + "/." + basename(path)], and every handler operation it
    performs is on that name.  The rename to [path] is attempted only after
    the output has finished, the checksum (when requested) is written and
    the source's task has completed.  If the call fails once the output
    stream is open, its last operation is the unlink of the temporary file,
    the rename was attempted only if it is the operation that failed, and,
    when that unlink succeeds, the error is the one of the operation that
    failed.  If the call fails before the output stream is open, it ends
    there with that error.  Whenever the call fails, [path] holds what it
    held before. *)
Theorem writeStream_atomic input remoteId path checksum (w : World) :
  let tmpPath := dirname env path +:+ "/." +:+ basename env path in
  let r := (writeStream env input remoteId path checksum w).1 in
  let w' := (writeStream env input remoteId path checksum w).2 in
  ∃ evs,
    journal w' = journal w ++ evs
    ∧ Forall (onTemporary remoteId tmpPath path checksum) evs
    ∧ (∀ ok, EvOp (Rename remoteId tmpPath path checksum) ok ∈ evs →
         ∃ pre post,
           evs = pre ++ EvOp (Rename remoteId tmpPath path checksum) ok :: post
           ∧ EvOp (Finish remoteId tmpPath) true ∈ pre
           ∧ (checksum = true →
              EvOp (ChecksumWritten remoteId tmpPath) true ∈ pre)
           ∧ EvOp (InputTask (streamName input)) true ∈ pre)
    ∧ (∀ e, r = Err e →
         EvOp (CreateOutputStream remoteId tmpPath checksum) true ∈ evs →
         ∃ pre op ok,
           evs = pre ++ [EvOp op false;
                         EvOp (Unlink remoteId tmpPath checksum) ok]
           ∧ Forall succeeded pre
           ∧ (∀ ev, ev ∈ pre → ¬ isRename ev)
           ∧ (ok = true →
              faults env (length (journal w ++ pre)) op = Some e))
    ∧ (∀ e, r = Err e →
         EvOp (CreateOutputStream remoteId tmpPath checksum) true ∉ evs →
         ∃ pre op,
           evs = pre ++ [EvOp op false]
           ∧ Forall succeeded pre
           ∧ faults env (length (journal w ++ pre)) op = Some e)
    ∧ (∀ e, r = Err e → tmpPath ≠ path → checksumFile tmpPath ≠ path →
         files remoteId w' !! path = files remoteId w !! path)
    ∧ (r = Ok tt →
         ∃ pre, evs = pre ++ [EvOp (Rename remoteId tmpPath path checksum) true]
                ∧ Forall succeeded pre).
Proof.
  intros tmpPath r w'. subst r w'.
  unfold writeStream, bind, tryCatch, await, throw, ret,
    Handler.createOutputStream, Handler.finish, Handler.checksumWritten,
    Handler.rename,
    Handler.unlink, perform.
  fold tmpPath. destruct checksum.
  all: run_writer.
  all: rewrite <-?app_assoc; cbn [app].
  all: eexists; split; [reflexivity|].
  all: split; [by repeat constructor|].
  all: split;
    [intros ok Hin;
     repeat (apply elem_of_cons in Hin as [Hin|Hin];
             [first [ discriminate Hin
                    | injection Hin as ->;
                      first [ by (eexists [_; _; _; _; _], _;
                                  split_and!; [reflexivity|set_solver..])
                            | by (eexists [_; _; _; _], _;
                                  split_and!; [reflexivity|set_solver..]) ] ]|]);
     by apply elem_of_nil in Hin|].
  all: split;
    [intros e' Hr Hopen; try discriminate Hr; injection Hr as <-;
     first [ no_such_event Hopen
           | prefix_of ltac:(
               eexists _, _; split; [reflexivity|];
               split; [by repeat constructor|];
               split; [no_rename|];
               intros Hok; first [discriminate Hok | flatten_journal; done]) ]|].
  all: split;
    [intros e' Hr Hopen; try discriminate Hr; injection Hr as <-;
     first [ by (exfalso; apply Hopen; set_solver)
           | prefix_of ltac:(
               eexists _; split; [reflexivity|];
               split; [by repeat constructor|];
               flatten_journal; by rewrite ?app_nil_r) ]|].
  all: split;
    [intros e' Hr Htmp Hsum; try discriminate Hr;
     rewrite ?files_setJournal, ?files_setFiles;
     by rewrite ?lookup_delete_ne, ?lookup_insert_ne by done|].
  all: intros Hr; try discriminate Hr.
  all: prefix_of ltac:(split; [reflexivity|by repeat constructor]).
Qed.
End WriterFacts.

Example writeStream_temporary_name :
  World.dirname (WriterExamples.env WriterExamples.noFault) WriterExamples.xvaPath
    +:+ "/." +:+
  World.basename (WriterExamples.env WriterExamples.noFault) WriterExamples.xvaPath
  = WriterExamples.xvaTmpPath.
Proof. vm_compute. reflexivity. Qed.

Example writeStream_success :
  let run := Writer.writeStream (WriterExamples.env WriterExamples.noFault)
               WriterExamples.export "r1" WriterExamples.xvaPath true
               WriterExamples.emptyWorld in
  run.1 = Async.Ok tt
  ∧ World.files "r1" run.2 !! WriterExamples.xvaPath = Some Remote.Blob
  ∧ World.files "r1" run.2 !! WriterExamples.xvaTmpPath = None.
Proof. vm_compute. done. Qed.

(** C2 (as stated) fails in two ways.  When the remote refuses to open the
    temporary file, the error propagates and no unlink is attempted; when a
    write error is followed by a failing unlink, the caller receives the
    unlink's error, not the original one. *)
Lemma writeStream_error_without_unlink_or_original :
  (let run := Writer.writeStream (WriterExamples.env WriterExamples.openFails)
                WriterExamples.export "r1" WriterExamples.xvaPath true
                WriterExamples.emptyWorld in
   run.1 = Async.Err WriterExamples.EACCES
   ∧ World.journal run.2
     = [World.EvOp (World.AwaitInput "export") true;
        World.EvOp (World.CreateOutputStream "r1" WriterExamples.xvaTmpPath true)
                   false])
  ∧ (let run := Writer.writeStream
                  (WriterExamples.env WriterExamples.writeAndUnlinkFail)
                  WriterExamples.export "r1" WriterExamples.xvaPath true
                  WriterExamples.emptyWorld in
     World.journal run.2
     = [World.EvOp (World.AwaitInput "export") true;
        World.EvOp (World.CreateOutputStream "r1" WriterExamples.xvaTmpPath true)
                   true;
        World.EvOp (World.Finish "r1" WriterExamples.xvaTmpPath) false;
        World.EvOp (World.Unlink "r1" WriterExamples.xvaTmpPath true) false]
     ∧ run.1 = Async.Err WriterExamples.EIO
     ∧ run.1 ≠ Async.Err WriterExamples.ENOSPC).
Proof. vm_compute. split_and!; done. Qed.

(** Witness for C2: the disk fills up while the payload is written; the
    final path is left as it was. *)
Lemma writeStream_atomic_witness :
  let run := Writer.writeStream (WriterExamples.env WriterExamples.writeFails)
               WriterExamples.export "r1" WriterExamples.xvaPath true
               WriterExamples.emptyWorld in
  World.files "r1" run.2 !! WriterExamples.xvaPath
  = World.files "r1" WriterExamples.emptyWorld !! WriterExamples.xvaPath.
Proof.
  destruct (writeStream_atomic (WriterExamples.env WriterExamples.writeFails)
              WriterExamples.export "r1" WriterExamples.xvaPath true
              WriterExamples.emptyWorld)
    as (evs & _ & _ & _ & _ & _ & Hfiles & _).
  apply (Hfiles WriterExamples.ENOSPC).
  - vm_compute. reflexivity.
  - vm_compute. discriminate.
  - vm_compute. discriminate.
Defined.

(** ** Running asynchronous functions *)

Section MonadFacts.
Import Async World.
Context {A B : Type}.

Lemma bind_Ok (m : M A) (f : A → M B) w b w' :
  bind m f w = (Ok b, w') →
  ∃ a w1, m w = (Ok a, w1) ∧ f a w1 = (Ok b, w').
Proof.
  unfold bind. destruct (m w) as [[a|e] w1]; [|discriminate].
  intros Hf. by exists a, w1.
Qed.

Lemma bind_run (m : M A) (f : A → M B) w :
  bind m f w
  = match (m w).1 with
    | Ok a => f a (m w).2
    | Err e => (Err e, (m w).2)
    end.
Proof. unfold bind. by destruct (m w) as [[a|e] w1]. Qed.

Lemma tryCatch_run (m : M A) (h : Error → M A) w :
  tryCatch m h w
  = match (m w).1 with
    | Ok a => (Ok a, (m w).2)
    | Err e => h e (m w).2
    end.
Proof. unfold tryCatch. by destruct (m w) as [[a|e] w1]. Qed.

Lemma perform_Ok env op (run : World → Result A * World) w a w' :
  perform env op run w = (Ok a, w') →
  faults env (length (journal w)) op = None
  ∧ ∃ w1, run w = (Ok a, w1)
          ∧ w' = setJournal (λ j, j ++ [EvOp op true]) w1.
Proof.
  unfold perform. destruct (faults env (length (journal w)) op) as [e|].
  { discriminate. }
  destruct (run w) as [[a'|e] w1]; [|discriminate].
  intros [= -> <-]. split; [done|]. by exists w1.
Qed.

Lemma perform_no_fault env op (run : World → Result A * World) w :
  faults env (length (journal w)) op = None →
  perform env op run w
  = ((run w).1, setJournal (λ j, j ++ [EvOp op (isOk (run w).1)]) (run w).2).
Proof. unfold perform. intros ->. by destruct (run w). Qed.
End MonadFacts.

Section Respecting.
Import Async Remote Xapi World Frame.
Context (R : relation World) `{!PreOrder R}.
Context (allowed : Event → Prop).
Context (env : Env).

Hypothesis R_event :
  ∀ w ev, allowed ev → R w (setJournal (λ j, j ++ [ev]) w).
Hypothesis R_files : ∀ w remoteId f, R w (setFiles remoteId f w).
Hypothesis R_objects : ∀ w f, R w (setObjects f w).

Lemma respects_ret {A} (a : A) : Respects R (ret a).
Proof. intros w. simpl. reflexivity. Qed.

Lemma respects_throw {A} e : Respects R (@throw A e).
Proof. intros w. simpl. reflexivity. Qed.

Lemma respects_bind {A B} (m : M A) (f : A → M B) :
  Respects R m → (∀ a, Respects R (f a)) → Respects R (bind m f).
Proof.
  intros Hm Hf w. rewrite bind_run. specialize (Hm w).
  destruct (m w) as [[a|e] w1]; simpl in *; [|done].
  etrans; [exact Hm|apply Hf].
Qed.

Lemma respects_tryCatch {A} (m : M A) (h : Error → M A) :
  Respects R m → (∀ e, Respects R (h e)) → Respects R (tryCatch m h).
Proof.
  intros Hm Hh w. rewrite tryCatch_run. specialize (Hm w).
  destruct (m w) as [[a|e] w1]; simpl in *; [done|].
  etrans; [exact Hm|apply Hh].
Qed.

Lemma respects_promiseAll {A} (promises : list (M A)) :
  Forall (Respects R) promises → Respects R (promiseAll promises).
Proof.
  induction 1 as [|m ms Hm _ IH]; intros w; simpl; [reflexivity|].
  specialize (Hm w). destruct (m w) as [r w1]. specialize (IH w1).
  destruct (promiseAll ms w1) as [rs w2]. simpl in *. by etrans.
Qed.

Lemma respects_asyncMap {A B} (collection : list A) (f : A → M B) :
  (∀ a, Respects R (f a)) → Respects R (asyncMap collection f).
Proof.
  intros Hf. apply respects_promiseAll, Forall_fmap, Forall_forall.
  intros a _. apply Hf.
Qed.

Lemma respects_waitAll promises onRejection :
  Forall (Respects R) promises → (∀ e, Respects R (onRejection e)) →
  Respects R (waitAll promises onRejection).
Proof.
  intros Hps Hrej. apply respects_bind; [|intros; apply respects_ret].
  apply respects_promiseAll, Forall_fmap.
  eapply Forall_impl; [exact Hps|]. intros m Hm. simpl.
  by apply respects_tryCatch.
Qed.

Lemma respects_perform {A} op (run : World → Result A * World) :
  (∀ ok, allowed (EvOp op ok)) → (∀ w, R w (run w).2) →
  Respects R (perform env op run).
Proof.
  intros Hop Hrun w. unfold perform.
  destruct (faults env (length (journal w)) op) as [e|]; simpl.
  - by apply R_event.
  - specialize (Hrun w). destruct (run w) as [r w1]. simpl in *.
    etrans; [exact Hrun|]. by apply R_event.
Qed.

Lemma respects_await op :
  (∀ ok, allowed (EvOp op ok)) → Respects R (await env op).
Proof. intros Hop. apply respects_perform; [done|]. intros w. reflexivity. Qed.

Lemma respects_getObjects : Respects R getObjects.
Proof. intros w. simpl. reflexivity. Qed.

Lemma respects_dateNow : Respects R (dateNow env).
Proof. intros w. simpl. reflexivity. Qed.

Lemma respects_getObject id : Respects R (Hypervisor.getObject id).
Proof.
  intros w. unfold Hypervisor.getObject.
  destruct (List.find _ _); simpl; reflexivity.
Qed.

Lemma respects_log message data :
  (∀ id t, allowed (EvLog id (Logs.mkRawLog data t message))) →
  Respects R (Tasks.log env message data).
Proof. intros Hlog w. unfold Tasks.log. simpl. by apply R_event. Qed.

Lemma respects_wrapTask {A} message parentId data (result : A → Logs.value)
    (task : M A) :
  allowedTask allowed message → Respects R task →
  Respects R (Tasks.wrapTask env message parentId data result task).
Proof.
  intros Hlog Htask. unfold Tasks.wrapTask, Tasks.taskStart, Tasks.taskEnd.
  apply respects_bind; [by apply respects_log; intros; apply Hlog|].
  intros taskId. apply respects_tryCatch.
  - apply respects_bind; [done|]. intros v.
    apply respects_bind; [by apply respects_log; intros; apply Hlog|].
    intros _. apply respects_ret.
  - intros e.
    apply respects_bind; [by apply respects_log; intros; apply Hlog|].
    intros _. apply respects_throw.
Qed.

Lemma respects_wrapTaskFn {A} message parentId data (result : A → Logs.value)
    (task : string → M A) :
  allowedTask allowed message → (∀ taskId, Respects R (task taskId)) →
  Respects R (Tasks.wrapTaskFn env message parentId data result task).
Proof.
  intros Hlog Htask. unfold Tasks.wrapTaskFn, Tasks.taskStart, Tasks.taskEnd.
  apply respects_bind; [by apply respects_log; intros; apply Hlog|].
  intros taskId. apply respects_tryCatch.
  - apply respects_bind; [done|]. intros v.
    apply respects_bind; [by apply respects_log; intros; apply Hlog|].
    intros _. apply respects_ret.
  - intros e.
    apply respects_bind; [by apply respects_log; intros; apply Hlog|].
    intros _. apply respects_throw.
Qed.

Hypothesis R_reads : ∀ op ok, ¬ writes op → allowed (EvOp op ok).
Hypothesis R_ops : ∀ op ok, allowed (EvOp op ok).

Ltac reads := intros ?; apply R_reads; by intros [].

Ltac primitive side :=
  apply respects_perform;
  [ side
  | intros ?; cbn beta;
    repeat match goal with
           | |- context [match ?x with _ => _ end] => destruct x
           end;
    cbn [fst snd];
    first [ reflexivity | apply R_files | apply R_objects ] ].

Lemma respects_getRemoteHandler remoteId :
  Respects R (Handler.getRemoteHandler env remoteId).
Proof. apply respects_await. reads. Qed.

Lemma respects_list remoteId dir : Respects R (Handler.list env remoteId dir).
Proof. unfold Handler.list. primitive reads. Qed.

Lemma respects_readFile remoteId path :
  Respects R (Handler.readFile env remoteId path).
Proof. unfold Handler.readFile. primitive reads. Qed.

Lemma respects_unlink remoteId path checksum :
  Respects R (Handler.unlink env remoteId path checksum).
Proof. unfold Handler.unlink. primitive reads. Qed.

Lemma respects_rename remoteId oldPath newPath checksum :
  Respects R (Handler.rename env remoteId oldPath newPath checksum).
Proof. unfold Handler.rename. primitive reads. Qed.

Lemma respects_outputFile remoteId path data :
  Respects R (Handler.outputFile env remoteId path data).
Proof. unfold Handler.outputFile. primitive ltac:(apply R_ops). Qed.

Lemma respects_writeStream input remoteId path checksum :
  Respects R (Writer.writeStream env input remoteId path checksum).
Proof.
  unfold Writer.writeStream.
  apply respects_bind; [apply respects_await, R_ops|]. intros _.
  apply respects_bind;
    [unfold Handler.createOutputStream; primitive ltac:(apply R_ops)|].
  intros _. apply respects_tryCatch.
  - apply respects_bind;
      [unfold Handler.finish; primitive ltac:(apply R_ops)|]. intros _.
    apply respects_bind.
    { destruct checksum; [|apply respects_ret].
      unfold Handler.checksumWritten. primitive ltac:(apply R_ops). }
    intros _. apply respects_bind; [apply respects_await, R_ops|]. intros _.
    apply respects_rename.
  - intros e. apply respects_bind; [apply respects_unlink|]. intros _.
    apply respects_throw.
Qed.

Lemma respects_readBackup remoteId dir predicate file :
  Respects R (Backups.readBackup env remoteId dir predicate file).
Proof.
  unfold Backups.readBackup. apply respects_tryCatch.
  - apply respects_bind; [apply respects_readFile|]. intros f.
    destruct f; try apply respects_throw.
    destruct (match predicate with None => _ | Some p => _ end);
      apply respects_ret.
  - intros e. apply respects_ret.
Qed.

Lemma respects_listVmBackups remoteId vmUuid predicate :
  Respects R (Backups.listVmBackups env remoteId vmUuid predicate).
Proof.
  unfold Backups.listVmBackups.
  apply respects_bind; [|intros; apply respects_ret].
  apply respects_tryCatch.
  - apply respects_bind; [apply respects_list|]. intros files.
    apply respects_bind; [|intros; apply respects_ret].
    apply respects_promiseAll, Forall_fmap, Forall_forall.
    intros file _. apply respects_readBackup.
  - intros e. destruct (Backups.isMissingDirectory e);
      [apply respects_ret|apply respects_throw].
Qed.

Lemma respects_deleteFullVmBackups remoteId backups :
  Respects R (Backups.deleteFullVmBackups env remoteId backups).
Proof.
  unfold Backups.deleteFullVmBackups.
  apply respects_bind; [|intros; apply respects_ret].
  apply respects_asyncMap. intros backup.
  destruct (_filename backup); [|apply respects_throw].
  apply respects_bind; [|intros; apply respects_ret].
  apply respects_promiseAll. repeat constructor; [apply respects_unlink|].
  destruct (xva backup); [apply respects_unlink|apply respects_throw].
Qed.

Lemma respects_readHeaderAndFooter remoteId path :
  Respects R (VhdLib.readHeaderAndFooter env remoteId path).
Proof. unfold VhdLib.readHeaderAndFooter. primitive reads. Qed.

Lemma respects_chainVhd remoteId parentPath childPath :
  Respects R (VhdLib.chainVhd env remoteId parentPath childPath).
Proof. unfold VhdLib.chainVhd. primitive reads. Qed.

Lemma respects_mergeVhd remoteId parentPath childPath :
  Respects R (VhdLib.mergeVhd env remoteId parentPath childPath).
Proof. apply respects_await. reads. Qed.

Lemma respects_deleteVm vm : Respects R (Hypervisor.deleteVm env vm).
Proof. unfold Hypervisor.deleteVm. primitive reads. Qed.

Lemma respects_deleteVms vms : Respects R (Backups.deleteVms env vms).
Proof.
  unfold Backups.deleteVms. apply respects_bind; [|intros; apply respects_ret].
  apply respects_asyncMap. intros vm. apply respects_deleteVm.
Qed.

Lemma respects_updateOtherConfig object updates :
  Respects R (Hypervisor.updateOtherConfig env object updates).
Proof. unfold Hypervisor.updateOtherConfig. primitive reads. Qed.

Lemma respects_updateBlockedOperations object updates :
  Respects R (Hypervisor.updateBlockedOperations env object updates).
Proof. unfold Hypervisor.updateBlockedOperations. primitive reads. Qed.

Lemma respects_addTag ref tag : Respects R (Hypervisor.addTag env ref tag).
Proof. unfold Hypervisor.addTag. primitive reads. Qed.

Lemma respects_snapshotVm vm label :
  Respects R (Hypervisor.snapshotVm env vm label).
Proof. unfold Hypervisor.snapshotVm. primitive reads. Qed.

Lemma respects_barrier ref : Respects R (Hypervisor.barrier env ref).
Proof. unfold Hypervisor.barrier. primitive reads. Qed.

Lemma respects_importVm snapshot srId label :
  Respects R (Hypervisor.importVm env snapshot srId label).
Proof. unfold Hypervisor.importVm. primitive reads. Qed.

Lemma respects_importDeltaVm snapshot srId label :
  Respects R (Hypervisor.importDeltaVm env snapshot srId label).
Proof. unfold Hypervisor.importDeltaVm. primitive reads. Qed.

Lemma respects_tagReplica vm tag srId :
  Respects R (Worker.tagReplica env vm tag srId).
Proof.
  unfold Worker.tagReplica. apply respects_bind; [|intros; apply respects_ret].
  apply respects_promiseAll.
  repeat constructor;
    [apply respects_addTag | apply respects_updateBlockedOperations
    | apply respects_updateOtherConfig].
Qed.

Lemma respects_fullRemoteTask job scheduleId exportRetention vmUuid vm fork
    now taskId remoteId :
  allowedTask allowed "transfer" →
  Respects R (Worker.fullRemoteTask env job scheduleId exportRetention vmUuid
                vm fork now taskId remoteId).
Proof.
  intros Htransfer. unfold Worker.fullRemoteTask.
  apply respects_bind; [apply respects_getRemoteHandler|]. intros _.
  apply respects_bind; [apply respects_listVmBackups|]. intros backups.
  apply respects_bind.
  { destruct (Worker.deleteFirstOf job remoteId);
      [apply respects_deleteFullVmBackups|apply respects_ret]. }
  intros _. apply respects_bind.
  { apply respects_wrapTask; [done|apply respects_writeStream]. }
  intros _. apply respects_bind; [apply respects_outputFile|]. intros _.
  destruct (negb (Worker.deleteFirstOf job remoteId));
    [apply respects_deleteFullVmBackups|apply respects_ret].
Qed.

Lemma respects_fullSrTask job scheduleId exportRetention vmUuid vm snapshot
    now taskId srId :
  allowedTask allowed "transfer" →
  Respects R (Worker.fullSrTask env job scheduleId exportRetention vmUuid vm
                snapshot now taskId srId).
Proof.
  intros Htransfer. unfold Worker.fullSrTask.
  apply respects_bind; [apply respects_getObject|]. intros sr.
  apply respects_bind; [apply respects_getObjects|]. intros objs.
  apply respects_bind.
  { destruct (Worker.deleteFirstOf job srId);
      [apply respects_deleteVms|apply respects_ret]. }
  intros _. apply respects_bind.
  { apply respects_wrapTask; [done|apply respects_importVm]. }
  intros created. apply respects_bind; [apply respects_barrier|].
  intros replica. apply respects_bind; [apply respects_tagReplica|].
  intros _. destruct (negb (Worker.deleteFirstOf job srId));
    [apply respects_deleteVms|apply respects_ret].
Qed.

Lemma respects_deltaSrTask job scheduleId exportRetention vmUuid vm snapshot
    now taskId srId :
  allowedTask allowed "transfer" →
  Respects R (Worker.deltaSrTask env job scheduleId exportRetention vmUuid vm
                snapshot now taskId srId).
Proof.
  intros Htransfer. unfold Worker.deltaSrTask.
  apply respects_bind; [apply respects_getObject|]. intros sr.
  apply respects_bind; [apply respects_getObjects|]. intros objs.
  apply respects_bind.
  { destruct (Worker.deleteFirstOf job srId);
      [apply respects_deleteVms|apply respects_ret]. }
  intros _. apply respects_bind.
  { apply respects_wrapTask; [done|apply respects_importDeltaVm]. }
  intros replica. apply respects_bind; [apply respects_tagReplica|].
  intros _. destruct (negb (Worker.deleteFirstOf job srId));
    [apply respects_deleteVms|apply respects_ret].
Qed.
End Respecting.

(** Functions wrapped by [defer]: [Rin] holds inside the wrapped call, [R]
    around it. *)
Section RespectingDefer.
Import Async Remote Xapi World Frame.
Context (R Rin : relation World) `{!PreOrder R, !PreOrder Rin}.
Context (allowed : Event → Prop).
Context (env : Env).

Hypothesis R_event :
  ∀ w ev, allowed ev → R w (setJournal (λ j, j ++ [ev]) w).
Hypothesis R_files : ∀ w remoteId f, R w (setFiles remoteId f w).
Hypothesis Rin_event :
  ∀ w ev, allowed ev → Rin w (setJournal (λ j, j ++ [ev]) w).
Hypothesis Rin_files : ∀ w remoteId f, Rin w (setFiles remoteId f w).
Hypothesis Rin_defer :
  ∀ w when remoteId path,
    Rin w (setDeferred (λ ds, UnlinkPath when remoteId path :: ds) w).
Hypothesis R_withDefer :
  ∀ A (body : M A), Respects Rin body → Respects R (Defer.withDefer env body).
Hypothesis R_reads : ∀ op ok, ¬ writes op → allowed (EvOp op ok).

Lemma respects_defer_unlink when remoteId path :
  Respects Rin (Defer.defer (UnlinkPath when remoteId path)).
Proof. intros w. apply Rin_defer. Qed.

Lemma respects_deleteVhd remoteId path :
  Respects R (Backups.deleteVhd env remoteId path).
Proof.
  unfold Backups.deleteVhd. apply R_withDefer.
  apply respects_bind; [done|by eapply respects_list|]. intros names.
  apply respects_bind; [done| |].
  { apply respects_asyncMap; [done|]. intros p.
    apply respects_bind; [done|by eapply respects_readHeaderAndFooter|].
    intros parent. by apply respects_ret. }
  intros vhds. destruct (List.find _ vhds) as [child|].
  - apply respects_bind; [done|apply respects_defer_unlink|]. intros _.
    apply respects_bind; [done|by eapply respects_mergeVhd|]. intros _.
    by eapply respects_rename.
  - by eapply respects_unlink.
Qed.

Lemma respects_deleteDeltaVmBackups remoteId backups :
  Respects R (Backups.deleteDeltaVmBackups env remoteId backups).
Proof.
  unfold Backups.deleteDeltaVmBackups.
  apply respects_bind; [done| |intros; by apply respects_ret].
  apply respects_asyncMap; [done|]. intros backup.
  destruct (_filename backup); [|by apply respects_throw].
  apply respects_bind; [done| |intros; by apply respects_ret].
  apply respects_promiseAll; [done|].
  repeat constructor; [by eapply respects_unlink|].
  apply respects_bind; [done| |intros; by apply respects_ret].
  apply respects_asyncMap; [done|]. intros vhd. apply respects_deleteVhd.
Qed.

Hypothesis R_ops : ∀ op ok, allowed (EvOp op ok).

Lemma respects_transferVdi remoteId vmUuid vhds entry :
  Respects R (Worker.transferVdi env remoteId vmUuid vhds entry).
Proof.
  unfold Worker.transferVdi. apply R_withDefer.
  apply respects_bind; [done| |].
  { destruct (bool_decide _); [|by apply respects_ret].
    apply respects_bind; [done|by eapply respects_list|]. intros names.
    by apply respects_ret. }
  intros parentPath.
  apply respects_bind; [done|by eapply respects_writeStream|]. intros _.
  apply respects_bind; [done|apply respects_defer_unlink|]. intros _.
  destruct (bool_decide _); [by eapply respects_chainVhd|by apply respects_ret].
Qed.

Lemma respects_transferVdis remoteId vmUuid vhds (vdis : Dict.t Vdi) :
  Respects R (asyncMap vdis (Worker.transferVdi env remoteId vmUuid vhds)
              >> ret tt).
Proof.
  apply respects_bind; [done| |intros; by apply respects_ret].
  apply respects_asyncMap; [done|]. intros entry. apply respects_transferVdi.
Qed.

Lemma respects_deltaRemoteTask job scheduleId exportRetention vmUuid vm vdis
    now taskId remoteId :
  allowedTask allowed "transfer" → allowedTask allowed "merge" →
  Respects R (Worker.deltaRemoteTask env job scheduleId exportRetention vmUuid
                vm vdis now taskId remoteId).
Proof.
  intros Htransfer Hmerge. unfold Worker.deltaRemoteTask.
  apply respects_bind; [done|by eapply respects_getRemoteHandler|]. intros _.
  apply respects_bind; [done|by eapply respects_listVmBackups|].
  intros backups.
  assert (Respects R
            (Tasks.wrapTask env "merge" taskId Logs.Undefined Worker.sizeResult
               (Backups.deleteDeltaVmBackups env remoteId
                  (Retention.getOldEntries exportRetention (Some backups)))))
    as Hdelete.
  { eapply respects_wrapTask; [done..|]. apply respects_deleteDeltaVmBackups. }
  apply respects_bind; [done| |].
  { destruct (_ && _); [done|by apply respects_ret]. }
  intros _. apply respects_bind; [done| |].
  { destruct (negb _); [|by apply respects_ret].
    eapply respects_wrapTask; [done..|]. apply respects_transferVdis. }
  intros _. apply respects_bind; [done|by eapply respects_outputFile|].
  intros _. destruct (negb _); [done|by apply respects_ret].
Qed.
End RespectingDefer.

(** ** The three frames *)

Section Extends.
Import Async Remote Xapi World Frame.
Context (allowed : Event → Prop).

#[export] Instance extends_preorder : PreOrder (extends allowed).
Proof.
  split.
  - intros w. exists []. by rewrite app_nil_r.
  - intros w1 w2 w3 (evs1 & H1 & Ha1) (evs2 & H2 & Ha2).
    exists (evs1 ++ evs2). rewrite H2, H1, app_assoc. split; [done|].
    by apply Forall_app.
Qed.

Lemma extends_event w ev :
  allowed ev → extends allowed w (setJournal (λ j, j ++ [ev]) w).
Proof. intros Hev. exists [ev]. split; [done|]. by constructor. Qed.

Lemma extends_same_journal w w' :
  journal w' = journal w → extends allowed w w'.
Proof. intros Heq. exists []. by rewrite app_nil_r. Qed.

Lemma extends_files w remoteId f : extends allowed w (setFiles remoteId f w).
Proof. by apply extends_same_journal. Qed.

Lemma extends_objects w f : extends allowed w (setObjects f w).
Proof. by apply extends_same_journal. Qed.

Lemma extends_deferred w f : extends allowed w (setDeferred f w).
Proof. by apply extends_same_journal. Qed.

Context (env : Env).
Hypothesis allowed_reads : ∀ op ok, ¬ writes op → allowed (EvOp op ok).

Lemma extends_runDeferred failed d :
  Respects (extends allowed) (Defer.runDeferred env failed d).
Proof.
  pose proof extends_event. pose proof extends_objects.
  pose proof extends_files.
  destruct d as [when retention candidates|when snapshot|when remoteId path];
    cbn [Defer.runDeferred]; destruct (Defer.applies when failed);
    try apply (respects_ret (extends allowed)).
  - apply (respects_bind (extends allowed));
      [|intros; apply (respects_ret (extends allowed))].
    apply (respects_asyncMap (extends allowed)). intros vm.
    by apply (respects_deleteVm (extends allowed) allowed).
  - by apply (respects_deleteVm (extends allowed) allowed).
  - by apply (respects_unlink (extends allowed) allowed).
Qed.

Lemma extends_runAll failed ds w :
  extends allowed w (Defer.runAll env failed ds w).
Proof.
  revert w. induction ds as [|d ds IH]; intros w; simpl; [reflexivity|].
  etrans; [|apply IH].
  apply (respects_tryCatch (extends allowed)).
  - apply extends_runDeferred.
  - intros e. apply (respects_ret (extends allowed)).
Qed.

Lemma extends_withDefer {A} (body : M A) :
  Respects (extends allowed) body →
  Respects (extends allowed) (Defer.withDefer env body).
Proof.
  intros Hbody w. unfold Defer.withDefer.
  specialize (Hbody (setDeferred (λ _, []) w)).
  destruct (body (setDeferred (λ _, []) w)) as [r w1]. simpl in *.
  etrans; [apply (extends_deferred w (λ _, []))|].
  etrans; [exact Hbody|].
  etrans; [apply extends_runAll|]. apply extends_deferred.
Qed.
End Extends.

Section KeepsObjects.
Import Async Remote Xapi World Frame.

#[export] Instance keepsObjects_preorder : PreOrder keepsObjects.
Proof.
  split.
  - by intros w.
  - intros w1 w2 w3 [H1 D1] [H2 D2]. split; [congruence|tauto].
Qed.

#[export] Instance keepsObjectsAndDeferred_preorder :
  PreOrder keepsObjectsAndDeferred.
Proof.
  split.
  - by intros w.
  - intros w1 w2 w3 [H1 D1] [H2 D2]. split; congruence.
Qed.

Lemma keepsObjects_event w ev :
  True → keepsObjects w (setJournal (λ j, j ++ [ev]) w).
Proof. done. Qed.

Lemma keepsObjects_files w remoteId f : keepsObjects w (setFiles remoteId f w).
Proof. done. Qed.

Lemma keepsObjects_defer w when remoteId path :
  keepsObjects w (setDeferred (λ ds, UnlinkPath when remoteId path :: ds) w).
Proof. split; [done|]. simpl. intros Hds. by constructor. Qed.

Lemma keeps_event w ev :
  True → keepsObjectsAndDeferred w (setJournal (λ j, j ++ [ev]) w).
Proof. done. Qed.

Lemma keeps_files w remoteId f :
  keepsObjectsAndDeferred w (setFiles remoteId f w).
Proof. done. Qed.

Context (env : Env).

Lemma keepsObjects_runAll failed ds w :
  onlyUnlinks ds → objects (Defer.runAll env failed ds w) = objects w.
Proof.
  intros Hds. revert w. induction Hds as [|d ds Hd _ IH]; intros w; simpl;
    [done|].
  rewrite IH. destruct d as [| |when remoteId path]; try done.
  assert (Respects keepsObjects
            (tryCatch (Defer.runDeferred env failed
                         (UnlinkPath when remoteId path)) noop)) as Hrun.
  { apply (respects_tryCatch keepsObjects);
      [|intros; apply (respects_ret keepsObjects)].
    cbn [Defer.runDeferred].
    destruct (Defer.applies when failed);
      [|apply (respects_ret keepsObjects)].
    apply (respects_unlink keepsObjects (λ _, True));
      auto using keepsObjects_event, keepsObjects_files. }
  apply Hrun.
Qed.

Lemma keeps_withDefer {A} (body : M A) :
  Respects keepsObjects body →
  Respects keepsObjectsAndDeferred (Defer.withDefer env body).
Proof.
  intros Hbody w. unfold Defer.withDefer.
  destruct (Hbody (setDeferred (λ _, []) w)) as [Hobj Hdef].
  destruct (body (setDeferred (λ _, []) w)) as [r w1]. simpl in *.
  split; [|done]. simpl. rewrite keepsObjects_runAll; [done|].
  apply Hdef. constructor.
Qed.
End KeepsObjects.

(** ** The executor *)

Section ExecutorFacts.
Import Async Remote Xapi World Jobs Promise Executor.
Context (env : Env).

Lemma run_advance {A} turns (p : Task A) w :
  run (advance turns p w).1 (advance turns p w).2 = run p w.
Proof.
  revert p w. induction turns as [|turns IH]; intros p w; [done|].
  destruct p as [outcome|next effect]; [done|]. cbn [advance run].
  apply IH.
Qed.

(** The race goes through the turns of the worker as long as the deadline
    keeps silent, and ends at the first turn before which it has passed, or
    when the worker has settled. *)
Lemma timeout_turns {A} vmUuid (p : Task A) w :
  ∃ turns,
    (∀ n, (n < turns)%nat →
          isPending (advance n p w).1 = true
          ∧ faults env (length (journal (advance n p w).2)) (Deadline vmUuid)
            = None)
    ∧ match (advance turns p w).1 with
      | Settled outcome =>
          timeout env vmUuid p w = (Won outcome, (advance turns p w).2)
      | Turn _ _ as pending =>
          ∃ error,
            faults env (length (journal (advance turns p w).2))
                   (Deadline vmUuid) = Some error
            ∧ timeout env vmUuid p w
              = (Lost error pending, (advance turns p w).2)
      end.
Proof.
  revert w. induction p as [outcome|next IH effect]; intros w.
  { exists 0%nat. split; [lia|done]. }
  cbn [timeout].
  destruct (faults env (length (journal w)) (Deadline vmUuid))
    as [error|] eqn:Hdeadline.
  { exists 0%nat. split; [lia|]. cbn [advance fst snd]. eauto. }
  destruct (IH w (effect w)) as (turns & Hbefore & Hat).
  exists (S turns). split; [|exact Hat].
  intros [|n] Hn; cbn [advance fst snd isPending]; [done|].
  apply Hbefore. lia.
Qed.

Context (backupVm : string → BackupJob → Schedule → string → Task unit).

(** What the function mapped over the VMs does for one of them. *)
Lemma backupOne_run job schedule runJobId vm w :
  let taskId := pretty (length (journal w)) in
  let started :=
    (Tasks.log env (startMessage job vm) (startData runJobId vm) w).2 in
  let worker := backupVm (uuid vm) job schedule taskId in
  let vmTimeout :=
    Settings.asNumber
      (Settings.getSetting (job_settings job) Settings.VmTimeout
         [uuid vm; schedule_id schedule; "[object Object]"; taskId]) in
  let ended (outcome : Result unit) (w1 : World) : World :=
    match outcome with
    | Ok _ =>
        (Tasks.log env (successMessage job vm) (successData taskId) w1).2
    | Err error =>
        (Tasks.log env (failureMessage job vm) (failureData taskId error)
           w1).2
    end in
  let one := backupOne env backupVm job schedule runJobId in
  (one vm w).1 = Ok tt
  ∧ (vmTimeout = 0 →
     (one vm w).2 = ended (run worker started).1 (run worker started).2)
  ∧ (vmTimeout ≠ 0 →
     ∃ turns,
       (∀ n, (n < turns)%nat →
             isPending (advance n worker started).1 = true
             ∧ faults env (length (journal (advance n worker started).2))
                      (Deadline (uuid vm)) = None)
       ∧ match (advance turns worker started).1 with
         | Settled outcome =>
             (one vm w).2 = ended outcome (advance turns worker started).2
         | Turn _ _ as pending =>
             ∃ error,
               faults env (length (journal (advance turns worker started).2))
                      (Deadline (uuid vm)) = Some error
               ∧ (one vm w).2
                 = (run pending
                      (ended (Err error) (advance turns worker started).2)).2
         end).
Proof.
  intros taskId started worker vmTimeout ended one.
  assert (∀ race w1,
            awaited env backupVm job schedule vm taskId started = (race, w1) →
            one vm w
            = (Ok tt,
               match race with
               | Won outcome => ended outcome w1
               | Lost error pending => (run pending (ended (Err error) w1)).2
               end)) as Hone.
  { intros race w1 Hrace. subst one ended. unfold backupOne, bind at 1.
    unfold Tasks.log at 1. fold taskId. change (setJournal _ w) with started.
    rewrite Hrace.
    destruct race as [[[]|error]|error pending];
      unfold bind, tryCatch, settled, leftRunning, throw, ret, Tasks.log;
      cbn [fst snd]; done. }
  unfold awaited in Hone. fold worker vmTimeout in Hone.
  split_and!.
  - destruct (negb (vmTimeout =? 0)).
    + destruct (timeout env (uuid vm) worker started) as [race w1].
      by rewrite (Hone race w1).
    + destruct (untimed worker started) as [race w1].
      by rewrite (Hone race w1).
  - intros ->. cbn [Z.eqb negb] in Hone. unfold untimed in Hone.
    destruct (run worker started) as [outcome w1].
    by rewrite (Hone (Won outcome) w1).
  - intros Hne. destruct (Z.eqb_spec vmTimeout 0) as [?|_]; [done|].
    cbn [negb] in Hone.
    destruct (timeout_turns (uuid vm) worker started)
      as (turns & Hbefore & Hat).
    exists turns. split; [exact Hbefore|].
    destruct (advance turns worker started) as [[outcome|next effect] w1];
      cbn [fst snd] in *.
    + by rewrite (Hone _ _ Hat).
    + destruct Hat as (error & Hdeadline & Hat). exists error.
      split; [done|]. by rewrite (Hone _ _ Hat).
Qed.

Lemma asyncMap_backupOne job schedule runJobId vms w :
  (asyncMap vms (backupOne env backupVm job schedule runJobId) w).2
  = foldl (λ w vm, (backupOne env backupVm job schedule runJobId vm w).2) w vms
  ∧ ∃ values,
      (asyncMap vms (backupOne env backupVm job schedule runJobId) w).1
      = Ok values.
Proof.
  unfold asyncMap. revert w. induction vms as [|vm vms IH]; intros w.
  { split; [done|by exists []]. }
  cbn [fmap list_fmap promiseAll foldl].
  destruct (backupOne_run job schedule runJobId vm w) as [Hone _].
  destruct (backupOne env backupVm job schedule runJobId vm w) as [r w1].
  cbn [fst snd] in *. subst r.
  destruct (IH w1) as [Hw [values Hvalues]].
  change (list_fmap _ _ ?f ?l) with (f <$> l).
  destruct (promiseAll _ w1) as [rs w2]. cbn [fst snd] in *. subst rs.
  split; [done|by eexists].
Qed.

(** The executor rejects before it has done anything, or not at all. *)
Lemma executorOf_rejects job (schedule : option Schedule) runJobId w :
  let run := executorOf env backupVm job schedule runJobId w in
  (runFails run.1 = true ↔
     schedule = None ∨ matching job (objects w) = [])
  ∧ (schedule = None →
     run = (Err (mkError None "backup job cannot run without a schedule"), w))
  ∧ (is_Some schedule → matching job (objects w) = [] →
     run = (Err (mkError None "no VMs match this pattern"), w)).
Proof.
  cbv zeta. unfold executorOf, throw.
  destruct schedule as [schedule|].
  2: { cbn [fst runFails isOk negb].
       split_and!; [|done|by intros [? ?]]. split; [by left|done]. }
  rewrite bind_run. unfold getObjects. cbn [fst snd].
  destruct (decide (matching job (objects w) = [])) as [Hnone|Hsome].
  - rewrite bool_decide_true by done. cbn [fst runFails isOk negb].
    split_and!; [|done|done]. split; [by right|done].
  - rewrite bool_decide_false by done. rewrite bind_run.
    destruct (asyncMap_backupOne job schedule runJobId
                (matching job (objects w)) w) as [_ [values ->]].
    split_and!; [|done|done]. cbn [ret fst runFails isOk negb].
    split; [done|]. by intros [|].
Qed.
End ExecutorFacts.

(** C4 (amended).  For a job fired with a schedule and a non-empty set of
    matching VMs, the executor goes through all the VMs, whatever the
    outcome of the others, and resolves: the run does not fail because a VM
    backup failed.  For each VM it logs a [task.start] and starts the
    worker with the id of that entry.  Without a [vmTimeout] it awaits the
    worker until it settles and logs a [task.end] whose status is
    [success] when the worker resolved and [failure], with the error, when
    it rejected.  With a [vmTimeout] the worker is raced against the
    deadline.  When the worker settles first, the [task.end] is logged as
    before.  When the deadline passes first, before some turn of the
    worker, the [task.end] is logged at once, with status [failure] and the
    error of the deadline, and the worker is left running: what it still
    does, it does after that entry. *)
Theorem executor_settles_every_vm (env : World.Env)
    (backupVm :
       string → Jobs.BackupJob → Jobs.Schedule → string → Promise.Task unit)
    (job : Jobs.BackupJob) (schedule : Jobs.Schedule) (runJobId : string)
    (w : World.World) :
  let vms := Executor.matching job (World.objects w) in
  let one := Executor.backupOne env backupVm job schedule runJobId in
  vms ≠ [] →
  Executor.executorOf env backupVm job (Some schedule) runJobId w
  = (Async.Ok tt, foldl (λ w vm, (one vm w).2) w vms)
  ∧ Executor.runFails
      (Executor.executorOf env backupVm job (Some schedule) runJobId w).1
    = false
  ∧ ∀ vm w0,
      let taskId := pretty (length (World.journal w0)) in
      let started :=
        (Tasks.log env (Executor.startMessage job vm)
           (Executor.startData runJobId vm) w0).2 in
      let worker := backupVm (Xapi.uuid vm) job schedule taskId in
      let vmTimeout :=
        Settings.asNumber
          (Settings.getSetting (Jobs.job_settings job) Settings.VmTimeout
             [Xapi.uuid vm; Jobs.schedule_id schedule; "[object Object]";
              taskId]) in
      let ended (outcome : Async.Result unit) (w1 : World.World)
        : World.World :=
        match outcome with
        | Async.Ok _ =>
            (Tasks.log env (Executor.successMessage job vm)
               (Executor.successData taskId) w1).2
        | Async.Err error =>
            (Tasks.log env (Executor.failureMessage job vm)
               (Executor.failureData taskId error) w1).2
        end in
      (one vm w0).1 = Async.Ok tt
      ∧ (vmTimeout = 0 →
         (one vm w0).2
         = ended (Promise.run worker started).1 (Promise.run worker started).2)
      ∧ (vmTimeout ≠ 0 →
         ∃ turns,
           (∀ n, (n < turns)%nat →
                 Promise.isPending (Promise.advance n worker started).1 = true
                 ∧ World.faults env
                     (length
                        (World.journal (Promise.advance n worker started).2))
                     (World.Deadline (Xapi.uuid vm)) = None)
           ∧ match (Promise.advance turns worker started).1 with
             | Promise.Settled outcome =>
                 (one vm w0).2
                 = ended outcome (Promise.advance turns worker started).2
             | Promise.Turn _ _ as pending =>
                 ∃ error,
                   World.faults env
                     (length
                        (World.journal
                           (Promise.advance turns worker started).2))
                     (World.Deadline (Xapi.uuid vm)) = Some error
                   ∧ (one vm w0).2
                     = (Promise.run pending
                          (ended (Async.Err error)
                             (Promise.advance turns worker started).2)).2
             end).
Proof.
  intros vms one Hvms.
  assert (Executor.executorOf env backupVm job (Some schedule) runJobId w
          = (Async.Ok tt, foldl (λ w vm, (one vm w).2) w vms)) as Hrun.
  { unfold Executor.executorOf. rewrite bind_run.
    unfold World.getObjects at 1 2. cbn [fst snd]. fold vms.
    rewrite bool_decide_false by done. rewrite bind_run.
    destruct (asyncMap_backupOne env backupVm job schedule runJobId vms w)
      as [Hw [values Hvalues]].
    fold one in Hw, Hvalues |- *. rewrite Hvalues. unfold World.ret.
    by rewrite Hw. }
  split; [done|]. split; [by rewrite Hrun|].
  intros vm w0. apply backupOne_run.
Qed.

(** C4 as stated fails: the hypervisor refuses to snapshot [db], the backup
    of that VM ends in failure, and the executor resolves all the same: the
    run does not end in failure. *)
Lemma executor_resolves_although_a_vm_failed :
  let env := Scenario.env Scenario.snapshotOfDbFails in
  let job := Scenario.job "full" 3 2 in
  let run :=
    Executor.executor env (Worker.backupVm env) job (Some Scenario.nightly)
      "run" Scenario.pool in
  Executor.matching job (World.objects Scenario.pool)
  = [Scenario.web; Scenario.db]
  ∧ last (World.journal run.2)
    = Some (World.EvLog "27"
              (Logs.mkRawLog
                 (Executor.failureData "22" (Async.mkError None "SR_FULL"))
                 37 (Executor.failureMessage job Scenario.db)))
  ∧ run.1 = Async.Ok tt
  ∧ Executor.runFails run.1 = false.
Proof. vm_compute. done. Qed.

(** Nor does the executor wait for a worker whose deadline has passed: the
    worker of two turns has made its first call when the hour is over; the
    failure is logged then, and the second call is made after it. *)
Example executor_leaves_a_late_worker_running :
  let env := Scenario.env Scenario.deadlinePasses in
  let run :=
    Executor.executorOf env (λ _ _ _ _, Scenario.twoTurns env)
      Scenario.hurried (Some Scenario.nightly) "run" Scenario.pool in
  run.1 = Async.Ok tt
  ∧ World.journal run.2
    = [World.EvLog "0"
         (Logs.mkRawLog (Executor.startData "run" Scenario.web) 10
            (Executor.startMessage Scenario.hurried Scenario.web));
       World.EvOp (World.Barrier "a") true;
       World.EvLog "2"
         (Logs.mkRawLog
            (Executor.failureData "0"
               (Async.mkError None "operation timed out"))
            12 (Executor.failureMessage Scenario.hurried Scenario.web));
       World.EvOp (World.Barrier "b") true].
Proof. vm_compute. done. Qed.

(** Witness for C4: the run in which the snapshot of [db] fails; both VMs
    are gone through. *)
Lemma executor_settles_every_vm_witness :
  let env := Scenario.env Scenario.snapshotOfDbFails in
  let job := Scenario.job "full" 3 2 in
  let worker := λ vmUuid job schedule taskId,
    Promise.atomic (Worker.backupVm env vmUuid job schedule taskId) in
  let one := Executor.backupOne env worker job Scenario.nightly "run" in
  Executor.matching job (World.objects Scenario.pool) ≠ []
  ∧ Executor.executorOf env worker job (Some Scenario.nightly) "run"
      Scenario.pool
    = (Async.Ok tt, (one Scenario.db (one Scenario.web Scenario.pool).2).2).
Proof.
  assert (Executor.matching (Scenario.job "full" 3 2)
            (World.objects Scenario.pool) ≠ []) as Hvms.
  { vm_compute. discriminate. }
  split; [exact Hvms|].
  exact (proj1 (executor_settles_every_vm
                  (Scenario.env Scenario.snapshotOfDbFails)
                  (λ vmUuid job schedule taskId,
                     Promise.atomic
                       (Worker.backupVm
                          (Scenario.env Scenario.snapshotOfDbFails)
                          vmUuid job schedule taskId))
                  (Scenario.job "full" 3 2) Scenario.nightly "run"
                  Scenario.pool Hvms)).
Defined.

(** ** Names of files *)

Section NameFacts.
Import Remote.

Lemma string_app_assoc (a b c : string) : (a +:+ b) +:+ c = a +:+ b +:+ c.
Proof.
  induction a as [|x a IH]; [done|].
  change (String x ((a +:+ b) +:+ c) = String x (a +:+ b +:+ c)).
  by rewrite IH.
Qed.

Lemma list_ascii_app (a b : string) :
  list_ascii_of_string (a +:+ b)
  = list_ascii_of_string a ++ list_ascii_of_string b.
Proof.
  induction a as [|x a IH]; [done|].
  change (x :: list_ascii_of_string (a +:+ b)
          = x :: list_ascii_of_string a ++ list_ascii_of_string b).
  by rewrite IH.
Qed.

Lemma stripPrefix_Some prefix s t :
  Handler.stripPrefix prefix s = Some t → s = prefix +:+ t.
Proof.
  revert s. induction prefix as [|a prefix IH]; intros s; simpl.
  { by intros [= ->]. }
  destruct s as [|b s]; [done|].
  destruct (Ascii.eqb_spec a b) as [->|]; [|done].
  intros ->%IH. done.
Qed.

Lemma stripPrefix_app prefix t :
  Handler.stripPrefix prefix (prefix +:+ t) = Some t.
Proof.
  induction prefix as [|a prefix IH]; [done|].
  change (Handler.stripPrefix (String a prefix) (String a (prefix +:+ t))
          = Some t).
  simpl. by rewrite Ascii.eqb_refl.
Qed.

Lemma strTake_strDrop n s : Js.strTake n s +:+ Js.strDrop n s = s.
Proof.
  revert s. induction n as [|n IH]; intros [|a s]; simpl; try done.
  change (String a (Js.strTake n s +:+ Js.strDrop n s) = String a s).
  by rewrite IH.
Qed.

Lemma endsWith_inv s suffix :
  Js.endsWith s suffix = true → ∃ pre, s = pre +:+ suffix.
Proof.
  unfold Js.endsWith. case_match; [|done].
  intros Heq%String.eqb_eq. eexists.
  etrans; [symmetry; apply (strTake_strDrop
                              (String.length s - String.length suffix))|].
  by rewrite Heq.
Qed.

Lemma endsWith_app a suffix : Js.endsWith (a +:+ suffix) suffix = true.
Proof.
  unfold Js.endsWith. rewrite strLength_app.
  destruct (Nat.leb_spec (String.length suffix)
              (String.length a + String.length suffix)) as [_|?]; [|lia].
  replace (String.length a + String.length suffix - String.length suffix)%nat
    with (String.length a) by lia.
  rewrite strDrop_app. apply String.eqb_refl.
Qed.

Lemma endsWith_last s suffix c :
  Js.endsWith s suffix = true →
  last (list_ascii_of_string suffix) = Some c →
  last (list_ascii_of_string s) = Some c.
Proof.
  intros [pre ->]%endsWith_inv Hc. rewrite list_ascii_app.
  by apply last_app_Some; left.
Qed.

Lemma isMetadataFile_last s c :
  last (list_ascii_of_string s) = Some c → c ≠ "n"%char →
  isMetadataFile s = false.
Proof.
  intros Hs Hc. destruct (isMetadataFile s) eqn:Hjson; [|done].
  apply (endsWith_last _ _ "n"%char) in Hjson; [|done]. congruence.
Qed.

Lemma isMetadataFile_checksumFile path :
  isMetadataFile (checksumFile path) = false.
Proof.
  apply (isMetadataFile_last _ "m"%char); [|done].
  unfold checksumFile. rewrite list_ascii_app.
  by apply last_app_Some; left.
Qed.

Lemma isMetadataFile_dataFilename env vmUuid now :
  isMetadataFile (Worker.dataFilename env vmUuid now) = false.
Proof.
  apply (isMetadataFile_last _ "a"%char); [|done].
  unfold Worker.dataFilename, Worker.dataBasename.
  rewrite !list_ascii_app. do 3 (apply last_app_Some; left). done.
Qed.

Lemma childName_join dir path name :
  Handler.childName dir path = Some name → path = dir +:+ "/" +:+ name.
Proof.
  unfold Handler.childName. case_match eqn:Hstrip; [|done].
  case_match; [|done]. intros [= <-].
  apply stripPrefix_Some in Hstrip. by rewrite string_app_assoc in Hstrip.
Qed.

Lemma isListed_isMetadataFile dir path :
  Inventory.isListed dir path = true → isMetadataFile path = true.
Proof.
  unfold Inventory.isListed. case_match eqn:Hchild; [|done].
  apply childName_join in Hchild as ->.
  intros [pre ->]%endsWith_inv. unfold isMetadataFile.
  rewrite <-!string_app_assoc. apply endsWith_app.
Qed.

Lemma isListed_false dir path :
  isMetadataFile path = false → Inventory.isListed dir path = false.
Proof.
  intros Hpath. destruct (Inventory.isListed dir path) eqn:Hlisted; [|done].
  apply isListed_isMetadataFile in Hlisted. congruence.
Qed.

Lemma indexOfFrom_app_none c (a b : string) (i : Z) :
  0 ≤ i → Js.indexOfFrom c a i = -1 →
  Js.indexOfFrom c (a +:+ b) i
  = Js.indexOfFrom c b (i + Z.of_nat (String.length a)).
Proof.
  revert i. induction a as [|x a IH]; intros i Hi; simpl.
  { intros _. f_equal. lia. }
  destruct (Ascii.eqb x c); [lia|].
  intros Hnone. rewrite IH by (done || lia). f_equal. lia.
Qed.

Lemma isListed_metadataFilename env vmUuid now :
  Js.indexOf (World.safeDateFormat env now) "/" = -1 →
  Inventory.isListed (getVmBackupDir vmUuid)
    (Worker.metadataFilename env vmUuid now) = true.
Proof.
  intros Hdate. unfold Inventory.isListed, Handler.childName.
  unfold Worker.metadataFilename.
  rewrite <-(string_app_assoc (getVmBackupDir vmUuid) "/"), stripPrefix_app.
  unfold Js.indexOf. rewrite indexOfFrom_app_none by done.
  cbn [Js.indexOfFrom]. simpl Ascii.eqb. cbn [Z.eqb].
  apply endsWith_app.
Qed.
End NameFacts.

(** ** The sidecars of a VM on a remote *)

Section InventoryFacts.
Import Async Remote World Inventory.
Context (dir : string) (predicate : Metadata → bool).

Lemma listed_Some entry backup :
  listed dir predicate entry = Some backup →
  ∃ metadata,
    entry.2 = Sidecar metadata
    ∧ backup = withFilename entry.1 metadata
    ∧ isSidecarOf dir predicate entry.
Proof.
  unfold listed, isSidecarOf. destruct entry as [path f]. simpl.
  destruct (isListed dir path); [|done].
  destruct f as [metadata| |]; try done. simpl.
  destruct (predicate metadata) eqn:Hp; [|done]. intros [= <-]. eauto.
Qed.

Lemma listed_None entry :
  listed dir predicate entry = None → ¬ isSidecarOf dir predicate entry.
Proof.
  unfold listed, isSidecarOf. destruct entry as [path f]. simpl.
  destruct (isListed dir path); [|by intros _ [? _]].
  destruct f as [metadata| |]; simpl; try by intros _ [_ ?].
  destruct (predicate metadata); [done|by intros _ [_ ?]].
Qed.

Lemma listed_length (entries : list (string * File)) :
  length (omap (listed dir predicate) entries)
  = length (filter (isSidecarOf dir predicate) entries).
Proof.
  induction entries as [|entry entries IH]; [done|].
  rewrite filter_cons. cbn [omap list_omap].
  destruct (listed dir predicate entry) as [backup|] eqn:Hentry.
  - apply listed_Some in Hentry as (? & _ & _ & ?).
    rewrite decide_True by done. simpl. by f_equal.
  - apply listed_None in Hentry. by rewrite decide_False.
Qed.

Lemma listed_filename (entries : list (string * File)) path :
  Some path ∈ _filename <$> omap (listed dir predicate) entries →
  path ∈ entries.*1.
Proof.
  induction entries as [|entry entries IH]; [by intros ?%elem_of_nil|].
  cbn [omap list_omap].
  destruct (listed dir predicate entry) as [backup|] eqn:Hentry.
  - apply listed_Some in Hentry as (metadata & _ & -> & _).
    rewrite fmap_cons. cbn [fmap list_fmap fst].
    intros [[= ->]|Hin]%elem_of_cons; [left|right; auto].
  - intros Hin. right. auto.
Qed.

Lemma listed_NoDup (entries : list (string * File)) :
  NoDup entries.*1 →
  NoDup (_filename <$> omap (listed dir predicate) entries).
Proof.
  induction entries as [|entry entries IH]; [constructor|].
  rewrite fmap_cons. intros [Hnotin Hrest]%NoDup_cons. cbn [omap list_omap].
  destruct (listed dir predicate entry) as [backup|] eqn:Hentry; [|auto].
  apply listed_Some in Hentry as (metadata & _ & -> & _).
  rewrite fmap_cons. apply NoDup_cons. split; [|auto].
  intros Hin. by apply listed_filename in Hin.
Qed.

Lemma size_filter_map_to_list (fs : gmap string File) :
  size (filter (isSidecarOf dir predicate) fs)
  = length (filter (isSidecarOf dir predicate) (map_to_list fs)).
Proof.
  rewrite map_filter_alt, <-length_map_to_list.
  apply Permutation_length, map_to_list_to_map.
  apply (sublist_NoDup _ (map_to_list fs).*1);
    [apply NoDup_fst_map_to_list|].
  apply fmap_sublist, sublist_filter.
Qed.

(** What [readBackup] finds under the names that [list] gives is what
    [listed] makes of the entries of the directory. *)
Lemma readAs_listed (fs : gmap string File) (entries : list (string * File)) :
  (∀ path f, (path, f) ∈ entries → fs !! path = Some f) →
  omap id
    (readAs dir predicate fs
       <$> List.filter isMetadataFile
             (omap (Handler.childName dir) entries.*1))
  = omap (listed dir predicate) entries.
Proof.
  induction entries as [|[path f] entries IH]; intros Hfs; [done|].
  rewrite fmap_cons. cbn [omap list_omap fst].
  assert (∀ path f, (path, f) ∈ entries → fs !! path = Some f) as Hrest.
  { intros ???. apply Hfs. by right. }
  unfold listed at 1, isListed. cbn [fst snd].
  destruct (Handler.childName dir path) as [name|] eqn:Hname; [|auto].
  cbn [List.filter]. destruct (isMetadataFile name); [|auto].
  cbn [fmap list_fmap omap list_omap].
  change (list_omap _ _ id ?l) with (omap id l).
  change (list_fmap _ _ ?g ?l) with (g <$> l).
  rewrite IH by done. unfold readAs at 1.
  apply childName_join in Hname as <-.
  by rewrite (Hfs path f) by left.
Qed.
End InventoryFacts.

(** ** Listing the backups of a remote *)

Section ListingFacts.
Import Async Remote World Inventory.
Context (env : Env) (remoteId vmUuid : string) (predicate : Metadata → bool).
Hypothesis list_works : ∀ n dir, faults env n (List remoteId dir) = None.
Hypothesis read_works : ∀ n path, faults env n (ReadFile remoteId path) = None.

#[export] Instance keepsFiles_preorder r : PreOrder (keepsFiles r).
Proof.
  split; [by intros w|]. intros w1 w2 w3 H1 H2. unfold keepsFiles in *.
  congruence.
Qed.

#[export] Instance keepsSidecars_preorder r v p : PreOrder (keepsSidecars r v p).
Proof.
  split; [by intros w|]. intros w1 w2 w3 H1 H2. unfold keepsSidecars in *.
  congruence.
Qed.

Lemma keepsFiles_event r w ev :
  True → keepsFiles r w (setJournal (λ j, j ++ [ev]) w).
Proof. done. Qed.

Lemma keepsSidecars_event r v p w ev :
  True → keepsSidecars r v p w (setJournal (λ j, j ++ [ev]) w).
Proof. done. Qed.

Lemma readBackup_run dir name w :
  ∃ w',
    Backups.readBackup env remoteId dir (Some predicate) name w
    = (Ok (readAs dir predicate (files remoteId w) name), w')
    ∧ files remoteId w' = files remoteId w.
Proof.
  unfold Backups.readBackup. rewrite tryCatch_run, bind_run.
  unfold Handler.readFile. rewrite perform_no_fault by apply read_works.
  unfold readAs. cbn [fst snd].
  destruct (files remoteId w !! (dir +:+ "/" +:+ name)) as [[metadata| |]|];
    cbn [fst snd]; try (eexists; split; [reflexivity|done]).
  destruct (predicate metadata); eexists; (split; [reflexivity|done]).
Qed.

Lemma promiseAll_readBackup dir names w :
  ∃ w',
    promiseAll (Backups.readBackup env remoteId dir (Some predicate) <$> names)
      w
    = (Ok (readAs dir predicate (files remoteId w) <$> names), w')
    ∧ files remoteId w' = files remoteId w.
Proof.
  revert w. induction names as [|name names IH]; intros w.
  { by eexists. }
  cbn [fmap list_fmap promiseAll].
  destruct (readBackup_run dir name w) as (w1 & -> & Hw1).
  change (list_fmap _ _ ?g ?l) with (g <$> l).
  destruct (IH w1) as (w2 & -> & Hw2). rewrite Hw1 in *.
  eexists. split; [reflexivity|done].
Qed.

Lemma listVmBackups_run w :
  ∃ w',
    Backups.listVmBackups env remoteId vmUuid (Some predicate) w
    = (Ok (Sort.sort compareTimestamp
             (omap (listed (getVmBackupDir vmUuid) predicate)
                   (map_to_list (files remoteId w)))), w')
    ∧ files remoteId w' = files remoteId w.
Proof.
  unfold Backups.listVmBackups. rewrite bind_run, tryCatch_run, bind_run.
  unfold Handler.list. rewrite perform_no_fault by apply list_works.
  cbn [fst snd]. rewrite bind_run.
  match goal with |- context [promiseAll (_ <$> ?names) ?w0] =>
    destruct (promiseAll_readBackup (getVmBackupDir vmUuid) names w0)
      as (w' & -> & Hw')
  end.
  cbn [fst snd]. unfold ret. cbn [fst snd].
  rewrite files_setJournal in Hw' |- *.
  rewrite readAs_listed.
  - eexists. split; [reflexivity|done].
  - intros path f. apply elem_of_map_to_list.
Qed.

Lemma listed_count w :
  length (omap (listed (getVmBackupDir vmUuid) predicate)
               (map_to_list (files remoteId w)))
  = count remoteId vmUuid predicate w.
Proof.
  rewrite listed_length. unfold count, sidecars.
  by rewrite size_filter_map_to_list.
Qed.

Lemma listed_deletable w :
  payloadsApart env remoteId w →
  Forall (deletable env remoteId vmUuid predicate w)
    (omap (listed (getVmBackupDir vmUuid) predicate)
          (map_to_list (files remoteId w))).
Proof.
  intros Hapart. apply Forall_forall. intros backup.
  intros ([path f] & Hentry & Hlisted)%list_elem_of_omap.
  apply elem_of_map_to_list in Hentry.
  apply listed_Some in Hlisted as (metadata & Hf & -> & Hsidecar).
  simpl in Hf. subst f. exists path. split; [done|]. split.
  - exists (Sidecar metadata). by apply map_lookup_filter_Some_2.
  - exact (Hapart _ _ Hentry).
Qed.
End ListingFacts.

(** ** What the operations of a backup do to the sidecars *)

Lemma promiseAll_Ok {A} (promise : World.M A) promises w values w' :
  World.promiseAll (promise :: promises) w = (Async.Ok values, w') →
  ∃ a rest w1,
    promise w = (Async.Ok a, w1)
    ∧ World.promiseAll promises w1 = (Async.Ok rest, w')
    ∧ values = a :: rest.
Proof.
  cbn [World.promiseAll]. destruct (promise w) as [[a|e] w1].
  - destruct (World.promiseAll promises w1) as [[rest|e] w2] eqn:Hrest;
      [|done].
    intros [= <- <-]. by exists a, rest, w1.
  - by destruct (World.promiseAll promises w1) as [[rest|e'] w2].
Qed.

Section SidecarFacts.
Import Async Remote World Inventory.
Context (env : Env) (remoteId vmUuid : string) (predicate : Metadata → bool).

Lemma filter_insert_apart (fs : gmap string File) path f :
  isMetadataFile path = false →
  filter (isSidecarOf (getVmBackupDir vmUuid) predicate) (<[path := f]> fs)
  = filter (isSidecarOf (getVmBackupDir vmUuid) predicate) fs.
Proof.
  intros Hpath. apply map_filter_insert_not. intros y [Hlisted _].
  simpl in Hlisted. by rewrite isListed_false in Hlisted.
Qed.

Lemma filter_delete_apart (fs : gmap string File) path :
  isMetadataFile path = false →
  filter (isSidecarOf (getVmBackupDir vmUuid) predicate) (delete path fs)
  = filter (isSidecarOf (getVmBackupDir vmUuid) predicate) fs.
Proof.
  intros Hpath. apply map_filter_delete_not. intros y _ [Hlisted _].
  simpl in Hlisted. by rewrite isListed_false in Hlisted.
Qed.

Lemma filter_move_apart (fs : gmap string File) oldPath newPath :
  isMetadataFile oldPath = false → isMetadataFile newPath = false →
  filter (isSidecarOf (getVmBackupDir vmUuid) predicate)
         (Handler.move oldPath newPath fs)
  = filter (isSidecarOf (getVmBackupDir vmUuid) predicate) fs.
Proof.
  intros Hold Hnew. unfold Handler.move. destruct (fs !! oldPath); [|done].
  by rewrite filter_insert_apart, filter_delete_apart.
Qed.

Lemma unlink_Ok path checksum w w' :
  Handler.unlink env remoteId path checksum w = (Ok tt, w') →
  files remoteId w'
  = delete path (if checksum then delete (checksumFile path) (files remoteId w)
                 else files remoteId w).
Proof.
  intros (_ & w1 & [= <-] & ->)%perform_Ok.
  by rewrite files_setJournal, files_setFiles.
Qed.

Lemma sidecars_unlink path w w' :
  Handler.unlink env remoteId path true w = (Ok tt, w') →
  sidecars remoteId vmUuid predicate w'
  = delete path (sidecars remoteId vmUuid predicate w).
Proof.
  intros Hw'%unlink_Ok. unfold sidecars. rewrite Hw'.
  rewrite map_filter_delete, filter_delete_apart; [done|].
  apply isMetadataFile_checksumFile.
Qed.

Lemma sidecars_unlink_apart path w w' :
  isMetadataFile path = false →
  Handler.unlink env remoteId path true w = (Ok tt, w') →
  sidecars remoteId vmUuid predicate w' = sidecars remoteId vmUuid predicate w.
Proof.
  intros Hpath Hw'%unlink_Ok. unfold sidecars. rewrite Hw'.
  rewrite !filter_delete_apart; [done| |done].
  apply isMetadataFile_checksumFile.
Qed.

Lemma outputFile_Ok path data w w' :
  Handler.outputFile env remoteId path data w = (Ok tt, w') →
  files remoteId w' = <[path := data]> (files remoteId w).
Proof.
  intros (_ & w1 & [= <-] & ->)%perform_Ok.
  by rewrite files_setJournal, files_setFiles.
Qed.

Lemma size_delete_present (m : gmap string File) path :
  is_Some (m !! path) → (size (delete path m) + 1 = size m)%nat.
Proof.
  intros [f Hf]. rewrite <-(insert_delete_id m path f) at 2 by done.
  rewrite map_size_insert_None by apply lookup_delete_eq. lia.
Qed.

(** Deleting the backups of a listing removes their sidecars and no
    other. *)
Lemma deleteFullVmBackups_Ok backups w w' :
  Backups.deleteFullVmBackups env remoteId backups w = (Ok tt, w') →
  Forall (deletable env remoteId vmUuid predicate w) backups →
  NoDup (_filename <$> backups) →
  (size (sidecars remoteId vmUuid predicate w') + length backups
   = size (sidecars remoteId vmUuid predicate w))%nat
  ∧ ∀ path,
      Some path ∉ _filename <$> backups →
      sidecars remoteId vmUuid predicate w' !! path
      = sidecars remoteId vmUuid predicate w !! path.
Proof.
  unfold Backups.deleteFullVmBackups, asyncMap.
  intros (values & w1 & Hrun & [= <-])%bind_Ok.
  revert w values Hrun.
  induction backups as [|backup backups IH]; intros w values Hrun Hall Hdup.
  { injection Hrun as <- <-. by split. }
  rewrite fmap_cons in Hrun.
  apply promiseAll_Ok in Hrun as (a & rest & w2 & Hone & Hrun & _).
  apply Forall_cons in Hall as [(path & Hname & Hheld & Hapart) Hall].
  rewrite fmap_cons in Hdup. apply NoDup_cons in Hdup as [Hnotin Hdup].
  rewrite Hname in Hone, Hnotin.
  apply bind_Ok in Hone as (? & w3 & Hone & Hret).
  apply promiseAll_Ok in Hone as ([] & ? & wa & Hsidecar & Hone & _).
  apply promiseAll_Ok in Hone as ([] & ? & wb & Hpayload & Hnil & _).
  unfold ret in Hret. cbn [promiseAll] in Hnil. simplify_eq.
  unfold payloadsApartOf, payloadsOf in Hapart.
  destruct (xva backup) as [payload|]; [|done].
  apply Forall_app in Hapart as [[Hxva _]%Forall_cons _].
  apply sidecars_unlink in Hsidecar.
  apply sidecars_unlink_apart in Hpayload; [|done].
  rewrite Hsidecar in Hpayload. clear Hsidecar wa.
  destruct (IH _ _ Hrun) as [Hsize Hsame]; [|done|].
  { apply Forall_forall. intros backup' Hin.
    rewrite Forall_forall in Hall.
    destruct (Hall _ Hin) as (path' & Hname' & Hheld' & Hapart').
    exists path'. split; [done|]. split; [|done].
    rewrite Hpayload, lookup_delete_ne; [done|].
    intros ->. apply Hnotin. rewrite <-Hname'.
    by apply list_elem_of_fmap_2. }
  rewrite Hpayload in Hsize, Hsame. split.
  - pose proof (size_delete_present _ _ Hheld). simpl. lia.
  - intros path' [Hne Hrest]%not_elem_of_cons.
    rewrite Hsame by done. apply lookup_delete_ne. congruence.
Qed.
End SidecarFacts.

Section WriterKeepsSidecars.
Import Async Remote World Inventory Frame.
Context (env : Env) (remoteId vmUuid : string) (predicate : Metadata → bool).

Lemma keepsSidecars_perform {A} op (run : World → Result A * World) :
  (∀ w, keepsSidecars remoteId vmUuid predicate w (run w).2) →
  Respects (keepsSidecars remoteId vmUuid predicate) (perform env op run).
Proof.
  intros Hrun.
  apply (respects_perform (keepsSidecars remoteId vmUuid predicate)
           (λ _, True)); [|done|done].
  intros w ev _. by apply keepsSidecars_event.
Qed.

Lemma keepsSidecars_writeStream input path checksum :
  isMetadataFile (dirname env path +:+ "/." +:+ basename env path) = false →
  isMetadataFile path = false →
  Respects (keepsSidecars remoteId vmUuid predicate)
    (Writer.writeStream env input remoteId path checksum).
Proof.
  intros Htmp Hpath. pose proof isMetadataFile_checksumFile as Hsum.
  unfold Writer.writeStream, Handler.createOutputStream, Handler.finish,
    Handler.checksumWritten, Handler.rename, Handler.unlink, await.
  repeat first
    [ apply (respects_bind (keepsSidecars remoteId vmUuid predicate)); [|intros ?]
    | apply (respects_tryCatch (keepsSidecars remoteId vmUuid predicate));
        [|intros ?]
    | apply (respects_ret (keepsSidecars remoteId vmUuid predicate))
    | apply (respects_throw (keepsSidecars remoteId vmUuid predicate))
    | destruct checksum
    | apply keepsSidecars_perform; intros w;
      unfold keepsSidecars, sidecars;
      try destruct (files remoteId w !! _); cbn [fst snd];
      rewrite ?files_setFiles, ?filter_move_apart, ?filter_insert_apart,
        ?filter_delete_apart by done;
      done ].
Qed.
End WriterKeepsSidecars.

Section FullRemote.
Import Async Remote Xapi World Inventory Frame Jobs.
Context (env : Env) (remoteId vmUuid : string) (predicate : Metadata → bool).

Lemma deletable_mono w w' backup :
  (∀ path, is_Some (sidecars remoteId vmUuid predicate w !! path) →
           is_Some (sidecars remoteId vmUuid predicate w' !! path)) →
  deletable env remoteId vmUuid predicate w backup →
  deletable env remoteId vmUuid predicate w' backup.
Proof. intros Hmono (path & ? & ? & ?). exists path. auto. Qed.

Lemma deletable_fresh w backups path :
  Forall (deletable env remoteId vmUuid predicate w) backups →
  sidecars remoteId vmUuid predicate w !! path = None →
  Some path ∉ _filename <$> backups.
Proof.
  intros Hall Hnone (backup & Hname & Hin)%list_elem_of_fmap.
  rewrite Forall_forall in Hall.
  destruct (Hall _ Hin) as (path' & Hname' & Hheld & _).
  rewrite Hname' in Hname. injection Hname as ->.
  rewrite Hnone in Hheld. by destruct Hheld.
Qed.

Lemma keepsSidecars_transfer taskId input path :
  isMetadataFile (dirname env path +:+ "/." +:+ basename env path) = false →
  isMetadataFile path = false →
  Respects (keepsSidecars remoteId vmUuid predicate)
    (Tasks.wrapTask env "transfer" taskId Logs.Undefined Worker.sizeResult
       (Writer.writeStream env input remoteId path true)).
Proof.
  intros Htmp Hpath.
  apply (respects_wrapTask (keepsSidecars remoteId vmUuid predicate)
           (λ _, True)).
  - intros w ev _. by apply keepsSidecars_event.
  - done.
  - by apply keepsSidecars_writeStream.
Qed.

Lemma sidecars_outputFile path metadata w w' :
  isListed (getVmBackupDir vmUuid) path = true →
  predicate metadata = true →
  Handler.outputFile env remoteId path (Sidecar metadata) w = (Ok tt, w') →
  sidecars remoteId vmUuid predicate w'
  = <[path := Sidecar metadata]> (sidecars remoteId vmUuid predicate w).
Proof.
  intros Hlisted Hmatches Hw'%outputFile_Ok. unfold sidecars. rewrite Hw'.
  by apply map_filter_insert_True.
Qed.
End FullRemote.

(** Full mode.  On a remote whose export task succeeds with
    [exportRetention = k ≥ 1], the number of sidecars of the VM for the
    schedule and the mode is [min k (before + 1)] when the task ends, and
    the sidecar that the task writes is among them: the entries to delete
    are taken from the listing made before the write.  The remote is
    assumed to list and read its files without error, the name of the new
    sidecar to be unused, and the payloads (and the temporary file of the
    writer) not to be named like metadata files. *)
Lemma full_remote_sidecar_count (env : World.Env) (job : Jobs.BackupJob)
    (scheduleId : string) (k : Z) (vmUuid : string) (vm : Xapi.Vm)
    (fork : Remote.Stream) (now : Z) (taskId remoteId : string)
    (w w' : World.World) :
  let predicate := λ m : Remote.Metadata,
    (Remote.mode m =? "full")%string
    && (Remote.scheduleId m =? scheduleId)%string in
  let data := Worker.dataFilename env vmUuid now in
  let new := Worker.metadataFilename env vmUuid now in
  1 ≤ k →
  Xapi.uuid vm = vmUuid →
  (∀ n dir, World.faults env n (World.List remoteId dir) = None) →
  (∀ n path, World.faults env n (World.ReadFile remoteId path) = None) →
  Js.indexOf (World.safeDateFormat env now) "/" = -1 →
  Remote.isMetadataFile
    (World.dirname env data +:+ "/." +:+ World.basename env data) = false →
  World.files remoteId w !! new = None →
  Inventory.payloadsApart env remoteId w →
  Worker.fullRemoteTask env job scheduleId k vmUuid vm fork now taskId
    remoteId w = (Async.Ok tt, w') →
  Z.of_nat (Inventory.count remoteId vmUuid predicate w')
  = Z.min k (Z.of_nat (Inventory.count remoteId vmUuid predicate w) + 1)
  ∧ World.files remoteId w' !! new
    = Some (Remote.Sidecar (Worker.fullMetadata env job scheduleId now)).
Proof.
  intros predicate data new Hk Huuid Hlist Hread Hdate Htmp Hnew Hapart Hrun.
  unfold Worker.fullRemoteTask in Hrun. rewrite Huuid in Hrun.
  apply bind_Ok in Hrun as ([] & w1 & Hhandler & Hrun).
  apply bind_Ok in Hrun as (backups & w2 & Hlisting & Hrun).
  apply bind_Ok in Hrun as ([] & w3 & Hfirst & Hrun).
  apply bind_Ok in Hrun as ([] & w4 & Htransfer & Hrun).
  apply bind_Ok in Hrun as ([] & w5 & Hsidecar & Hlast).
  fold predicate in Hlisting. fold data in Htransfer. fold new in Hsidecar.
  (* the listing *)
  pose proof (respects_getRemoteHandler (Inventory.keepsFiles remoteId)
                (λ _, True) env (keepsFiles_event remoteId)
                (λ _ _ _, I) remoteId w) as Hw1.
  rewrite Hhandler in Hw1. unfold Inventory.keepsFiles in Hw1. simpl in Hw1.
  destruct (listVmBackups_run env remoteId vmUuid predicate Hlist Hread w1)
    as (w2' & Hlisting' & Hw2).
  rewrite Hlisting in Hlisting'. injection Hlisting' as -> <-.
  rewrite Hw1 in Hw2.
  rewrite Hw1 in *.
  set (dir := Remote.getVmBackupDir vmUuid) in *.
  set (L := omap (Inventory.listed dir predicate)
                 (map_to_list (World.files remoteId w))) in *.
  set (B := Sort.sort Remote.compareTimestamp L) in *.
  set (old := Retention.getOldEntries k (Some B)) in *.
  assert (Inventory.sidecars remoteId vmUuid predicate w2
          = Inventory.sidecars remoteId vmUuid predicate w) as HS2.
  { unfold Inventory.sidecars. by rewrite Hw2. }
  assert (B ≡ₚ L) as HB by apply sort_Permutation.
  assert (length B = Inventory.count remoteId vmUuid predicate w) as Hlen.
  { rewrite HB. apply listed_count. }
  assert (Forall (Inventory.deletable env remoteId vmUuid predicate w) B)
    as Hdel.
  { rewrite HB. by apply listed_deletable. }
  assert (NoDup (Remote._filename <$> B)) as Hdup.
  { rewrite HB. apply listed_NoDup, NoDup_fst_map_to_list. }
  pose proof (getOldEntries_take k B) as Hold. fold old in Hold.
  assert (Forall (Inventory.deletable env remoteId vmUuid predicate w) old)
    as Hdel_old.
  { rewrite Hold. by apply Forall_take. }
  assert (NoDup (Remote._filename <$> old)) as Hdup_old.
  { rewrite Hold, fmap_take. eapply sublist_NoDup; [exact Hdup|].
    apply sublist_take. }
  pose proof (getOldEntries_length k B) as Hlen_old. fold old in Hlen_old.
  assert (Inventory.sidecars remoteId vmUuid predicate w !! new = None)
    as Hfresh.
  { apply map_lookup_filter_None_2. by left. }
  pose proof (deletable_fresh env remoteId vmUuid predicate w old new
                Hdel_old Hfresh) as Hkept.
  assert (Inventory.isListed dir new = true) as Hlisted.
  { by apply isListed_metadataFilename. }
  assert (predicate (Worker.fullMetadata env job scheduleId now) = true)
    as Hmatches.
  { unfold predicate. simpl. by rewrite String.eqb_refl. }
  pose proof (keepsSidecars_transfer env remoteId vmUuid predicate taskId
                fork data Htmp
                (isMetadataFile_dataFilename env vmUuid now) w3) as HS4.
  rewrite Htransfer in HS4. unfold Inventory.keepsSidecars in HS4.
  simpl in HS4.
  apply (sidecars_outputFile env remoteId vmUuid predicate) in Hsidecar
    as HS5; [|done..].
  unfold Inventory.count.
  destruct (Worker.deleteFirstOf job remoteId); cbn [negb] in *.
  - injection Hlast as <-.
    apply (deleteFullVmBackups_Ok env remoteId vmUuid predicate) in Hfirst
      as [Hsize Hsame]; [| |done].
    2:{ eapply Forall_impl; [exact Hdel_old|]. intros backup.
        apply deletable_mono. by rewrite HS2. }
    rewrite HS2 in Hsize, Hsame. rewrite HS5, HS4. split.
    + rewrite map_size_insert_None by (by rewrite Hsame).
      unfold Inventory.count in Hlen. lia.
    + apply outputFile_Ok in Hsidecar. rewrite Hsidecar.
      apply lookup_insert_eq.
  - injection Hfirst as <-. rewrite HS2 in HS4. rewrite HS4 in HS5.
    apply (deleteFullVmBackups_Ok env remoteId vmUuid predicate) in Hlast
      as [Hsize Hsame]; [| |done].
    2:{ eapply Forall_impl; [exact Hdel_old|]. intros backup.
        apply deletable_mono. intros path Hpath. rewrite HS5.
        by apply lookup_insert_is_Some'; right. }
    rewrite HS5 in Hsize, Hsame. split.
    + rewrite map_size_insert_None in Hsize by done.
      unfold Inventory.count in Hlen. lia.
    + specialize (Hsame new Hkept). rewrite lookup_insert_eq in Hsame.
      by apply map_lookup_filter_Some_1_1 in Hsame.
Qed.

(** C3 as stated fails: the worker ignores the failure of a target (it is
    only logged), so a run of the worker succeeds although the remote could
    not store the payload; no sidecar is written, and the remote holds none
    where [min 3 (0 + 1) = 1] is promised. *)
Lemma backupVm_succeeds_without_sidecar :
  let run :=
    Scenario.run Scenario.transferFails (Scenario.job "full" 3 2)
      Scenario.pool in
  run.1 = Async.Ok tt
  ∧ Inventory.count "r1" "vm-1" Scenario.fullOfNightly Scenario.pool = 0%nat
  ∧ Inventory.count "r1" "vm-1" Scenario.fullOfNightly run.2 = 0%nat
  ∧ Z.of_nat (Inventory.count "r1" "vm-1" Scenario.fullOfNightly run.2)
    ≠ Z.min 3
        (Z.of_nat
           (Inventory.count "r1" "vm-1" Scenario.fullOfNightly Scenario.pool)
         + 1).
Proof. vm_compute. split_and!; done. Qed.

(** ** Snapshots under the operations of the targets *)

Section SparesFacts.
Import Async Remote Xapi World Frame Snapshots.
Context (env : Env) (doomed : list string).

#[export] Instance spares_preorder D : PreOrder (spares D).
Proof.
  split.
  - intros w. split; [done|]. by intros.
  - intros w1 w2 w3 [Hd1 H1] [Hd2 H2]. split; [congruence|].
    intros Hids Hdoomed. destruct (H1 Hids Hdoomed) as [Hids2 Hviews2].
    destruct (H2 Hids2) as [Hids3 Hviews3]; [by rewrite Hviews2|].
    split; [done|congruence].
Qed.

Lemma spares_event w ev :
  True → spares doomed w (setJournal (λ j, j ++ [ev]) w).
Proof. intros _. split; [done|]. by intros. Qed.

Lemma spares_setObjects f w :
  (∀ objs,
     NoDup (dollar_id <$> objs) →
     Forall (λ v, view_id v ∉ doomed) (snapshotViews objs) →
     NoDup (dollar_id <$> f objs) ∧ snapshotViews (f objs) = snapshotViews objs) →
  spares doomed w (setObjects f w).
Proof. intros Hf. split; [done|]. apply Hf. Qed.

Lemma spares_perform {A} op (run : World → Result A * World) :
  (∀ w, spares doomed w (run w).2) →
  Respects (spares doomed) (perform env op run).
Proof.
  intros Hrun.
  apply (respects_perform (spares doomed) (λ _, True)); [|done|done].
  intros w ev. apply spares_event.
Qed.

(** The functions on the cache. *)
Lemma alter_views (test : XapiObject → bool) (g : XapiObject → XapiObject)
    objs :
  (∀ o, dollar_id (g o) = dollar_id o
        ∧ is_a_snapshot (g o) = is_a_snapshot o
        ∧ view (g o) = view o) →
  let f := λ o, if test o then g o else o in
  dollar_id <$> (f <$> objs) = dollar_id <$> objs
  ∧ snapshotViews (f <$> objs) = snapshotViews objs.
Proof.
  intros Hg f.
  assert (∀ o, dollar_id (f o) = dollar_id o
               ∧ is_a_snapshot (f o) = is_a_snapshot o
               ∧ view (f o) = view o) as Hf.
  { intros o. unfold f. destruct (test o); [apply Hg|done]. }
  split.
  - rewrite <-list_fmap_compose. apply list_fmap_ext. intros _ o _.
    apply Hf.
  - unfold snapshotViews. induction objs as [|o objs IH]; [done|].
    rewrite fmap_cons, !filter_cons.
    destruct (Hf o) as (_ & Hsnapshot & Hview).
    destruct (decide (isSnapshot o)) as [Ho|Ho].
    + rewrite decide_True by (unfold isSnapshot in *; congruence).
      rewrite !fmap_cons, Hview. by f_equal.
    + by rewrite decide_False by (unfold isSnapshot in *; congruence).
Qed.

Lemma append_views objs o :
  is_a_snapshot o = false →
  snapshotViews (objs ++ [o]) = snapshotViews objs.
Proof.
  intros Ho. unfold snapshotViews. rewrite filter_app, filter_cons.
  unfold isSnapshot at 2. rewrite decide_False by congruence.
  by rewrite filter_nil, app_nil_r.
Qed.

Lemma fresh_id objs :
  fresh (Hypervisor.identifiers objs) ∉ dollar_id <$> objs.
Proof.
  intros Hin. apply (infinite_is_fresh (Hypervisor.identifiers objs)).
  unfold Hypervisor.identifiers. apply elem_of_app. by left.
Qed.

Lemma append_ids objs o :
  dollar_id o = fresh (Hypervisor.identifiers objs) →
  NoDup (dollar_id <$> objs) → NoDup (dollar_id <$> (objs ++ [o])).
Proof.
  intros Ho Hids. rewrite fmap_app. apply NoDup_app. split; [done|].
  split; [|apply NoDup_singleton].
  intros id Hid ->%list_elem_of_singleton. simpl in Hid. rewrite Ho in Hid.
  by apply fresh_id in Hid.
Qed.

Lemma filter_ids (P : XapiObject → Prop) `{!∀ o, Decision (P o)} objs :
  NoDup (dollar_id <$> objs) → NoDup (dollar_id <$> filter P objs).
Proof.
  intros Hids. eapply sublist_NoDup; [exact Hids|].
  apply fmap_sublist, sublist_filter.
Qed.

Lemma delete_views objs id :
  Forall (λ v, view_id v ≠ id) (snapshotViews objs) →
  snapshotViews (filter (λ o, dollar_id o ≠ id) objs) = snapshotViews objs.
Proof.
  unfold snapshotViews. induction objs as [|o objs IH]; [done|].
  rewrite (filter_cons isSnapshot).
  destruct (decide (isSnapshot o)) as [Ho|Ho].
  - rewrite fmap_cons. intros [Hid Hrest]%Forall_cons. simpl in Hid.
    rewrite filter_cons, decide_True by done.
    rewrite filter_cons, decide_True by done.
    rewrite fmap_cons. f_equal. auto.
  - intros Hrest. rewrite filter_cons.
    destruct (decide (dollar_id o ≠ id)); [|auto].
    rewrite filter_cons, decide_False by done. auto.
Qed.
End SparesFacts.

Section SparesOperations.
Import Async Remote Xapi World Frame Snapshots.
Context (env : Env) (doomed : list string).

Lemma spares_alter (test : XapiObject → bool) (g : XapiObject → XapiObject)
    w :
  (∀ o, dollar_id (g o) = dollar_id o
        ∧ is_a_snapshot (g o) = is_a_snapshot o
        ∧ view (g o) = view o) →
  spares doomed w
    (setObjects (fmap (λ o, if test o then g o else o)) w).
Proof.
  intros Hg. apply spares_setObjects. intros objs Hids _.
  destruct (alter_views test g objs Hg) as [-> ->]. done.
Qed.

Lemma spares_updateBlockedOperations object updates :
  Respects (spares doomed)
    (Hypervisor.updateBlockedOperations env object updates).
Proof.
  apply spares_perform. intros w. cbn [snd].
  by apply (spares_alter (λ o, String.eqb (dollar_id o) (dollar_id object))).
Qed.

Lemma spares_addTag ref tag :
  Respects (spares doomed) (Hypervisor.addTag env ref tag).
Proof.
  apply spares_perform. intros w. cbn [snd].
  by apply (spares_alter (λ o, String.eqb (dollar_ref o) ref)).
Qed.

Lemma spares_updateOtherConfig_sr object srId :
  Respects (spares doomed)
    (Hypervisor.updateOtherConfig env object [("xo:backup:sr", Some srId)]).
Proof.
  apply spares_perform. intros w. cbn [snd].
  apply (spares_alter (λ o, String.eqb (dollar_id o) (dollar_id object))).
  intros o. split_and!; [done..|].
  unfold view. cbn. by rewrite !lookup_insert_ne.
Qed.

Lemma spares_tagReplica vm tag srId :
  Respects (spares doomed) (Worker.tagReplica env vm tag srId).
Proof.
  unfold Worker.tagReplica.
  apply (respects_bind (spares doomed));
    [|intros; apply (respects_ret (spares doomed))].
  apply (respects_promiseAll (spares doomed)).
  apply Forall_cons_2; [apply spares_addTag|].
  apply Forall_cons_2; [apply spares_updateBlockedOperations|].
  apply Forall_cons_2; [apply spares_updateOtherConfig_sr|].
  apply Forall_nil_2.
Qed.

Lemma spares_import label snapshot w :
  spares doomed w
    (setObjects
       (λ objs,
          objs ++ [Hypervisor.imported
                     (fresh (Hypervisor.identifiers (objects w))) label
                     snapshot]) w).
Proof.
  split; [done|]. intros Hids _. cbn [objects setObjects]. split.
  - by apply append_ids.
  - by apply append_views.
Qed.

Lemma spares_importVm snapshot srId label :
  Respects (spares doomed) (Hypervisor.importVm env snapshot srId label).
Proof. apply spares_perform. intros w. apply spares_import. Qed.

Lemma spares_importDeltaVm snapshot srId label :
  Respects (spares doomed) (Hypervisor.importDeltaVm env snapshot srId label).
Proof. apply spares_perform. intros w. apply spares_import. Qed.

Lemma spares_barrier ref :
  Respects (spares doomed) (Hypervisor.barrier env ref).
Proof.
  apply spares_perform. intros w. destruct (List.find _ _); reflexivity.
Qed.

Lemma spares_deleteVm vm :
  dollar_id vm ∈ doomed →
  Respects (spares doomed) (Hypervisor.deleteVm env vm).
Proof.
  intros Hvm. apply spares_perform. intros w. cbn [snd].
  apply spares_setObjects. intros objs Hids Hspared. split.
  - by apply filter_ids.
  - apply delete_views. eapply Forall_impl; [exact Hspared|].
    intros v Hv Heq. apply Hv. by rewrite Heq.
Qed.

Lemma spares_deleteVms vms :
  Forall (λ vm, dollar_id vm ∈ doomed) vms →
  Respects (spares doomed) (Backups.deleteVms env vms).
Proof.
  intros Hvms. unfold Backups.deleteVms, asyncMap.
  apply (respects_bind (spares doomed));
    [|intros; apply (respects_ret (spares doomed))].
  apply (respects_promiseAll (spares doomed)).
  apply Forall_fmap. eapply Forall_impl; [exact Hvms|].
  intros vm. apply spares_deleteVm.
Qed.

Lemma spares_wrapTask {A} message parentId data (result : A → Logs.value)
    (task : M A) :
  Respects (spares doomed) task →
  Respects (spares doomed)
    (Tasks.wrapTask env message parentId data result task).
Proof.
  intros Htask.
  apply (respects_wrapTask (spares doomed) (λ _, True)); [|done|done].
  intros w ev. apply spares_event.
Qed.

Lemma spares_weaken w w' :
  (NoDup (dollar_id <$> objects w) →
   Forall (λ v, view_id v ∉ doomed) (snapshotViews (objects w))) →
  spares doomed w w' → keepsSnapshots w w'.
Proof.
  intros Hdoomed [Hdeferred Hspares]. split; [done|].
  intros Hids _. auto.
Qed.
End SparesOperations.

Section TargetsKeepSnapshots.
Import Async Remote Xapi World Frame Snapshots Jobs.
Context (env : Env).

Lemma ids_identify (objs : list XapiObject) o1 o2 :
  NoDup (dollar_id <$> objs) → o1 ∈ objs → o2 ∈ objs →
  dollar_id o1 = dollar_id o2 → o1 = o2.
Proof.
  intros Hids [i Hi]%list_elem_of_lookup [j Hj]%list_elem_of_lookup Heq.
  assert (i = j) as ->.
  { eapply NoDup_lookup; [exact Hids| |].
    - by rewrite list_lookup_fmap, Hi.
    - by rewrite list_lookup_fmap, Hj, Heq. }
  congruence.
Qed.

Lemma replicas_not_snapshots objs scheduleId srId vmUuid k :
  NoDup (dollar_id <$> objs) →
  Forall
    (λ v, view_id v
          ∉ dollar_id
              <$> Retention.getOldEntries k
                    (Some (listReplicatedVms (Hypervisor.all objs) scheduleId
                             srId vmUuid)))
    (snapshotViews objs).
Proof.
  intros Hids. apply Forall_forall. intros v.
  intros (o & -> & [Ho Hin]%list_elem_of_filter)%list_elem_of_fmap.
  intros (r & Hid & Hr)%list_elem_of_fmap. simpl in Hid.
  destruct (getOldEntries_is_prefix k
              (listReplicatedVms (Hypervisor.all objs) scheduleId srId vmUuid))
    as (kept & Hall & _).
  assert (r ∈ listReplicatedVms (Hypervisor.all objs) scheduleId srId vmUuid)
    as Hlisted.
  { rewrite Hall. apply elem_of_app. by left. }
  unfold listReplicatedVms in Hlisted. rewrite sort_Permutation in Hlisted.
  apply list_elem_of_fmap in Hlisted as ([key r'] & -> & Hlisted).
  apply collect_sound in Hlisted as [[]%elem_of_nil|(_ & Hreplica & key' & Hr')].
  apply isReplicatedVm_spec in Hreplica as (_ & Hnot & _).
  apply list_elem_of_fmap in Hr' as (r'' & [= _ ->] & Hr'). simpl in *.
  assert (o = r'') as -> by by apply (ids_identify objs).
  unfold isSnapshot in Ho. congruence.
Qed.

Lemma fullSrTask_keepsSnapshots job scheduleId k vmUuid vm snapshot now taskId
    srId :
  Respects keepsSnapshots
    (Worker.fullSrTask env job scheduleId k vmUuid vm snapshot now taskId srId).
Proof.
  intros w. unfold Worker.fullSrTask. rewrite bind_run.
  unfold Hypervisor.getObject.
  destruct (List.find _ (objects w)) as [sr|]; cbn [fst snd]; [|reflexivity].
  rewrite bind_run. unfold getObjects. cbn [fst snd].
  set (olds := Retention.getOldEntries k _).
  apply (spares_weaken (dollar_id <$> olds)).
  { intros Hids. by apply replicas_not_snapshots. }
  assert (Respects (spares (dollar_id <$> olds)) (Backups.deleteVms env olds))
    as Hdelete.
  { apply spares_deleteVms. apply Forall_forall. intros r Hr.
    by apply list_elem_of_fmap_2. }
  match goal with
  | |- spares _ _ (?m w).2 =>
      enough (Respects (spares (dollar_id <$> olds)) m) as Hm by apply Hm
  end.
  apply (respects_bind (spares (dollar_id <$> olds))).
  { destruct (Worker.deleteFirstOf job srId); [done|].
    apply (respects_ret (spares (dollar_id <$> olds))). }
  intros _. apply (respects_bind (spares (dollar_id <$> olds))).
  { apply spares_wrapTask, spares_importVm. }
  intros created. apply (respects_bind (spares (dollar_id <$> olds))).
  { apply spares_barrier. }
  intros replica. apply (respects_bind (spares (dollar_id <$> olds))).
  { apply spares_tagReplica. }
  intros _. destruct (negb _); [done|].
  apply (respects_ret (spares (dollar_id <$> olds))).
Qed.

Lemma deltaSrTask_keepsSnapshots job scheduleId k vmUuid vm snapshot now
    taskId srId :
  Respects keepsSnapshots
    (Worker.deltaSrTask env job scheduleId k vmUuid vm snapshot now taskId
       srId).
Proof.
  intros w. unfold Worker.deltaSrTask. rewrite bind_run.
  unfold Hypervisor.getObject.
  destruct (List.find _ (objects w)) as [sr|]; cbn [fst snd]; [|reflexivity].
  rewrite bind_run. unfold getObjects. cbn [fst snd].
  set (olds := Retention.getOldEntries k _).
  apply (spares_weaken (dollar_id <$> olds)).
  { intros Hids. by apply replicas_not_snapshots. }
  assert (Respects (spares (dollar_id <$> olds)) (Backups.deleteVms env olds))
    as Hdelete.
  { apply spares_deleteVms. apply Forall_forall. intros r Hr.
    by apply list_elem_of_fmap_2. }
  match goal with
  | |- spares _ _ (?m w).2 =>
      enough (Respects (spares (dollar_id <$> olds)) m) as Hm by apply Hm
  end.
  apply (respects_bind (spares (dollar_id <$> olds))).
  { destruct (Worker.deleteFirstOf job srId); [done|].
    apply (respects_ret (spares (dollar_id <$> olds))). }
  intros _. apply (respects_bind (spares (dollar_id <$> olds))).
  { apply spares_wrapTask, spares_importDeltaVm. }
  intros replica. apply (respects_bind (spares (dollar_id <$> olds))).
  { apply spares_tagReplica. }
  intros _. destruct (negb _); [done|].
  apply (respects_ret (spares (dollar_id <$> olds))).
Qed.

Lemma keeps_keepsSnapshots w w' :
  keepsObjectsAndDeferred w w' → keepsSnapshots w w'.
Proof. intros [Hobjects Hdeferred]. split; [done|]. by rewrite Hobjects. Qed.

Lemma fullRemoteTask_keepsSnapshots job scheduleId k vmUuid vm fork now taskId
    remoteId :
  Respects keepsSnapshots
    (Worker.fullRemoteTask env job scheduleId k vmUuid vm fork now taskId
       remoteId).
Proof.
  intros w. apply keeps_keepsSnapshots.
  apply (respects_fullRemoteTask keepsObjectsAndDeferred (λ _, True));
    auto using keeps_event, keeps_files. done.
Qed.

Lemma deltaRemoteTask_keepsSnapshots job scheduleId k vmUuid vm vdis now
    taskId remoteId :
  Respects keepsSnapshots
    (Worker.deltaRemoteTask env job scheduleId k vmUuid vm vdis now taskId
       remoteId).
Proof.
  intros w. apply keeps_keepsSnapshots.
  apply (respects_deltaRemoteTask keepsObjectsAndDeferred keepsObjects
           (λ _, True));
    auto using keeps_event, keeps_files, keepsObjects_event,
      keepsObjects_files, keepsObjects_defer, keeps_withDefer; done.
Qed.

Lemma targets_keepSnapshots taskId
    (remoteTask srTask : string → string → M unit) remotes srs :
  (∀ t r, Respects keepsSnapshots (remoteTask t r)) →
  (∀ t s, Respects keepsSnapshots (srTask t s)) →
  Respects keepsSnapshots
    (waitAll (Worker.targetTasks env taskId remoteTask srTask remotes srs)
       noop).
Proof.
  intros Hremote Hsr.
  apply (respects_waitAll keepsSnapshots);
    [|intros; apply (respects_ret keepsSnapshots)].
  unfold Worker.targetTasks. apply Forall_app. split.
  - apply Forall_fmap, Forall_forall. intros r _.
    apply (respects_wrapTaskFn keepsSnapshots (λ _, True)); [|done|auto].
    intros w ev. apply spares_event.
  - apply Forall_fmap, Forall_forall. intros s _.
    apply (respects_wrapTaskFn keepsSnapshots (λ _, True)); [|done|auto].
    intros w ev. apply spares_event.
Qed.
End TargetsKeepSnapshots.

(** ** The steps of the worker *)

Section WorkerSteps.
Import Async Remote Xapi World Frame Snapshots Jobs.
Context (env : Env).

Lemma tryCatch_Ok {A} (m : M A) (h : Error → M A) w a w' :
  tryCatch m h w = (Ok a, w') →
  m w = (Ok a, w') ∨ ∃ e w1, m w = (Err e, w1) ∧ h e w1 = (Ok a, w').
Proof.
  rewrite tryCatch_run. destruct (m w) as [[a'|e] w1]; cbn [fst snd].
  - intros [= -> ->]. by left.
  - intros Hh. right. by exists e, w1.
Qed.

Lemma wrapTask_Ok {A} message parentId data (result : A → Logs.value)
    (task : M A) w v w' :
  Tasks.wrapTask env message parentId data result task w = (Ok v, w') →
  ∃ w1 w2,
    keepsObjectsAndDeferred w w1
    ∧ task w1 = (Ok v, w2)
    ∧ keepsObjectsAndDeferred w2 w'.
Proof.
  unfold Tasks.wrapTask. intros (taskId & w1 & Hstart & Hrun)%bind_Ok.
  injection Hstart as <- <-.
  apply tryCatch_Ok in Hrun as [Hrun|(e & w2 & _ & Hrun)].
  - apply bind_Ok in Hrun as (value & w2 & Htask & Hrun).
    apply bind_Ok in Hrun as (? & w3 & Hend & [= <- <-]).
    injection Hend as <- <-. eexists _, w2.
    split_and!; [|exact Htask|]; done.
  - by apply bind_Ok in Hrun as (? & ? & _ & [=]).
Qed.

Lemma perform_keeps {A} op (run : World → Result A * World) w a w' :
  (∀ w, keepsObjectsAndDeferred w (run w).2) →
  perform env op run w = (Ok a, w') →
  keepsObjectsAndDeferred w w'.
Proof.
  intros Hrun (_ & w1 & Hw1 & ->)%perform_Ok. specialize (Hrun w).
  rewrite Hw1 in Hrun. done.
Qed.

Lemma updateOtherConfig_Ok object updates w w' :
  Hypervisor.updateOtherConfig env object updates w = (Ok tt, w') →
  objects w'
  = Hypervisor.alterById (dollar_id object)
      (λ o, Hypervisor.withOtherConfig
              (Hypervisor.applyUpdates updates (other_config o)) o)
      (objects w)
  ∧ deferred w' = deferred w.
Proof. by intros (_ & w1 & [= <-] & ->)%perform_Ok. Qed.

Lemma snapshotVm_Ok vm label w snapshot w' :
  Hypervisor.snapshotVm env vm label w = (Ok snapshot, w') →
  ∃ current,
    List.find (λ o, String.eqb (dollar_id o) (dollar_id vm)) (objects w)
    = Some current
    ∧ dollar_id snapshot = fresh (Hypervisor.identifiers (objects w))
    ∧ dollar_ref snapshot = fresh (Hypervisor.identifiers (objects w))
    ∧ is_a_snapshot snapshot = true
    ∧ snapshot_of snapshot = dollar_ref current
    ∧ other_config snapshot = other_config current
    ∧ objects w' = objects w ++ [snapshot]
    ∧ deferred w' = deferred w.
Proof.
  intros (_ & w1 & Hrun & ->)%perform_Ok.
  destruct (List.find _ (objects w)) as [current|]; [|done].
  injection Hrun as <- <-. exists current. by split_and!.
Qed.

Lemma barrier_Ok ref w object w' :
  Hypervisor.barrier env ref w = (Ok object, w') →
  List.find (λ o, String.eqb (dollar_ref o) ref) (objects w) = Some object
  ∧ keepsObjectsAndDeferred w w'.
Proof.
  intros (_ & w1 & Hrun & ->)%perform_Ok.
  destruct (List.find _ (objects w)) as [o|]; [|done].
  by injection Hrun as <- <-.
Qed.

Lemma deleteVm_run vm w :
  (∀ n id, faults env n (DeleteVm id) = None) →
  Hypervisor.deleteVm env vm w
  = (Ok tt,
     setJournal (λ j, j ++ [EvOp (DeleteVm (dollar_id vm)) true])
       (setObjects (filter (λ o, dollar_id o ≠ dollar_id vm)) w)).
Proof.
  intros Hdelete. unfold Hypervisor.deleteVm.
  by rewrite perform_no_fault by apply Hdelete.
Qed.
End WorkerSteps.

(** ** Counting the snapshots of a schedule *)

Section SnapshotCount.
Import Async Remote Xapi World Frame Snapshots Jobs.
Context (vm : Vm) (jobId scheduleId : string).

Lemma filter_fmap {A B} (f : A → B) (P : B → Prop) `{!∀ y, Decision (P y)}
    (l : list A) :
  filter P (f <$> l) = f <$> filter (λ x, P (f x)) l.
Proof.
  induction l as [|x l IH]; [done|].
  rewrite fmap_cons, !filter_cons. destruct (decide (P (f x))); [|done].
  by rewrite fmap_cons, IH.
Qed.

Lemma tagged_views objs :
  filter (taggedView vm jobId scheduleId) (snapshotViews objs)
  = view <$> filter (tagged vm jobId scheduleId) objs.
Proof.
  unfold snapshotViews. rewrite filter_fmap, list_filter_filter. f_equal.
  apply list_filter_iff. intros o.
  unfold taggedView, tagged, isSnapshot, Worker.hasTag, view. simpl.
  tauto.
Qed.

Lemma count_views w :
  count vm jobId scheduleId w
  = length (filter (taggedView vm jobId scheduleId)
                   (snapshotViews (objects w))).
Proof. unfold count. by rewrite tagged_views, length_fmap. Qed.

Lemma views_without objs (doomed : list string) :
  snapshotViews (filter (λ o, dollar_id o ∉ doomed) objs)
  = filter (λ v, view_id v ∉ doomed) (snapshotViews objs).
Proof.
  unfold snapshotViews. rewrite filter_fmap, !list_filter_filter. f_equal.
  apply list_filter_iff. intros o. simpl. tauto.
Qed.

(** The snapshots among which the worker picks the old ones. *)
Lemma candidates_tagged objs :
  filter (Worker.hasTag "xo:backup:schedule" scheduleId)
    (Sort.sort compareSnapshotTime
       (filter (Worker.hasTag "xo:backup:job" jobId)
               (Hypervisor.snapshotsOf vm objs)))
  ≡ₚ filter (tagged vm jobId scheduleId) objs.
Proof.
  rewrite sort_Permutation. unfold Hypervisor.snapshotsOf.
  rewrite !list_filter_filter.
  erewrite list_filter_iff; [reflexivity|].
  intros o. unfold tagged. simpl. tauto.
Qed.

Lemma filter_none {A} (P : A → Prop) `{!∀ x, Decision (P x)} (l : list A) :
  Forall (λ x, ¬ P x) l → filter P l = [].
Proof.
  induction 1 as [|x l Hx _ IH]; [done|].
  by rewrite filter_cons, decide_False.
Qed.

Lemma filter_all {A} (P : A → Prop) `{!∀ x, Decision (P x)} (l : list A) :
  Forall P l → filter P l = l.
Proof.
  induction 1 as [|x l Hx _ IH]; [done|].
  by rewrite filter_cons, decide_True, IH.
Qed.

Lemma filter_comm {A} (P Q : A → Prop) `{!∀ x, Decision (P x)}
    `{!∀ x, Decision (Q x)} (l : list A) :
  filter P (filter Q l) = filter Q (filter P l).
Proof. rewrite !list_filter_filter. apply list_filter_iff. tauto. Qed.

Lemma length_without (l old : list XapiObject) :
  NoDup (dollar_id <$> l) → old ⊆+ l →
  (length (filter (λ o, dollar_id o ∉ dollar_id <$> old) l) + length old
   = length l)%nat.
Proof.
  intros Hids [kept Hl]%submseteq_Permutation.
  rewrite Hl in Hids |- *. rewrite filter_app, !length_app.
  rewrite fmap_app in Hids. apply NoDup_app in Hids as (_ & Hapart & _).
  rewrite filter_none, filter_all; [simpl; lia| |].
  - apply Forall_forall. intros o Ho Hin. apply (Hapart _ Hin).
    by apply list_elem_of_fmap_2.
  - apply Forall_forall. intros o Ho Hnotin. apply Hnotin.
    by apply list_elem_of_fmap_2.
Qed.

(** After the deletion of [old], taken among the tagged snapshots. *)
Lemma count_without objs (old : list XapiObject) :
  NoDup (dollar_id <$> objs) →
  old ⊆+ filter (tagged vm jobId scheduleId) objs →
  (length (filter (taggedView vm jobId scheduleId)
             (filter (λ v, view_id v ∉ dollar_id <$> old)
                     (snapshotViews objs)))
   + length old
   = length (filter (tagged vm jobId scheduleId) objs))%nat.
Proof.
  intros Hids Hold.
  rewrite filter_comm, tagged_views, filter_fmap, length_fmap.
  apply length_without; [|done]. by apply filter_ids.
Qed.
End SnapshotCount.

(** ** The cache under the steps of the worker *)

Section CacheFacts.
Import Async Remote Xapi World Frame Snapshots Jobs.

Lemma alterById_ids id (g : XapiObject → XapiObject) objs :
  (∀ o, dollar_id (g o) = dollar_id o) →
  dollar_id <$> Hypervisor.alterById id g objs = dollar_id <$> objs.
Proof.
  intros Hg. unfold Hypervisor.alterById. rewrite <-list_fmap_compose.
  apply list_fmap_ext. intros _ o _. simpl.
  by destruct (String.eqb _ _).
Qed.

Lemma alterById_fresh id (g : XapiObject → XapiObject) objs :
  id ∉ dollar_id <$> objs → Hypervisor.alterById id g objs = objs.
Proof.
  intros Hid. unfold Hypervisor.alterById.
  rewrite <-(list_fmap_id objs) at 2. apply list_fmap_ext.
  intros _ o Ho%list_elem_of_lookup_2. simpl.
  destruct (String.eqb_spec (dollar_id o) id) as [<-|]; [|done].
  destruct Hid. by apply list_elem_of_fmap_2.
Qed.

Lemma alterById_nonsnapshot id (g : XapiObject → XapiObject) objs :
  (∀ o, o ∈ objs → dollar_id o = id → is_a_snapshot o = false) →
  (∀ o, is_a_snapshot (g o) = is_a_snapshot o) →
  snapshotViews (Hypervisor.alterById id g objs) = snapshotViews objs.
Proof.
  intros Hid Hg. unfold snapshotViews, Hypervisor.alterById.
  induction objs as [|o objs IH]; [done|].
  assert (view <$> filter isSnapshot
            ((λ o, if String.eqb (dollar_id o) id then g o else o) <$> objs)
          = view <$> filter isSnapshot objs) as IH'.
  { apply IH. intros o' Ho'. apply Hid. by right. }
  rewrite fmap_cons, !filter_cons.
  destruct (String.eqb_spec (dollar_id o) id) as [Heq|Hne].
  - assert (is_a_snapshot o = false) as Ho by (apply Hid; [left|done]).
    by rewrite !decide_False
      by (unfold isSnapshot; rewrite ?Hg; congruence).
  - destruct (decide (isSnapshot o)); [|done].
    by rewrite !fmap_cons, IH'.
Qed.

Lemma find_by_id objs id current :
  List.find (λ o, String.eqb (dollar_id o) id) objs = Some current →
  current ∈ objs ∧ dollar_id current = id.
Proof.
  intros [Hin Hid]%find_some. split; [by apply list_elem_of_In|].
  by apply String.eqb_eq.
Qed.

Lemma find_by_ref objs ref object :
  List.find (λ o, String.eqb (dollar_ref o) ref) objs = Some object →
  object ∈ objs ∧ dollar_ref object = ref.
Proof.
  intros [Hin Href]%find_some. split; [by apply list_elem_of_In|].
  by apply String.eqb_eq.
Qed.

Lemma fresh_ref objs :
  fresh (Hypervisor.identifiers objs) ∉ dollar_ref <$> objs.
Proof.
  intros Hin. apply (infinite_is_fresh (Hypervisor.identifiers objs)).
  unfold Hypervisor.identifiers. apply elem_of_app. right.
  apply elem_of_app. by left.
Qed.

Lemma getObject_Ok id w object w' :
  Hypervisor.getObject id w = (Ok object, w') → object ∈ objects w ∧ w' = w.
Proof.
  unfold Hypervisor.getObject.
  destruct (List.find _ (objects w)) as [o|] eqn:Hfind; [|done].
  intros [= <- <-]. apply find_some in Hfind as [Hin _].
  split; [by apply list_elem_of_In|done].
Qed.
End CacheFacts.

(** ** A successful run of the worker *)

Section WorkerRun.
Import Async Remote Xapi World Frame Snapshots Jobs.
Context (env : Env) (vmUuid : string) (job : BackupJob) (schedule : Schedule).
Context (taskId : string).

Lemma backupVmBody_Ok vm w w_end :
  let jobId := job_id job in
  let scheduleId := schedule_id schedule in
  let s :=
    Settings.asNumber
      (Settings.getSetting (job_settings job) Settings.SnapshotRetention
         [scheduleId]) in
  Hypervisor.getObject vmUuid w = (Ok vm, w) →
  is_a_snapshot vm = false →
  NoDup (dollar_id <$> objects w) →
  deferred w = [] →
  Worker.backupVmBody env vmUuid job schedule taskId w = (Ok tt, w_end) →
  ∃ objs1 snapshot,
    NoDup (dollar_id <$> objs1)
    ∧ snapshotViews objs1 = snapshotViews (objects w)
    ∧ (dollar_id snapshot ∉ dollar_id <$> objs1)
    ∧ NoDup (dollar_id <$> objects w_end)
    ∧ snapshotViews (objects w_end)
      = snapshotViews objs1
        ++ [mkView (dollar_id snapshot) (dollar_ref vm) (Some jobId)
                   (Some scheduleId)]
    ∧ deferred w_end
      = ((if s =? 0
          then [DeleteSnapshot
                  (if String.eqb (job_mode job) "full" then Always
                   else OnFailure) snapshot]
          else [])
         ++ [DeleteOldSnapshots Always s
               (filter (Worker.hasTag "xo:backup:schedule" scheduleId)
                  (Sort.sort compareSnapshotTime
                     (filter (Worker.hasTag "xo:backup:job" jobId)
                        (Hypervisor.snapshotsOf vm objs1))))])
    ∧ (s = 0 →
       String.eqb (job_mode job) "full" = true
       ∨ String.eqb (job_mode job) "delta" = true).
Proof.
  intros jobId scheduleId s Hvm Hnot Hids Hnone Hrun.
  unfold Worker.backupVmBody in Hrun.
  apply bind_Ok in Hrun as (vm' & w0 & Hvm' & Hrun).
  rewrite Hvm in Hvm'. injection Hvm' as <- <-.
  apply bind_Ok in Hrun as ([] & w1 & Hclean & Hrun).
  fold jobId scheduleId s in Hrun.
  set (k := Settings.asNumber _) in Hrun.
  destruct ((k =? 0) && (s =? 0)) eqn:Hboth; [done|].
  apply bind_Ok in Hrun as (objs1 & ? & [= <- <-] & Hrun).
  apply bind_Ok in Hrun as ([] & w2 & Hhealthy & Hrun).
  apply bind_Ok in Hrun as (snap0 & w3 & Hsnapshot & Hrun).
  apply bind_Ok in Hrun as ([] & w4 & Htag & Hrun).
  apply bind_Ok in Hrun as ([] & w5 & [= <-] & Hrun).
  apply bind_Ok in Hrun as (snapshot & w6 & Hbarrier & Hrun).
  (* the VM and its cache *)
  apply getObject_Ok in Hvm as [Hin _].
  assert (NoDup (dollar_id <$> objects w1)
          ∧ snapshotViews (objects w1) = snapshotViews (objects w)
          ∧ deferred w1 = []
          ∧ ∀ c, c ∈ objects w1 → dollar_id c = dollar_id vm →
                 dollar_ref c = dollar_ref vm) as (Hids1 & Hviews1 & Hnone1 & Hvm1).
  { destruct (bool_decide _).
    - apply updateOtherConfig_Ok in Hclean as [-> ->].
      rewrite alterById_ids by done. split; [done|]. split.
      { apply alterById_nonsnapshot; [|done].
        intros o Ho Hid. by rewrite (ids_identify _ o vm Hids Ho Hin Hid). }
      split; [done|]. unfold Hypervisor.alterById.
      intros c (o & -> & Ho)%list_elem_of_fmap Hc.
      assert (dollar_id o = dollar_id vm) as Hid.
      { by destruct (String.eqb_spec (dollar_id o) (dollar_id vm)). }
      rewrite <-(ids_identify _ o vm Hids Ho Hin Hid).
      by destruct (String.eqb (dollar_id o) (dollar_id o)).
    - injection Hclean as <-. split_and!; [done..|].
      intros c Hc Hid. by rewrite (ids_identify _ c vm Hids Hc Hin Hid). }
  clear Hclean.
  (* the snapshot *)
  apply perform_keeps in Hhealthy as [Ho2 Hd2]; [|done].
  apply wrapTask_Ok in Hsnapshot
    as (wa & wb & [Hoa Hda] & Hsnapshot & [Ho3 Hd3]).
  apply snapshotVm_Ok in Hsnapshot
    as (current & Hcurrent & Hid0 & Href0 & Hsnap0 & Hof0 & Hconfig0 & Hob
        & Hdb).
  rewrite Hoa, Ho2 in Hcurrent, Hid0, Href0, Hob.
  apply find_by_id in Hcurrent as [Hcurrent Hidc].
  rewrite (Hvm1 _ Hcurrent Hidc) in Hof0.
  apply updateOtherConfig_Ok in Htag as [Ho4 Hd4].
  rewrite Ho3, Hob in Ho4. unfold Hypervisor.alterById in Ho4.
  rewrite fmap_app in Ho4.
  pose proof (fresh_id (objects w1)) as Hfresh. rewrite <-Hid0 in Hfresh.
  fold (Hypervisor.alterById (dollar_id snap0)
          (λ o, Hypervisor.withOtherConfig
                  (Hypervisor.applyUpdates
                     [("xo:backup:job", Some jobId);
                      ("xo:backup:schedule", Some scheduleId);
                      ("xo:backup:vm", Some vmUuid)] (other_config o)) o)
          (objects w1)) in Ho4.
  rewrite alterById_fresh in Ho4 by done.
  cbn [fmap list_fmap] in Ho4. rewrite String.eqb_refl in Ho4.
  set (snapT := Hypervisor.withOtherConfig _ snap0) in Ho4.
  assert (view snapT
          = mkView (dollar_id snap0) (dollar_ref vm) (Some jobId)
                   (Some scheduleId)) as Hview.
  { unfold view, snapT. cbn. rewrite Hof0. f_equal.
    - do 2 rewrite lookup_insert_ne by done. apply lookup_insert_eq.
    - rewrite lookup_insert_ne by done. apply lookup_insert_eq. }
  apply barrier_Ok in Hbarrier as [Hfound [Ho6 Hd6]].
  cbn [objects setDeferred deferred] in Hfound, Ho6, Hd6.
  apply find_by_ref in Hfound as [Hfound Href].
  rewrite Ho4 in Hfound.
  assert (snapshot = snapT) as ->.
  { apply elem_of_app in Hfound as [Hfound|Hfound%list_elem_of_singleton];
      [|done].
    destruct (fresh_ref (objects w1)). rewrite <-Href0, <-Href.
    by apply list_elem_of_fmap_2. }
  assert (NoDup (dollar_id <$> objects w6)) as Hids6.
  { rewrite Ho6, Ho4. by apply append_ids. }
  assert (snapshotViews (objects w6)
          = snapshotViews (objects w1)
            ++ [mkView (dollar_id snapT) (dollar_ref vm) (Some jobId)
                       (Some scheduleId)]) as Hviews6.
  { rewrite Ho6, Ho4. unfold snapshotViews.
    rewrite filter_app, filter_cons, decide_True by done.
    by rewrite fmap_app, filter_nil, fmap_cons, Hview. }
  assert (deferred w4 = []) as Hnone4 by congruence.
  rewrite Hnone4 in Hd6. clear Hfound Href.
  exists (objects w1), snapT.
  split; [done|]. split; [done|]. split; [done|].
  destruct (k =? 0) eqn:Hk.
  { injection Hrun as <-. destruct (s =? 0) eqn:Hs; [done|].
    split_and!; [done..|]. intros Hzero. by rewrite Hzero in Hs. }
  destruct (_ =? _)%nat; [done|].
  apply bind_Ok in Hrun as (now & ? & [= <- <-] & Hrun).
  assert (∀ w7 w8 w9 (fan : M unit) A (export : M A) when a,
            Respects keepsSnapshots fan →
            Respects keepsObjectsAndDeferred export →
            (if s =? 0 then Defer.defer (DeleteSnapshot when snapT)
             else ret tt) w6 = (Ok tt, w7) →
            export w7 = (Ok a, w8) →
            fan w8 = (Ok tt, w9) →
            NoDup (dollar_id <$> objects w9)
            ∧ snapshotViews (objects w9) = snapshotViews (objects w6)
            ∧ deferred w9
              = (if s =? 0 then [DeleteSnapshot when snapT] else [])
                ++ deferred w6) as Hrest.
  { intros w7 w8 w9 fan A export when a Hfan Hexport H7 H8 H9.
    specialize (Hexport w7). rewrite H8 in Hexport.
    destruct Hexport as [Ho8 Hd8]. simpl in Ho8, Hd8.
    specialize (Hfan w8). rewrite H9 in Hfan.
    destruct Hfan as [Hd9 Hfan]. simpl in Hd9, Hfan.
    assert (objects w7 = objects w6
            ∧ deferred w7
              = (if s =? 0 then [DeleteSnapshot when snapT] else [])
                ++ deferred w6) as [Ho7 Hd7].
    { destruct (s =? 0); by injection H7 as <-. }
    destruct Hfan as [Hids9 Hviews9].
    - by rewrite Ho8, Ho7.
    - apply Forall_forall. intros ? ? ?%elem_of_nil. done.
    - rewrite Hviews9, Ho8, Ho7, Hd9, Hd8, Hd7. done. }
  assert (∀ A op (a : A),
            Respects keepsObjectsAndDeferred
              (perform env op (λ w, (Ok a, w)))) as Hexport.
  { intros A op a.
    apply (respects_perform keepsObjectsAndDeferred (λ _, True));
      [|done|done].
    intros ? ?. apply keeps_event. }
  destruct (String.eqb (job_mode job) "full") eqn:Hfull.
  - apply bind_Ok in Hrun as ([] & w7 & H7 & Hrun).
    apply bind_Ok in Hrun as (xva & w8 & H8 & H9).
    eapply Hrest in H9 as (Hids9 & Hviews9 & Hd9);
      [|apply targets_keepSnapshots;
        [intros; apply fullRemoteTask_keepsSnapshots
        |intros; apply fullSrTask_keepsSnapshots]
       |apply Hexport|exact H7|exact H8].
    rewrite Hviews9, Hviews6, Hd9, Hd6. split_and!; auto.
  - destruct (String.eqb (job_mode job) "delta") eqn:Hdelta; [|done].
    apply bind_Ok in Hrun as ([] & w7 & H7 & Hrun).
    apply bind_Ok in Hrun as (vdis & w8 & H8 & H9).
    eapply Hrest in H9 as (Hids9 & Hviews9 & Hd9);
      [|apply targets_keepSnapshots;
        [intros; apply deltaRemoteTask_keepsSnapshots
        |intros; apply deltaSrTask_keepsSnapshots]
       |apply Hexport|exact H7|exact H8].
    rewrite Hviews9, Hviews6, Hd9, Hd6. split_and!; auto.
Qed.
End WorkerRun.

Section CleanUps.
Import Async Remote Xapi World Frame Snapshots Jobs.
Context (env : Env).
Hypothesis delete_works : ∀ n id, faults env n (DeleteVm id) = None.

Lemma deleteVm_objects vm w :
  (Hypervisor.deleteVm env vm w).1 = Ok tt
  ∧ objects (Hypervisor.deleteVm env vm w).2
    = filter (λ o, dollar_id o ∉ [dollar_id vm]) (objects w).
Proof.
  rewrite deleteVm_run by done. split; [done|]. cbn [snd objects setObjects
    setJournal]. apply list_filter_iff. intros o.
  rewrite not_elem_of_cons, elem_of_nil. tauto.
Qed.

Lemma deleteVms_objects vms w :
  ∃ values,
    (asyncMap vms (Hypervisor.deleteVm env) w).1 = Ok values
    ∧ objects (asyncMap vms (Hypervisor.deleteVm env) w).2
      = filter (λ o, dollar_id o ∉ dollar_id <$> vms) (objects w).
Proof.
  unfold asyncMap. revert w. induction vms as [|vm vms IH]; intros w.
  { exists []. split; [done|]. symmetry. apply filter_all, Forall_forall.
    intros o _. apply not_elem_of_nil. }
  cbn [fmap list_fmap promiseAll].
  destruct (deleteVm_objects vm w) as [Hok Hobjects].
  destruct (Hypervisor.deleteVm env vm w) as [r w1]. cbn [fst snd] in *.
  subst r. change (list_fmap _ _ ?f ?l) with (f <$> l).
  destruct (IH w1) as (values & Hvalues & Hrest).
  destruct (promiseAll _ w1) as [rs w2]. cbn [fst snd] in *. subst rs.
  exists (() :: values). split; [done|].
  rewrite Hrest, Hobjects, list_filter_filter. apply list_filter_iff.
  intros o. rewrite ?fmap_cons, !not_elem_of_cons, elem_of_nil. tauto.
Qed.

Lemma run_deleteOldSnapshots retention candidates w :
  objects
    (tryCatch
       (Defer.runDeferred env false
          (DeleteOldSnapshots Always retention candidates)) noop w).2
  = filter
      (λ o, dollar_id o
            ∉ dollar_id
                <$> Retention.getOldEntries retention (Some candidates))
      (objects w).
Proof.
  rewrite tryCatch_run. cbn [Defer.runDeferred Defer.applies].
  rewrite bind_run.
  destruct (deleteVms_objects
              (Retention.getOldEntries retention (Some candidates)) w)
    as (values & Hvalues & Hobjects).
  by rewrite Hvalues.
Qed.

Lemma run_deleteSnapshot snapshot w :
  objects
    (tryCatch (Defer.runDeferred env false (DeleteSnapshot Always snapshot))
       noop w).2
  = filter (λ o, dollar_id o ∉ [dollar_id snapshot]) (objects w).
Proof.
  rewrite tryCatch_run. cbn [Defer.runDeferred Defer.applies].
  destruct (deleteVm_objects snapshot w) as [Hok Hobjects].
  by rewrite Hok.
Qed.

Lemma run_keepSnapshot snapshot w :
  (tryCatch (Defer.runDeferred env false (DeleteSnapshot OnFailure snapshot))
     noop w).2 = w.
Proof. done. Qed.
End CleanUps.

Lemma kept_after_retention (kept old before : nat) (s : Z) :
  (kept + old = before)%nat →
  Z.of_nat old = Z.max 0 (Z.of_nat before - Z.max 0 (s - 1)) →
  0 ≤ s →
  Z.of_nat kept = Z.min (Z.of_nat before) (Z.max 0 (s - 1)).
Proof. lia. Qed.

(** C5 (amended).  After a successful run of the worker on a VM of a cache
    in which [$id] identifies the objects, with [snapshotRetention = s ≥ 0]
    and a hypervisor that deletes without error, the number of snapshots of
    the VM tagged with the job and the schedule is [min s (before + 1)],
    except in delta mode with [s = 0]: the snapshot just taken is then kept
    (it is deleted only if the run fails), so that one tagged snapshot
    remains.  In full mode with [s = 0] none remains. *)
Theorem snapshot_retention_count (env : World.Env) (vmUuid : string)
    (job : Jobs.BackupJob) (schedule : Jobs.Schedule) (taskId : string)
    (vm : Xapi.Vm) (w w' : World.World) :
  let jobId := Jobs.job_id job in
  let scheduleId := Jobs.schedule_id schedule in
  let s :=
    Settings.asNumber
      (Settings.getSetting (Jobs.job_settings job) Settings.SnapshotRetention
         [scheduleId]) in
  Hypervisor.getObject vmUuid w = (Async.Ok vm, w) →
  Xapi.is_a_snapshot vm = false →
  NoDup (Xapi.dollar_id <$> World.objects w) →
  0 ≤ s →
  (∀ n id, World.faults env n (World.DeleteVm id) = None) →
  Worker.backupVm env vmUuid job schedule taskId w = (Async.Ok tt, w') →
  Z.of_nat (Snapshots.count vm jobId scheduleId w')
  = if (s =? 0) && String.eqb (Jobs.job_mode job) "delta" then 1
    else Z.min s (Z.of_nat (Snapshots.count vm jobId scheduleId w) + 1).
Proof.
  intros jobId scheduleId s Hvm Hnot Hids Hs Hdelete Hrun.
  unfold Worker.backupVm, Defer.withDefer in Hrun.
  destruct (Worker.backupVmBody env vmUuid job schedule taskId
              (World.setDeferred (λ _, []) w)) as [r w1] eqn:Hbody.
  injection Hrun as -> <-. cbn [Async.isOk negb].
  assert (Hypervisor.getObject vmUuid (World.setDeferred (λ _, []) w)
          = (Async.Ok vm, World.setDeferred (λ _, []) w)) as Hvm0.
  { unfold Hypervisor.getObject in *. cbn [World.objects World.setDeferred].
    destruct (List.find _ (World.objects w)); [|done].
    by injection Hvm as ->. }
  apply (backupVmBody_Ok env vmUuid job schedule taskId vm) in Hbody
    as (objs1 & snapshot & Hids1 & Hviews1 & Hfresh & HidsE & HviewsE
        & Hdeferred & Hmode); [|done..].
  cbn [World.objects World.setDeferred] in Hviews1.
  fold jobId scheduleId s in HviewsE, Hdeferred, Hmode.
  set (candidates := filter _ (Sort.sort _ _)) in Hdeferred.
  set (old := Retention.getOldEntries s (Some candidates)).
  pose proof (candidates_tagged vm jobId scheduleId objs1) as Hcandidates.
  fold candidates in Hcandidates.
  destruct (getOldEntries_is_prefix s candidates) as (kept & Hprefix & _).
  fold old in Hprefix.
  assert (old ⊆+ filter (Snapshots.tagged vm jobId scheduleId) objs1) as Hold.
  { rewrite <-Hcandidates, Hprefix. by apply submseteq_inserts_r. }
  pose proof (count_without vm jobId scheduleId objs1 old Hids1 Hold)
    as Hcount.
  pose proof (getOldEntries_length s candidates) as Hlength.
  fold old in Hlength.
  assert (length (filter (Snapshots.tagged vm jobId scheduleId) objs1)
          = Snapshots.count vm jobId scheduleId w) as Hbefore.
  { rewrite count_views, <-Hviews1, tagged_views. by rewrite length_fmap. }
  assert (length candidates = Snapshots.count vm jobId scheduleId w) as Hn.
  { by rewrite Hcandidates. }
  rewrite Hbefore in Hcount. rewrite Hn in Hlength.
  assert (Forall (λ v, Snapshots.view_id v ∈ Xapi.dollar_id <$> objs1)
            (Snapshots.snapshotViews objs1)) as Hknown.
  { apply Forall_forall. intros v (o & -> & Ho)%list_elem_of_fmap.
    apply list_elem_of_filter in Ho as [_ Ho].
    by apply (list_elem_of_fmap_2 Xapi.dollar_id). }
  assert (Xapi.dollar_id snapshot ∉ Xapi.dollar_id <$> old) as Hnew.
  { intros Hin. apply Hfresh.
    apply list_elem_of_fmap in Hin as (o & -> & Ho).
    apply list_elem_of_fmap_2.
    eapply list_elem_of_filter, (elem_of_submseteq _ _ _ Ho Hold). }
  set (vT := Snapshots.mkView _ _ _ _) in HviewsE.
  assert (Snapshots.taggedView vm jobId scheduleId vT) as Htagged by done.
  assert (filter (Snapshots.taggedView vm jobId scheduleId)
            (filter (λ v, Snapshots.view_id v ∉ Xapi.dollar_id <$> old)
                    (Snapshots.snapshotViews objs1 ++ [vT]))
          = filter (Snapshots.taggedView vm jobId scheduleId)
              (filter (λ v, Snapshots.view_id v ∉ Xapi.dollar_id <$> old)
                      (Snapshots.snapshotViews objs1))
            ++ [vT]) as Hkept.
  { rewrite !filter_app. f_equal.
    rewrite (filter_cons _ vT), decide_True by done.
    by rewrite filter_nil, filter_cons, decide_True, filter_nil. }
  assert (filter (λ v, Snapshots.view_id v ∉ [Xapi.dollar_id snapshot])
                 (Snapshots.snapshotViews objs1 ++ [vT])
          = Snapshots.snapshotViews objs1) as Hgone.
  { rewrite filter_app, filter_all.
    - rewrite filter_cons, decide_False, filter_nil, ?app_nil_r; [done|].
      intros Hin. apply Hin. by left.
    - eapply Forall_impl; [exact Hknown|]. intros v Hv Hin.
      apply list_elem_of_singleton in Hin. apply Hfresh. by rewrite <-Hin. }
  rewrite count_views. cbn [World.objects World.setDeferred].
  rewrite Hdeferred.
  destruct (s =? 0) eqn:Hzero; cbn [andb app Defer.runAll foldl].
  - apply Z.eqb_eq in Hzero. destruct (Hmode Hzero) as [Hfull|Hdelta].
    + rewrite Hfull.
      rewrite run_deleteOldSnapshots, run_deleteSnapshot by done.
      fold old. rewrite !views_without, HviewsE, Hgone.
      apply String.eqb_eq in Hfull. rewrite Hfull.
      change (String.eqb "full" "delta") with false. cbn match.
      pose proof (kept_after_retention _ _ _ _ Hcount Hlength Hs) as Hk.
      rewrite Hk, Hzero. lia.
    + apply String.eqb_eq in Hdelta. rewrite Hdelta.
      change (String.eqb "delta" "full") with false.
      change (String.eqb "delta" "delta") with true. cbn match.
      change (World.tryCatch
                (Defer.runDeferred env false
                   (World.DeleteSnapshot World.OnFailure snapshot))
                World.noop w1).2 with w1.
      rewrite run_deleteOldSnapshots by done.
      fold old. rewrite views_without, HviewsE, Hkept, length_app.
      pose proof (kept_after_retention _ _ _ _ Hcount Hlength Hs) as Hk.
      rewrite Nat2Z.inj_add, Hk, Hzero. cbn [length]. lia.
  - rewrite run_deleteOldSnapshots by done.
    fold old. rewrite views_without, HviewsE, Hkept, length_app.
    apply Z.eqb_neq in Hzero.
    pose proof (kept_after_retention _ _ _ _ Hcount Hlength Hs) as Hk.
    rewrite Nat2Z.inj_add, Hk. cbn [length]. lia.
Qed.

(** C5 as stated fails in delta mode: with [snapshotRetention = 0] the
    snapshot taken by a successful run is kept (it is the base of the next
    delta), and one tagged snapshot remains where [min 0 (0 + 1) = 0] is
    promised. *)
Lemma delta_keeps_snapshot_with_retention_zero :
  let job := Scenario.job "delta" 2 0 in
  let run := Scenario.run WriterExamples.noFault job Scenario.pool in
  Settings.asNumber
    (Settings.getSetting (Jobs.job_settings job) Settings.SnapshotRetention
       [Jobs.schedule_id Scenario.nightly]) = 0
  ∧ run.1 = Async.Ok tt
  ∧ Snapshots.count Scenario.web "j1" "" Scenario.pool = 0%nat
  ∧ Snapshots.count Scenario.web "j1" "" run.2 = 1%nat.
Proof. vm_compute. split_and!; done. Qed.

(** Witness for C5: a third full backup that keeps one snapshot, in a cache
    that holds one. *)
Lemma snapshot_retention_count_witness :
  let env := Scenario.env WriterExamples.noFault in
  let job := Scenario.job "full" 2 1 in
  let run :=
    Worker.backupVm env "vm-1" job Scenario.nightly "t0"
      Scenario.afterTwoFullRuns in
  Snapshots.count Scenario.web "j1" "" Scenario.afterTwoFullRuns = 1%nat
  ∧ Z.of_nat (Snapshots.count Scenario.web "j1" "" run.2)
    = Z.min 1
        (Z.of_nat
           (Snapshots.count Scenario.web "j1" "" Scenario.afterTwoFullRuns)
         + 1).
Proof.
  intros env job run. split; [by vm_compute|].
  apply (snapshot_retention_count env "vm-1" job Scenario.nightly "t0"
           Scenario.web Scenario.afterTwoFullRuns run.2).
  - vm_compute. reflexivity.
  - reflexivity.
  - refine (bool_decide_unpack _ _). vm_compute. exact I.
  - vm_compute. discriminate.
  - intros n id. reflexivity.
  - vm_compute. reflexivity.
Defined.

(** ** Delta mode: the sidecars under the transfer and the deletion *)

Section SidecarsInside.
Import Async Remote World Inventory Frame.
Context (env : Env) (remoteId vmUuid : string) (predicate : Metadata → bool).

#[export] Instance keepsSidecarsInside_preorder r v p :
  PreOrder (keepsSidecarsInside r v p).
Proof.
  split; [by intros w|]. intros w1 w2 w3 [H1 D1] [H2 D2].
  split; [congruence|auto].
Qed.

Lemma inside_event w ev :
  True →
  keepsSidecarsInside remoteId vmUuid predicate w
    (setJournal (λ j, j ++ [ev]) w).
Proof. done. Qed.

Lemma inside_perform {A} op (run : World → Result A * World) :
  (∀ w, keepsSidecarsInside remoteId vmUuid predicate w (run w).2) →
  Respects (keepsSidecarsInside remoteId vmUuid predicate)
    (perform env op run).
Proof.
  intros Hrun.
  by apply (respects_perform (keepsSidecarsInside remoteId vmUuid predicate)
              (λ _, True) env inside_event).
Qed.

Lemma sidecars_setFiles r (g : gmap string File → gmap string File) w :
  (∀ fs, filter (isSidecarOf (getVmBackupDir vmUuid) predicate) (g fs)
         = filter (isSidecarOf (getVmBackupDir vmUuid) predicate) fs) →
  sidecars remoteId vmUuid predicate (setFiles r g w)
  = sidecars remoteId vmUuid predicate w.
Proof.
  intros Hg. unfold sidecars. destruct (decide (r = remoteId)) as [->|Hne].
  - by rewrite files_setFiles.
  - by rewrite files_setFiles_ne.
Qed.

Lemma inside_setFiles r (g : gmap string File → gmap string File) w :
  (∀ fs, filter (isSidecarOf (getVmBackupDir vmUuid) predicate) (g fs)
         = filter (isSidecarOf (getVmBackupDir vmUuid) predicate) fs) →
  keepsSidecarsInside remoteId vmUuid predicate w (setFiles r g w).
Proof. intros Hg. split; [by apply sidecars_setFiles|done]. Qed.

Lemma inside_list r dir :
  Respects (keepsSidecarsInside remoteId vmUuid predicate)
    (Handler.list env r dir).
Proof. apply inside_perform. by intros w. Qed.

Lemma inside_readHeaderAndFooter r path :
  Respects (keepsSidecarsInside remoteId vmUuid predicate)
    (VhdLib.readHeaderAndFooter env r path).
Proof.
  apply inside_perform. intros w. by destruct (files r w !! path) as [[]|].
Qed.

Lemma inside_mergeVhd r parentPath childPath :
  Respects (keepsSidecarsInside remoteId vmUuid predicate)
    (VhdLib.mergeVhd env r parentPath childPath).
Proof. apply inside_perform. by intros w. Qed.

Lemma inside_unlink r path checksum :
  isMetadataFile path = false →
  Respects (keepsSidecarsInside remoteId vmUuid predicate)
    (Handler.unlink env r path checksum).
Proof.
  intros Hpath. apply inside_perform. intros w. cbn [snd].
  apply inside_setFiles. intros fs.
  destruct checksum; rewrite ?filter_delete_apart;
    auto using isMetadataFile_checksumFile.
Qed.

Lemma inside_rename r oldPath newPath :
  isMetadataFile oldPath = false → isMetadataFile newPath = false →
  Respects (keepsSidecarsInside remoteId vmUuid predicate)
    (Handler.rename env r oldPath newPath false).
Proof.
  intros Hold Hnew. apply inside_perform. intros w.
  destruct (files r w !! oldPath); [|done]. cbn [snd].
  apply inside_setFiles. intros fs. by apply filter_move_apart.
Qed.

Lemma inside_chainVhd r parentPath childPath :
  isMetadataFile childPath = false →
  Respects (keepsSidecarsInside remoteId vmUuid predicate)
    (VhdLib.chainVhd env r parentPath childPath).
Proof.
  intros Hchild. apply inside_perform. intros w.
  destruct (files r w !! parentPath) as [[]|]; try done.
  destruct (files r w !! childPath) as [[]|]; try done. cbn [snd].
  apply inside_setFiles. intros fs. by apply filter_insert_apart.
Qed.

Lemma inside_defer when r path :
  isMetadataFile path = false →
  Respects (keepsSidecarsInside remoteId vmUuid predicate)
    (Defer.defer (UnlinkPath when r path)).
Proof.
  intros Hpath w. split; [done|]. cbn. intros Hds. by constructor.
Qed.

Lemma inside_writeStream input path checksum :
  isMetadataFile (dirname env path +:+ "/." +:+ basename env path) = false →
  isMetadataFile path = false →
  Respects (keepsSidecarsInside remoteId vmUuid predicate)
    (Writer.writeStream env input remoteId path checksum).
Proof.
  intros Htmp Hpath. pose proof isMetadataFile_checksumFile as Hsum.
  unfold Writer.writeStream, Handler.createOutputStream, Handler.finish,
    Handler.checksumWritten, Handler.rename, Handler.unlink, await.
  repeat first
    [ apply (respects_bind (keepsSidecarsInside remoteId vmUuid predicate));
        [|intros ?]
    | apply (respects_tryCatch
               (keepsSidecarsInside remoteId vmUuid predicate)); [|intros ?]
    | apply (respects_ret (keepsSidecarsInside remoteId vmUuid predicate))
    | apply (respects_throw (keepsSidecarsInside remoteId vmUuid predicate))
    | destruct checksum
    | apply inside_perform; intros w;
      try destruct (files remoteId w !! _); cbn [fst snd];
      first [ done
            | apply inside_setFiles; intros fs;
              rewrite ?filter_move_apart, ?filter_insert_apart,
                ?filter_delete_apart by done;
              done ] ].
Qed.

Lemma apartUnlinks_run failed ds w :
  apartUnlinks ds →
  sidecars remoteId vmUuid predicate (Defer.runAll env failed ds w)
  = sidecars remoteId vmUuid predicate w.
Proof.
  intros Hds. revert w. induction Hds as [|d ds Hd _ IH]; intros w; [done|].
  cbn [Defer.runAll foldl]. unfold Defer.runAll in IH. rewrite IH.
  destruct d as [| |when r path]; try done.
  assert (Respects (keepsSidecarsInside remoteId vmUuid predicate)
            (tryCatch (Defer.runDeferred env failed (UnlinkPath when r path))
               noop)) as Hrun.
  { apply (respects_tryCatch (keepsSidecarsInside remoteId vmUuid predicate));
      [|intros;
        apply (respects_ret (keepsSidecarsInside remoteId vmUuid predicate))].
    cbn [Defer.runDeferred]. destruct (Defer.applies when failed).
    - by apply inside_unlink.
    - apply (respects_ret (keepsSidecarsInside remoteId vmUuid predicate)). }
  apply Hrun.
Qed.

Lemma inside_withDefer {A} (body : M A) :
  Respects (keepsSidecarsInside remoteId vmUuid predicate) body →
  Respects (keepsSidecars remoteId vmUuid predicate)
    (Defer.withDefer env body).
Proof.
  intros Hbody w. unfold Defer.withDefer.
  destruct (Hbody (setDeferred (λ _, []) w)) as [Hsidecars Hdeferred].
  destruct (body (setDeferred (λ _, []) w)) as [r w1]. cbn [fst snd] in *.
  unfold keepsSidecars. cbn [snd].
  change (sidecars remoteId vmUuid predicate (setDeferred ?f ?w0))
    with (sidecars remoteId vmUuid predicate w0).
  rewrite apartUnlinks_run; [done|]. apply Hdeferred. constructor.
Qed.
End SidecarsInside.

Section DeltaSidecars.
Import Async Remote Xapi World Inventory Frame Jobs.
Context (env : Env) (remoteId vmUuid : string) (predicate : Metadata → bool).

Lemma respects_bind_Ok (R : relation World) `{!PreOrder R} {A B} (m : M A)
    (f : A → M B) (Q : A → Prop) :
  Respects R m →
  (∀ w a w', m w = (Ok a, w') → Q a) →
  (∀ a, Q a → Respects R (f a)) →
  Respects R (let* a := m in f a).
Proof.
  intros Hm HQ Hf w. rewrite bind_run. specialize (Hm w).
  destruct (m w) as [[a|e] w1] eqn:Hrun; cbn [fst snd] in *; [|done].
  etrans; [exact Hm|]. apply Hf. by eapply HQ.
Qed.

Lemma isMetadataFile_under dir name c :
  last (list_ascii_of_string name) = Some c → c ≠ "n"%char →
  isMetadataFile (dir +:+ "/" +:+ name) = false.
Proof.
  intros Hname Hc. apply (isMetadataFile_last _ c); [|done].
  rewrite !list_ascii_app. do 2 (apply last_app_Some; left). done.
Qed.

Lemma isMetadataFile_vhd dir name :
  isVhd name = true → isMetadataFile (dir +:+ "/" +:+ name) = false.
Proof.
  intros Hname. apply (isMetadataFile_under _ _ "d"%char); [|done].
  by apply (endsWith_last _ ".vhd").
Qed.

Lemma asyncMap_headers r paths w values w' :
  asyncMap paths
    (λ path,
       let* parentUnicodeName := VhdLib.readHeaderAndFooter env r path in
       ret (path, parentUnicodeName)) w = (Ok values, w') →
  values.*1 = paths.
Proof.
  unfold asyncMap. revert w values.
  induction paths as [|path paths IH]; intros w values.
  { by intros [= <- _]. }
  rewrite fmap_cons.
  intros (a & rest & w1 & Hhead & Hrest & ->)%promiseAll_Ok.
  apply bind_Ok in Hhead as (parent & ? & _ & [= <- _]).
  rewrite fmap_cons. f_equal. by eapply IH.
Qed.

Lemma deleteVhd_keepsSidecars path :
  isMetadataFile path = false →
  Respects (keepsSidecars remoteId vmUuid predicate)
    (Backups.deleteVhd env remoteId path).
Proof.
  intros Hpath. unfold Backups.deleteVhd. apply inside_withDefer.
  apply (respects_bind (keepsSidecarsInside remoteId vmUuid predicate));
    [apply inside_list|]. intros names.
  apply (respects_bind_Ok (keepsSidecarsInside remoteId vmUuid predicate) _ _
           (λ vhds,
              vhds.*1
              = (λ name, dirname env path +:+ "/" +:+ name)
                  <$> List.filter isVhd names)).
  - apply (respects_asyncMap (keepsSidecarsInside remoteId vmUuid predicate)).
    intros p.
    apply (respects_bind (keepsSidecarsInside remoteId vmUuid predicate));
      [apply inside_readHeaderAndFooter|].
    intros parent.
    apply (respects_ret (keepsSidecarsInside remoteId vmUuid predicate)).
  - intros w vhds w'. apply asyncMap_headers.
  - intros vhds Hvhds.
    destruct (List.find _ vhds) as [child|] eqn:Hchild;
      [|by apply inside_unlink].
    assert (isMetadataFile child.1 = false) as Hchild'.
    { apply find_some in Hchild as [Hin%list_elem_of_In _].
      apply (list_elem_of_fmap_2 fst) in Hin. rewrite Hvhds in Hin.
      apply list_elem_of_fmap in Hin as (name & -> & Hname).
      apply list_elem_of_In, filter_In in Hname as [_ Hname].
      by apply isMetadataFile_vhd. }
    apply (respects_bind (keepsSidecarsInside remoteId vmUuid predicate));
      [by apply inside_defer|]. intros _.
    apply (respects_bind (keepsSidecarsInside remoteId vmUuid predicate));
      [apply inside_mergeVhd|]. intros _.
    by apply inside_rename.
Qed.

Lemma deleteVhds_keepsSidecars filename vhds :
  Forall (λ vhd,
            isMetadataFile (resolveRelativeFromFile env filename vhd) = false)
         vhds →
  Respects (keepsSidecars remoteId vmUuid predicate)
    (asyncMap vhds
       (λ vhd, Backups.deleteVhd env remoteId
                 (resolveRelativeFromFile env filename vhd)) >> ret tt).
Proof.
  intros Hvhds.
  apply (respects_bind (keepsSidecars remoteId vmUuid predicate));
    [|intros; apply (respects_ret (keepsSidecars remoteId vmUuid predicate))].
  unfold asyncMap.
  apply (respects_promiseAll (keepsSidecars remoteId vmUuid predicate)).
  apply Forall_fmap. eapply Forall_impl; [exact Hvhds|].
  intros vhd. apply deleteVhd_keepsSidecars.
Qed.

(** Deleting the delta backups of a listing removes their sidecars and no
    other. *)
Lemma deleteDeltaVmBackups_Ok backups w w' :
  Backups.deleteDeltaVmBackups env remoteId backups w = (Ok tt, w') →
  Forall (deletable env remoteId vmUuid predicate w) backups →
  NoDup (_filename <$> backups) →
  (size (sidecars remoteId vmUuid predicate w') + length backups
   = size (sidecars remoteId vmUuid predicate w))%nat
  ∧ ∀ path,
      Some path ∉ _filename <$> backups →
      sidecars remoteId vmUuid predicate w' !! path
      = sidecars remoteId vmUuid predicate w !! path.
Proof.
  unfold Backups.deleteDeltaVmBackups, asyncMap.
  intros (values & w1 & Hrun & [= <-])%bind_Ok.
  revert w values Hrun.
  induction backups as [|backup backups IH]; intros w values Hrun Hall Hdup.
  { injection Hrun as <- <-. by split. }
  rewrite fmap_cons in Hrun.
  apply promiseAll_Ok in Hrun as (a & rest & w2 & Hone & Hrun & _).
  apply Forall_cons in Hall as [(path & Hname & Hheld & Hapart) Hall].
  rewrite fmap_cons in Hdup. apply NoDup_cons in Hdup as [Hnotin Hdup].
  rewrite Hname in Hone, Hnotin.
  apply bind_Ok in Hone as (? & w3 & Hone & Hret).
  apply promiseAll_Ok in Hone as ([] & ? & wa & Hsidecar & Hone & _).
  apply promiseAll_Ok in Hone as ([] & ? & wb & Hpayload & Hnil & _).
  unfold ret in Hret. cbn [promiseAll] in Hnil. simplify_eq.
  unfold payloadsApartOf, payloadsOf in Hapart.
  apply Forall_app in Hapart as [_ Hvhds].
  apply (sidecars_unlink env remoteId vmUuid predicate) in Hsidecar.
  pose proof (deleteVhds_keepsSidecars path _ Hvhds wa) as Hkept.
  unfold asyncMap in Hkept. rewrite Hpayload in Hkept.
  unfold keepsSidecars in Hkept.
  cbn [snd] in Hkept. rewrite Hsidecar in Hkept. clear Hsidecar Hpayload.
  destruct (IH _ _ Hrun) as [Hsize Hsame]; [|done|].
  { apply Forall_forall. intros backup' Hin.
    rewrite Forall_forall in Hall.
    destruct (Hall _ Hin) as (path' & Hname' & Hheld' & Hapart').
    exists path'. split; [done|]. split; [|done].
    rewrite Hkept, lookup_delete_ne; [done|].
    intros ->. apply Hnotin. rewrite <-Hname'.
    by apply list_elem_of_fmap_2. }
  rewrite Hkept in Hsize, Hsame. split.
  - pose proof (size_delete_present _ _ Hheld). simpl. lia.
  - intros path' [Hne Hrest]%not_elem_of_cons.
    rewrite Hsame by done. apply lookup_delete_ne. congruence.
Qed.
End DeltaSidecars.

Section DeltaRemote.
Import Async Remote Xapi World Inventory Frame Jobs.
Context (env : Env) (remoteId vmUuid : string) (predicate : Metadata → bool).

Lemma wrapTask_Ok_journal {A} message parentId data (result : A → Logs.value)
    (task : M A) w v w' :
  Tasks.wrapTask env message parentId data result task w = (Ok v, w') →
  ∃ f g w2, task (setJournal f w) = (Ok v, w2) ∧ w' = setJournal g w2.
Proof.
  unfold Tasks.wrapTask. intros (taskId & w1 & Hstart & Hrun)%bind_Ok.
  injection Hstart as <- <-.
  apply tryCatch_Ok in Hrun as [Hrun|(e & w2 & _ & Hrun)].
  - apply bind_Ok in Hrun as (value & w2 & Htask & Hrun).
    apply bind_Ok in Hrun as (? & w3 & Hend & [= <- <-]).
    injection Hend as <- <-. by eexists _, _, w2.
  - by apply bind_Ok in Hrun as (? & ? & _ & [=]).
Qed.

Lemma deltaVhds_isVhd job now (vdis : Dict.t Vdi) id path :
  Dict.get id (Worker.deltaVhds env job now vdis) = Some path →
  isVhd path = true.
Proof.
  unfold Worker.deltaVhds.
  induction vdis as [|[key vdi] vdis IH]; [done|].
  rewrite fmap_cons. cbn [Dict.get fst snd].
  destruct (String.eqb key id); [|done].
  intros [= <-]. unfold isVhd. rewrite <-!string_app_assoc.
  apply endsWith_app.
Qed.

Lemma isMetadataFile_vdiPath job now (vdis : Dict.t Vdi) id :
  isMetadataFile
    (Worker.vdiPath vmUuid (Worker.deltaVhds env job now vdis) id) = false.
Proof.
  unfold Worker.vdiPath.
  destruct (Dict.get id _) as [path|] eqn:Hpath; cbn [default].
  - apply isMetadataFile_vhd. by eapply deltaVhds_isVhd.
  - by apply (isMetadataFile_under _ _ "d"%char).
Qed.

Lemma transferVdi_keepsSidecars vhds (entry : string * Vdi) :
  let path := Worker.vdiPath vmUuid vhds entry.1 in
  isMetadataFile path = false →
  isMetadataFile (dirname env path +:+ "/." +:+ basename env path) = false →
  Respects (keepsSidecars remoteId vmUuid predicate)
    (Worker.transferVdi env remoteId vmUuid vhds entry).
Proof.
  intros path Hpath Htmp. unfold Worker.transferVdi. fold path.
  apply inside_withDefer.
  apply (respects_bind (keepsSidecarsInside remoteId vmUuid predicate)).
  { destruct (bool_decide _);
      [|apply (respects_ret (keepsSidecarsInside remoteId vmUuid predicate))].
    apply (respects_bind (keepsSidecarsInside remoteId vmUuid predicate));
      [apply inside_list|]. intros names.
    apply (respects_ret (keepsSidecarsInside remoteId vmUuid predicate)). }
  intros parentPath.
  apply (respects_bind (keepsSidecarsInside remoteId vmUuid predicate));
    [by apply inside_writeStream|]. intros _.
  apply (respects_bind (keepsSidecarsInside remoteId vmUuid predicate));
    [by apply inside_defer|]. intros _.
  destruct (bool_decide _); [by apply inside_chainVhd|].
  apply (respects_ret (keepsSidecarsInside remoteId vmUuid predicate)).
Qed.

Lemma keepsSidecars_deltaTransfer job now taskId (vdis : Dict.t Vdi) :
  Forall
    (λ entry : string * Vdi,
       let path :=
         Worker.vdiPath vmUuid (Worker.deltaVhds env job now vdis) entry.1 in
       isMetadataFile (dirname env path +:+ "/." +:+ basename env path)
       = false) vdis →
  Respects (keepsSidecars remoteId vmUuid predicate)
    (if negb (bool_decide (vdis = []))
     then
       Tasks.wrapTask env "transfer" taskId Logs.Undefined Worker.sizeResult
         (asyncMap vdis
            (Worker.transferVdi env remoteId vmUuid
               (Worker.deltaVhds env job now vdis))
          >> ret tt)
     else ret tt).
Proof.
  intros Htmp.
  destruct (negb _);
    [|apply (respects_ret (keepsSidecars remoteId vmUuid predicate))].
  apply (respects_wrapTask (keepsSidecars remoteId vmUuid predicate)
           (λ _, True)).
  - intros w ev _. by apply keepsSidecars_event.
  - done.
  - apply (respects_bind (keepsSidecars remoteId vmUuid predicate));
      [|intros;
        apply (respects_ret (keepsSidecars remoteId vmUuid predicate))].
    unfold asyncMap.
    apply (respects_promiseAll (keepsSidecars remoteId vmUuid predicate)).
    apply Forall_fmap. eapply Forall_impl; [exact Htmp|].
    intros entry Hentry. apply transferVdi_keepsSidecars; [|done].
    apply isMetadataFile_vdiPath.
Qed.
End DeltaRemote.

(** The same for delta mode: the old backups are deleted by the task
    [merge], before the transfer or after the sidecar is written. *)
Lemma delta_remote_sidecar_count (env : World.Env) (job : Jobs.BackupJob)
    (scheduleId : string) (k : Z) (vmUuid : string) (vm : Xapi.Vm)
    (vdis : Dict.t World.Vdi) (now : Z) (taskId remoteId : string)
    (w w' : World.World) :
  let predicate := λ m : Remote.Metadata,
    (Remote.mode m =? "delta")%string
    && (Remote.scheduleId m =? scheduleId)%string in
  let new := Worker.metadataFilename env vmUuid now in
  1 ≤ k →
  Xapi.uuid vm = vmUuid →
  (∀ n dir, World.faults env n (World.List remoteId dir) = None) →
  (∀ n path, World.faults env n (World.ReadFile remoteId path) = None) →
  Js.indexOf (World.safeDateFormat env now) "/" = -1 →
  Forall
    (λ entry : string * World.Vdi,
       let path :=
         Worker.vdiPath vmUuid (Worker.deltaVhds env job now vdis) entry.1 in
       Remote.isMetadataFile
         (World.dirname env path +:+ "/." +:+ World.basename env path)
       = false) vdis →
  World.files remoteId w !! new = None →
  Inventory.payloadsApart env remoteId w →
  Worker.deltaRemoteTask env job scheduleId k vmUuid vm vdis now taskId
    remoteId w = (Async.Ok tt, w') →
  Z.of_nat (Inventory.count remoteId vmUuid predicate w')
  = Z.min k (Z.of_nat (Inventory.count remoteId vmUuid predicate w) + 1)
  ∧ World.files remoteId w' !! new
    = Some (Remote.Sidecar
              (Worker.deltaMetadata env job scheduleId now vdis)).
Proof.
  intros predicate new Hk Huuid Hlist Hread Hdate Htmp Hnew Hapart Hrun.
  unfold Worker.deltaRemoteTask in Hrun. rewrite Huuid in Hrun.
  apply bind_Ok in Hrun as ([] & w1 & Hhandler & Hrun).
  apply bind_Ok in Hrun as (backups & w2 & Hlisting & Hrun).
  apply bind_Ok in Hrun as ([] & w3 & Hfirst & Hrun).
  apply bind_Ok in Hrun as ([] & w4 & Htransfer & Hrun).
  apply bind_Ok in Hrun as ([] & w5 & Hsidecar & Hlast).
  fold predicate in Hlisting. fold new in Hsidecar.
  pose proof (respects_getRemoteHandler (Inventory.keepsFiles remoteId)
                (λ _, True) env (keepsFiles_event remoteId)
                (λ _ _ _, I) remoteId w) as Hw1.
  rewrite Hhandler in Hw1. unfold Inventory.keepsFiles in Hw1. simpl in Hw1.
  destruct (listVmBackups_run env remoteId vmUuid predicate Hlist Hread w1)
    as (w2' & Hlisting' & Hw2).
  rewrite Hlisting in Hlisting'. injection Hlisting' as -> <-.
  rewrite Hw1 in Hw2.
  rewrite Hw1 in *.
  set (dir := Remote.getVmBackupDir vmUuid) in *.
  set (L := omap (Inventory.listed dir predicate)
                 (map_to_list (World.files remoteId w))) in *.
  set (B := Sort.sort Remote.compareTimestamp L) in *.
  set (old := Retention.getOldEntries k (Some B)) in *.
  assert (Inventory.sidecars remoteId vmUuid predicate w2
          = Inventory.sidecars remoteId vmUuid predicate w) as HS2.
  { unfold Inventory.sidecars. by rewrite Hw2. }
  assert (B ≡ₚ L) as HB by apply sort_Permutation.
  assert (length B = Inventory.count remoteId vmUuid predicate w) as Hlen.
  { rewrite HB. apply listed_count. }
  assert (Forall (Inventory.deletable env remoteId vmUuid predicate w) B)
    as Hdel.
  { rewrite HB. by apply listed_deletable. }
  assert (NoDup (Remote._filename <$> B)) as Hdup.
  { rewrite HB. apply listed_NoDup, NoDup_fst_map_to_list. }
  pose proof (getOldEntries_take k B) as Hold. fold old in Hold.
  assert (Forall (Inventory.deletable env remoteId vmUuid predicate w) old)
    as Hdel_old.
  { rewrite Hold. by apply Forall_take. }
  assert (NoDup (Remote._filename <$> old)) as Hdup_old.
  { rewrite Hold, fmap_take. eapply sublist_NoDup; [exact Hdup|].
    apply sublist_take. }
  pose proof (getOldEntries_length k B) as Hlen_old. fold old in Hlen_old.
  assert (Inventory.sidecars remoteId vmUuid predicate w !! new = None)
    as Hfresh.
  { apply map_lookup_filter_None_2. by left. }
  pose proof (deletable_fresh env remoteId vmUuid predicate w old new
                Hdel_old Hfresh) as Hkept.
  assert (Inventory.isListed dir new = true) as Hlisted.
  { by apply isListed_metadataFilename. }
  assert (predicate (Worker.deltaMetadata env job scheduleId now vdis) = true)
    as Hmatches.
  { unfold predicate. simpl. by rewrite String.eqb_refl. }
  pose proof (keepsSidecars_deltaTransfer env remoteId vmUuid predicate job
                now taskId vdis Htmp w3) as HS4.
  rewrite Htransfer in HS4. unfold Inventory.keepsSidecars in HS4.
  simpl in HS4.
  apply (sidecars_outputFile env remoteId vmUuid predicate) in Hsidecar
    as HS5; [|done..].
  assert (∀ wa wb,
            (∀ path,
               is_Some (Inventory.sidecars remoteId vmUuid predicate w
                        !! path) →
               is_Some (Inventory.sidecars remoteId vmUuid predicate wa
                        !! path)) →
            Tasks.wrapTask env "merge" taskId Logs.Undefined Worker.sizeResult
              (Backups.deleteDeltaVmBackups env remoteId old) wa
            = (Async.Ok tt, wb) →
            (size (Inventory.sidecars remoteId vmUuid predicate wb)
             + length old
             = size (Inventory.sidecars remoteId vmUuid predicate wa))%nat
            ∧ ∀ path,
                Some path ∉ Remote._filename <$> old →
                Inventory.sidecars remoteId vmUuid predicate wb !! path
                = Inventory.sidecars remoteId vmUuid predicate wa !! path)
    as Hmerge.
  { intros wa wb Hheld (f & g & wc & Hdelete & ->)%wrapTask_Ok_journal.
    apply (deleteDeltaVmBackups_Ok env remoteId vmUuid predicate) in Hdelete;
      [done| |done].
    eapply Forall_impl; [exact Hdel_old|]. intros backup.
    by apply deletable_mono. }
  unfold Inventory.count.
  destruct ((1 <? k) && Worker.deleteFirstOf job remoteId); cbn [negb] in *.
  - injection Hlast as <-.
    apply Hmerge in Hfirst as [Hsize Hsame]; [|by rewrite HS2].
    rewrite HS2 in Hsize, Hsame. rewrite HS5, HS4. split.
    + rewrite map_size_insert_None by (by rewrite Hsame).
      unfold Inventory.count in Hlen. lia.
    + apply outputFile_Ok in Hsidecar. rewrite Hsidecar.
      apply lookup_insert_eq.
  - injection Hfirst as <-. rewrite HS2 in HS4. rewrite HS4 in HS5.
    apply Hmerge in Hlast as [Hsize Hsame].
    2:{ intros path Hpath. rewrite HS5.
        by apply lookup_insert_is_Some'; right. }
    rewrite HS5 in Hsize, Hsame. split.
    + rewrite map_size_insert_None in Hsize by done.
      unfold Inventory.count in Hlen. lia.
    + specialize (Hsame new Hkept). rewrite lookup_insert_eq in Hsame.
      by apply map_lookup_filter_Some_1_1 in Hsame.
Qed.

(** C3 (amended).  On a remote whose export task succeeds with
    [exportRetention = k ≥ 1], in full mode and in delta mode, the number of
    sidecars of the VM for the schedule and the mode is [min k (before + 1)]
    when the task ends, and the sidecar that the task writes is among them:
    the entries to delete are taken from the listing made before the write.
    The remote is assumed to list and read its files without error, the name
    of the new sidecar to be unused, and the payloads (and the temporary
    files of the writer) not to be named like metadata files. *)
Theorem remote_sidecar_count (env : World.Env) (job : Jobs.BackupJob)
    (scheduleId : string) (k : Z) (vmUuid : string) (vm : Xapi.Vm) (now : Z)
    (taskId remoteId : string) (w w' : World.World) :
  let matching := λ (mode : string) (m : Remote.Metadata),
    (Remote.mode m =? mode)%string
    && (Remote.scheduleId m =? scheduleId)%string in
  let new := Worker.metadataFilename env vmUuid now in
  let temporary := λ path,
    World.dirname env path +:+ "/." +:+ World.basename env path in
  1 ≤ k →
  Xapi.uuid vm = vmUuid →
  (∀ n dir, World.faults env n (World.List remoteId dir) = None) →
  (∀ n path, World.faults env n (World.ReadFile remoteId path) = None) →
  Js.indexOf (World.safeDateFormat env now) "/" = -1 →
  World.files remoteId w !! new = None →
  Inventory.payloadsApart env remoteId w →
  (∀ fork,
     Remote.isMetadataFile (temporary (Worker.dataFilename env vmUuid now))
     = false →
     Worker.fullRemoteTask env job scheduleId k vmUuid vm fork now taskId
       remoteId w = (Async.Ok tt, w') →
     Z.of_nat (Inventory.count remoteId vmUuid (matching "full") w')
     = Z.min k
         (Z.of_nat (Inventory.count remoteId vmUuid (matching "full") w) + 1)
     ∧ World.files remoteId w' !! new
       = Some (Remote.Sidecar (Worker.fullMetadata env job scheduleId now)))
  ∧ (∀ vdis,
       Forall
         (λ entry : string * World.Vdi,
            Remote.isMetadataFile
              (temporary
                 (Worker.vdiPath vmUuid (Worker.deltaVhds env job now vdis)
                    entry.1)) = false) vdis →
       Worker.deltaRemoteTask env job scheduleId k vmUuid vm vdis now taskId
         remoteId w = (Async.Ok tt, w') →
       Z.of_nat (Inventory.count remoteId vmUuid (matching "delta") w')
       = Z.min k
           (Z.of_nat (Inventory.count remoteId vmUuid (matching "delta") w)
            + 1)
       ∧ World.files remoteId w' !! new
         = Some (Remote.Sidecar
                   (Worker.deltaMetadata env job scheduleId now vdis))).
Proof.
  intros matching new temporary Hk Huuid Hlist Hread Hdate Hnew Hapart. split.
  - intros fork Htmp Hrun.
    by apply (full_remote_sidecar_count env job scheduleId k vmUuid vm fork
                now taskId remoteId w w').
  - intros vdis Htmp Hrun.
    by apply (delta_remote_sidecar_count env job scheduleId k vmUuid vm vdis
                now taskId remoteId w w').
Qed.

(** Witness for C3: a third full backup on a remote that holds two, with
    [exportRetention = 2]; the remote holds two afterwards. *)
Lemma remote_sidecar_count_witness :
  let env := Scenario.env WriterExamples.noFault in
  let run :=
    Worker.fullRemoteTask env (Scenario.job "full" 2 1) "" 2 "vm-1"
      Scenario.web WriterExamples.export 100 "t0" "r1"
      Scenario.afterTwoFullRuns in
  Inventory.count "r1" "vm-1" Scenario.fullOfNightly Scenario.afterTwoFullRuns
  = 2%nat
  ∧ Z.of_nat (Inventory.count "r1" "vm-1" Scenario.fullOfNightly run.2)
    = Z.min 2
        (Z.of_nat
           (Inventory.count "r1" "vm-1" Scenario.fullOfNightly
              Scenario.afterTwoFullRuns) + 1)
  ∧ World.files "r1" run.2 !! Worker.metadataFilename env "vm-1" 100
    = Some (Remote.Sidecar
              (Worker.fullMetadata env (Scenario.job "full" 2 1) "" 100)).
Proof.
  intros env run. split; [by vm_compute|].
  assert (1 ≤ 2) as Hk by lia.
  assert (Xapi.uuid Scenario.web = "vm-1") as Huuid by reflexivity.
  assert (∀ n dir, World.faults env n (World.List "r1" dir) = None) as Hlist.
  { intros n dir. reflexivity. }
  assert (∀ n path, World.faults env n (World.ReadFile "r1" path) = None)
    as Hread.
  { intros n path. reflexivity. }
  assert (Js.indexOf (World.safeDateFormat env 100) "/" = -1) as Hdate.
  { vm_compute. reflexivity. }
  assert (World.files "r1" Scenario.afterTwoFullRuns
          !! Worker.metadataFilename env "vm-1" 100 = None) as Hnew.
  { vm_compute. reflexivity. }
  assert (Inventory.payloadsApart env "r1" Scenario.afterTwoFullRuns)
    as Hapart.
  { apply map_Forall_to_list. vm_compute. repeat constructor. }
  apply (proj1 (remote_sidecar_count env (Scenario.job "full" 2 1) "" 2 "vm-1"
                  Scenario.web 100 "t0" "r1" Scenario.afterTwoFullRuns run.2
                  Hk Huuid Hlist Hread Hdate Hnew Hapart)
           WriterExamples.export).
  - vm_compute. reflexivity.
  - vm_compute. reflexivity.
Defined.

(** * Edge cases, footprints and compositions *)

Section BackupIdEdges.
Import BackupId.

Lemma indexOfFrom_none c (s : string) (i : Z) :
  c ∉ list_ascii_of_string s → Js.indexOfFrom c s i = -1.
Proof.
  revert i. induction s as [|a s IH]; intros i Hnotin; simpl; [done|].
  simpl in Hnotin. apply not_elem_of_cons in Hnotin as [Hne Hnotin].
  destruct (Ascii.eqb_spec a c) as [->|_]; [done|]. by apply IH.
Qed.

Lemma string_split_at c (s : string) :
  c ∈ list_ascii_of_string s →
  ∃ a b, s = a +:+ String c b ∧ c ∉ list_ascii_of_string a.
Proof.
  induction s as [|x s IH]; simpl; [by intros ?%elem_of_nil|].
  destruct (decide (x = c)) as [->|Hne].
  - intros _. exists "", s. split; [done|]. apply not_elem_of_nil.
  - intros [?|Hin]%elem_of_cons; [done|].
    destruct (IH Hin) as (a & b & -> & Hnotin).
    exists (String x a), b. split; [done|]. simpl.
    apply not_elem_of_cons. split; [congruence|done].
Qed.

Lemma strDrop_succ_app (a b : string) c :
  Js.strDrop (S (String.length a)) (a +:+ String c b) = b.
Proof. induction a as [|x a IH]; simpl; [done|exact IH]. Qed.

(** X1. An identifier that contains ['/'] is split by [parseVmBackupId] at
    its first ['/'] without loss: the remote id has no ['/'], and joining
    the two parts with ['/'], as [listVmBackupsNg] does, gives the
    identifier back. *)
Theorem parseVmBackupId_rejoins (id : string) :
  "/"%char ∈ list_ascii_of_string id →
  makeVmBackupId (remoteId (parseVmBackupId id))
                 (metadataFilename (parseVmBackupId id)) = id
  ∧ "/"%char ∉ list_ascii_of_string (remoteId (parseVmBackupId id)).
Proof.
  intros (a & b & -> & Hnotin)%string_split_at.
  unfold parseVmBackupId, makeVmBackupId, Js.indexOf.
  rewrite indexOfFrom_app by done. rewrite Z.add_0_l.
  cbn [remoteId metadataFilename].
  unfold Js.strSlice, Js.relIndex. rewrite strLength_app.
  cbn [String.length]. set (n := String.length a).
  replace (0 <? 0) with false by reflexivity.
  destruct (Z.ltb_spec (Z.of_nat n + 1) 0) as [?|_]; [lia|].
  destruct (Z.ltb_spec (Z.of_nat n) 0) as [?|_]; [lia|].
  rewrite !Z.min_l by lia. cbn [Z.to_nat].
  replace (Z.to_nat (Z.of_nat n + 1)) with (S n) by lia.
  replace (Z.to_nat (Z.of_nat n - 0)) with n by lia.
  replace (Z.to_nat (Z.of_nat (n + S (String.length b)) - (Z.of_nat n + 1)))
    with (String.length b) by lia.
  unfold n. rewrite strDrop_succ_app, strTake_all.
  change (Z.to_nat 0) with 0%nat. cbn [Js.strDrop].
  rewrite strTake_app. done.
Qed.

(** X2. On an identifier without ['/'], [indexOf] answers [-1]: the
    metadata file name is then the whole identifier, and the remote id is
    the identifier without its last character. *)
Theorem parseVmBackupId_without_slash (id : string) :
  "/"%char ∉ list_ascii_of_string id →
  metadataFilename (parseVmBackupId id) = id
  ∧ remoteId (parseVmBackupId id)
    = Js.strTake (String.length id - 1) id.
Proof.
  intros Hnotin. unfold parseVmBackupId, Js.indexOf.
  rewrite indexOfFrom_none by done. cbn [remoteId metadataFilename].
  unfold Js.strSlice, Js.relIndex.
  replace (-1 + 1 <? 0) with false by reflexivity.
  replace (0 <? 0) with false by reflexivity.
  replace (-1 <? 0) with true by reflexivity.
  rewrite !Z.min_l by lia. cbn [Z.to_nat Js.strDrop]. split.
  - rewrite Z.sub_0_r, Nat2Z.id. apply strTake_all.
  - f_equal. lia.
Qed.
End BackupIdEdges.

(** Witness for X1: an identifier as the lister builds it. *)
Lemma parseVmBackupId_rejoins_witness :
  BackupId.makeVmBackupId
    (BackupId.remoteId (BackupId.parseVmBackupId "r1/xo-vm-backups/vm-1/a.json"))
    (BackupId.metadataFilename
       (BackupId.parseVmBackupId "r1/xo-vm-backups/vm-1/a.json"))
  = "r1/xo-vm-backups/vm-1/a.json".
Proof.
  apply (parseVmBackupId_rejoins "r1/xo-vm-backups/vm-1/a.json").
  vm_compute. do 2 (apply elem_of_cons; right). by apply elem_of_cons; left.
Defined.

(** Witness for X2: an identifier that is only a remote id. *)
Lemma parseVmBackupId_without_slash_witness :
  BackupId.remoteId (BackupId.parseVmBackupId "remote-1") = "remote-".
Proof.
  apply (parseVmBackupId_without_slash "remote-1").
  vm_compute. intros Hin.
  repeat (apply elem_of_cons in Hin as [Heq|Hin]; [discriminate Heq|]).
  by apply elem_of_nil in Hin.
Defined.

Section LogGroups.
Import Logs.

Lemma groupBy_get {V} (iteratee : V → value) (elements : list V) key :
  Dict.get key (groupBy iteratee elements)
  = match filter (λ v, toPropertyKey (iteratee v) = key) elements with
    | [] => None
    | group => Some group
    end.
Proof.
  unfold groupBy.
  induction elements as [|v vs IH] using rev_ind; [done|].
  rewrite foldl_app, filter_app. cbn [foldl].
  match goal with
  | |- context [foldl ?f [] vs] => set (groups := foldl f [] vs) in *
  end.
  rewrite filter_cons, filter_nil.
  destruct (decide (toPropertyKey (iteratee v) = key)) as [<-|Hne].
  - rewrite Dict_get_set_eq, IH.
    by destruct (filter _ vs) as [|v' group].
  - rewrite Dict_get_set_ne by done. by rewrite app_nil_r.
Qed.

(** X3. When [getBackupNgLogs] returns, the loop has ended normally, and
    the result files every element that lodash has visited under the key
    made of its [parentId], or under ['roots'] when it has none: the group
    found under a key holds exactly the elements with that key, in the
    order of the visit, and no group is empty.  As long as the prototype of
    [logs] is [Object.prototype], the elements visited are the records of
    [logs], in the order in which the log has created them. *)
Theorem getBackupNgLogs_groups runId (rawLogs : Dict.t RawLog) out :
  getBackupNgLogs runId rawLogs = Normal out →
  ∃ logs,
    consolidate runId rawLogs = Normal logs
    ∧ (proto logs = None → collection logs = Obj <$> Dict.values (own logs))
    ∧ ∀ key group,
        Dict.get key out = Some group ↔
          group ≠ []
          ∧ group
            = filter (λ log,
                        toPropertyKey
                          (parentIdOrRoots (objectPrototype logs) log) = key)
                     (collection logs).
Proof.
  unfold getBackupNgLogs.
  destruct (consolidate runId rawLogs) as [logs|] eqn:Hrun; [|done].
  destruct (forallb _ _); [|done]. intros [= <-]. exists logs.
  split; [done|]. split.
  { intros Hproto. apply collection_plain; [|done].
    by eapply consolidate_consistent. }
  intros key group. rewrite groupBy_get.
  destruct (filter _ _) as [|log group'].
  - split; [done|]. by intros [? ->].
  - split; [by intros [= <-]|]. by intros [_ ->].
Qed.

Lemma get_nil o k : get [] o k = prop o k.
Proof. unfold get, prop. by destruct (Dict.get k o). Qed.

Lemma consolidateLog_empty runId entry :
  (prop (data entry.2) "event" = Str "job.start" →
   prop (data entry.2) "type" = Str "backup" →
   runId ≠ None ∧ runId ≠ Some entry.1) →
  (prop (data entry.2) "event" = Str "task.start" →
   toPropertyKey (prop (data entry.2) "parentId")
     ∉ "__proto__" :: objectPrototypeMethods) →
  (prop (data entry.2) "event" = Str "job.end" →
   toPropertyKey (prop (data entry.2) "runJobId") ≠ "__proto__") →
  (prop (data entry.2) "event" = Str "task.end" →
   toPropertyKey (prop (data entry.2) "taskId") ≠ "__proto__") →
  consolidateLog runId empty entry = Normal empty.
Proof.
  destruct entry as [id [data time message]]. cbn [fst snd Logs.data].
  intros Hskip Hparent Hjob Htask.
  assert (∀ key, key ≠ "__proto__" →
            lookup empty key = NotFound
            ∨ lookup empty key = Object AMethod []) as Hlookup.
  { intros key Hkey. unfold lookup. cbn.
    destruct (String.eqb_spec key "__proto__"); [done|].
    case_bool_decide; auto. }
  unfold consolidateLog.
  cbn [Logs.data Logs.time Logs.message objectPrototype empty].
  rewrite !get_nil, !prop_delete_ne by discriminate.
  destruct (strictEq (prop data "event") (Str "job.start")) eqn:Hevent.
  { destruct (strictEq (prop data "type") (Str "backup")) eqn:Htype; [|done].
    apply strictEq_Str in Hevent, Htype.
    destruct (Hskip Hevent Htype) as [Hsome Hne].
    destruct runId as [r|]; [|done]. cbn [andb].
    destruct (String.eqb_spec r id) as [->|_]; done. }
  clear Hskip.
  destruct (strictEq (prop data "event") (Str "job.end")) eqn:Hend.
  { apply strictEq_Str in Hend.
    by destruct (Hlookup _ (Hjob Hend)) as [->| ->]. }
  destruct (strictEq (prop data "event") (Str "task.start")) eqn:Hstart.
  { apply strictEq_Str in Hstart. specialize (Hparent Hstart).
    apply not_elem_of_cons in Hparent as [Hne Hmethod].
    unfold lookup. cbn.
    destruct (String.eqb_spec (toPropertyKey (prop data "parentId"))
                "__proto__"); [done|].
    by rewrite bool_decide_eq_false_2. }
  destruct (strictEq (prop data "event") (Str "task.end")) eqn:Htend;
    [|done].
  apply strictEq_Str in Htend.
  by destruct (Hlookup _ (Htask Htend)) as [->| ->].
Qed.

(** X4. The consolidation starts from the [job.start] events it accepts.
    Let the log hold no [job.start] of a backup job for the requested run
    (for any run, when none is requested), and let no event reach
    [Object.prototype]: no [task.start] names ['__proto__'] or one of its
    methods as its parent, and no end event names ['__proto__'].  Then
    every other event is dropped and [getBackupNgLogs] returns no group at
    all. *)
Theorem getBackupNgLogs_needs_job_start runId (rawLogs : Dict.t RawLog) :
  (∀ id log,
     (id, log) ∈ rawLogs →
     prop (data log) "event" = Str "job.start" →
     prop (data log) "type" = Str "backup" →
     runId ≠ None ∧ runId ≠ Some id) →
  (∀ id log,
     (id, log) ∈ rawLogs →
     prop (data log) "event" = Str "task.start" →
     toPropertyKey (prop (data log) "parentId")
       ∉ "__proto__" :: objectPrototypeMethods) →
  (∀ id log,
     (id, log) ∈ rawLogs →
     (prop (data log) "event" = Str "job.end" →
      toPropertyKey (prop (data log) "runJobId") ≠ "__proto__")
     ∧ (prop (data log) "event" = Str "task.end" →
        toPropertyKey (prop (data log) "taskId") ≠ "__proto__")) →
  getBackupNgLogs runId rawLogs = Normal [].
Proof.
  intros Hskip Hparent Hends. unfold getBackupNgLogs.
  replace (consolidate runId rawLogs) with (Normal empty); [done|].
  unfold consolidate. generalize empty_consistent. intros _.
  induction rawLogs as [|[id log] rawLogs IH]; [done|].
  cbn [foldl]. rewrite consolidateLog_empty.
  - apply IH.
    + intros id' log' Hin. apply Hskip. by right.
    + intros id' log' Hin. apply (Hparent id'). by right.
    + intros id' log' Hin. apply (Hends id'). by right.
  - cbn [fst snd]. apply Hskip. by left.
  - cbn [fst snd]. apply (Hparent id log). by left.
  - cbn [fst snd]. apply (Hends id log). by left.
  - cbn [fst snd]. apply (Hends id log). by left.
Qed.
End LogGroups.

(** Witness for X3: the group of the tasks of the example run. *)
Lemma getBackupNgLogs_groups_witness :
  ∃ out,
    Logs.getBackupNgLogs None LogsExamples.started = Logs.Normal out
    ∧ Dict.get "run1" out
      = Some [Logs.Obj
                [("parentId", Logs.Str "run1"); ("start", Logs.Num 1010);
                 ("message", Logs.Str "Starting backup of web. (j1)")]].
Proof.
  eexists. split; [vm_compute; reflexivity|].
  destruct (getBackupNgLogs_groups None LogsExamples.started _ eq_refl)
    as (logs & Hrun & _ & Hgroups).
  apply Hgroups. split; [discriminate|].
  vm_compute in Hrun. injection Hrun as <-. vm_compute. reflexivity.
Defined.

(** Witness for X4: the example log asked for a run it does not hold. *)
Lemma getBackupNgLogs_needs_job_start_witness :
  Logs.getBackupNgLogs (Some "run2") LogsExamples.started = Logs.Normal [].
Proof.
  apply (getBackupNgLogs_needs_job_start (Some "run2") LogsExamples.started).
  - intros id log Hin Hevent Htype. split; [discriminate|].
    unfold LogsExamples.started in Hin.
    repeat (apply elem_of_cons in Hin as [[= -> ->]|Hin]);
      [..|by apply elem_of_nil in Hin];
      first [discriminate | (vm_compute in Hevent; discriminate Hevent)].
  - intros id log Hin Hevent.
    unfold LogsExamples.started in Hin.
    repeat (apply elem_of_cons in Hin as [[= -> ->]|Hin]);
      [..|by apply elem_of_nil in Hin];
      first [ (vm_compute in Hevent; discriminate Hevent)
            | apply (bool_decide_unpack _); vm_compute; exact I ].
  - intros id log Hin.
    unfold LogsExamples.started in Hin.
    repeat (apply elem_of_cons in Hin as [[= -> ->]|Hin]);
      [..|by apply elem_of_nil in Hin];
      split; intros Hevent; vm_compute in Hevent; discriminate Hevent.
Defined.

Section Combinators.
Import Async World.

Lemma promiseAll_caught (promises : list (M unit)) w :
  promiseAll ((λ promise, tryCatch promise noop) <$> promises) w
  = (Ok ((λ _, tt) <$> promises),
     foldl (λ w promise, (promise w).2) w promises).
Proof.
  revert w. induction promises as [|promise promises IH]; intros w; [done|].
  cbn [fmap list_fmap promiseAll foldl].
  change (list_fmap _ _ ?f ?l) with (f <$> l).
  rewrite tryCatch_run.
  destruct (promise w) as [[[]|e] w1]; cbn [fst snd noop ret];
    by rewrite IH.
Qed.

(** X5. [waitAll(promises, noop)] never rejects: whatever the promises do,
    every one of them is run to its end, in array order, and the call
    resolves in the world they leave. *)
Theorem waitAll_noop_settles_all (promises : list (M unit)) w :
  waitAll promises noop w
  = (Ok tt, foldl (λ w promise, (promise w).2) w promises).
Proof.
  unfold waitAll. rewrite bind_run, promiseAll_caught. done.
Qed.
End Combinators.

Section TaskBrackets.
Import Async World Tasks.
Context (env : Env) {A : Type}.
Context (message parentId : string) (data : Logs.value).
Context (result : A → Logs.value).

(** X6. [wrapTaskFn] is transparent: it settles as the task does, with the
    same value or the same error, and changes nothing but the log.  It logs
    a [task.start] under [parentId] before the task runs, hands the id of
    that entry to the task, and logs one [task.end] for that id afterwards,
    with status [success] and the shaped result when the task resolved and
    with status [failure] and the serialized error when it rejected. *)
Theorem wrapTaskFn_brackets (task : string → M A) w :
  let taskId := pretty (length (journal w)) in
  let started := (taskStart env message parentId data w).2 in
  let settled := task taskId started in
  let run := wrapTaskFn env message parentId data result task w in
  run.1 = settled.1
  ∧ remotes run.2 = remotes settled.2
  ∧ objects run.2 = objects settled.2
  ∧ deferred run.2 = deferred settled.2
  ∧ journal started
    = journal w
      ++ [EvLog taskId
            (Logs.mkRawLog
               [("event", Logs.Str "task.start");
                ("parentId", Logs.Str parentId); ("data", data)]
               (now env (length (journal w))) message)]
  ∧ journal run.2
    = journal settled.2
      ++ [EvLog (pretty (length (journal settled.2)))
            (Logs.mkRawLog
               [("event", Logs.Str "task.end");
                ("result",
                 match settled.1 with
                 | Ok value => result value
                 | Err error => serializeError error
                 end);
                ("status",
                 Logs.Str (if isOk settled.1 then "success" else "failure"));
                ("taskId", Logs.Str taskId)]
               (now env (length (journal settled.2))) message)].
Proof.
  cbv zeta.
  unfold wrapTaskFn, taskStart, taskEnd, log, bind, tryCatch, ret, throw.
  cbn [fst snd].
  destruct (task _ _) as [[value|error] w']; cbn [fst snd isOk];
    split_and!; done.
Qed.
End TaskBrackets.

Section WriterFootprint.
Import Async Remote World Footprint.
Context (env : Env).

#[export] Instance readOnly_preorder : PreOrder readOnly.
Proof.
  split; [by intros w|]. intros w1 w2 w3 (? & ? & ?) (? & ? & ?).
  unfold readOnly. split_and!; congruence.
Qed.

#[export] Instance touchesOnly_preorder remoteId paths :
  PreOrder (touchesOnly remoteId paths).
Proof.
  split; [by intros w|].
  intros w1 w2 w3 (Hr1 & Hp1 & ? & ?) (Hr2 & Hp2 & ? & ?). split_and!.
  - intros r Hr. by rewrite Hr2, Hr1.
  - intros p Hp. by rewrite Hp2, Hp1.
  - congruence.
  - congruence.
Qed.

Lemma touchesOnly_event remoteId paths w ev :
  True → touchesOnly remoteId paths w (setJournal (λ j, j ++ [ev]) w).
Proof. done. Qed.

Lemma touchesOnly_setFiles remoteId paths
    (g : gmap string File → gmap string File) w :
  (∀ p, p ∉ paths → g (files remoteId w) !! p = files remoteId w !! p) →
  touchesOnly remoteId paths w (setFiles remoteId g w).
Proof.
  intros Hg. split_and!; [|by rewrite files_setFiles|done..].
  intros r Hr. by apply files_setFiles_ne.
Qed.

Lemma touchesOnly_mono remoteId paths paths' w w' :
  paths ⊆ paths' →
  touchesOnly remoteId paths w w' → touchesOnly remoteId paths' w w'.
Proof.
  intros Hsub (Hr & Hp & ? & ?). split_and!; [done| |done..].
  intros p Hnotin. apply Hp. intros Hin. by apply Hnotin, Hsub.
Qed.

Lemma lookup_move (fs : gmap string File) oldPath newPath p :
  p ≠ oldPath → p ≠ newPath →
  Handler.move oldPath newPath fs !! p = fs !! p.
Proof.
  intros Hold Hnew. unfold Handler.move. destruct (fs !! oldPath); [|done].
  by rewrite lookup_insert_ne, lookup_delete_ne.
Qed.

Lemma touchesOnly_perform {A} remoteId paths op
    (run : World → Result A * World) :
  (∀ w, touchesOnly remoteId paths w (run w).2) →
  Frame.Respects (touchesOnly remoteId paths) (perform env op run).
Proof.
  intros Hrun.
  apply (respects_perform (touchesOnly remoteId paths) (λ _, True));
    [apply touchesOnly_event|done|exact Hrun].
Qed.

Lemma touchesOnly_unlink remoteId path (checksum : bool) :
  Frame.Respects
    (touchesOnly remoteId
       (path :: if checksum then [checksumFile path] else []))
    (Handler.unlink env remoteId path checksum).
Proof.
  apply touchesOnly_perform. intros w. cbn [snd].
  apply touchesOnly_setFiles. intros p Hp.
  destruct checksum.
  - apply not_elem_of_cons in Hp as [? [? _]%not_elem_of_cons].
    by rewrite !lookup_delete_ne.
  - apply not_elem_of_cons in Hp as [? _]. by rewrite lookup_delete_ne.
Qed.

Lemma touchesOnly_rename remoteId oldPath newPath (checksum : bool) :
  Frame.Respects
    (touchesOnly remoteId
       (oldPath :: newPath
        :: if checksum then [checksumFile oldPath; checksumFile newPath]
           else []))
    (Handler.rename env remoteId oldPath newPath checksum).
Proof.
  apply touchesOnly_perform. intros w.
  destruct (files remoteId w !! oldPath); [|done]. cbn [snd].
  apply touchesOnly_setFiles. intros p Hp.
  apply not_elem_of_cons in Hp as [? [? Hp]%not_elem_of_cons].
  destruct checksum.
  - apply not_elem_of_cons in Hp as [? [? _]%not_elem_of_cons].
    by rewrite !lookup_move.
  - by rewrite lookup_move.
Qed.

(** X7. Whatever happens, [writeStream] changes at most the temporary file
    and the destination, with their [.checksum] siblings when checksums are
    on: every other path of the remote, every other remote and the
    hypervisor are left as they were. *)
Theorem writeStream_footprint input remoteId path (checksum : bool) w :
  let tmpPath := dirname env path +:+ "/." +:+ basename env path in
  touchesOnly remoteId
    (tmpPath :: path
     :: if checksum then [checksumFile tmpPath; checksumFile path] else [])
    w (Writer.writeStream env input remoteId path checksum w).2.
Proof.
  intros tmpPath. revert w.
  change (Frame.Respects
            (touchesOnly remoteId
               (tmpPath :: path
                :: if checksum then [checksumFile tmpPath; checksumFile path]
                   else []))
            (Writer.writeStream env input remoteId path checksum)).
  set (paths := tmpPath :: path :: _).
  assert (tmpPath ∈ paths) as Htmp by (by left).
  assert (checksum = true → checksumFile tmpPath ∈ paths) as Hsum.
  { intros ->. unfold paths. by do 2 right; left. }
  assert (∀ data, Frame.Respects (touchesOnly remoteId paths)
                    (perform env (Finish remoteId tmpPath) (λ w,
                       (Ok tt, setFiles remoteId (λ fs, <[tmpPath := data]> fs)
                                 w)))) as Hwrite.
  { intros data. apply touchesOnly_perform. intros w. cbn [snd].
    apply touchesOnly_setFiles. intros p Hp. apply lookup_insert_ne.
    by intros <-. }
  unfold Writer.writeStream. fold tmpPath.
  apply (respects_bind (touchesOnly remoteId paths)).
  { apply touchesOnly_perform. by intros w. }
  intros _. apply (respects_bind (touchesOnly remoteId paths)).
  { apply touchesOnly_perform. intros w. cbn [snd].
    apply touchesOnly_setFiles. intros p Hp. apply lookup_insert_ne.
    by intros <-. }
  intros _. apply (respects_tryCatch (touchesOnly remoteId paths)).
  - apply (respects_bind (touchesOnly remoteId paths)); [apply Hwrite|].
    intros _. apply (respects_bind (touchesOnly remoteId paths)).
    { destruct checksum; [|apply respects_ret; apply _].
      apply touchesOnly_perform. intros w. cbn [snd].
      apply touchesOnly_setFiles. intros p Hp. apply lookup_insert_ne.
      intros <-. by apply Hp, Hsum. }
    intros _. apply (respects_bind (touchesOnly remoteId paths)).
    { apply touchesOnly_perform. by intros w. }
    intros _. apply touchesOnly_rename.
  - intros e. apply (respects_bind (touchesOnly remoteId paths)).
    + intros w. eapply touchesOnly_mono; [|apply touchesOnly_unlink].
      intros p Hin. apply elem_of_cons in Hin as [->|Hin]; [done|].
      destruct checksum; [|by apply elem_of_nil in Hin].
      apply list_elem_of_singleton in Hin as ->. by apply Hsum.
    + intros _. apply respects_throw. apply _.
Qed.
End WriterFootprint.

Section WriterDelivery.
Import Async Remote World.
Context (env : Env).

(** X8. When [writeStream] resolves, the destination holds what the stream
    carried and, with checksums on, its [.checksum] sibling exists; the
    temporary file is gone.  (The side conditions say that the paths
    involved differ as file names do: they hold for the names that
    [dirname] and [basename] produce.) *)
Theorem writeStream_delivers input remoteId path (checksum : bool) w w' :
  let tmpPath := dirname env path +:+ "/." +:+ basename env path in
  Writer.writeStream env input remoteId path checksum w = (Ok tt, w') →
  tmpPath ≠ path →
  (checksum = true →
   checksumFile tmpPath ≠ path ∧ checksumFile path ≠ tmpPath) →
  files remoteId w' !! path = Some (content input)
  ∧ files remoteId w' !! tmpPath = None
  ∧ (checksum = true → files remoteId w' !! checksumFile path = Some Blob).
Proof.
  intros tmpPath Hrun Htmp Hsum. unfold Writer.writeStream in Hrun.
  fold tmpPath in Hrun.
  apply bind_Ok in Hrun as ([] & w1 & Hinput & Hrun).
  apply perform_Ok in Hinput as (_ & ? & [= <-] & ->).
  apply bind_Ok in Hrun as ([] & w2 & Hopen & Hrun).
  apply perform_Ok in Hopen as (_ & ? & [= <-] & ->).
  apply tryCatch_Ok in Hrun as [Hrun|(e & w3 & _ & Hrun)]; cycle 1.
  { by apply bind_Ok in Hrun as (? & ? & _ & [=]). }
  apply bind_Ok in Hrun as ([] & w3 & Hfinish & Hrun).
  apply perform_Ok in Hfinish as (_ & ? & [= <-] & ->).
  apply bind_Ok in Hrun as ([] & w4 & Hwritten & Hrun).
  apply bind_Ok in Hrun as ([] & w5 & Htask & Hrun).
  apply perform_Ok in Htask as (_ & ? & [= <-] & ->).
  apply perform_Ok in Hrun as (_ & w6 & Hrename & ->).
  rewrite files_setJournal in Hrename |- *.
  pose proof checksumFile_ne as Hne.
  destruct checksum.
  - destruct Hsum as [Hsum1 Hsum2]; [done|].
    apply perform_Ok in Hwritten as (_ & ? & [= <-] & ->).
    repeat (rewrite files_setJournal in Hrename
            || rewrite files_setFiles in Hrename).
    rewrite lookup_insert_ne, lookup_insert_eq in Hrename by apply Hne.
    injection Hrename as <-.
    repeat (rewrite files_setJournal || rewrite files_setFiles).
    unfold Handler.move.
    rewrite lookup_insert_ne, lookup_insert_eq by apply Hne.
    rewrite lookup_insert_ne, lookup_delete_ne by (by apply not_eq_sym).
    rewrite lookup_insert_eq. split_and!.
    + rewrite lookup_insert_ne, lookup_delete_ne by (by apply not_eq_sym).
      apply lookup_insert_eq.
    + rewrite lookup_insert_ne, lookup_delete_ne by done.
      rewrite lookup_insert_ne by (by apply not_eq_sym).
      apply lookup_delete_eq.
    + intros _. apply lookup_insert_eq.
  - injection Hwritten as <-.
    repeat (rewrite files_setJournal in Hrename
            || rewrite files_setFiles in Hrename).
    rewrite lookup_insert_eq in Hrename. injection Hrename as <-.
    repeat (rewrite files_setJournal || rewrite files_setFiles).
    unfold Handler.move.
    rewrite lookup_insert_eq. split_and!; [| |done].
    + apply lookup_insert_eq.
    + rewrite lookup_insert_ne by (by apply not_eq_sym).
      apply lookup_delete_eq.
Qed.
End WriterDelivery.

(** Witness for X8: an export written to an empty remote. *)
Lemma writeStream_delivers_witness :
  let run := Writer.writeStream (WriterExamples.env WriterExamples.noFault)
               WriterExamples.export "r1" WriterExamples.xvaPath true
               WriterExamples.emptyWorld in
  World.files "r1" run.2 !! WriterExamples.xvaPath = Some Remote.Blob.
Proof.
  intros run.
  refine (proj1 (writeStream_delivers
                   (WriterExamples.env WriterExamples.noFault)
                   WriterExamples.export "r1" WriterExamples.xvaPath true
                   WriterExamples.emptyWorld run.2 _ _ _)).
  - vm_compute. reflexivity.
  - vm_compute. discriminate.
  - intros _. vm_compute. split; discriminate.
Defined.

Section ListerFacts.
Import Async Remote World Footprint Listing.
Context (env : Env) (remoteId vmUuid : string).
Context (predicate : option (Metadata → bool)).

#[local] Instance byTimestamp_trans : Transitive byTimestamp.
Proof. unfold byTimestamp. intros a b c. lia. Qed.

Lemma readOnly_event w ev :
  True → readOnly w (setJournal (λ j, j ++ [ev]) w).
Proof. done. Qed.

Lemma readOnly_files remoteId' w w' :
  readOnly w w' → files remoteId' w' = files remoteId' w.
Proof. intros (Hremotes & _). unfold files. by rewrite Hremotes. Qed.

Lemma compareTimestamp_sorts (backups : list Metadata) :
  Sort.sort compareTimestamp backups ≡ₚ backups
  ∧ Sorted byTimestamp (Sort.sort compareTimestamp backups).
Proof.
  split; [apply sort_Permutation|].
  apply (sort_Sorted compareTimestamp byTimestamp);
    unfold compareTimestamp, byTimestamp; intros a b; lia.
Qed.

(** X9. Listing the backups of a VM only reads: whether it resolves or
    rejects, the remotes, the hypervisor and the pending clean-ups are what
    they were. *)
Theorem listVmBackups_reads_only w :
  readOnly w (Backups.listVmBackups env remoteId vmUuid predicate w).2.
Proof.
  exact (respects_listVmBackups readOnly (λ _, True) env readOnly_event
           (λ _ _ _, I) remoteId vmUuid predicate w).
Qed.

Lemma readBackup_Ok dir file w backup w' :
  Backups.readBackup env remoteId dir predicate file w = (Ok (Some backup), w') →
  ∃ metadata,
    files remoteId w !! (dir +:+ "/" +:+ file) = Some (Sidecar metadata)
    ∧ accepts predicate metadata = true
    ∧ backup = withFilename (dir +:+ "/" +:+ file) metadata.
Proof.
  unfold Backups.readBackup.
  intros [Hrun|(e & w1 & _ & [=])]%tryCatch_Ok.
  apply bind_Ok in Hrun as (f & w1 & Hread & Hrun).
  apply perform_Ok in Hread as (_ & ? & Hread & ->).
  destruct (files remoteId w !! (dir +:+ "/" +:+ file)) as [f'|]; [|done].
  injection Hread as -> <-.
  destruct f as [metadata| |]; try done. exists metadata.
  fold (accepts predicate metadata) in Hrun.
  destruct (accepts predicate metadata); [|done].
  by injection Hrun as <- _.
Qed.

Lemma promiseAll_readBackup_Ok dir names w found w' backup :
  promiseAll (Backups.readBackup env remoteId dir predicate <$> names) w
  = (Ok found, w') →
  Some backup ∈ found →
  ∃ name metadata,
    name ∈ names
    ∧ files remoteId w !! (dir +:+ "/" +:+ name) = Some (Sidecar metadata)
    ∧ accepts predicate metadata = true
    ∧ backup = withFilename (dir +:+ "/" +:+ name) metadata.
Proof.
  revert w found. induction names as [|name names IH]; intros w found Hrun.
  { injection Hrun as <- _. by intros ?%elem_of_nil. }
  rewrite fmap_cons in Hrun.
  apply promiseAll_Ok in Hrun as (first & rest & w1 & Hone & Hrun & ->).
  intros [<-|Hin]%elem_of_cons.
  - apply readBackup_Ok in Hone as (metadata & ? & ? & ?).
    exists name, metadata. split_and!; [by left|done..].
  - destruct (IH _ _ Hrun Hin) as (name' & metadata & ? & Hfile & ? & ?).
    exists name', metadata. split_and!; [by right| |done..].
    rewrite <-Hfile. f_equal. symmetry.
    apply (readOnly_files remoteId w w1).
    pose proof (respects_readBackup readOnly (λ _, True) env readOnly_event
                  (λ _ _ _, I) remoteId dir predicate name w) as Hkeeps.
    by rewrite Hone in Hkeeps.
Qed.

(** X10. Whatever the remote does, the backups that [_listVmBackups]
    returns are sorted by timestamp, oldest first, and each of them is a
    metadata file of the VM's directory as the remote held it: a name that
    ends in [.json], whose content parses to a record that the predicate
    accepts, returned with its path as [_filename]. *)
Theorem listVmBackups_sound w backups w' :
  Backups.listVmBackups env remoteId vmUuid predicate w = (Ok backups, w') →
  Sorted byTimestamp backups
  ∧ ∀ backup,
      backup ∈ backups →
      ∃ name metadata,
        isMetadataFile name = true
        ∧ files remoteId w !! (getVmBackupDir vmUuid +:+ "/" +:+ name)
          = Some (Sidecar metadata)
        ∧ accepts predicate metadata = true
        ∧ backup
          = withFilename (getVmBackupDir vmUuid +:+ "/" +:+ name) metadata.
Proof.
  unfold Backups.listVmBackups.
  intros (found & w1 & Hrun & [= <- <-])%bind_Ok.
  destruct (compareTimestamp_sorts found) as [Hperm Hsorted].
  split; [done|]. intros backup. rewrite Hperm. intros Hin.
  apply tryCatch_Ok in Hrun as [Hrun|(e & w2 & _ & Hrun)]; cycle 1.
  { destruct (Backups.isMissingDirectory e); [|done].
    injection Hrun as <- _. by apply elem_of_nil in Hin. }
  apply bind_Ok in Hrun as (names & w2 & Hlist & Hrun).
  apply perform_Ok in Hlist as (_ & ? & [= <- <-] & ->).
  apply bind_Ok in Hrun as (results & w3 & Hrun & [= <- <-]).
  apply list_elem_of_omap in Hin as (result & Hin & Hresult).
  cbn [id] in Hresult. subst result.
  destruct (promiseAll_readBackup_Ok _ _ _ _ _ _ Hrun Hin)
    as (name & metadata & Hname & Hfile & ? & ?).
  exists name, metadata. split_and!; [|done..].
  apply list_elem_of_In, filter_In in Hname. tauto.
Qed.

(** X11. A listing that is refused because the directory does not exist
    ([ENOENT] or [ENOTDIR]) is an empty listing; any other refusal is
    rethrown as it is. *)
Theorem listVmBackups_missing_directory w e :
  faults env (length (journal w)) (List remoteId (getVmBackupDir vmUuid))
  = Some e →
  (Backups.listVmBackups env remoteId vmUuid predicate w).1
  = if Backups.isMissingDirectory e then Ok [] else Err e.
Proof.
  intros Hfault. unfold Backups.listVmBackups.
  rewrite bind_run, tryCatch_run, bind_run.
  unfold Handler.list at 1 2 3. unfold perform. rewrite Hfault. cbn [fst snd].
  by destruct (Backups.isMissingDirectory e).
Qed.
End ListerFacts.

Section ListerComplete.
Import Async Remote World Inventory.
Context (env : Env) (remoteId vmUuid : string) (predicate : Metadata → bool).

(** X12. On a remote that answers its listing and its reads,
    [_listVmBackups] resolves and misses nothing: it returns as many
    backups as the remote holds sidecars of the VM that the predicate
    accepts, and every such sidecar is among them. *)
Theorem listVmBackups_complete w :
  (∀ n dir, faults env n (List remoteId dir) = None) →
  (∀ n path, faults env n (ReadFile remoteId path) = None) →
  ∃ backups w',
    Backups.listVmBackups env remoteId vmUuid (Some predicate) w
    = (Ok backups, w')
    ∧ length backups = count remoteId vmUuid predicate w
    ∧ ∀ path metadata,
        files remoteId w !! path = Some (Sidecar metadata) →
        isListed (getVmBackupDir vmUuid) path = true →
        predicate metadata = true →
        withFilename path metadata ∈ backups.
Proof.
  intros Hlist Hread.
  destruct (listVmBackups_run env remoteId vmUuid predicate Hlist Hread w)
    as (w' & Hrun & _).
  eexists _, w'. split; [exact Hrun|].
  pose proof (sort_Permutation compareTimestamp
                (omap (listed (getVmBackupDir vmUuid) predicate)
                      (map_to_list (files remoteId w)))) as Hperm.
  split.
  - rewrite Hperm. apply listed_count.
  - intros path metadata Hfile Hlisted Haccepted. rewrite Hperm.
    apply list_elem_of_omap. exists (path, Sidecar metadata).
    split; [by apply elem_of_map_to_list|].
    unfold listed. cbn [fst snd]. by rewrite Hlisted, Haccepted.
Qed.
End ListerComplete.


(** Witness for X10: the listing of the remote after two full backups. *)
Lemma listVmBackups_sound_witness :
  Sorted Listing.byTimestamp
    (match (Backups.listVmBackups (Scenario.env WriterExamples.noFault) "r1"
              "vm-1" None Scenario.afterTwoFullRuns).1 with
     | Async.Ok backups => backups
     | Async.Err _ => []
     end).
Proof.
  destruct (Backups.listVmBackups (Scenario.env WriterExamples.noFault) "r1"
              "vm-1" None Scenario.afterTwoFullRuns) as [r w'] eqn:Hrun.
  destruct r as [backups|e]; [|constructor].
  apply (listVmBackups_sound (Scenario.env WriterExamples.noFault) "r1" "vm-1"
           None Scenario.afterTwoFullRuns backups w' Hrun).
Defined.

(** Witness for X11: a remote on which the directory of the VM does not
    exist. *)
Lemma listVmBackups_missing_directory_witness :
  (Backups.listVmBackups (Scenario.env Listing.noDirectory) "r1" "vm-1" None
     Scenario.pool).1
  = Async.Ok [].
Proof.
  apply (listVmBackups_missing_directory (Scenario.env Listing.noDirectory)
           "r1" "vm-1" None Scenario.pool Handler.ENOENT).
  reflexivity.
Defined.

(** Witness for X12: the two full backups are both listed. *)
Lemma listVmBackups_complete_witness :
  ∃ backups w',
    Backups.listVmBackups (Scenario.env WriterExamples.noFault) "r1" "vm-1"
      (Some Scenario.fullOfNightly) Scenario.afterTwoFullRuns
    = (Async.Ok backups, w')
    ∧ length backups
      = Inventory.count "r1" "vm-1" Scenario.fullOfNightly
          Scenario.afterTwoFullRuns.
Proof.
  destruct (listVmBackups_complete (Scenario.env WriterExamples.noFault) "r1"
              "vm-1" Scenario.fullOfNightly Scenario.afterTwoFullRuns)
    as (backups & w' & Hrun & Hcount & _).
  - reflexivity.
  - reflexivity.
  - exists backups, w'. split; [exact Hrun|exact Hcount].
Defined.

Section FullDeletion.
Import Async Remote World Footprint Deletion.
Context (env : Env) (remoteId : string).

#[export] Instance onlyRemoves_preorder r : PreOrder (onlyRemoves r).
Proof.
  split; [by intros w p Hp|]. intros w1 w2 w3 H1 H2 p Hp. by apply H2, H1.
Qed.

Lemma elem_of_concat {T} (x : T) (ls : list (list T)) :
  x ∈ concat ls ↔ ∃ l, x ∈ l ∧ l ∈ ls.
Proof.
  rewrite list_elem_of_In, in_concat. split.
  - intros (l & Hl & Hx). exists l. by rewrite !list_elem_of_In.
  - intros (l & Hx & Hl). exists l. by rewrite <-!list_elem_of_In.
Qed.

Lemma onlyRemoves_event r w ev :
  True → onlyRemoves r w (setJournal (λ j, j ++ [ev]) w).
Proof. by intros _ p Hp. Qed.

Lemma onlyRemoves_unlink r path checksum :
  Frame.Respects (onlyRemoves remoteId) (Handler.unlink env r path checksum).
Proof.
  apply (respects_perform (onlyRemoves remoteId) (λ _, True));
    [apply onlyRemoves_event|done|].
  intros w. cbn [snd]. intros p Hp.
  destruct (decide (r = remoteId)) as [->|Hne];
    [|by rewrite files_setFiles_ne].
  rewrite files_setFiles. apply lookup_delete_None. right.
  destruct checksum; [|done]. apply lookup_delete_None. by right.
Qed.

Lemma unlink_removes path checksum w w' :
  Handler.unlink env remoteId path checksum w = (Ok tt, w') →
  files remoteId w' !! path = None
  ∧ (checksum = true → files remoteId w' !! checksumFile path = None).
Proof.
  intros Hrun%unlink_Ok. rewrite Hrun. split; [apply lookup_delete_eq|].
  intros ->. apply lookup_delete_None. right. apply lookup_delete_eq.
Qed.

(** The deletion of one full backup, as [asyncMap] runs it. *)
Lemma deleteFull_one_touchesOnly backup :
  Frame.Respects (touchesOnly remoteId (fullPaths env backup))
    match _filename backup with
    | Some filename =>
        promiseAll
          [Handler.unlink env remoteId filename true;
           match xva backup with
           | Some xva =>
               Handler.unlink env remoteId
                 (resolveRelativeFromFile env filename xva) true
           | None => throw Backups.typeError
           end] >> ret tt
    | None => throw Backups.typeError
    end.
Proof.
  unfold fullPaths.
  destruct (_filename backup) as [filename|]; [|apply respects_throw; apply _].
  set (paths := match xva backup with Some _ => _ | None => _ end).
  apply (respects_bind (touchesOnly remoteId paths));
    [|intros; apply respects_ret; apply _].
  apply (respects_promiseAll (touchesOnly remoteId paths)).
  apply Forall_cons_2; [|apply Forall_cons_2; [|apply Forall_nil_2]].
  - intros w. eapply touchesOnly_mono; [|apply touchesOnly_unlink].
    unfold paths. intros p Hp.
    destruct (xva backup); set_unfold; tauto.
  - unfold paths. destruct (xva backup) as [xva|];
      [|apply respects_throw; apply _].
    intros w. eapply touchesOnly_mono; [|apply touchesOnly_unlink].
    intros p Hp. set_unfold; tauto.
Qed.

Lemma deleteFull_one_onlyRemoves backup :
  Frame.Respects (onlyRemoves remoteId)
    match _filename backup with
    | Some filename =>
        promiseAll
          [Handler.unlink env remoteId filename true;
           match xva backup with
           | Some xva =>
               Handler.unlink env remoteId
                 (resolveRelativeFromFile env filename xva) true
           | None => throw Backups.typeError
           end] >> ret tt
    | None => throw Backups.typeError
    end.
Proof.
  destruct (_filename backup) as [filename|]; [|apply respects_throw; apply _].
  apply (respects_bind (onlyRemoves remoteId));
    [|intros; apply respects_ret; apply _].
  apply (respects_promiseAll (onlyRemoves remoteId)).
  apply Forall_cons_2; [|apply Forall_cons_2; [|apply Forall_nil_2]].
  - apply onlyRemoves_unlink.
  - destruct (xva backup) as [xva|]; [|apply respects_throw; apply _].
    apply onlyRemoves_unlink.
Qed.

Lemma deleteFullVmBackups_touchesOnly (backups : list Metadata) :
  Frame.Respects
    (touchesOnly remoteId (concat (fullPaths env <$> backups)))
    (Backups.deleteFullVmBackups env remoteId backups).
Proof.
  unfold Backups.deleteFullVmBackups, asyncMap.
  apply (respects_bind (touchesOnly remoteId _));
    [|intros; apply respects_ret; apply _].
  apply (respects_promiseAll (touchesOnly remoteId _)).
  apply Forall_fmap, Forall_forall. intros backup Hin w. cbn [compose].
  eapply touchesOnly_mono; [|apply deleteFull_one_touchesOnly].
  intros p Hp. apply elem_of_concat. exists (fullPaths env backup).
  split; [done|]. by apply list_elem_of_fmap_2.
Qed.

Lemma deleteFullVmBackups_onlyRemoves (backups : list Metadata) :
  Frame.Respects (onlyRemoves remoteId)
    (Backups.deleteFullVmBackups env remoteId backups).
Proof.
  unfold Backups.deleteFullVmBackups.
  apply (respects_bind (onlyRemoves remoteId));
    [|intros; apply respects_ret; apply _].
  apply (respects_asyncMap (onlyRemoves remoteId)).
  apply deleteFull_one_onlyRemoves.
Qed.

Lemma deleteFullVmBackups_gone (backups : list Metadata) w w' :
  Backups.deleteFullVmBackups env remoteId backups w = (Ok tt, w') →
  Forall (λ backup, is_Some (_filename backup) ∧ is_Some (xva backup)) backups
  ∧ ∀ p, p ∈ concat (fullPaths env <$> backups) →
         files remoteId w' !! p = None.
Proof.
  unfold Backups.deleteFullVmBackups, asyncMap.
  intros (values & w0 & Hrun & [= ->])%bind_Ok.
  revert w values Hrun.
  induction backups as [|backup backups IH]; intros w values Hrun.
  { split; [constructor|]. by intros p ?%elem_of_nil. }
  rewrite fmap_cons in Hrun.
  apply promiseAll_Ok in Hrun as (a & rest & w1 & Hone & Hrun & _).
  destruct (IH _ _ Hrun) as [Hall Hgone].
  assert (onlyRemoves remoteId w1 w') as Hkeeps.
  { pose proof (respects_asyncMap (onlyRemoves remoteId) backups _
                  deleteFull_one_onlyRemoves w1) as Hkeeps.
    unfold asyncMap in Hkeeps. by rewrite Hrun in Hkeeps. }
  destruct (_filename backup) as [filename|] eqn:Hname; [|done].
  apply bind_Ok in Hone as (? & w2 & Hone & Hret).
  apply promiseAll_Ok in Hone as ([] & ? & wa & Hsidecar & Hone & _).
  apply promiseAll_Ok in Hone as ([] & ? & wb & Hpayload & Hnil & _).
  destruct (xva backup) as [xva|] eqn:Hxva; [|done].
  unfold ret in Hret. cbn [promiseAll] in Hnil. simplify_eq.
  split; [constructor; [by split|done]|].
  intros p. rewrite fmap_cons. cbn [concat]. rewrite elem_of_app.
  intros [Hp|Hp]; [|by apply Hgone].
  apply Hkeeps. revert Hp. unfold fullPaths. rewrite Hname, Hxva.
  apply unlink_removes in Hsidecar as [Hs1 Hs2].
  pose proof (onlyRemoves_unlink remoteId
                (resolveRelativeFromFile env filename xva) true wa) as Hlater.
  rewrite Hpayload in Hlater. cbn [snd] in Hlater.
  apply unlink_removes in Hpayload as [Hp1 Hp2].
  rewrite !elem_of_cons, elem_of_nil.
  intros [->|[->|[->|[->|[]]]]].
  - by apply Hlater.
  - by apply Hlater, Hs2.
  - done.
  - by apply Hp2.
Qed.

(** X13. [_deleteFullVmBackups] only removes, and only what the backups
    name: whatever happens, no file appears on the remote, and nothing
    changes but the sidecars of the given backups, the XVA files they refer
    to and the [.checksum] siblings of both.  When the call resolves, every
    backup had a file name and an XVA, and all those paths are gone. *)
Theorem deleteFullVmBackups_effect (backups : list Metadata) w :
  let run := Backups.deleteFullVmBackups env remoteId backups w in
  let paths := concat (fullPaths env <$> backups) in
  touchesOnly remoteId paths w run.2
  ∧ onlyRemoves remoteId w run.2
  ∧ (run.1 = Ok tt →
     Forall (λ backup, is_Some (_filename backup) ∧ is_Some (xva backup))
            backups
     ∧ ∀ p, p ∈ paths → files remoteId run.2 !! p = None).
Proof.
  cbv zeta. split_and!.
  - apply deleteFullVmBackups_touchesOnly.
  - apply deleteFullVmBackups_onlyRemoves.
  - intros Hrun. apply (deleteFullVmBackups_gone backups w).
    destruct (Backups.deleteFullVmBackups env remoteId backups w) as [r w'].
    cbn [fst snd] in *. by subst r.
Qed.
End FullDeletion.

(** Witness for X13: the oldest of two full backups is deleted. *)
Lemma deleteFullVmBackups_effect_witness :
  let env := Scenario.env WriterExamples.noFault in
  let run :=
    Backups.deleteFullVmBackups env "r1" [Deletion.oldest]
      Scenario.afterTwoFullRuns in
  World.files "r1" run.2 !! "xo-vm-backups/vm-1/20240101T000016Z.xva" = None.
Proof.
  intros env run.
  destruct (deleteFullVmBackups_effect env "r1" [Deletion.oldest]
              Scenario.afterTwoFullRuns) as (_ & _ & Hresolved).
  destruct Hresolved as [_ Hgone]; [vm_compute; reflexivity|].
  apply Hgone. apply elem_of_concat.
  exists (Deletion.fullPaths env Deletion.oldest). split.
  - vm_compute. do 2 (apply elem_of_cons; right). by apply elem_of_cons; left.
  - apply elem_of_cons. by left.
Defined.

Section VhdDeletion.
Import Async Remote World Footprint.
Context (env : Env) (remoteId : string).

Lemma withDefer_Ok {A} (body : M A) w a w' :
  Defer.withDefer env body w = (Ok a, w') →
  ∃ w1,
    body (setDeferred (λ _, []) w) = (Ok a, w1)
    ∧ w' = setDeferred (λ _, deferred w)
             (Defer.runAll env false (deferred w1) w1).
Proof.
  unfold Defer.withDefer.
  destruct (body (setDeferred (λ _, []) w)) as [[a'|e] w1]; [|done].
  cbn [isOk negb]. intros [= <- <-]. by exists w1.
Qed.

Lemma readHeaderAndFooter_Ok path w parent w' :
  VhdLib.readHeaderAndFooter env remoteId path w = (Ok parent, w') →
  files remoteId w !! path = Some (Vhd parent) ∧ readOnly w w'.
Proof.
  intros (_ & w1 & Hrun & ->)%perform_Ok.
  destruct (files remoteId w !! path) as [[| |]|]; try done.
  by injection Hrun as <- <-.
Qed.

Lemma asyncMap_headers_files paths w values w' :
  asyncMap paths
    (λ path,
       let* parentUnicodeName := VhdLib.readHeaderAndFooter env remoteId path in
       ret (path, parentUnicodeName)) w = (Ok values, w') →
  readOnly w w'
  ∧ Forall (λ vhd, files remoteId w !! vhd.1 = Some (Vhd vhd.2)) values.
Proof.
  unfold asyncMap. revert w values.
  induction paths as [|path paths IH]; intros w values.
  { intros [= <- <-]. by split. }
  rewrite fmap_cons.
  intros (a & rest & w1 & Hhead & Hrest & ->)%promiseAll_Ok.
  apply bind_Ok in Hhead as (parent & w0 & Hhead & [= <- <-]).
  apply readHeaderAndFooter_Ok in Hhead as [Hfile Hw0].
  destruct (IH _ _ Hrest) as [Hw' Hall]. split; [by etrans|].
  constructor; [done|]. eapply Forall_impl; [exact Hall|].
  intros vhd. cbn beta. by rewrite (readOnly_files remoteId w w0).
Qed.

(** X14. When [_deleteVhd] resolves, one of two things has happened.
    Either no VHD of the same directory has [path] as its parent, and
    [path] was unlinked with its [.checksum] sibling; or the first VHD of
    the directory that names [path] as its parent was merged into [path],
    which then took the place of that child: the child's name now holds
    what [path] held, and [path] is gone.  Nothing else changes. *)
Theorem deleteVhd_resolved path w w' :
  let dir := dirname env path in
  let base := basename env path in
  Backups.deleteVhd env remoteId path w = (Ok tt, w') →
  ((∀ p name,
      Handler.childName dir p = Some name → isVhd name = true →
      files remoteId w !! p ≠ Some (Vhd (Some base)))
   ∧ files remoteId w'
     = delete path (delete (checksumFile path) (files remoteId w)))
  ∨ (∃ name held,
       isVhd name = true
       ∧ files remoteId w !! (dir +:+ "/" +:+ name) = Some (Vhd (Some base))
       ∧ files remoteId w !! path = Some held
       ∧ files remoteId w'
         = <[dir +:+ "/" +:+ name := held]> (delete path (files remoteId w))).
Proof.
  intros dir base. unfold Backups.deleteVhd. fold dir base.
  intros (w1 & Hbody & ->)%withDefer_Ok.
  apply bind_Ok in Hbody as (names & w2 & Hlist & Hbody).
  apply perform_Ok in Hlist as (_ & ? & [= <- <-] & ->).
  apply bind_Ok in Hbody as (vhds & w3 & Hheaders & Hbody).
  pose proof (asyncMap_headers _ _ _ _ _ _ Hheaders) as Hpaths.
  apply asyncMap_headers_files in Hheaders as [Hw3 Hfiles].
  rewrite files_setJournal in Hfiles.
  change (files remoteId (setDeferred ?f ?w0)) with (files remoteId w0)
    in Hfiles, Hpaths.
  assert (files remoteId w3 = files remoteId w) as Hsame.
  { by rewrite (readOnly_files remoteId _ _ Hw3). }
  assert (deferred w3 = []) as Hnone by (by destruct Hw3 as (_ & _ & ->)).
  destruct (List.find _ vhds) as [child|] eqn:Hchild.
  - right.
    apply find_some in Hchild as [Hin%list_elem_of_In Hparent].
    apply bool_decide_eq_true in Hparent.
    pose proof Hin as Hname.
    apply (list_elem_of_fmap_2 fst) in Hname. rewrite Hpaths in Hname.
    apply list_elem_of_fmap in Hname as (name & Hname & Hvhd).
    apply list_elem_of_In, filter_In in Hvhd as [_ Hvhd].
    rewrite Forall_forall in Hfiles. specialize (Hfiles _ Hin).
    rewrite Hparent, Hname in Hfiles.
    apply bind_Ok in Hbody as ([] & w4 & [= <-] & Hbody).
    apply bind_Ok in Hbody as ([] & w5 & Hmerge & Hbody).
    apply perform_Ok in Hmerge as (_ & ? & [= <-] & ->).
    apply perform_Ok in Hbody as (_ & w6 & Hrename & ->).
    rewrite files_setJournal in Hrename.
    change (files remoteId (setDeferred ?f ?w0)) with (files remoteId w0)
      in Hrename.
    rewrite Hsame in Hrename.
    destruct (files remoteId w !! path) as [held|] eqn:Hheld; [|done].
    injection Hrename as <-. exists name, held. split_and!; [done..|].
    cbn [deferred setDeferred setJournal setFiles setRemotes].
    rewrite Hnone. cbn [Defer.runAll foldl Defer.runDeferred Defer.applies].
    change (files remoteId (setDeferred ?f ?w0)) with (files remoteId w0).
    rewrite tryCatch_run. cbn [fst snd ret].
    rewrite !files_setJournal.
    change (files remoteId (setDeferred ?f ?w0)) with (files remoteId w0).
    rewrite files_setFiles, files_setJournal.
    change (files remoteId (setDeferred ?f ?w0)) with (files remoteId w0).
    rewrite Hsame, Hname. unfold Handler.move. by rewrite Hheld.
  - left. split.
    + intros p name Hp Hname Hfile.
      pose proof (find_none _ _ Hchild) as Hnot.
      assert (dir +:+ "/" +:+ name ∈ vhds.*1) as Hin.
      { rewrite Hpaths.
        apply (list_elem_of_fmap_2 (λ name, dir +:+ "/" +:+ name)).
        apply list_elem_of_In, filter_In. split; [|done].
        apply list_elem_of_In, list_elem_of_omap. exists p. split; [|done].
        apply list_elem_of_fmap. exists (p, Vhd (Some base)).
        split; [done|]. by apply elem_of_map_to_list. }
      apply list_elem_of_fmap in Hin as ([p' parent] & Hp' & Hin).
      cbn [fst] in Hp'. subst p'.
      rewrite Forall_forall in Hfiles. specialize (Hfiles _ Hin).
      cbn [fst snd] in Hfiles.
      apply childName_join in Hp as ->. rewrite Hfile in Hfiles.
      injection Hfiles as <-.
      apply list_elem_of_In, Hnot in Hin. cbn [snd] in Hin.
      by rewrite bool_decide_true in Hin.
    + pose proof (unlink_Ok _ _ _ _ _ _ Hbody) as Hunlinked.
      rewrite Hsame in Hunlinked.
      apply perform_Ok in Hbody as (_ & ? & [= <-] & ->).
      cbn [deferred setDeferred setJournal setFiles setRemotes].
      rewrite Hnone. exact Hunlinked.
Qed.
End VhdDeletion.

(** Witness for X14: the parent of a chain of two VHDs is deleted. *)
Lemma deleteVhd_resolved_witness :
  let env := Scenario.env WriterExamples.noFault in
  let run := Backups.deleteVhd env "r1" "d/a.vhd" Deletion.chain in
  ((∀ p name,
      Handler.childName (World.dirname env "d/a.vhd") p = Some name →
      Remote.isVhd name = true →
      World.files "r1" Deletion.chain !! p
      ≠ Some (Remote.Vhd (Some (World.basename env "d/a.vhd"))))
   ∧ World.files "r1" run.2
     = delete "d/a.vhd"
         (delete (Remote.checksumFile "d/a.vhd")
            (World.files "r1" Deletion.chain)))
  ∨ (∃ name held,
       Remote.isVhd name = true
       ∧ World.files "r1" Deletion.chain
         !! (World.dirname env "d/a.vhd" +:+ "/" +:+ name)
         = Some (Remote.Vhd (Some (World.basename env "d/a.vhd")))
       ∧ World.files "r1" Deletion.chain !! "d/a.vhd" = Some held
       ∧ World.files "r1" run.2
         = <[World.dirname env "d/a.vhd" +:+ "/" +:+ name := held]>
             (delete "d/a.vhd" (World.files "r1" Deletion.chain))).
Proof.
  intros env run.
  refine (deleteVhd_resolved env "r1" "d/a.vhd" Deletion.chain run.2 _).
  vm_compute. reflexivity.
Defined.

Section VhdDeletionFailure.
Import Async Remote World Footprint Deletion.
Context (env : Env) (remoteId : string).

Lemma cleanup_unlink path w :
  let w' := Defer.runAll env true [UnlinkPath OnFailure remoteId path] w in
  ∃ ok,
    journal w' = journal w ++ [EvOp (Unlink remoteId path true) ok]
    ∧ (ok = true → files remoteId w' !! path = None).
Proof.
  cbn [Defer.runAll foldl Defer.runDeferred Defer.applies].
  rewrite tryCatch_run. unfold Handler.unlink.
  destruct (perform_cases env (Unlink remoteId path true)
              (λ w, (Ok tt,
                     setFiles remoteId
                       (λ fs, delete path (delete (checksumFile path) fs)) w))
              w) as [(e & _ & ->)|[_ ->]]; cbn [fst snd isOk noop ret].
  - exists false. by split.
  - exists true. split; [done|]. intros _.
    rewrite files_setJournal, files_setFiles. apply lookup_delete_eq.
Qed.

Lemma quietly {A} (allowed : Event → Prop) (m : M A) w :
  Frame.Respects (Frame.extends allowed) m →
  Frame.Respects readOnly m →
  ∃ evs,
    journal (m w).2 = journal w ++ evs
    ∧ Forall allowed evs
    ∧ deferred (m w).2 = deferred w.
Proof.
  intros Hext Hro. destruct (Hext w) as (evs & Hevs & Hall).
  destruct (Hro w) as (_ & _ & Hdeferred). by exists evs.
Qed.

Lemma deferred_setJournal f w : deferred (setJournal f w) = deferred w.
Proof. done. Qed.

Lemma unlink_deferred path checksum w :
  deferred (Handler.unlink env remoteId path checksum w).2 = deferred w.
Proof.
  unfold Handler.unlink, perform.
  by destruct (faults env (length (journal w)) _).
Qed.

(** X15. [_deleteVhd] may reject without having merged anything.  But when
    it rejects after the merge into [path] was attempted, because the merge
    or the rename that follows it failed, its last operation is the unlink
    of [path]: once that unlink succeeds, the VHD that may be half merged is
    gone. *)
Theorem deleteVhd_rejected path w e :
  let run := Backups.deleteVhd env remoteId path w in
  run.1 = Err e →
  ∃ evs,
    journal run.2 = journal w ++ evs
    ∧ (Exists mergesVhd evs →
       ∃ pre ok,
         evs = pre ++ [EvOp (Unlink remoteId path true) ok]
         ∧ (ok = true → files remoteId run.2 !! path = None)).
Proof.
  set (notMerge := λ ev, ¬ mergesVhd ev).
  assert (∀ w ev, notMerge ev →
            Frame.extends notMerge w (setJournal (λ j, j ++ [ev]) w))
    as Hevent by apply extends_event.
  assert (∀ op ok, ¬ mergesVhd (EvOp op ok) → notMerge (EvOp op ok))
    as Hop by done.
  assert (∀ evs, Forall notMerge evs → ¬ Exists mergesVhd evs) as Hquiet.
  { intros evs Hall Hex. apply Exists_exists in Hex as (ev & Hin & Hev).
    rewrite Forall_forall in Hall. by apply (Hall ev). }
  cbv zeta. unfold Backups.deleteVhd, Defer.withDefer.
  set (w0 := setDeferred (λ _, []) w).
  set (dir := dirname env path). set (base := basename env path).
  assert (deferred w0 = []) as Hd0 by done.
  assert (journal w0 = journal w) as Hj0 by done.
  rewrite bind_run.
  (* the listing *)
  destruct (quietly notMerge (Handler.list env remoteId dir) w0)
    as (evs1 & Hj1 & Hq1 & Hd1).
  { unfold Handler.list.
    apply (respects_perform (Frame.extends notMerge) notMerge);
      [done|by intros ok []|]. intros w1. reflexivity. }
  { unfold Handler.list.
    apply (respects_perform readOnly (λ _, True));
      [apply readOnly_event|done|]. intros w1. reflexivity. }
  destruct (Handler.list env remoteId dir w0) as [[names|e1] w1];
    cbn [fst snd] in *.
  2: { intros _. rewrite Hd1, Hd0. cbn [Defer.runAll foldl].
       exists evs1. cbn [journal setDeferred]. rewrite Hj1, Hj0.
       split; [done|]. by intros ?%Hquiet. }
  rewrite bind_run.
  (* the headers *)
  set (headers := asyncMap _ _).
  destruct (quietly notMerge headers w1) as (evs2 & Hj2 & Hq2 & Hd2).
  { apply (respects_asyncMap (Frame.extends notMerge)). intros p.
    apply (respects_bind (Frame.extends notMerge));
      [|intros; apply respects_ret; apply _].
    apply (respects_perform (Frame.extends notMerge) notMerge);
      [done|by intros ok []|]. intros w2.
    destruct (files remoteId w2 !! p) as [[| |]|]; reflexivity. }
  { apply (respects_asyncMap readOnly). intros p.
    apply (respects_bind readOnly); [|intros; apply respects_ret; apply _].
    apply (respects_perform readOnly (λ _, True));
      [apply readOnly_event|done|]. intros w2.
    destruct (files remoteId w2 !! p) as [[| |]|]; reflexivity. }
  destruct (headers w1) as [[vhds|e2] w2]; cbn [fst snd] in *.
  2: { intros _. rewrite Hd2, Hd1, Hd0. cbn [Defer.runAll foldl].
       exists (evs1 ++ evs2). cbn [journal setDeferred].
       rewrite Hj2, Hj1, Hj0, app_assoc.
       split; [done|]. intros Hex. by apply Hquiet in Hex;
         [|apply Forall_app]. }
  destruct (List.find _ vhds) as [child|].
  - (* a child: merge, then rename *)
    rewrite bind_run. cbn [Defer.defer fst snd].
    set (w3 := setDeferred _ w2).
    assert (journal w3 = journal w ++ evs1 ++ evs2) as Hj3.
    { unfold w3. cbn [journal setDeferred].
      by rewrite Hj2, Hj1, Hj0, app_assoc. }
    assert (deferred w3 = [UnlinkPath OnFailure remoteId path]) as Hd3.
    { unfold w3. cbn [deferred setDeferred]. by rewrite Hd2, Hd1, Hd0. }
    rewrite bind_run. unfold VhdLib.mergeVhd, await.
    destruct (perform_cases env (MergeVhd remoteId path child.1)
                (λ w, (Ok tt, w)) w3) as [(e3 & _ & ->)|[_ ->]];
      cbn [fst snd isOk].
    + intros _. rewrite !deferred_setJournal.
      rewrite Hd3. cbn [negb].
      destruct (cleanup_unlink path
                  (setJournal
                     (λ j, j ++ [EvOp (MergeVhd remoteId path child.1) false])
                     w3)) as (ok & Hj & Hgone).
      exists ((evs1 ++ evs2
               ++ [EvOp (MergeVhd remoteId path child.1) false])
              ++ [EvOp (Unlink remoteId path true) ok]).
      split; [|intros _; eexists _, ok; split; [reflexivity|exact Hgone]].
      cbn [journal setDeferred]. rewrite Hj. cbn [journal setJournal].
      by rewrite Hj3, <-!app_assoc.
    + unfold Handler.rename.
      destruct (perform_cases env (Rename remoteId path child.1 false)
                  (λ w,
                     match files remoteId w !! path with
                     | Some _ =>
                         (Ok tt,
                          setFiles remoteId
                            (λ fs, Handler.move path child.1 fs) w)
                     | None => (Err Handler.ENOENT, w)
                     end)
                  (setJournal
                     (λ j, j ++ [EvOp (MergeVhd remoteId path child.1) true])
                     w3)) as [(e4 & _ & ->)|[_ ->]]; cbn [fst snd].
      * intros _. cbn [isOk negb].
        rewrite !deferred_setJournal. rewrite Hd3.
        match goal with
        | |- context [Defer.runAll env true _ ?w4] =>
            destruct (cleanup_unlink path w4) as (ok & Hj & Hgone)
        end.
        exists ((evs1 ++ evs2
                 ++ [EvOp (MergeVhd remoteId path child.1) true;
                     EvOp (Rename remoteId path child.1 false) false])
                ++ [EvOp (Unlink remoteId path true) ok]).
        split; [|intros _; eexists _, ok; split; [reflexivity|exact Hgone]].
        cbn [journal setDeferred]. rewrite Hj. cbn [journal setJournal].
        by rewrite Hj3, <-!app_assoc.
      * rewrite files_setJournal.
        destruct (files remoteId w3 !! path) as [held|]; [done|].
        cbn [fst snd isOk negb]. intros _.
        rewrite !deferred_setJournal. rewrite Hd3.
        match goal with
        | |- context [Defer.runAll env true _ ?w4] =>
            destruct (cleanup_unlink path w4) as (ok & Hj & Hgone)
        end.
        exists ((evs1 ++ evs2
                 ++ [EvOp (MergeVhd remoteId path child.1) true;
                     EvOp (Rename remoteId path child.1 false) false])
                ++ [EvOp (Unlink remoteId path true) ok]).
        split; [|intros _; eexists _, ok; split; [reflexivity|exact Hgone]].
        cbn [journal setDeferred]. rewrite Hj. cbn [journal setJournal].
        by rewrite Hj3, <-!app_assoc.
  - (* no child: the unlink alone *)
    pose proof (respects_perform (Frame.extends notMerge) notMerge env Hevent
                  (Unlink remoteId path true)
                  (λ w, (Ok tt,
                         setFiles remoteId
                           (λ fs, delete path (delete (checksumFile path) fs))
                           w))
                  (λ ok H, H) (λ w, extends_files notMerge w _ _) w2)
      as (evs3 & Hj3 & Hq3).
    pose proof (unlink_deferred path true w2) as Hd3.
    fold (Handler.unlink env remoteId path true) in Hj3.
    destruct (Handler.unlink env remoteId path true w2) as [r w3].
    cbn [fst snd] in *. intros _. rewrite Hd3, Hd2, Hd1, Hd0.
    cbn [Defer.runAll foldl]. exists (evs1 ++ evs2 ++ evs3).
    cbn [journal setDeferred]. rewrite Hj3, Hj2, Hj1, Hj0, <-!app_assoc.
    split; [done|]. intros Hex. apply Hquiet in Hex; [done|].
    by repeat apply Forall_app_2.
Qed.
End VhdDeletionFailure.

(** Witness for X15: the merge worker fails on the chain of two VHDs. *)
Lemma deleteVhd_rejected_witness :
  let env := Scenario.env Deletion.mergeFails in
  let run := Backups.deleteVhd env "r1" "d/a.vhd" Deletion.chain in
  ∃ evs,
    World.journal run.2 = World.journal Deletion.chain ++ evs
    ∧ (Exists Deletion.mergesVhd evs →
       ∃ pre ok,
         evs = pre ++ [World.EvOp (World.Unlink "r1" "d/a.vhd" true) ok]
         ∧ (ok = true → World.files "r1" run.2 !! "d/a.vhd" = None)).
Proof.
  intros env run.
  assert (run.1 = Async.Err WriterExamples.EIO) as Hrun.
  { vm_compute. reflexivity. }
  exact (deleteVhd_rejected env "r1" "d/a.vhd" Deletion.chain
            WriterExamples.EIO Hrun).
Defined.

Section VmDeletion.
Import Async Remote Xapi World.
Context (env : Env).

Lemma deleteVm_cases vm w :
  let run := Hypervisor.deleteVm env vm w in
  remotes run.2 = remotes w
  ∧ ((run.1 = Ok tt
      ∧ objects run.2 = filter (λ o, dollar_id o ≠ dollar_id vm) (objects w))
     ∨ ((∃ e, run.1 = Err e) ∧ objects run.2 = objects w)).
Proof.
  cbv zeta. unfold Hypervisor.deleteVm.
  destruct (perform_cases env (DeleteVm (dollar_id vm))
              (λ w, (Ok tt,
                     setObjects (filter (λ o, dollar_id o ≠ dollar_id vm)) w))
              w) as [(e & _ & ->)|[_ ->]]; cbn [fst snd].
  - split; [done|]. right. split; [by exists e|done].
  - split; [done|]. by left.
Qed.

Lemma deleteVms_deleted (vms : list Vm) w :
  let run := asyncMap vms (Hypervisor.deleteVm env) w in
  remotes run.2 = remotes w
  ∧ ∃ deleted,
      deleted ⊆ dollar_id <$> vms
      ∧ objects run.2 = filter (λ o, dollar_id o ∉ deleted) (objects w)
      ∧ (isOk run.1 = true → deleted = dollar_id <$> vms).
Proof.
  cbv zeta. unfold asyncMap. revert w.
  induction vms as [|vm vms IH]; intros w.
  { split; [done|]. exists []. split_and!; [done| |done]. symmetry.
    apply filter_all, Forall_forall. intros o _. apply not_elem_of_nil. }
  cbn [fmap list_fmap promiseAll].
  change (list_fmap _ _ ?f ?l) with (f <$> l).
  destruct (deleteVm_cases vm w) as [Hremotes Hone].
  destruct (Hypervisor.deleteVm env vm w) as [r w1]. cbn [fst snd] in *.
  destruct (IH w1) as (Hremotes' & deleted & Hsub & Hobjects & Hall).
  destruct (promiseAll _ w1) as [rs w2]. cbn [fst snd] in *.
  split; [congruence|].
  destruct Hone as [[-> Hone]|[[e ->] Hone]].
  - exists (dollar_id vm :: deleted). split_and!.
    + intros id [->|Hin]%elem_of_cons; [by left|right; by apply Hsub].
    + rewrite Hobjects, Hone, list_filter_filter. apply list_filter_iff.
      intros o. rewrite not_elem_of_cons. tauto.
    + destruct rs as [values|e]; [|done]. intros _. cbn [isOk] in Hall.
      by rewrite Hall.
  - exists deleted. split_and!; [| |done].
    + intros id Hin. right. by apply Hsub.
    + by rewrite Hobjects, Hone.
Qed.

(** X16. [_deleteVms] touches the hypervisor only, and there it only
    removes, and only VMs it was given: whatever fails, an object that
    remains was there before, and every object whose [$id] is not among the
    given ones remains.  When the call resolves, exactly the objects with
    the given [$id]s are gone. *)
Theorem deleteVms_effect (vms : list Vm) w :
  let run := Backups.deleteVms env vms w in
  remotes run.2 = remotes w
  ∧ (∀ o, o ∈ objects run.2 → o ∈ objects w)
  ∧ (∀ o, o ∈ objects w → dollar_id o ∉ dollar_id <$> vms →
          o ∈ objects run.2)
  ∧ (run.1 = Ok tt →
     objects run.2
     = filter (λ o, dollar_id o ∉ dollar_id <$> vms) (objects w)).
Proof.
  cbv zeta. unfold Backups.deleteVms. rewrite bind_run.
  destruct (deleteVms_deleted vms w)
    as (Hremotes & deleted & Hsub & Hobjects & Hall).
  destruct (asyncMap vms (Hypervisor.deleteVm env) w) as [[values|e] w'];
    cbn [fst snd ret isOk] in *.
  - rewrite Hall in Hobjects by done. split_and!; [done| | |done].
    + intros o. rewrite Hobjects. by intros [_ ?]%list_elem_of_filter.
    + intros o Ho Hid. rewrite Hobjects. by apply list_elem_of_filter.
  - split_and!; [done| | |done].
    + intros o. rewrite Hobjects. by intros [_ ?]%list_elem_of_filter.
    + intros o Ho Hid. rewrite Hobjects. apply list_elem_of_filter.
      split; [|done]. intros Hin. by apply Hid, Hsub.
Qed.
End VmDeletion.

(** Witness for X16: one VM of the pool is deleted. *)
Lemma deleteVms_effect_witness :
  let run :=
    Backups.deleteVms (Scenario.env WriterExamples.noFault) [Scenario.db]
      Scenario.pool in
  World.objects run.2
  = filter (λ o, Xapi.dollar_id o ∉ Xapi.dollar_id <$> [Scenario.db])
           (World.objects Scenario.pool).
Proof.
  intros run.
  destruct (deleteVms_effect (Scenario.env WriterExamples.noFault)
              [Scenario.db] Scenario.pool) as (_ & _ & _ & Hresolved).
  apply Hresolved. reflexivity.
Defined.

Section DeleteById.
Import Async Remote World Footprint Deletion Api.
Context (env : Env).

Lemma promiseAll_cons {A} (promise : M A) promises w :
  promiseAll (promise :: promises) w
  = (match (promise w).1, (promiseAll promises (promise w).2).1 with
     | Ok a, Ok values => Ok (a :: values)
     | Err e, _ => Err e
     | Ok _, Err e => Err e
     end, (promiseAll promises (promise w).2).2).
Proof.
  cbn [promiseAll]. destruct (promise w) as [r w1]. cbn [fst snd].
  destruct (promiseAll promises w1) as [rs w2]. reflexivity.
Qed.

Lemma unlink_run remoteId path checksum w :
  (∀ n op, faults env n op = None) →
  Handler.unlink env remoteId path checksum w
  = (Ok tt,
     setJournal (λ j, j ++ [EvOp (Unlink remoteId path checksum) true])
       (setFiles remoteId
          (λ fs, delete path
                   (if checksum then delete (checksumFile path) fs else fs))
          w)).
Proof.
  intros Hworks. unfold Handler.unlink. by rewrite perform_no_fault.
Qed.

Lemma deleteVmBackupNg_run id w :
  let remoteId := BackupId.remoteId (BackupId.parseVmBackupId id) in
  let filename := BackupId.metadataFilename (BackupId.parseVmBackupId id) in
  let run := deleteVmBackupNg env id w in
  (* the handler or the read is refused *)
  ((∃ e, run.1 = Err e) ∧ readOnly w run.2
   ∧ ∃ n op, faults env n op ≠ None)
  (* the file is missing or is not a sidecar *)
  ∨ ((∃ e, run.1 = Err e) ∧ readOnly w run.2
     ∧ ∀ metadata, files remoteId w !! filename ≠ Some (Sidecar metadata))
  (* the sidecar is handed to the deleter of its mode *)
  ∨ (∃ metadata w1,
       files remoteId w !! filename = Some (Sidecar metadata)
       ∧ readOnly w w1
       ∧ run
         = (if String.eqb (mode metadata) "delta"
            then Backups.deleteDeltaVmBackups env remoteId
                   [withFilename filename metadata]
            else if String.eqb (mode metadata) "full"
            then Backups.deleteFullVmBackups env remoteId
                   [withFilename filename metadata]
            else throw (noDeleter (mode metadata))) w1).
Proof.
  cbv zeta. unfold deleteVmBackupNg.
  set (remoteId := BackupId.remoteId _). set (filename := BackupId.metadataFilename _).
  rewrite bind_run. unfold Handler.getRemoteHandler, await.
  destruct (perform_cases env (GetRemoteHandler remoteId) (λ w, (Ok tt, w)) w)
    as [(e & He & ->)|[_ ->]]; cbn [fst snd].
  { left. split; [by exists e|]. split; [done|].
    eexists _, _. by rewrite He. }
  rewrite bind_run. unfold Handler.readFile.
  match goal with
  | |- context [perform env ?op ?run ?w1] =>
      destruct (perform_cases env op run w1) as [(e & He & ->)|[_ ->]]
  end; cbn [fst snd].
  { left. split; [by exists e|]. split; [done|].
    eexists _, _. by rewrite He. }
  rewrite files_setJournal.
  destruct (files remoteId w !! filename) as [f|] eqn:Hfile; cbn [fst snd].
  2: { right; left. split; [by eexists|]. split; [done|]. done. }
  destruct f as [metadata| |]; cbn [isOk].
  2,3: right; left; rewrite bind_run; cbn [fst snd throw];
       (split; [by eexists|]); (split; [done|]); done.
  right; right. eexists metadata, _. split; [done|].
  split; [|rewrite bind_run; reflexivity]. done.
Qed.

(** X17. [deleteVmBackupNg] deletes nothing unless the identifier leads to
    the sidecar of a full or of a delta backup: when the file it names is
    missing, is not a sidecar, or is a sidecar of another mode, the call
    rejects and the remotes are left as they were.  For a sidecar of
    another mode that could be read, the error is
    [no deleter for backup mode <mode>]. *)
Theorem deleteVmBackupNg_without_deleter id w :
  let remoteId := BackupId.remoteId (BackupId.parseVmBackupId id) in
  let filename := BackupId.metadataFilename (BackupId.parseVmBackupId id) in
  let run := deleteVmBackupNg env id w in
  ¬ deletableSidecar (files remoteId w !! filename) →
  (∃ e, run.1 = Err e)
  ∧ readOnly w run.2
  ∧ ∀ metadata,
      files remoteId w !! filename = Some (Sidecar metadata) →
      (∀ n op, faults env n op = None) →
      run.1 = Err (noDeleter (mode metadata)).
Proof.
  intros remoteId filename run Hnot.
  destruct (deleteVmBackupNg_run id w)
    as [(Herr & Hro & n & op & Hfault)|[(Herr & Hro & Hfile)|Hrun]].
  - split_and!; [done..|]. intros metadata _ Hnone. by rewrite Hnone in Hfault.
  - split_and!; [done..|]. intros metadata Hm. by apply Hfile in Hm.
  - destruct Hrun as (metadata & w1 & Hfile & Hro & Hrun).
    fold remoteId filename in Hfile, Hrun. fold run in Hrun.
    unfold deletableSidecar in Hnot. rewrite Hfile in Hnot.
    destruct (String.eqb_spec (mode metadata) "delta") as [?|_];
      [by destruct Hnot; left|].
    destruct (String.eqb_spec (mode metadata) "full") as [?|_];
      [by destruct Hnot; right|].
    rewrite Hrun. cbn [throw fst snd]. split_and!; [by eexists|done|].
    intros metadata' Hfile' _. rewrite Hfile in Hfile'. by injection Hfile' as <-.
Qed.

(** X18. For the identifier of a full backup, [deleteVmBackupNg] changes at
    most the sidecar that the identifier names, the XVA to which the sidecar
    refers and their [.checksum] siblings.  When it resolves, these four
    files are gone; and it does resolve when no operation is refused. *)
Theorem deleteVmBackupNg_full id metadata xva w :
  let remoteId := BackupId.remoteId (BackupId.parseVmBackupId id) in
  let filename := BackupId.metadataFilename (BackupId.parseVmBackupId id) in
  let payload := resolveRelativeFromFile env filename xva in
  let paths :=
    [filename; checksumFile filename; payload; checksumFile payload] in
  let run := deleteVmBackupNg env id w in
  files remoteId w !! filename = Some (Sidecar metadata) →
  mode metadata = "full" →
  Remote.xva metadata = Some xva →
  touchesOnly remoteId paths w run.2
  ∧ (run.1 = Ok tt → ∀ p, p ∈ paths → files remoteId run.2 !! p = None)
  ∧ ((∀ n op, faults env n op = None) → run.1 = Ok tt).
Proof.
  intros remoteId filename payload paths run Hfile Hmode Hxva.
  assert (concat (fullPaths env <$> [withFilename filename metadata]) = paths)
    as Hpaths.
  { cbn [fmap list_fmap concat]. unfold fullPaths.
    cbn [_filename Remote.xva withFilename].
    rewrite Hxva. by rewrite app_nil_r. }
  assert (∀ w0 w1, readOnly w0 w1 → touchesOnly remoteId paths w0 w1)
    as Hweaken.
  { intros w0 w1 Hro. split_and!.
    - intros r _. by apply readOnly_files.
    - intros p _. by rewrite (readOnly_files remoteId w0 w1).
    - by destruct Hro as (_ & ? & _).
    - by destruct Hro as (_ & _ & ?). }
  destruct (deleteVmBackupNg_run id w)
    as [(Herr & Hro & n & op & Hfault)|[(Herr & Hro & Hnone)|Hrun]].
  - fold run in Herr, Hro. destruct Herr as [e He].
    split_and!; [by apply Hweaken|by rewrite He|].
    intros Hworks. by rewrite Hworks in Hfault.
  - by apply Hnone in Hfile.
  - destruct Hrun as (metadata' & w1 & Hfile' & Hro & Hrun).
    fold remoteId filename in Hfile', Hrun. fold run in Hrun.
    rewrite Hfile in Hfile'. injection Hfile' as <-.
    rewrite Hmode in Hrun. cbn [String.eqb Ascii.eqb Bool.eqb] in Hrun.
    split_and!.
    + rewrite Hrun. etrans; [by apply Hweaken|]. rewrite <-Hpaths.
      apply deleteFullVmBackups_touchesOnly.
    + intros Hok p Hp. rewrite <-Hpaths in Hp.
      eapply (deleteFullVmBackups_gone env remoteId); [|exact Hp].
      rewrite <-Hrun. destruct run as [r w']. cbn [fst snd] in *. by subst r.
    + intros Hworks. rewrite Hrun.
      unfold Backups.deleteFullVmBackups, asyncMap.
      cbn [fmap list_fmap _filename Remote.xva withFilename].
      rewrite Hxva, bind_run, promiseAll_cons, bind_run, !promiseAll_cons.
      rewrite !unlink_run by done. done.
Qed.
End DeleteById.

(** Witness for X17: the sidecar of a backup of an unknown mode. *)
Lemma deleteVmBackupNg_without_deleter_witness :
  let env := Scenario.env WriterExamples.noFault in
  let run :=
    Api.deleteVmBackupNg env "r1/xo-vm-backups/vm-1/old.json"
      Api.legacyRemote in
  run.1 = Async.Err (Api.noDeleter "legacy")
  ∧ Footprint.readOnly Api.legacyRemote run.2.
Proof.
  intros env run.
  destruct (deleteVmBackupNg_without_deleter env
              "r1/xo-vm-backups/vm-1/old.json" Api.legacyRemote)
    as (_ & Hro & Herr).
  - vm_compute. by intros [|].
  - split; [|exact Hro].
    exact (Herr (Remote.mkMetadata None "j0" "legacy" "" 1 None None)
             eq_refl (λ _ _, eq_refl)).
Defined.

(** Witness for X18: the oldest full backup, deleted by its identifier. *)
Lemma deleteVmBackupNg_full_witness :
  let env := Scenario.env WriterExamples.noFault in
  let run :=
    Api.deleteVmBackupNg env "r1/xo-vm-backups/vm-1/20240101T000016Z.json"
      Scenario.afterTwoFullRuns in
  run.1 = Async.Ok tt
  ∧ World.files "r1" run.2 !! "xo-vm-backups/vm-1/20240101T000016Z.json"
    = None.
Proof.
  intros env run.
  assert (World.files "r1" Scenario.afterTwoFullRuns
          !! "xo-vm-backups/vm-1/20240101T000016Z.json"
          = Some (Remote.Sidecar
                    (Remote.mkMetadata None "j1" "full" "" 16 None
                       (Some "./20240101T000016Z.xva")))) as Hfile.
  { vm_compute. reflexivity. }
  destruct (deleteVmBackupNg_full env
              "r1/xo-vm-backups/vm-1/20240101T000016Z.json"
              (Remote.mkMetadata None "j1" "full" "" 16 None
                 (Some "./20240101T000016Z.xva"))
              "./20240101T000016Z.xva" Scenario.afterTwoFullRuns
              Hfile eq_refl eq_refl) as (_ & Hgone & Hresolves).
  assert (run.1 = Async.Ok tt) as Hok by exact (Hresolves (λ _ _, eq_refl)).
  split; [exact Hok|]. apply (Hgone Hok). apply elem_of_cons. by left.
Defined.

Section ExecutorRejections.
Import Async Remote Xapi World Jobs Executor.
Context (env : Env).
Context (backupVm : string → BackupJob → Schedule → string → M unit).

(** X19. The executor rejects in two cases only, before it has done
    anything: when the job is fired without a schedule, and when no VM of
    the pool matches the job.  In both cases nothing was logged and nothing
    was touched; in every other case it resolves, whatever the workers
    do. *)
Theorem executor_rejects_iff job (schedule : option Schedule) runJobId w :
  let run := executor env backupVm job schedule runJobId w in
  (runFails run.1 = true ↔
     schedule = None ∨ matching job (objects w) = [])
  ∧ (schedule = None →
     run = (Err (mkError None "backup job cannot run without a schedule"), w))
  ∧ (is_Some schedule → matching job (objects w) = [] →
     run = (Err (mkError None "no VMs match this pattern"), w)).
Proof. unfold executor. apply (executorOf_rejects env). Qed.
End ExecutorRejections.

Section WorkerRejections.
Import Async Remote Xapi World Jobs.
Context (env : Env) (vmUuid : string) (job : BackupJob) (schedule : Schedule).
Context (taskId : string).

(** X20. [_backupVm] never resolves for a job that is set up wrongly: when
    the export retention and the snapshot retention of the schedule are
    both 0; when the export retention is not 0 and the job has neither a
    remote nor an SR; and when the export retention is not 0 and the mode is
    neither ['full'] nor ['delta'].  This holds whatever the hypervisor and
    the remotes do. *)
Theorem backupVm_rejects_misconfigured w :
  let exportRetention :=
    Settings.asNumber
      (Settings.getSetting (job_settings job) Settings.ExportRetention
         [schedule_id schedule]) in
  let snapshotRetention :=
    Settings.asNumber
      (Settings.getSetting (job_settings job) Settings.SnapshotRetention
         [schedule_id schedule]) in
  (exportRetention = 0 ∧ snapshotRetention = 0)
  ∨ (exportRetention ≠ 0
     ∧ unboxIds (job_remotes job) = [] ∧ unboxIds (job_srs job) = [])
  ∨ (exportRetention ≠ 0 ∧ job_mode job ≠ "full" ∧ job_mode job ≠ "delta") →
  ∃ e, (Worker.backupVm env vmUuid job schedule taskId w).1 = Err e.
Proof.
  intros k s Hwrong.
  destruct (Worker.backupVm env vmUuid job schedule taskId w)
    as [[[]|e] w'] eqn:Hrun; [exfalso|by exists e].
  unfold Worker.backupVm in Hrun.
  apply withDefer_Ok in Hrun as (w1 & Hrun & _).
  unfold Worker.backupVmBody in Hrun.
  apply bind_Ok in Hrun as (vm & w2 & _ & Hrun).
  apply bind_Ok in Hrun as ([] & w3 & _ & Hrun).
  fold k s in Hrun.
  destruct (Z.eqb_spec k 0) as [Hk|Hk].
  { destruct (Z.eqb_spec s 0) as [Hs|Hs]; [done|].
    destruct Hwrong as [[_ ?]|[[? _]|[? _]]]; done. }
  cbn [andb] in Hrun.
  apply bind_Ok in Hrun as (objs & w4 & _ & Hrun).
  apply bind_Ok in Hrun as ([] & w5 & _ & Hrun).
  apply bind_Ok in Hrun as (snapshot0 & w6 & _ & Hrun).
  apply bind_Ok in Hrun as ([] & w7 & _ & Hrun).
  apply bind_Ok in Hrun as ([] & w8 & _ & Hrun).
  apply bind_Ok in Hrun as (snapshot & w9 & _ & Hrun).
  destruct Hwrong as [[? _]|[(_ & Hremotes & Hsrs)|(_ & Hfull & Hdelta)]];
    [done| |].
  - by rewrite Hremotes, Hsrs in Hrun.
  - destruct (_ =? _)%nat; [done|].
    apply bind_Ok in Hrun as (now & w10 & _ & Hrun).
    destruct (String.eqb_spec (job_mode job) "full"); [done|].
    destruct (String.eqb_spec (job_mode job) "delta"); done.
Qed.
End WorkerRejections.

(** Witness for X20: both retentions are 0. *)
Lemma backupVm_rejects_misconfigured_witness :
  ∃ e,
    (Worker.backupVm (Scenario.env WriterExamples.noFault) "vm-1"
       (Scenario.job "full" 0 0) Scenario.nightly "t0" Scenario.pool).1
    = Async.Err e.
Proof.
  apply (backupVm_rejects_misconfigured (Scenario.env WriterExamples.noFault)
           "vm-1" (Scenario.job "full" 0 0) Scenario.nightly "t0"
           Scenario.pool).
  left. split; reflexivity.
Defined.

Section BeforeTargets.
Import Async Remote Xapi World Jobs Setup.
Context (env : Env).

#[export] Instance beforeTargets_preorder : PreOrder beforeTargets.
Proof.
  split.
  - intros w. split_and!; [done|reflexivity|done].
  - intros w1 w2 w3 (Hr1 & He1 & Hd1) (Hr2 & He2 & Hd2). split_and!.
    + congruence.
    + by etrans.
    + auto.
Qed.

Lemma beforeTargets_event w ev :
  notOfExport ev → beforeTargets w (setJournal (λ j, j ++ [ev]) w).
Proof.
  intros Hev. split_and!; [done| |done]. by apply extends_event.
Qed.

Lemma beforeTargets_objects w f : beforeTargets w (setObjects f w).
Proof. split_and!; [done| |done]. apply extends_objects. Qed.

Lemma beforeTargets_ops op ok : notOfExport (EvOp op ok).
Proof. by intros []. Qed.

Lemma beforeTargets_defer d :
  onHypervisor d → Frame.Respects beforeTargets (Defer.defer d).
Proof.
  intros Hd w. split_and!; [done|apply extends_deferred|].
  cbn. intros Hds. by constructor.
Qed.

Lemma beforeTargets_runAll failed ds w :
  Forall onHypervisor ds → beforeTargets w (Defer.runAll env failed ds w).
Proof.
  intros Hds. revert w.
  induction Hds as [|d ds Hd _ IH]; intros w; [reflexivity|].
  cbn [Defer.runAll foldl]. etrans; [|apply IH].
  apply (respects_tryCatch beforeTargets);
    [|intros; apply respects_ret; apply _].
  destruct d as [when retention candidates|when snapshot|]; [| |done];
    cbn [Defer.runDeferred]; destruct (Defer.applies when failed);
    try (apply respects_ret; apply _).
  - apply (respects_bind beforeTargets);
      [|intros; apply respects_ret; apply _].
    apply (respects_asyncMap beforeTargets). intros vm.
    apply (respects_deleteVm beforeTargets notOfExport env
             beforeTargets_event beforeTargets_objects).
    intros op ok _. apply beforeTargets_ops.
  - apply (respects_deleteVm beforeTargets notOfExport env
             beforeTargets_event beforeTargets_objects).
    intros op ok _. apply beforeTargets_ops.
Qed.

Lemma rejects_bind {A B} (R : relation World) `{!PreOrder R} (m : M A)
    (f : A → M B) :
  Frame.Respects R m → (∀ a, RejectsWithin R (f a)) →
  RejectsWithin R (let* a := m in f a).
Proof.
  intros Hm Hf w e. rewrite bind_run. specialize (Hm w).
  destruct (m w) as [[a|e'] w1]; cbn [fst snd] in *; [|done].
  intros He. etrans; [exact Hm|]. by eapply Hf.
Qed.

Lemma rejects_throw {A} (R : relation World) `{!PreOrder R} e :
  RejectsWithin R (@throw A e).
Proof. intros w e' _. reflexivity. Qed.

Lemma rejects_never {A} (R : relation World) (m : M A) :
  (∀ w, ∃ a, (m w).1 = Ok a) → RejectsWithin R m.
Proof. intros Hm w e He. destruct (Hm w) as [a Ha]. congruence. Qed.

Lemma waitAll_resolves promises w :
  ∃ a, (waitAll promises noop w).1 = Ok a.
Proof.
  unfold waitAll. rewrite bind_run, promiseAll_caught. by exists tt.
Qed.

Context (vmUuid : string) (job : BackupJob) (schedule : Schedule).
Context (taskId : string).

Lemma backupVmBody_rejects :
  RejectsWithin beforeTargets
    (Worker.backupVmBody env vmUuid job schedule taskId).
Proof.
  pose proof beforeTargets_event as Hevent.
  pose proof beforeTargets_objects as Hobjects.
  assert (∀ op ok, ¬ Frame.writes op → notOfExport (EvOp op ok)) as Hreads.
  { intros op ok _. apply beforeTargets_ops. }
  assert (∀ {A} op (run : World → Result A * World),
            (∀ w, (run w).2 = w) →
            Frame.Respects beforeTargets (perform env op run)) as Hquery.
  { intros A op run Hrun.
    apply (respects_perform beforeTargets notOfExport);
      [done|intros; apply beforeTargets_ops|].
    intros w. rewrite Hrun. reflexivity. }
  unfold Worker.backupVmBody.
  apply rejects_bind; [apply _|apply respects_getObject; apply _|].
  intros vm.
  apply rejects_bind; [apply _| |].
  { destruct (bool_decide _); [|apply respects_ret; apply _].
    by apply (respects_updateOtherConfig beforeTargets notOfExport). }
  intros _. cbv zeta.
  destruct (_ && _); [apply rejects_throw; apply _|].
  apply rejects_bind; [apply _|apply respects_getObjects; apply _|].
  intros objs.
  apply rejects_bind; [apply _|by apply Hquery|]. intros _.
  apply rejects_bind; [apply _| |].
  { apply (respects_wrapTask beforeTargets notOfExport); [done| |].
    - intros id log Hmessage. unfold notOfExport, ofExport.
      by rewrite Hmessage.
    - by apply (respects_snapshotVm beforeTargets notOfExport). }
  intros snapshot0.
  apply rejects_bind;
    [apply _|by apply (respects_updateOtherConfig beforeTargets notOfExport)|].
  intros _.
  apply rejects_bind; [apply _|by apply beforeTargets_defer|]. intros _.
  apply rejects_bind;
    [apply _|by apply (respects_barrier beforeTargets notOfExport)|].
  intros snapshot.
  destruct (_ =? 0); [apply rejects_never; by exists tt|].
  destruct (_ =? _)%nat; [apply rejects_throw; apply _|].
  apply rejects_bind; [apply _|apply respects_dateNow; apply _|].
  intros now.
  destruct (String.eqb (job_mode job) "full").
  { apply rejects_bind; [apply _| |].
    { destruct (_ =? 0); [by apply beforeTargets_defer|].
      apply respects_ret; apply _. }
    intros _.
    apply rejects_bind; [apply _|by apply Hquery|]. intros xva.
    apply rejects_never, waitAll_resolves. }
  destruct (String.eqb (job_mode job) "delta");
    [|apply rejects_throw; apply _].
  apply rejects_bind; [apply _| |].
  { destruct (_ =? 0); [by apply beforeTargets_defer|].
    apply respects_ret; apply _. }
  intros _.
  apply rejects_bind; [apply _|by apply Hquery|]. intros vdis.
  apply rejects_never, waitAll_resolves.
Qed.

(** X21. [_backupVm] can only reject before its targets start.  When it
    rejects, no entry of an [export] task is in the log and the remotes are
    exactly what they were: once the export to the targets has begun, a
    failing target makes no difference to the outcome of the call, which
    resolves. *)
Theorem backupVm_rejects_before_targets w e :
  let run := Worker.backupVm env vmUuid job schedule taskId w in
  run.1 = Err e →
  remotes run.2 = remotes w
  ∧ ∃ evs,
      journal run.2 = journal w ++ evs ∧ Forall notOfExport evs.
Proof.
  cbv zeta. unfold Worker.backupVm, Defer.withDefer.
  pose proof (backupVmBody_rejects (setDeferred (λ _, []) w)) as Hbody.
  destruct (Worker.backupVmBody env vmUuid job schedule taskId
              (setDeferred (λ _, []) w)) as [[[]|e'] w1]; [done|].
  cbn [fst snd isOk negb] in *. intros _.
  destruct (Hbody e' eq_refl) as (Hremotes & Hjournal & Hdeferred).
  destruct (beforeTargets_runAll true (deferred w1) w1)
    as (Hremotes' & Hjournal' & _); [by apply Hdeferred; constructor|].
  split.
  - cbn [remotes setDeferred]. by rewrite Hremotes', Hremotes.
  - cbn [journal setDeferred].
    destruct Hjournal as (evs1 & Hj1 & Hq1).
    destruct Hjournal' as (evs2 & Hj2 & Hq2).
    exists (evs1 ++ evs2). split; [|by apply Forall_app].
    rewrite Hj2, Hj1. by rewrite app_assoc.
Qed.
End BeforeTargets.

(** Witness for X21: the hypervisor refuses the snapshot. *)
Lemma backupVm_rejects_before_targets_witness :
  let run :=
    Worker.backupVm (Scenario.env Scenario.snapshotOfDbFails) "vm-2"
      (Scenario.job "full" 2 1) Scenario.nightly "t0" Scenario.pool in
  World.remotes run.2 = World.remotes Scenario.pool.
Proof.
  intros run.
  assert (run.1 = Async.Err (Async.mkError None "SR_FULL")) as Hrun.
  { vm_compute. reflexivity. }
  exact (proj1 (backupVm_rejects_before_targets
                  (Scenario.env Scenario.snapshotOfDbFails) "vm-2"
                  (Scenario.job "full" 2 1) Scenario.nightly "t0"
                  Scenario.pool (Async.mkError None "SR_FULL") Hrun)).
Defined.

Section OtherRemotes.
Import Async Remote Xapi World Jobs Footprint.
Context (env : Env) (r : string).

Abbreviation R := (sparesRemote r).
Abbreviation any := (λ _ : Event, True).

#[export] Instance sparesRemote_preorder : PreOrder (sparesRemote r).
Proof.
  split; [by intros w|]. intros w1 w2 w3 [H1 D1] [H2 D2].
  split; [congruence|auto].
Qed.

Lemma spares_remote_event w ev :
  True → R w (setJournal (λ j, j ++ [ev]) w).
Proof. done. Qed.

Lemma spares_remote_objects w f : R w (setObjects f w).
Proof. done. Qed.

Lemma spares_remote_reads op ok : ¬ Frame.writes op → any (EvOp op ok).
Proof. done. Qed.

Lemma spares_remote_files remoteId g w :
  remoteId ≠ r → R w (setFiles remoteId g w).
Proof. intros Hne. split; [by apply files_setFiles_ne|done]. Qed.

Lemma spares_remote_perform {A} op (run : World → Result A * World) :
  (∀ w, R w (run w).2) → Frame.Respects R (perform env op run).
Proof.
  intros Hrun.
  by apply (respects_perform R any env spares_remote_event).
Qed.

Ltac on_remote :=
  apply spares_remote_perform; intros ?; cbn beta;
  repeat match goal with
         | |- context [match ?x with _ => _ end] => destruct x
         end;
  cbn [fst snd];
  first [ reflexivity | by apply spares_remote_files ].

Section Target.
Context (remoteId : string) (Hne : remoteId ≠ r).

Lemma spares_remote_unlink path checksum :
  Frame.Respects R (Handler.unlink env remoteId path checksum).
Proof. unfold Handler.unlink. on_remote. Qed.

Lemma spares_remote_rename oldPath newPath checksum :
  Frame.Respects R (Handler.rename env remoteId oldPath newPath checksum).
Proof. unfold Handler.rename. on_remote. Qed.

Lemma spares_remote_outputFile path data :
  Frame.Respects R (Handler.outputFile env remoteId path data).
Proof. unfold Handler.outputFile. on_remote. Qed.

Lemma spares_remote_list dir :
  Frame.Respects R (Handler.list env remoteId dir).
Proof. unfold Handler.list. on_remote. Qed.

Lemma spares_remote_chainVhd parentPath childPath :
  Frame.Respects R (VhdLib.chainVhd env remoteId parentPath childPath).
Proof. unfold VhdLib.chainVhd. on_remote. Qed.

Lemma spares_remote_writeStream input path checksum :
  Frame.Respects R (Writer.writeStream env input remoteId path checksum).
Proof.
  unfold Writer.writeStream, Handler.createOutputStream, Handler.finish,
    Handler.checksumWritten, await.
  apply (respects_bind R); [on_remote|]. intros _.
  apply (respects_bind R); [on_remote|]. intros _.
  apply (respects_tryCatch R).
  - apply (respects_bind R); [on_remote|]. intros _.
    apply (respects_bind R).
    { destruct checksum; [on_remote|apply respects_ret; apply _]. }
    intros _. apply (respects_bind R); [on_remote|]. intros _.
    apply spares_remote_rename.
  - intros e. apply (respects_bind R); [apply spares_remote_unlink|].
    intros _. apply respects_throw. apply _.
Qed.

Lemma spares_remote_listVmBackups vmUuid predicate :
  Frame.Respects R (Backups.listVmBackups env remoteId vmUuid predicate).
Proof.
  apply (respects_listVmBackups R any env spares_remote_event
           spares_remote_reads).
Qed.

Lemma spares_remote_deleteFullVmBackups backups :
  Frame.Respects R (Backups.deleteFullVmBackups env remoteId backups).
Proof.
  unfold Backups.deleteFullVmBackups.
  apply (respects_bind R); [|intros; apply respects_ret; apply _].
  apply (respects_asyncMap R). intros backup.
  destruct (_filename backup); [|apply respects_throw; apply _].
  apply (respects_bind R); [|intros; apply respects_ret; apply _].
  apply (respects_promiseAll R).
  apply Forall_cons_2; [apply spares_remote_unlink|].
  apply Forall_cons_2; [|apply Forall_nil_2].
  destruct (xva backup);
    [apply spares_remote_unlink|apply respects_throw; apply _].
Qed.

Lemma spares_remote_defer when path :
  Frame.Respects R (Defer.defer (UnlinkPath when remoteId path)).
Proof. intros w. split; [done|]. cbn. intros Hds. by constructor. Qed.
End Target.

Lemma spares_remote_runAll failed ds w :
  Forall (unlinksElsewhere r) ds → R w (Defer.runAll env failed ds w).
Proof.
  intros Hds. revert w.
  induction Hds as [|d ds Hd _ IH]; intros w; [reflexivity|].
  cbn [Defer.runAll foldl]. etrans; [|apply IH].
  apply (respects_tryCatch R); [|intros; apply respects_ret; apply _].
  destruct d as [when retention candidates|when snapshot|when remoteId path];
    cbn [Defer.runDeferred]; destruct (Defer.applies when failed);
    try (apply respects_ret; apply _).
  - apply (respects_bind R); [|intros; apply respects_ret; apply _].
    apply (respects_asyncMap R). intros vm.
    apply (respects_deleteVm R any env spares_remote_event
             spares_remote_objects spares_remote_reads).
  - apply (respects_deleteVm R any env spares_remote_event
             spares_remote_objects spares_remote_reads).
  - by apply spares_remote_unlink.
Qed.

Lemma spares_remote_withDefer {A} (body : M A) :
  Frame.Respects R body → Frame.Respects R (Defer.withDefer env body).
Proof.
  intros Hbody w. unfold Defer.withDefer.
  destruct (Hbody (setDeferred (λ _, []) w)) as [Hfiles Hdeferred].
  destruct (body (setDeferred (λ _, []) w)) as [res w1]. cbn [fst snd] in *.
  destruct (spares_remote_runAll (negb (isOk res)) (deferred w1) w1)
    as [Hfiles' _]; [by apply Hdeferred; constructor|].
  split; [|done].
  change (files r (setDeferred ?f ?w0)) with (files r w0).
  by rewrite Hfiles', Hfiles.
Qed.

Section TargetTasks.
Context (remoteId : string) (Hne : remoteId ≠ r).

Lemma spares_remote_deleteVhd path :
  Frame.Respects R (Backups.deleteVhd env remoteId path).
Proof.
  unfold Backups.deleteVhd. apply spares_remote_withDefer.
  apply (respects_bind R); [by apply spares_remote_list|]. intros names.
  apply (respects_bind R).
  { apply (respects_asyncMap R). intros p.
    apply (respects_bind R); [|intros; apply respects_ret; apply _].
    apply (respects_readHeaderAndFooter R any env spares_remote_event
             spares_remote_reads). }
  intros vhds. destruct (List.find _ vhds) as [child|];
    [|by apply spares_remote_unlink].
  apply (respects_bind R); [by apply spares_remote_defer|]. intros _.
  apply (respects_bind R).
  { apply (respects_mergeVhd R any env spares_remote_event
             spares_remote_reads). }
  intros _. by apply spares_remote_rename.
Qed.

Lemma spares_remote_deleteDeltaVmBackups backups :
  Frame.Respects R (Backups.deleteDeltaVmBackups env remoteId backups).
Proof.
  unfold Backups.deleteDeltaVmBackups.
  apply (respects_bind R); [|intros; apply respects_ret; apply _].
  apply (respects_asyncMap R). intros backup.
  destruct (_filename backup); [|apply respects_throw; apply _].
  apply (respects_bind R); [|intros; apply respects_ret; apply _].
  apply (respects_promiseAll R).
  apply Forall_cons_2; [by apply spares_remote_unlink|].
  apply Forall_cons_2; [|apply Forall_nil_2].
  apply (respects_bind R); [|intros; apply respects_ret; apply _].
  apply (respects_asyncMap R). intros vhd. apply spares_remote_deleteVhd.
Qed.

Lemma spares_remote_transferVdi vmUuid vhds entry :
  Frame.Respects R (Worker.transferVdi env remoteId vmUuid vhds entry).
Proof.
  unfold Worker.transferVdi. apply spares_remote_withDefer.
  apply (respects_bind R).
  { destruct (bool_decide _); [|apply respects_ret; apply _].
    apply (respects_bind R); [by apply spares_remote_list|].
    intros names. apply respects_ret. apply _. }
  intros parentPath.
  apply (respects_bind R); [by apply spares_remote_writeStream|]. intros _.
  apply (respects_bind R); [by apply spares_remote_defer|]. intros _.
  destruct (bool_decide _);
    [by apply spares_remote_chainVhd|apply respects_ret; apply _].
Qed.

Lemma spares_remote_wrapTask {A} message parentId data
    (result : A → Logs.value) (task : M A) :
  Frame.Respects R task →
  Frame.Respects R (Tasks.wrapTask env message parentId data result task).
Proof.
  intros Htask.
  by apply (respects_wrapTask R any env spares_remote_event).
Qed.

Lemma spares_remote_fullRemoteTask job scheduleId exportRetention vmUuid vm
    fork now taskId :
  Frame.Respects R
    (Worker.fullRemoteTask env job scheduleId exportRetention vmUuid vm fork
       now taskId remoteId).
Proof.
  unfold Worker.fullRemoteTask.
  apply (respects_bind R).
  { apply (respects_getRemoteHandler R any env spares_remote_event
             spares_remote_reads). }
  intros _.
  apply (respects_bind R); [by apply spares_remote_listVmBackups|].
  intros backups. apply (respects_bind R).
  { destruct (Worker.deleteFirstOf job remoteId);
      [by apply spares_remote_deleteFullVmBackups|apply respects_ret; apply _]. }
  intros _. apply (respects_bind R).
  { apply spares_remote_wrapTask. by apply spares_remote_writeStream. }
  intros _. apply (respects_bind R); [by apply spares_remote_outputFile|].
  intros _. destruct (negb (Worker.deleteFirstOf job remoteId));
    [by apply spares_remote_deleteFullVmBackups|apply respects_ret; apply _].
Qed.

Lemma spares_remote_deltaRemoteTask job scheduleId exportRetention vmUuid vm
    vdis now taskId :
  Frame.Respects R
    (Worker.deltaRemoteTask env job scheduleId exportRetention vmUuid vm vdis
       now taskId remoteId).
Proof.
  unfold Worker.deltaRemoteTask.
  apply (respects_bind R).
  { apply (respects_getRemoteHandler R any env spares_remote_event
             spares_remote_reads). }
  intros _.
  apply (respects_bind R); [by apply spares_remote_listVmBackups|].
  intros backups.
  assert (Frame.Respects R
            (Tasks.wrapTask env "merge" taskId Logs.Undefined Worker.sizeResult
               (Backups.deleteDeltaVmBackups env remoteId
                  (Retention.getOldEntries exportRetention (Some backups)))))
    as Hdelete.
  { apply spares_remote_wrapTask, spares_remote_deleteDeltaVmBackups. }
  apply (respects_bind R).
  { destruct (_ && _); [done|apply respects_ret; apply _]. }
  intros _. apply (respects_bind R).
  { destruct (negb _); [|apply respects_ret; apply _].
    apply spares_remote_wrapTask.
    apply (respects_bind R); [|intros; apply respects_ret; apply _].
    apply (respects_asyncMap R). intros entry.
    apply spares_remote_transferVdi. }
  intros _. apply (respects_bind R); [by apply spares_remote_outputFile|].
  intros _. destruct (negb _); [done|apply respects_ret; apply _].
Qed.
End TargetTasks.

Lemma spares_remote_targets taskId
    (remoteTask srTask : string → string → M unit) (remotes srs : list string) :
  (∀ taskId remoteId, remoteId ∈ remotes →
     Frame.Respects R (remoteTask taskId remoteId)) →
  (∀ taskId srId, Frame.Respects R (srTask taskId srId)) →
  Frame.Respects R
    (waitAll (Worker.targetTasks env taskId remoteTask srTask remotes srs)
       noop).
Proof.
  intros Hremote Hsr.
  apply (respects_waitAll R); [|intros; apply respects_ret; apply _].
  unfold Worker.targetTasks. apply Forall_app. split.
  - apply Forall_fmap, Forall_forall. intros remoteId Hin. cbn [compose].
    apply (respects_wrapTaskFn R any env spares_remote_event); [done|].
    intros taskId'. by apply Hremote.
  - apply Forall_fmap, Forall_forall. intros srId _. cbn [compose].
    apply (respects_wrapTaskFn R any env spares_remote_event); [done|].
    intros taskId'. apply Hsr.
Qed.

Context (vmUuid : string) (job : BackupJob) (schedule : Schedule).
Context (taskId : string).

Lemma backupVm_sparesRemote :
  r ∉ unboxIds (job_remotes job) →
  Frame.Respects R (Worker.backupVm env vmUuid job schedule taskId).
Proof.
  intros Hnot.
  assert (∀ remoteId, remoteId ∈ unboxIds (job_remotes job) → remoteId ≠ r)
    as Hne by (by intros remoteId Hin ->).
  assert (∀ {A} op (run : World → Result A * World),
            (∀ w, (run w).2 = w) →
            Frame.Respects R (perform env op run)) as Hquery.
  { intros A op run Hrun. apply spares_remote_perform. intros w0.
    rewrite Hrun. reflexivity. }
  assert (∀ d, unlinksElsewhere r d → Frame.Respects R (Defer.defer d))
    as Hdefer.
  { intros d Hd w0. split; [done|]. cbn. intros Hds. by constructor. }
  unfold Worker.backupVm. apply spares_remote_withDefer.
  unfold Worker.backupVmBody.
  apply (respects_bind R); [apply respects_getObject; apply _|]. intros vm.
  apply (respects_bind R).
  { destruct (bool_decide _); [|apply respects_ret; apply _].
    apply (respects_updateOtherConfig R any env spares_remote_event
             spares_remote_objects spares_remote_reads). }
  intros _. cbv zeta.
  destruct (_ && _); [apply respects_throw; apply _|].
  apply (respects_bind R); [apply respects_getObjects; apply _|]. intros objs.
  apply (respects_bind R); [by apply Hquery|]. intros _.
  apply (respects_bind R).
  { apply spares_remote_wrapTask.
    apply (respects_snapshotVm R any env spares_remote_event
             spares_remote_objects spares_remote_reads). }
  intros snapshot0.
  apply (respects_bind R).
  { apply (respects_updateOtherConfig R any env spares_remote_event
             spares_remote_objects spares_remote_reads). }
  intros _.
  apply (respects_bind R); [by apply Hdefer|]. intros _.
  apply (respects_bind R).
  { apply (respects_barrier R any env spares_remote_event
             spares_remote_reads). }
  intros snapshot.
  destruct (_ =? 0); [apply respects_ret; apply _|].
  destruct (_ =? _)%nat; [apply respects_throw; apply _|].
  apply (respects_bind R); [apply respects_dateNow; apply _|]. intros now.
  destruct (String.eqb (job_mode job) "full").
  { apply (respects_bind R).
    { destruct (_ =? 0); [by apply Hdefer|apply respects_ret; apply _]. }
    intros _.
    apply (respects_bind R); [by apply Hquery|]. intros xva.
    apply spares_remote_targets.
    - intros taskId' remoteId Hin.
      by apply spares_remote_fullRemoteTask, Hne.
    - intros taskId' srId.
      by apply (respects_fullSrTask R any env spares_remote_event
                  spares_remote_objects spares_remote_reads). }
  destruct (String.eqb (job_mode job) "delta");
    [|apply respects_throw; apply _].
  apply (respects_bind R).
  { destruct (_ =? 0); [by apply Hdefer|apply respects_ret; apply _]. }
  intros _.
  apply (respects_bind R); [by apply Hquery|]. intros vdis.
  apply spares_remote_targets.
  - intros taskId' remoteId Hin.
    by apply spares_remote_deltaRemoteTask, Hne.
  - intros taskId' srId.
    by apply (respects_deltaSrTask R any env spares_remote_event
                spares_remote_objects spares_remote_reads).
Qed.

(** X22. A backup writes to the remotes of its job and to no other: the
    files of a remote that the job does not name are exactly what they
    were when [_backupVm] settles, whether it resolves or rejects and
    whatever fails on the way. *)
Theorem backupVm_spares_other_remotes w :
  r ∉ unboxIds (job_remotes job) →
  files r (Worker.backupVm env vmUuid job schedule taskId w).2 = files r w.
Proof. intros Hnot. by apply backupVm_sparesRemote. Qed.
End OtherRemotes.

(** Witness for X22: a full backup to [r1] leaves [r2] alone. *)
Lemma backupVm_spares_other_remotes_witness :
  World.files "r2"
    (Worker.backupVm (Scenario.env WriterExamples.noFault) "vm-1"
       (Scenario.job "full" 2 1) Scenario.nightly "t0" Scenario.pool).2
  = World.files "r2" Scenario.pool.
Proof.
  refine (backupVm_spares_other_remotes (Scenario.env WriterExamples.noFault)
            "r2" "vm-1" (Scenario.job "full" 2 1) Scenario.nightly "t0"
            Scenario.pool _).
  cbn. intros [Heq|Hin]%elem_of_cons; [discriminate|].
  by apply elem_of_nil in Hin.
Defined.

Section SnapshotOnly.
Import Async Remote Xapi World Jobs Setup.
Context (env : Env) (vmUuid : string) (job : BackupJob) (schedule : Schedule).
Context (taskId : string).

(** X23. With an export retention of 0 the run is a snapshot-only run:
    whether [_backupVm] resolves or rejects, the remotes are exactly what
    they were and no [export] task is logged, even when the job names
    remotes and SRs. *)
Theorem backupVm_snapshot_only w :
  let run := Worker.backupVm env vmUuid job schedule taskId w in
  Settings.asNumber
    (Settings.getSetting (job_settings job) Settings.ExportRetention
       [schedule_id schedule]) = 0 →
  remotes run.2 = remotes w
  ∧ ∃ evs, journal run.2 = journal w ++ evs ∧ Forall notOfExport evs.
Proof.
  intros run Hzero.
  pose proof beforeTargets_event as Hevent.
  pose proof beforeTargets_objects as Hobjects.
  assert (∀ op ok, ¬ Frame.writes op → notOfExport (EvOp op ok)) as Hreads.
  { intros op ok _. apply beforeTargets_ops. }
  assert (Frame.Respects beforeTargets
            (Worker.backupVmBody env vmUuid job schedule taskId)) as Hbody.
  { unfold Worker.backupVmBody.
    apply (respects_bind beforeTargets); [apply respects_getObject; apply _|].
    intros vm. apply (respects_bind beforeTargets).
    { destruct (bool_decide _); [|apply respects_ret; apply _].
      by apply (respects_updateOtherConfig beforeTargets notOfExport). }
    intros _. cbv zeta. rewrite Hzero.
    destruct (_ && _); [apply respects_throw; apply _|].
    apply (respects_bind beforeTargets); [apply respects_getObjects; apply _|].
    intros objs. apply (respects_bind beforeTargets).
    { apply (respects_await beforeTargets notOfExport); [done|].
      intros ok. apply beforeTargets_ops. }
    intros _. apply (respects_bind beforeTargets).
    { apply (respects_wrapTask beforeTargets notOfExport); [done| |].
      - intros id log Hmessage. unfold notOfExport, ofExport.
        by rewrite Hmessage.
      - by apply (respects_snapshotVm beforeTargets notOfExport). }
    intros snapshot0. apply (respects_bind beforeTargets).
    { by apply (respects_updateOtherConfig beforeTargets notOfExport). }
    intros _.
    apply (respects_bind beforeTargets); [by apply beforeTargets_defer|].
    intros _. apply (respects_bind beforeTargets).
    { by apply (respects_barrier beforeTargets notOfExport). }
    intros snapshot. cbn [Z.eqb]. apply respects_ret. apply _. }
  subst run. unfold Worker.backupVm, Defer.withDefer.
  specialize (Hbody (setDeferred (λ _, []) w)).
  destruct (Worker.backupVmBody env vmUuid job schedule taskId
              (setDeferred (λ _, []) w)) as [res w1]. cbn [fst snd] in *.
  destruct Hbody as (Hremotes & Hjournal & Hdeferred).
  destruct (beforeTargets_runAll env (negb (isOk res)) (deferred w1) w1)
    as (Hremotes' & Hjournal' & _); [by apply Hdeferred; constructor|].
  split.
  - cbn [remotes setDeferred]. by rewrite Hremotes', Hremotes.
  - cbn [journal setDeferred].
    destruct Hjournal as (evs1 & Hj1 & Hq1).
    destruct Hjournal' as (evs2 & Hj2 & Hq2).
    exists (evs1 ++ evs2). split; [|by apply Forall_app].
    rewrite Hj2, Hj1. by rewrite app_assoc.
Qed.
End SnapshotOnly.

(** Witness for X23: a job that names a remote, run with an export
    retention of 0. *)
Lemma backupVm_snapshot_only_witness :
  World.remotes
    (Worker.backupVm (Scenario.env WriterExamples.noFault) "vm-1"
       (Scenario.job "full" 0 2) Scenario.nightly "t0" Scenario.pool).2
  = World.remotes Scenario.pool.
Proof.
  exact (proj1 (backupVm_snapshot_only (Scenario.env WriterExamples.noFault)
                  "vm-1" (Scenario.job "full" 0 2) Scenario.nightly "t0"
                  Scenario.pool eq_refl)).
Defined.

Section DeltaDeletion.
Import Async Remote World Inventory.
Context (env : Env) (remoteId vmUuid : string) (predicate : Metadata → bool).

(** X24. When [_deleteDeltaVmBackups] resolves, the sidecars that the
    remote holds for a VM are the ones it held, less those of the given
    backups: the merges and renames of VHDs that the deletion involves
    leave every other sidecar as it was.  (The VHDs of a backup are not
    named like metadata files.) *)
Theorem deleteDeltaVmBackups_sidecars (backups : list Metadata) w w' :
  Backups.deleteDeltaVmBackups env remoteId backups w = (Ok tt, w') →
  Forall (λ backup,
            ∀ filename,
              _filename backup = Some filename →
              payloadsApartOf env filename backup) backups →
  ∀ path,
    sidecars remoteId vmUuid predicate w' !! path
    = if decide (Some path ∈ _filename <$> backups) then None
      else sidecars remoteId vmUuid predicate w !! path.
Proof.
  unfold Backups.deleteDeltaVmBackups, asyncMap.
  intros (values & w0 & Hrun & [= ->])%bind_Ok.
  revert w values Hrun.
  induction backups as [|backup backups IH]; intros w values Hrun Hall path.
  { injection Hrun as _ <-. rewrite decide_False; [done|].
    apply not_elem_of_nil. }
  rewrite fmap_cons in Hrun.
  apply promiseAll_Ok in Hrun as (a & rest & w2 & Hone & Hrun & _).
  apply Forall_cons in Hall as [Hapart Hall].
  destruct (_filename backup) as [filename|] eqn:Hname; [|done].
  specialize (Hapart filename eq_refl).
  apply bind_Ok in Hone as (? & w3 & Hone & Hret).
  apply promiseAll_Ok in Hone as ([] & ? & wa & Hsidecar & Hone & _).
  apply promiseAll_Ok in Hone as ([] & ? & wb & Hpayload & Hnil & _).
  unfold ret in Hret. cbn [promiseAll] in Hnil. simplify_eq.
  unfold payloadsApartOf, payloadsOf in Hapart.
  apply Forall_app in Hapart as [_ Hvhds].
  apply (sidecars_unlink env remoteId vmUuid predicate) in Hsidecar.
  pose proof (deleteVhds_keepsSidecars env remoteId vmUuid predicate filename
                _ Hvhds wa) as Hkept.
  unfold asyncMap in Hkept. rewrite Hpayload in Hkept.
  unfold keepsSidecars in Hkept. cbn [snd] in Hkept.
  rewrite Hsidecar in Hkept.
  rewrite (IH _ _ Hrun Hall path), Hkept, fmap_cons, Hname.
  destruct (decide (Some path ∈ _filename <$> backups)) as [Hin|Hnotin];
    destruct (decide (Some path ∈ Some filename :: (_filename <$> backups)))
      as [Hin'|Hnotin'].
  - done.
  - destruct Hnotin'. by right.
  - apply elem_of_cons in Hin' as [[= ->]|?]; [|done].
    apply lookup_delete_eq.
  - apply lookup_delete_ne. intros <-. apply Hnotin'. by left.
Qed.
End DeltaDeletion.

(** Witness for X24: the only delta backup of the remote is deleted. *)
Lemma deleteDeltaVmBackups_sidecars_witness :
  let env := Scenario.env WriterExamples.noFault in
  let run :=
    Backups.deleteDeltaVmBackups env "r1" [Deletion.firstDelta]
      Deletion.afterOneDeltaRun in
  Inventory.sidecars "r1" "vm-1" (λ _, true) run.2
  !! "xo-vm-backups/vm-1/20240101T000016Z.json" = None.
Proof.
  intros env run.
  assert (run = (Async.Ok tt, run.2)) as Hrun.
  { vm_compute. reflexivity. }
  refine (deleteDeltaVmBackups_sidecars env "r1" "vm-1" (λ _, true)
            [Deletion.firstDelta] Deletion.afterOneDeltaRun run.2 Hrun _
            "xo-vm-backups/vm-1/20240101T000016Z.json").
  apply Forall_cons_2; [|apply Forall_nil_2].
  intros filename [= <-]. vm_compute. repeat constructor.
Defined.

Section LogInvariants.
Import Logs.

(** A step of the loop creates a record only for a start event, under the
    id of the event, and changes the prototype of [logs] only for a start
    event whose id is ['__proto__']. *)
Lemma consolidateLog_opened runId logs id log logs' :
  consolidateLog runId logs (id, log) = Normal logs' →
  consistent logs →
  (∀ k, k ∈ Dict.keys (own logs') →
        k ∈ Dict.keys (own logs)
        ∨ (k = id
           ∧ (prop (data log) "event" = Str "job.start"
              ∨ prop (data log) "event" = Str "task.start")))
  ∧ (is_Some (proto logs') →
     is_Some (proto logs)
     ∨ (id = "__proto__"
        ∧ (prop (data log) "event" = Str "job.start"
           ∨ prop (data log) "event" = Str "task.start"))).
Proof.
  intros Hstep Hlogs. revert Hstep.
  assert (∀ record (started : prop (data log) "event" = Str "job.start"
                              ∨ prop (data log) "event" = Str "task.start"),
            (∀ k, k ∈ Dict.keys (own (assign id record logs)) →
                  k ∈ Dict.keys (own logs)
                  ∨ (k = id
                     ∧ (prop (data log) "event" = Str "job.start"
                        ∨ prop (data log) "event" = Str "task.start")))
            ∧ (is_Some (proto (assign id record logs)) →
               is_Some (proto logs)
               ∨ (id = "__proto__"
                  ∧ (prop (data log) "event" = Str "job.start"
                     ∨ prop (data log) "event" = Str "task.start"))))
    as Hassign.
  { intros record started. unfold assign.
    destruct (String.eqb_spec id "__proto__") as [->|Hne]; cbn [andb].
    - destruct (negb _ && negb _); cbn [own proto]; split; auto.
      intros k [->|Hin]%Dict_keys_set_sub; auto.
    - cbn [own proto]. split; auto.
      intros k [->|Hin]%Dict_keys_set_sub; auto. }
  assert (∀ key holder o,
            lookup logs key = Object holder o →
            ∀ o',
              (∀ k, k ∈ Dict.keys (own (update key holder o' logs)) →
                    k ∈ Dict.keys (own logs))
              ∧ (is_Some (proto (update key holder o' logs)) →
                 is_Some (proto logs))) as Hupdate.
  { intros key holder o Hfound%lookup_Object o'.
    destruct holder; cbn [update own proto]; split; auto.
    - intros k [->|Hin]%Dict_keys_set_sub; [|done].
      by eapply Dict_get_keys.
    - by rewrite fmap_is_Some. }
  destruct log as [data time message]. unfold consolidateLog.
  cbn [Logs.data Logs.time Logs.message].
  rewrite (get_own logs) by (done || decided).
  destruct (strictEq (prop data "event") (Str "job.start")) eqn:Hjob.
  { apply strictEq_Str in Hjob.
    destruct (_ && _); intros [= <-]; [|by auto]. apply Hassign. auto. }
  destruct (strictEq (prop data "event") (Str "job.end")).
  { destruct (lookup logs _) as [|v|holder job] eqn:Hfound;
      [by intros [= <-]; auto|done|].
    intros [= <-].
    split; [intros k Hk; left; eapply Hupdate; eauto|].
    intros Hsome. left. eapply Hupdate; eauto. }
  destruct (strictEq (prop data "event") (Str "task.start")) eqn:Htask.
  { apply strictEq_Str in Htask.
    destruct (lookup logs _) as [|v|holder parent]; intros [= <-];
      [by auto|..]; apply Hassign; auto. }
  destruct (strictEq (prop data "event") (Str "task.end"));
    [|by intros [= <-]; auto].
  destruct (lookup logs _) as [|v|holder task] eqn:Hfound;
    [by intros [= <-]; auto|done|].
  destruct (_ && _); intros [= <-].
  - cbn [remove own proto]. split; [|by auto].
    intros k Hin%Dict_keys_delete_sub. by left.
  - split; [intros k Hk; left; eapply Hupdate; eauto|].
    intros Hsome. left. eapply Hupdate; eauto.
Qed.

(** X25. Whatever the raw log holds, as long as the loop of
    [getBackupNgLogs] has not thrown, [logs] keeps these invariants: no two
    records share an id; every record has a numeric [start]; every record
    was opened by an entry of the raw log stored under the record's id
    whose event is [job.start] or [task.start]; the prototype of [logs] is
    [Object.prototype] unless such an entry is stored under ['__proto__'];
    and nothing has been added to [Object.prototype] but fields of end
    events.  An end event never creates a record. *)
Theorem consolidate_invariants runId (rawLogs : Dict.t RawLog) logs :
  consolidate runId rawLogs = Normal logs →
  NoDup (Dict.keys (own logs))
  ∧ (∀ id record,
       Dict.get id (own logs) = Some record →
       ∃ start, prop record "start" = Num start)
  ∧ (∀ id,
       id ∈ Dict.keys (own logs) →
       ∃ log,
         (id, log) ∈ rawLogs
         ∧ (prop (data log) "event" = Str "job.start"
            ∨ prop (data log) "event" = Str "task.start"))
  ∧ (is_Some (proto logs) →
     ∃ log,
       ("__proto__", log) ∈ rawLogs
       ∧ (prop (data log) "event" = Str "job.start"
          ∨ prop (data log) "event" = Str "task.start"))
  ∧ (∀ k, k ∈ Dict.keys (objectPrototype logs) → k ∈ endFields).
Proof.
  intros Hrun.
  destruct (consolidate_consistent _ _ _ Hrun) as (Hkeys & Hstart & Hshared).
  split_and!; [done|exact Hstart| | |exact Hshared]; clear Hkeys Hstart Hshared.
  - revert logs Hrun.
    induction rawLogs as [|[id' log] rawLogs IH] using rev_ind; intros logs.
    { intros [= <-]. by intros id ?%elem_of_nil. }
    rewrite consolidate_snoc.
    destruct (consolidate runId rawLogs) as [logs0|] eqn:Hrun0; [|done].
    intros Hstep id Hid.
    destruct (consolidateLog_opened _ _ _ _ _ Hstep) as [Hopened _];
      [by eapply consolidate_consistent|].
    destruct (Hopened id Hid) as [Hin|[-> Hevent]].
    + destruct (IH logs0 eq_refl id Hin) as (log' & Hlog & Hevent).
      exists log'. split; [|done]. apply elem_of_app. by left.
    + exists log. split; [|done]. apply elem_of_app. right. by left.
  - revert logs Hrun.
    induction rawLogs as [|[id' log] rawLogs IH] using rev_ind; intros logs.
    { intros [= <-]. by intros [? ?]. }
    rewrite consolidate_snoc.
    destruct (consolidate runId rawLogs) as [logs0|] eqn:Hrun0; [|done].
    intros Hstep Hsome.
    destruct (consolidateLog_opened _ _ _ _ _ Hstep) as [_ Hopened];
      [by eapply consolidate_consistent|].
    destruct (Hopened Hsome) as [Hin|[-> Hevent]].
    + destruct (IH logs0 eq_refl Hin) as (log' & Hlog & Hevent).
      exists log'. split; [|done]. apply elem_of_app. by left.
    + exists log. split; [|done]. apply elem_of_app. right. by left.
Qed.
End LogInvariants.

(** Witness for X25: the example run. *)
Lemma consolidate_invariants_witness :
  ∃ logs,
    Logs.consolidate None LogsExamples.started = Logs.Normal logs
    ∧ NoDup (Dict.keys (Logs.own logs)).
Proof.
  eexists. split; [vm_compute; reflexivity|].
  refine (proj1 (consolidate_invariants None LogsExamples.started _ _)).
  vm_compute. reflexivity.
Defined.

Section JobFootprint.
Import Async Remote Xapi World Jobs Footprint Executor.
Context (env : Env) (r : string).

(** One VM of a job, for a worker that is one turn from its start to its
    end: the race is won by the worker, or lost before the worker has done
    anything. *)
Lemma spares_remote_backupOne
    (backupVm : string → BackupJob → Schedule → string → M unit)
    job schedule runJobId vm :
  (∀ vmUuid taskId,
     Frame.Respects (sparesRemote r) (backupVm vmUuid job schedule taskId)) →
  Frame.Respects (sparesRemote r)
    (backupOne env
       (λ vmUuid job schedule taskId,
          Promise.atomic (backupVm vmUuid job schedule taskId))
       job schedule runJobId vm).
Proof.
  intros Hworker.
  assert (∀ message data,
            Frame.Respects (sparesRemote r) (Tasks.log env message data))
    as Hlog.
  { intros message data.
    by apply (respects_log (sparesRemote r) (λ _, True) env
                (spares_remote_event r)). }
  assert (∀ taskId (race : Raced unit),
            Frame.Respects (sparesRemote r)
              (tryCatch
                 (settled race >>
                  Tasks.log env (successMessage job vm) (successData taskId) >>
                  ret tt)
                 (λ error,
                    Tasks.log env (failureMessage job vm)
                      (failureData taskId error) >>
                    ret tt))) as Hend.
  { intros taskId race. apply (respects_tryCatch (sparesRemote r)).
    - apply (respects_bind (sparesRemote r)).
      { destruct race as [outcome|error pending]; cbn [settled];
          [by intros w|apply respects_throw; apply _]. }
      intros _. apply (respects_bind (sparesRemote r)); [apply Hlog|].
      intros _. apply respects_ret. apply _.
    - intros e. apply (respects_bind (sparesRemote r)); [apply Hlog|].
      intros _. apply respects_ret. apply _. }
  unfold backupOne. apply (respects_bind (sparesRemote r)); [apply Hlog|].
  intros taskId w. unfold awaited.
  set (worker := backupVm (uuid vm) job schedule taskId).
  pose proof (Hworker (uuid vm) taskId) as Hrun. fold worker in Hrun.
  destruct (negb _).
  - cbn [timeout Promise.atomic].
    destruct (faults env (length (journal w)) (Deadline (uuid vm)))
      as [error|].
    + unfold bind at 1. pose proof (Hend taskId (Lost error (Promise.atomic worker)) w) as H1.
      destruct (tryCatch _ _ w) as [[[]|e] w1]; cbn [snd] in *; [|done].
      cbn [leftRunning Promise.run Promise.atomic snd].
      etrans; [exact H1|]. apply Hrun.
    + unfold bind at 1.
      pose proof (Hend taskId (Won (worker w).1) (worker w).2) as H1.
      specialize (Hrun w).
      destruct (tryCatch _ _ (worker w).2) as [[[]|e] w1]; cbn [snd] in *;
        cbn [leftRunning ret snd]; by etrans.
  - unfold untimed. cbn [Promise.run Promise.atomic]. unfold bind at 1.
    pose proof (Hend taskId (Won (worker w).1) (worker w).2) as H1.
    specialize (Hrun w).
    destruct (tryCatch _ _ (worker w).2) as [[[]|e] w1]; cbn [snd] in *;
      cbn [leftRunning ret snd]; by etrans.
Qed.

(** X26. Running a job writes to the remotes that the job names and to no
    other: whatever the VMs that match, whatever their timeouts and
    whatever fails, the files of any other remote are exactly what they were
    when the executor settles. *)
Theorem executor_spares_other_remotes job (schedule : option Schedule)
    runJobId w :
  r ∉ unboxIds (job_remotes job) →
  files r (executor env (Worker.backupVm env) job schedule runJobId w).2
  = files r w.
Proof.
  intros Hnot.
  cut (Frame.Respects (sparesRemote r)
         (executor env (Worker.backupVm env) job schedule runJobId)).
  { intros Hrun. apply (Hrun w). }
  clear w. unfold executor, executorOf. destruct schedule as [schedule|];
    [|apply respects_throw; apply _].
  apply (respects_bind (sparesRemote r)); [apply respects_getObjects; apply _|].
  intros objs. destruct (bool_decide _); [apply respects_throw; apply _|].
  apply (respects_bind (sparesRemote r));
    [|intros; apply respects_ret; apply _].
  apply (respects_asyncMap (sparesRemote r)). intros vm.
  apply spares_remote_backupOne. intros vmUuid taskId.
  by apply backupVm_sparesRemote.
Qed.
End JobFootprint.

(** Witness for X26: a job on [r1], one VM of which fails, leaves [r2] alone. *)
Lemma executor_spares_other_remotes_witness :
  let env := Scenario.env Scenario.snapshotOfDbFails in
  World.files "r2"
    (Executor.executor env (Worker.backupVm env) (Scenario.job "full" 3 2)
       (Some Scenario.nightly) "run1" Scenario.pool).2
  = World.files "r2" Scenario.pool.
Proof.
  intros env.
  refine (executor_spares_other_remotes env "r2" (Scenario.job "full" 3 2)
            (Some Scenario.nightly) "run1" Scenario.pool _).
  cbn. intros [Heq|Hin]%elem_of_cons; [discriminate|].
  by apply elem_of_nil in Hin.
Defined.

(** ** Delta mode: when the old backups of a remote are deleted *)

Section SparesOldBackups.
Import Async Remote Xapi World Frame Jobs.
Context (env : Env) (remoteId : string) (paths : list string).

#[export] Instance sparesInside_preorder r ps : PreOrder (sparesInside r ps).
Proof.
  split.
  - intros w. split; [reflexivity|done].
  - intros w1 w2 w3 [H1 D1] [H2 D2]. split; [by etrans|auto].
Qed.

Lemma notDeletion_op op ok :
  match op with
  | Unlink r path _ | MergeVhd r path _ | Rename r path _ _ =>
      ¬ (r = remoteId ∧ path ∈ paths)
  | _ => True
  end →
  notDeletion remoteId paths (EvOp op ok).
Proof. unfold notDeletion. destruct op; cbn; tauto. Qed.

Lemma notDeletion_log id log :
  Logs.message log ≠ "merge" → notDeletion remoteId paths (EvLog id log).
Proof. by unfold notDeletion. Qed.

Lemma sparesInside_event w ev :
  notDeletion remoteId paths ev →
  sparesInside remoteId paths w (setJournal (λ j, j ++ [ev]) w).
Proof. intros Hev. split; [by apply extends_event|done]. Qed.

Lemma sparesInside_files w r (f : gmap string File → gmap string File) :
  sparesInside remoteId paths w (setFiles r f w).
Proof. split; [apply extends_files|done]. Qed.

Lemma sparesInside_defer when r path :
  ¬ (r = remoteId ∧ path ∈ paths) →
  Respects (sparesInside remoteId paths)
    (Defer.defer (UnlinkPath when r path)).
Proof.
  intros Hpath w. split; [apply extends_deferred|].
  intros Hds. by constructor.
Qed.

Lemma sparesInside_perform {A} op (run : World → Result A * World) :
  (∀ ok, notDeletion remoteId paths (EvOp op ok)) →
  (∀ w, sparesInside remoteId paths w (run w).2) →
  Respects (sparesInside remoteId paths) (perform env op run).
Proof.
  apply (respects_perform (sparesInside remoteId paths)
           (notDeletion remoteId paths) env sparesInside_event).
Qed.

(** The atomic writer touches its temporary file only. *)
Lemma sparesInside_writeStream input path checksum :
  (dirname env path +:+ "/." +:+ basename env path) ∉ paths →
  Respects (sparesInside remoteId paths)
    (Writer.writeStream env input remoteId path checksum).
Proof.
  intros Htmp. unfold Writer.writeStream.
  assert (∀ op (run : World → Result unit * World),
            (∀ ok, notDeletion remoteId paths (EvOp op ok)) →
            (∀ w, (run w).2 = w ∨ ∃ r f, (run w).2 = setFiles r f w) →
            Respects (sparesInside remoteId paths) (perform env op run))
    as Hperform.
  { intros op run Hop Hrun. apply sparesInside_perform; [done|].
    intros w. destruct (Hrun w) as [->|(r & f & ->)];
      [reflexivity|apply sparesInside_files]. }
  pose (R := sparesInside remoteId paths).
  apply (respects_bind R).
  { apply Hperform; [by intros; apply notDeletion_op|by left]. }
  intros _. apply (respects_bind R).
  { apply Hperform; [by intros; apply notDeletion_op|]. intros w. right.
    by eexists _, _. }
  intros _. apply (respects_tryCatch R).
  - apply (respects_bind R).
    { apply Hperform; [by intros; apply notDeletion_op|]. intros w. right.
      by eexists _, _. }
    intros _. apply (respects_bind R).
    { destruct checksum; [|apply (respects_ret R)].
      apply Hperform; [by intros; apply notDeletion_op|]. intros w. right.
      by eexists _, _. }
    intros _. apply (respects_bind R).
    { apply Hperform; [by intros; apply notDeletion_op|by left]. }
    intros _. apply Hperform.
    + intros ok. apply notDeletion_op. by intros [_ ?].
    + intros w. destruct (files remoteId w !! _); [right|by left].
      by eexists _, _.
  - intros e. apply (respects_bind R); [|intros; apply (respects_throw R)].
    apply Hperform.
    + intros ok. apply notDeletion_op. by intros [_ ?].
    + intros w. right. by eexists _, _.
Qed.

Lemma sparedUnlinks_runAll failed ds w :
  sparedUnlinks remoteId paths ds →
  extends (notDeletion remoteId paths) w (Defer.runAll env failed ds w).
Proof.
  intros Hds. revert w. induction Hds as [|d ds Hd _ IH]; intros w;
    [reflexivity|].
  cbn [Defer.runAll foldl]. etrans; [|apply IH].
  destruct d as [| |when r path]; try done.
  apply (respects_tryCatch (extends (notDeletion remoteId paths)));
    [|intros; apply (respects_ret (extends (notDeletion remoteId paths)))].
  cbn [Defer.runDeferred]. destruct (Defer.applies when failed);
    [|apply (respects_ret (extends (notDeletion remoteId paths)))].
  apply (respects_perform (extends (notDeletion remoteId paths))
           (notDeletion remoteId paths) env
           (extends_event (notDeletion remoteId paths))).
  - intros ok. by apply notDeletion_op.
  - intros w'. apply extends_files.
Qed.

Lemma spares_withDefer {A} (body : M A) :
  Respects (sparesInside remoteId paths) body →
  Respects (extends (notDeletion remoteId paths)) (Defer.withDefer env body).
Proof.
  intros Hbody w. unfold Defer.withDefer.
  destruct (Hbody (setDeferred (λ _, []) w)) as [Hext Hdeferred].
  destruct (body (setDeferred (λ _, []) w)) as [r w1]. cbn [fst snd] in *.
  etrans; [apply (extends_deferred _ w (λ _, []))|].
  etrans; [exact Hext|].
  etrans; [apply sparedUnlinks_runAll, Hdeferred; constructor|].
  apply extends_deferred.
Qed.

(** The transfer of a disk touches the new VHD and its temporary file
    only. *)
Lemma spares_transferVdi vmUuid vhds entry :
  let path := Worker.vdiPath vmUuid vhds entry.1 in
  path ∉ paths →
  (dirname env path +:+ "/." +:+ basename env path) ∉ paths →
  Respects (extends (notDeletion remoteId paths))
    (Worker.transferVdi env remoteId vmUuid vhds entry).
Proof.
  intros path Hpath Htmp. unfold Worker.transferVdi. apply spares_withDefer.
  pose (R := sparesInside remoteId paths).
  apply (respects_bind R).
  { destruct (bool_decide _); [|apply (respects_ret R)].
    apply (respects_bind R); [|intros; apply (respects_ret R)].
    apply sparesInside_perform; [by intros; apply notDeletion_op|].
    reflexivity. }
  intros parentPath.
  apply (respects_bind R); [by apply sparesInside_writeStream|]. intros _.
  apply (respects_bind R); [apply sparesInside_defer; by intros [_ ?]|].
  intros _. destruct (bool_decide _); [|apply (respects_ret R)].
  apply sparesInside_perform; [by intros; apply notDeletion_op|].
  intros w.
  repeat match goal with
         | |- context [match ?x with _ => _ end] => destruct x
         end;
    cbn [snd]; first [reflexivity|apply sparesInside_files].
Qed.

Lemma spares_transfer job now taskId vmUuid (vdis : Dict.t Vdi) :
  (∀ id vdi,
     (id, vdi) ∈ vdis →
     (let path :=
        Worker.vdiPath vmUuid (Worker.deltaVhds env job now vdis) id in
      (path ∉ paths)
      ∧ ((dirname env path +:+ "/." +:+ basename env path) ∉ paths))) →
  Respects (extends (notDeletion remoteId paths))
    (if negb (bool_decide (vdis = []))
     then
       Tasks.wrapTask env "transfer" taskId Logs.Undefined Worker.sizeResult
         (asyncMap vdis
            (Worker.transferVdi env remoteId vmUuid
               (Worker.deltaVhds env job now vdis))
          >> ret tt)
     else ret tt).
Proof.
  intros Hapart. pose (R := extends (notDeletion remoteId paths)).
  destruct (negb _); [|apply (respects_ret R)].
  apply (respects_wrapTask R (notDeletion remoteId paths));
    [apply extends_event| |].
  { intros id log Hlog. apply notDeletion_log. by rewrite Hlog. }
  apply (respects_bind R); [|intros; apply (respects_ret R)].
  apply (respects_promiseAll R), Forall_fmap, Forall_forall.
  intros [id vdi] Hin. destruct (Hapart id vdi Hin).
  by apply spares_transferVdi.
Qed.

(** The listing only reads. *)
Lemma listing_reads vmUuid predicate :
  Respects
    (extends (λ ev, notDeletion remoteId paths ev ∧ notPayloadOrSidecar ev))
    (Handler.getRemoteHandler env remoteId >>
     Backups.listVmBackups env remoteId vmUuid predicate).
Proof.
  set (allowed := λ ev, _ ∧ _). pose (R := extends allowed).
  assert (∀ A op (run : World → Result A * World),
            match op with
            | GetRemoteHandler _ | List _ _ | ReadFile _ _ => True
            | _ => False
            end →
            (∀ w, (run w).2 = w) → Respects R (perform env op run))
    as Hperform.
  { intros A op run Hop Hrun.
    apply (respects_perform R allowed env (extends_event allowed)).
    - intros ok. destruct op; try (by destruct Hop);
        (split; [by apply notDeletion_op|by intros []]).
    - intros w. rewrite Hrun. reflexivity. }
  apply (respects_bind R); [by apply Hperform|]. intros _.
  unfold Backups.listVmBackups.
  apply (respects_bind R); [|intros; apply (respects_ret R)].
  apply (respects_tryCatch R).
  - apply (respects_bind R); [by apply Hperform|]. intros files.
    apply (respects_bind R); [|intros; apply (respects_ret R)].
    apply (respects_promiseAll R), Forall_fmap, Forall_forall.
    intros file _. unfold Backups.readBackup.
    apply (respects_tryCatch R); [|intros; apply (respects_ret R)].
    apply (respects_bind R).
    + apply Hperform; [done|]. intros w. by destruct (_ !! _).
    + intros [| |]; try apply (respects_throw R);
        destruct (match predicate with None => _ | Some p => _ end);
        apply (respects_ret R).
  - intros e. destruct (Backups.isMissingDirectory e);
      [apply (respects_ret R)|apply (respects_throw R)].
Qed.
End SparesOldBackups.

Section OldBackupsDeleted.
Import Async Remote Xapi World Frame Jobs.
Context (env : Env) (remoteId : string).

Local Abbreviation grows := (extends notPayloadOrSidecar).

Lemma since_app w w' evs : journal w' = journal w ++ evs → since w w' = evs.
Proof. intros Hj. unfold since. by rewrite Hj, drop_app_length. Qed.

Lemma since_journal allowed w w' :
  extends allowed w w' →
  journal w' = journal w ++ since w w' ∧ Forall allowed (since w w').
Proof. intros (evs & Hj & Hevs). by rewrite (since_app _ _ _ Hj). Qed.

Lemma since_trans allowed allowed' w1 w2 w3 :
  extends allowed w1 w2 → extends allowed' w2 w3 →
  since w1 w3 = since w1 w2 ++ since w2 w3.
Proof.
  intros [H12 _]%since_journal [H23 _]%since_journal.
  apply since_app. by rewrite H23, H12 at 1; rewrite <-app_assoc.
Qed.

Lemma since_refl w : since w w = [].
Proof. apply since_app. by rewrite app_nil_r. Qed.

Lemma deleted_app_l path evs evs' :
  deleted remoteId path evs → deleted remoteId path (evs ++ evs').
Proof.
  intros [H|(child & H1 & H2)]; [left|right; exists child];
    rewrite !elem_of_app; auto.
Qed.

Lemma deleted_app_r path evs evs' :
  deleted remoteId path evs' → deleted remoteId path (evs ++ evs').
Proof.
  intros [H|(child & H1 & H2)]; [left|right; exists child];
    rewrite !elem_of_app; auto.
Qed.

Lemma grows_reads op ok : ¬ writes op → notPayloadOrSidecar (EvOp op ok).
Proof. by intros Hop. Qed.

Lemma grows_deleteVhd path :
  Respects grows (Backups.deleteVhd env remoteId path).
Proof.
  apply (respects_deleteVhd grows grows notPayloadOrSidecar);
    auto using extends_event, extends_files, extends_deferred, grows_reads.
  intros A body. by apply extends_withDefer.
Qed.

Lemma grows_deleteDeltaVmBackups backups :
  Respects grows (Backups.deleteDeltaVmBackups env remoteId backups).
Proof.
  apply (respects_deleteDeltaVmBackups grows grows notPayloadOrSidecar);
    auto using extends_event, extends_files, extends_deferred, grows_reads.
  intros A body. by apply extends_withDefer.
Qed.

(** A successful [_deleteVhd] has unlinked the file, or merged it into its
    child and renamed it. *)
Lemma deleteVhd_deleted path w w' :
  Backups.deleteVhd env remoteId path w = (Ok tt, w') →
  deleted remoteId path (since w w').
Proof.
  intros (w1 & Hbody & ->)%withDefer_Ok.
  set (w0 := setDeferred (λ _, []) w) in *.
  assert (grows w1 (Defer.runAll env false (deferred w1) w1))
    as [Hrest _]%since_journal.
  { apply extends_runAll, grows_reads. }
  apply bind_Ok in Hbody as (names & wL & Hlist & Hbody).
  apply bind_Ok in Hbody as (vhds & wH & Hheaders & Hbody).
  assert (grows w0 wL) as [HL _]%since_journal.
  { replace wL with (Handler.list env remoteId (dirname env path) w0).2
      by by rewrite Hlist.
    apply (respects_list grows notPayloadOrSidecar);
      auto using extends_event, grows_reads. }
  assert (grows wL wH) as [HH _]%since_journal.
  { match type of Hheaders with ?m wL = _ =>
      replace wH with (m wL).2 by by rewrite Hheaders
    end.
    apply (respects_asyncMap grows). intros p.
    apply (respects_bind grows); [|intros; apply (respects_ret grows)].
    apply (respects_readHeaderAndFooter grows notPayloadOrSidecar);
      auto using extends_event, grows_reads. }
  cbv zeta in Hbody. destruct (find _ vhds) as [child|].
  - apply bind_Ok in Hbody as ([] & wD & [= <-] & Hbody).
    apply bind_Ok in Hbody as ([] & wM & Hmerge & Hrename).
    apply perform_Ok in Hmerge as (_ & wM' & [= <-] & ->).
    apply perform_Ok in Hrename as (_ & wR & HwR & ->).
    assert (journal wR
            = journal wH
              ++ [EvOp (MergeVhd remoteId path child.1) true]) as HR.
    { cbn [setJournal setDeferred journal files] in HwR.
      destruct (_ !! path); [|done]. by injection HwR as <-. }
    erewrite since_app; last first.
    { cbn [journal setDeferred setJournal]. rewrite Hrest.
      cbn [journal setDeferred setJournal].
      rewrite HR, HH, HL. subst w0. cbn [journal setDeferred].
      by rewrite <-!app_assoc. }
    right. exists child.1. rewrite !elem_of_app, !elem_of_cons. auto 10.
  - apply perform_Ok in Hbody as (_ & wU & [= <-] & ->).
    erewrite since_app; last first.
    { cbn [journal setDeferred setJournal]. rewrite Hrest.
      cbn [journal setDeferred setJournal setFiles setRemotes].
      rewrite HH, HL. subst w0. cbn [journal setDeferred].
      by rewrite <-!app_assoc. }
    left. rewrite !elem_of_app, !elem_of_cons. auto 10.
Qed.

(** Every promise given to [Promise.all] has run, from a world that comes
    after the start and before the end. *)
Lemma promiseAll_each {A} (promises : list (M A)) w promise :
  Forall (Respects grows) promises →
  promise ∈ promises →
  ∃ wi,
    grows w wi
    ∧ grows (promise wi).2 (promiseAll promises w).2
    ∧ (isOk (promiseAll promises w).1 → isOk (promise wi).1).
Proof.
  intros Hall. revert w.
  induction Hall as [|first promises Hfirst Hall IH]; intros w Hin;
    [by apply elem_of_nil in Hin|].
  assert (Respects grows (promiseAll promises)) as Hrest
    by by apply (respects_promiseAll grows).
  rewrite promiseAll_cons. cbn [snd fst].
  apply elem_of_cons in Hin as [->|Hin].
  - exists w. split; [reflexivity|]. split; [apply Hrest|].
    by destruct (first w).1.
  - destruct (IH (first w).2 Hin) as (wi & Hwi & Hend & Hok).
    exists wi. split; [etrans; [apply Hfirst|done]|]. split; [done|].
    intros H. apply Hok.
    by destruct (first w).1, (promiseAll promises (first w).2).1.
Qed.

(** What [_deleteDeltaVmBackups] does for one backup. *)
Lemma deleteDeltaVmBackup_journal (backup : Metadata) w :
  let deleteOne :=
    match _filename backup with
    | Some filename =>
        promiseAll
          [Handler.unlink env remoteId filename true;
           asyncMap (Dict.values (default [] (vhds backup)))
             (λ vhd, Backups.deleteVhd env remoteId
                       (resolveRelativeFromFile env filename vhd)) >> ret tt]
        >> ret tt
    | None => throw Backups.typeError
    end in
  grows w (deleteOne w).2
  ∧ (∀ filename,
       _filename backup = Some filename →
       ∃ ok, EvOp (Unlink remoteId filename true) ok ∈ since w (deleteOne w).2)
  ∧ (isOk (deleteOne w).1 →
     ∃ filename,
       _filename backup = Some filename
       ∧ EvOp (Unlink remoteId filename true) true ∈ since w (deleteOne w).2
       ∧ ∀ vhd,
           vhd ∈ Dict.values (default [] (vhds backup)) →
           deleted remoteId (resolveRelativeFromFile env filename vhd)
             (since w (deleteOne w).2)).
Proof.
  intros deleteOne. subst deleteOne.
  destruct (_filename backup) as [filename|];
    [|split; [reflexivity|]; split; [done|by intros []]].
  set (vhdsOf := Dict.values _).
  set (deleteVhds := asyncMap vhdsOf _).
  assert (Respects grows (Handler.unlink env remoteId filename true))
    as Hunlink.
  { apply (respects_unlink grows notPayloadOrSidecar);
      auto using extends_event, extends_files, grows_reads. }
  assert (Respects grows deleteVhds) as HdeleteVhds.
  { apply (respects_asyncMap grows). intros vhd. apply grows_deleteVhd. }
  rewrite bind_run, !promiseAll_cons, bind_run. cbn [promiseAll fst snd].
  set (w1 := (Handler.unlink env remoteId filename true w).2).
  assert (journal w1
          = journal w
            ++ [EvOp (Unlink remoteId filename true)
                  (isOk (Handler.unlink env remoteId filename true w).1)])
    as Hw1.
  { subst w1. unfold Handler.unlink, perform.
    by destruct (faults env (length (journal w)) _). }
  pose proof (HdeleteVhds w1) as Hw2.
  set (w2 := (deleteVhds w1).2) in *.
  assert (since w w2
          = EvOp (Unlink remoteId filename true)
              (isOk (Handler.unlink env remoteId filename true w).1)
            :: since w1 w2) as Hsince.
  { apply since_app. apply since_journal in Hw2 as [-> _].
    by rewrite Hw1, <-app_assoc. }
  split; [|split].
  - destruct (Handler.unlink env remoteId filename true w).1,
      (deleteVhds w1).1; cbn [fst snd ret]; etrans; first [apply Hunlink|done].
  - intros ? [= <-].
    exists (isOk (Handler.unlink env remoteId filename true w).1).
    destruct (Handler.unlink env remoteId filename true w).1,
      (deleteVhds w1).1; cbn [fst snd ret]; fold w2; rewrite Hsince;
      apply list_elem_of_here.
  - destruct (Handler.unlink env remoteId filename true w).1 eqn:Hr1;
      [|by intros []].
    destruct (deleteVhds w1).1 as [values|] eqn:Hr2; [|by intros []].
    intros _. cbn [fst snd ret]. fold w2. rewrite Hsince.
    exists filename. split; [done|]. split; [apply list_elem_of_here|].
    intros vhd Hvhd.
    change (EvOp ?o ?b :: ?l) with ([EvOp o b] ++ l). apply deleted_app_r.
    destruct (promiseAll_each
                ((λ vhd, Backups.deleteVhd env remoteId
                           (resolveRelativeFromFile env filename vhd))
                   <$> vhdsOf) w1
                (Backups.deleteVhd env remoteId
                   (resolveRelativeFromFile env filename vhd)))
      as (wi & Hwi & Hend & Hok).
    { apply Forall_fmap, Forall_forall. intros ? _. apply grows_deleteVhd. }
    { apply list_elem_of_fmap. by exists vhd. }
    fold (asyncMap vhdsOf
            (λ vhd, Backups.deleteVhd env remoteId
                      (resolveRelativeFromFile env filename vhd))) in Hend, Hok.
    fold deleteVhds in Hend, Hok. fold w2 in Hend.
    rewrite Hr2 in Hok. specialize (Hok I).
    rewrite (since_trans _ _ _ _ _ Hwi
               (transitivity (grows_deleteVhd _ wi) Hend)).
    apply deleted_app_r.
    rewrite (since_trans _ _ _ _ _ (grows_deleteVhd _ wi) Hend).
    apply deleted_app_l, deleteVhd_deleted.
    destruct (Backups.deleteVhd env remoteId _ wi) as [[[]|] w'];
      [done|by destruct Hok].
Qed.

(** What [_deleteDeltaVmBackups] journals: an attempt to unlink the
    metadata file of every backup and, when it succeeds, the deletion of
    every file of every backup. *)
Lemma deleteDeltaVmBackups_journal (backups : list Metadata) w :
  let run := Backups.deleteDeltaVmBackups env remoteId backups w in
  (∀ filename,
     Some filename ∈ _filename <$> backups →
     ∃ ok, EvOp (Unlink remoteId filename true) ok ∈ since w run.2)
  ∧ (isOk run.1 →
     ∀ backup,
       backup ∈ backups →
       ∃ filename,
         _filename backup = Some filename
         ∧ EvOp (Unlink remoteId filename true) true ∈ since w run.2
         ∧ ∀ vhd,
             vhd ∈ Dict.values (default [] (vhds backup)) →
             deleted remoteId (resolveRelativeFromFile env filename vhd)
               (since w run.2)).
Proof.
  intros run. subst run. unfold Backups.deleteDeltaVmBackups.
  set (deleteOne := λ backup : Metadata, match _filename backup with
                                         | Some _ => _ | None => _ end).
  assert (∀ backup, Respects grows (deleteOne backup)) as Hone.
  { intros backup w'. apply (deleteDeltaVmBackup_journal backup w'). }
  assert (∀ backup,
            backup ∈ backups →
            ∃ wi evs evs',
              since w (asyncMap backups deleteOne w).2
              = evs ++ since wi (deleteOne backup wi).2 ++ evs'
              ∧ (isOk (asyncMap backups deleteOne w).1 →
                 isOk (deleteOne backup wi).1)) as Heach.
  { intros backup Hin.
    destruct (promiseAll_each (deleteOne <$> backups) w (deleteOne backup))
      as (wi & Hwi & Hend & Hok).
    { apply Forall_fmap, Forall_forall. intros ? _. apply Hone. }
    { apply list_elem_of_fmap. by exists backup. }
    exists wi, (since w wi), (since (deleteOne backup wi).2
                                (asyncMap backups deleteOne w).2).
    unfold asyncMap. split; [|done].
    rewrite (since_trans _ _ _ _ _ Hwi (transitivity (Hone backup wi) Hend)).
    by rewrite (since_trans _ _ _ _ _ (Hone backup wi) Hend). }
  assert (∀ w', ((asyncMap backups deleteOne >> ret tt) w').2
                = (asyncMap backups deleteOne w').2) as Hsnd.
  { intros w'. rewrite bind_run.
    by destruct (asyncMap backups deleteOne w').1. }
  assert (isOk ((asyncMap backups deleteOne >> ret tt) w).1
          → isOk (asyncMap backups deleteOne w).1) as Hfst.
  { rewrite bind_run. by destruct (asyncMap backups deleteOne w).1. }
  rewrite Hsnd. split.
  - intros filename (backup & Hfile & Hin)%list_elem_of_fmap.
    destruct (Heach backup Hin) as (wi & evs & evs' & -> & _).
    destruct (deleteDeltaVmBackup_journal backup wi) as (_ & Hattempt & _).
    destruct (Hattempt filename (eq_sym Hfile)) as [ok Hok].
    exists ok. rewrite !elem_of_app. auto.
  - intros Hok%Hfst backup Hin.
    destruct (Heach backup Hin) as (wi & evs & evs' & -> & Hi).
    destruct (deleteDeltaVmBackup_journal backup wi) as (_ & _ & Hdone).
    destruct (Hdone (Hi Hok)) as (filename & Hfile & Hunlink & Hvhds).
    exists filename. split; [done|]. split; [rewrite !elem_of_app; auto|].
    intros vhd Hvhd. by apply deleted_app_r, deleted_app_l, Hvhds.
Qed.

(** A wrapped task journals the entry of its start, what the task journals,
    and the entry of its end; it settles as the task. *)
Lemma wrapTask_since {A} message parentId data (result : A → Logs.value)
    (task : M A) w :
  Respects grows task →
  let run := Tasks.wrapTask env message parentId data result task w in
  ∃ id log w1 ended,
    Logs.message log = message
    ∧ since w run.2 = EvLog id log :: since w1 (task w1).2 ++ [ended]
    ∧ run.1 = (task w1).1.
Proof.
  intros Htask run. subst run.
  unfold Tasks.wrapTask, Tasks.taskStart, Tasks.taskEnd, Tasks.log, bind,
    tryCatch, ret, throw.
  match goal with |- context [task ?w0] => remember w0 as w1 eqn:Hw1 end.
  destruct (since_journal _ _ _ (Htask w1)) as [Hj _].
  exists (pretty (length (journal w))),
    (Logs.mkRawLog
       [("event", Logs.Str "task.start"); ("parentId", Logs.Str parentId);
        ("data", data)] (now env (length (journal w))) message), w1.
  destruct (task w1) as [[v|e] w2]; cbn [fst snd] in *; eexists;
    (split; [reflexivity|]); (split; [|reflexivity]);
    apply since_app; cbn [journal setJournal]; rewrite Hj;
    subst w1; cbn [journal setJournal]; by rewrite <-!app_assoc.
Qed.

(** The task [merge] of a delta target. *)
Lemma deleteOldBackups_journal taskId (old : list Metadata) w :
  let run :=
    Tasks.wrapTask env "merge" taskId Logs.Undefined Worker.sizeResult
      (Backups.deleteDeltaVmBackups env remoteId old) w in
  grows w run.2
  ∧ since w run.2 ≠ []
  ∧ (∀ filename,
       Some filename ∈ _filename <$> old →
       ∃ ok, EvOp (Unlink remoteId filename true) ok ∈ since w run.2)
  ∧ (isOk run.1 →
     ∀ backup,
       backup ∈ old →
       ∃ filename,
         _filename backup = Some filename
         ∧ EvOp (Unlink remoteId filename true) true ∈ since w run.2
         ∧ ∀ vhd,
             vhd ∈ Dict.values (default [] (vhds backup)) →
             deleted remoteId (resolveRelativeFromFile env filename vhd)
               (since w run.2)).
Proof.
  intros run.
  destruct (wrapTask_since "merge" taskId Logs.Undefined Worker.sizeResult
              (Backups.deleteDeltaVmBackups env remoteId old) w
              (grows_deleteDeltaVmBackups old))
    as (id & log & w1 & ended & Hlog & Hsince & Hresult).
  fold run in Hsince, Hresult. rewrite Hsince, Hresult.
  destruct (deleteDeltaVmBackups_journal old w1) as [Hattempt Hdone].
  split; [|split; [done|split]].
  - apply (respects_wrapTask grows notPayloadOrSidecar);
      [apply extends_event| |apply grows_deleteDeltaVmBackups].
    intros ? ? Hmessage. unfold notPayloadOrSidecar, isPayloadOrSidecar.
    by rewrite Hmessage.
  - intros filename [ok Hok]%Hattempt. exists ok.
    rewrite elem_of_cons, elem_of_app. auto.
  - intros Hok backup Hin.
    destruct (Hdone Hok backup Hin) as (filename & Hfile & Hunlink & Hvhds).
    exists filename. split; [done|].
    split; [rewrite elem_of_cons, elem_of_app; auto|].
    intros vhd Hvhd. change (?ev :: ?l ++ ?l') with ([ev] ++ l ++ l').
    by apply deleted_app_r, deleted_app_l, Hvhds.
Qed.
End OldBackupsDeleted.


Section DeltaOrderOfTasks.
Import Async Remote Xapi World Frame Jobs.

Lemma bind_assoc {A B C} (m : M A) (f : A → M B) (g : B → M C) w :
  bind m (λ a, bind (f a) g) w = bind (bind m f) g w.
Proof. unfold bind. by destruct (m w) as [[a|e] w1]. Qed.

(** C7.  On a remote of a delta backup the old backups are the ones that
    the retention selects among the listed ones, and their files are their
    metadata files and the VHDs these refer to.  As long as the VHDs that
    the transfer writes, and their temporary files, are none of those
    files, the journal of the call is made of three parts.  In the middle
    one, the deletion, no file is created and no entry of the task
    [transfer] is written.  In the parts before and after it, no file of
    the old backups is unlinked, merged or renamed, and no entry of the
    task [merge] is written.  The deletion is first exactly when the merged
    [deleteFirst] of the remote is [true] and [exportRetention > 1]: then
    the part before it only lists, and the deletion takes place as soon as
    the listing succeeds.  Otherwise nothing follows the deletion, and it
    takes place only once the metadata file of the new backup has been
    written.  Where it takes place, the deletion attempts to unlink the
    metadata file of every old backup; a call that succeeds has unlinked
    all of them, and has unlinked or merged every VHD of every old
    backup. *)
Theorem delta_old_backups_deleted_first_iff (env : Env) (job : BackupJob)
    (scheduleId : string) (exportRetention : Z) (vmUuid : string) (vm : Vm)
    (vdis : Dict.t Vdi) (now : Z) (taskId remoteId : string) (w : World) :
  let deleteFirst :=
    (1 <? exportRetention) && Worker.deleteFirstOf job remoteId in
  let run :=
    Worker.deltaRemoteTask env job scheduleId exportRetention vmUuid vm vdis
      now taskId remoteId w in
  let listed :=
    (Handler.getRemoteHandler env remoteId >>
     Backups.listVmBackups env remoteId (uuid vm)
       (Some (λ m, String.eqb (mode m) "delta"
                   && String.eqb (Remote.scheduleId m) scheduleId))) w in
  let old :=
    match listed.1 with
    | Ok backups => Retention.getOldEntries exportRetention (Some backups)
    | Err _ => []
    end in
  let paths := concat (deltaPaths env <$> old) in
  let sidecar :=
    EvOp (OutputFile remoteId (Worker.metadataFilename env vmUuid now)) true in
  (∀ id vdi,
     (id, vdi) ∈ vdis →
     (let path :=
        Worker.vdiPath vmUuid (Worker.deltaVhds env job now vdis) id in
      (path ∉ paths)
      ∧ ((dirname env path +:+ "/." +:+ basename env path) ∉ paths))) →
  (deleteFirst = true
   ↔ Settings.getSetting (job_settings job) Settings.DeleteFirst [remoteId]
     = Settings.VBool true
     ∧ 1 < exportRetention)
  ∧ ∃ before deletion after,
      journal run.2 = journal w ++ before ++ deletion ++ after
      ∧ Forall (notDeletion remoteId paths) before
      ∧ Forall notPayloadOrSidecar deletion
      ∧ Forall (notDeletion remoteId paths) after
      ∧ (deleteFirst = true →
         Forall notPayloadOrSidecar before
         ∧ (isOk listed.1 → deletion ≠ []))
      ∧ (deleteFirst = false →
         after = [] ∧ (deletion ≠ [] → sidecar ∈ before))
      ∧ (deletion ≠ [] →
         ∀ filename,
           Some filename ∈ _filename <$> old →
           ∃ ok, EvOp (Unlink remoteId filename true) ok ∈ deletion)
      ∧ (run.1 = Ok tt →
         deletion ≠ []
         ∧ ∀ backup,
             backup ∈ old →
             ∃ filename,
               _filename backup = Some filename
               ∧ EvOp (Unlink remoteId filename true) true ∈ deletion
               ∧ ∀ vhd,
                   vhd ∈ Dict.values (default [] (vhds backup)) →
                   deleted remoteId
                     (resolveRelativeFromFile env filename vhd) deletion).
Proof.
  intros deleteFirst run listed old paths sidecar Hapart. split.
  { subst deleteFirst. unfold Worker.deleteFirstOf.
    destruct (getSetting_deleteFirst_bool (job_settings job) [remoteId])
      as [b ->].
    cbn [Settings.truthy]. rewrite andb_true_iff, Z.ltb_lt.
    split; [intros [? ->]; by split|]. intros [[= ->] ?]. by split. }
  pose proof (listing_reads env remoteId paths (uuid vm)
                (Some (λ m, String.eqb (mode m) "delta"
                            && String.eqb (Remote.scheduleId m) scheduleId))
                w) as Hlisted.
  fold listed in Hlisted.
  apply since_journal in Hlisted as [HjL HallL].
  assert (Forall (notDeletion remoteId paths) (since w listed.2)) as HspareL.
  { eapply Forall_impl; [exact HallL|]. by intros ev []. }
  assert (Forall notPayloadOrSidecar (since w listed.2)) as HquietL.
  { eapply Forall_impl; [exact HallL|]. by intros ev []. }
  subst run. unfold Worker.deltaRemoteTask.
  rewrite bind_assoc, bind_run. fold listed. fold deleteFirst.
  assert (∀ e, listed.1 = Err e → old = []) as HoldErr.
  { intros e He. subst old. by rewrite He. }
  assert (∀ backups,
            listed.1 = Ok backups →
            old = Retention.getOldEntries exportRetention (Some backups))
    as HoldOk.
  { intros backups Hb. subst old. by rewrite Hb. }
  destruct listed.1 as [backups|e] eqn:Hlist.
  2:{ exists (since w listed.2), [], []. rewrite !app_nil_r.
      split_and!; try done; by intros _; split. }
  rewrite <-(HoldOk backups eq_refl). clear HoldOk HoldErr.
  set (deleteOldBackups :=
         Tasks.wrapTask env "merge" taskId Logs.Undefined Worker.sizeResult
           (Backups.deleteDeltaVmBackups env remoteId old)).
  set (transfer := if negb (bool_decide (vdis = [])) then _ else ret tt).
  set (metadata := Handler.outputFile env remoteId _ _).
  pose proof (spares_transfer env remoteId paths job now taskId vmUuid vdis
                Hapart) as Htransfer.
  fold transfer in Htransfer.
  assert (Respects (extends (notDeletion remoteId paths)) metadata)
    as Hmetadata.
  { apply (respects_perform (extends (notDeletion remoteId paths))
             (notDeletion remoteId paths) env
             (extends_event (notDeletion remoteId paths))).
    - intros ok. by apply notDeletion_op.
    - intros w'. apply extends_files. }
  destruct deleteFirst eqn:Hfirst; cbn [negb].
  - rewrite bind_run.
    destruct (deleteOldBackups_journal env remoteId taskId old listed.2)
      as (Hgrows & Hsome & Hattempt & Hdone).
    fold deleteOldBackups in Hgrows, Hsome, Hattempt, Hdone.
    apply since_journal in Hgrows as [HjD HallD].
    set (wD := (deleteOldBackups listed.2).2) in *.
    destruct (deleteOldBackups listed.2).1 as [[]|e] eqn:Hdeleted;
      cbn [fst snd].
    2:{ exists (since w listed.2), (since listed.2 wD), [].
        rewrite app_nil_r. split; [by rewrite HjD, HjL, <-app_assoc|].
        split_and!; try done; by intros _; split. }
    assert (Respects (extends (notDeletion remoteId paths))
              (transfer >> metadata >> ret tt)) as Hafter.
    { apply (respects_bind (extends (notDeletion remoteId paths)));
        [done|]. intros _.
      apply (respects_bind (extends (notDeletion remoteId paths)));
        [done|]. intros _.
      apply (respects_ret (extends (notDeletion remoteId paths))). }
    specialize (Hafter wD). apply since_journal in Hafter as [HjA HallA].
    exists (since w listed.2), (since listed.2 wD),
      (since wD ((transfer >> metadata >> ret tt) wD).2).
    split; [by rewrite HjA, HjD, HjL, <-!app_assoc|].
    split_and!; try done.
    intros _. split; [done|]. by apply Hdone.
  - rewrite bind_run. cbn [ret fst snd].
    rewrite (bind_assoc transfer), bind_run.
    assert (Respects (extends (notDeletion remoteId paths))
              (transfer >> metadata)) as Hbefore.
    { apply (respects_bind (extends (notDeletion remoteId paths))); done. }
    pose proof (Hbefore listed.2) as [HjB HallB]%since_journal.
    assert (isOk ((transfer >> metadata) listed.2).1 →
            sidecar ∈ since listed.2 ((transfer >> metadata) listed.2).2)
      as Hsidecar.
    { destruct ((transfer >> metadata) listed.2) as [[[]|e] wS] eqn:Hwritten;
        [|by intros []].
      intros _. cbn [snd].
      apply bind_Ok in Hwritten as ([] & wT & HT & HS).
      apply perform_Ok in HS as (_ & wS' & [= <-] & ->).
      pose proof (Htransfer listed.2) as [HjT _]%since_journal.
      rewrite HT in HjT. cbn [snd] in HjT.
      erewrite since_app; last first.
      { cbn [journal setJournal setFiles setRemotes]. rewrite HjT.
        by rewrite <-app_assoc. }
      rewrite elem_of_app, list_elem_of_singleton. by right. }
    set (wS := ((transfer >> metadata) listed.2).2) in *.
    destruct ((transfer >> metadata) listed.2).1 as [[]|e] eqn:Hwritten;
      cbn [fst snd].
    2:{ exists (since w listed.2 ++ since listed.2 wS), [], [].
        rewrite !app_nil_r. split; [by rewrite HjB, HjL, <-app_assoc|].
        split_and!; try done; by apply Forall_app_2. }
    destruct (deleteOldBackups_journal env remoteId taskId old wS)
      as (Hgrows & Hsome & Hattempt & Hdone).
    fold deleteOldBackups in Hgrows, Hsome, Hattempt, Hdone.
    apply since_journal in Hgrows as [HjD HallD].
    exists (since w listed.2 ++ since listed.2 wS),
      (since wS (deleteOldBackups wS).2), [].
    rewrite !app_nil_r. split; [by rewrite HjD, HjB, HjL, <-!app_assoc|].
    split_and!; try done.
    + by apply Forall_app_2.
    + intros _. split; [done|]. intros _. rewrite elem_of_app. right.
      by apply Hsidecar.
    + intros Hok. split; [done|]. apply Hdone. by rewrite Hok.
Qed.
End DeltaOrderOfTasks.


(** Witness for C7: a second delta backup of [vm-1] with a retention of one;
    the first backup is deleted once the new metadata file is written. *)
Lemma delta_old_backups_deleted_first_iff_witness :
  ∃ before deletion,
    World.journal
      (Worker.deltaRemoteTask (Scenario.env WriterExamples.noFault)
         (Scenario.job "delta" 1 1) "" 1 "vm-1" Scenario.web
         [("OpaqueRef:vdi-1", World.mkVdi "vdi-1" None)] 50 "t1" "r1"
         Deletion.afterOneDeltaRun).2
    = World.journal Deletion.afterOneDeltaRun ++ before ++ deletion
    ∧ World.EvOp
        (World.OutputFile "r1" "xo-vm-backups/vm-1/20240101T000050Z.json")
        true ∈ before
    ∧ World.EvOp
        (World.Unlink "r1" "xo-vm-backups/vm-1/20240101T000016Z.json" true)
        true ∈ deletion
    ∧ Frame.deleted "r1"
        "xo-vm-backups/vm-1/vdis/j1/vdi-1/20240101T000016Z.vhd" deletion.
Proof.
  destruct (delta_old_backups_deleted_first_iff
              (Scenario.env WriterExamples.noFault)
              (Scenario.job "delta" 1 1) "" 1 "vm-1" Scenario.web
              [("OpaqueRef:vdi-1", World.mkVdi "vdi-1" None)] 50 "t1" "r1"
              Deletion.afterOneDeltaRun)
    as (_ & before & deletion & after & Hj & _ & _ & _ & _ & Hlast & _
        & Hdone).
  { intros id vdi Hin. apply list_elem_of_singleton in Hin as [= -> ->].
    split; apply (bool_decide_unpack _); vm_compute; exact I. }
  destruct (Hlast eq_refl) as [-> Hsidecar].
  destruct Hdone as [Hsome Hold]; [vm_compute; reflexivity|].
  destruct (Hold Deletion.firstDelta) as (filename & Hfile & Hunlink & Hvhds).
  { vm_compute. apply list_elem_of_here. }
  injection Hfile as <-.
  exists before, deletion. rewrite app_nil_r in Hj.
  split; [exact Hj|]. split; [by apply Hsidecar|]. split; [exact Hunlink|].
  apply (Hvhds "vdis/j1/vdi-1/20240101T000016Z.vhd").
  vm_compute. apply list_elem_of_here.
Defined.
